(* ===== verification/_CoqProject ===== *)
-Q . S2P
Prelude.v
Word.v
BTree.v
Text.v
Quantity.v
Bytes.v
Cbor.v
QuantityCodec.v
Ids.v
Fees.v
OrderTypes.v
OrderQueue.v
FillPlan.v
OrderBook.v
BookInv.v
BookMatching.v
BookInvMatch.v
BookPending.v
BookRound.v
BookCancel.v
BookSnapshot.v
Tokens.v
Balance.v
WriteBack.v
BalanceTotals.v
History.v
OrderHistory.v
ApiErrors.v
Api.v
Settlement.v
SettlementSpec.v
UserRegistry.v
UserRegistryInv.v
Permissions.v
PairMap.v
Events.v
State.v
EventAudit.v
Replay.v
Accounting.v
StateInv.v
InvSettle.v
InvBook.v
InvMatch.v
InvOrder.v
InvFunds.v
Snapshot.v
Codecs.v
Storage.v
Executor.v
ExecutorSpec.v
InvExecutor.v
Ledger.v
Endpoints.v
EventSize.v
EntryPoints.v
EndpointSpec.v
InvEndpoints.v
System.v
SystemInv.v
SystemRun.v
SystemLive.v
Queries.v
Client.v
EventView.v
Dashboard.v
Metrics.v
Http.v
Views.v
Flows.v
Exit.v
Bench.v
Fixtures.v
Demo.v
NumericTheorems.v
BookTheorems.v
CustodyTheorems.v
CanisterTheorems.v
SystemTheorems.v
ViewTheorems.v
