(* ===== verification/Prelude.v ===== *)
(** * OISY TRADE: a verification development for the order-book canister

    OISY TRADE is a central limit order book that runs in one canister of the
    Internet Computer (src/canister). Users deposit ICRC tokens, place limit
    orders against their internal balances, and withdraw. This library
    translates the canister's code into executable Rocq functions and proves
    that they are correct.

    ** The program and how its parts interact

    The endpoints (lib.rs) check the caller and the arguments and turn every
    request into an event. An event is applied to the state and appended to a
    stable log (state/audit). The state (state/mod.rs) holds the order books, the
    registry of users, their balances, the order and trade histories, and a queue
    of settling events. A timer drives the executor (execute/mod.rs): it matches
    a bounded chunk of the pending orders of each book, which yields fills; the
    settlement (settlement/mod.rs) turns the fills into batches of balance
    operations and fill records, which the executor then applies one event at a
    time. Before an upgrade the heap part of the state is written to a snapshot
    and afterwards restored from it (state/snapshot, lifecycle). Deposits and
    withdrawals wait for a token ledger in the middle, and other messages run
    meanwhile. The exported functions of main.rs wrap the endpoints: they log, arm
    the timers, and serve the event log and the HTTP pages.

    ** Conventions

    A computation that can panic has type [exec A]: [Trap] is the trap that rolls
    back the message. [Result] is [result]. Methods on [&mut self] return the
    state they leave; methods that can panic halfway return nothing in that case,
    since the trap undoes their writes. Integers keep their width: [uint w] is a
    number below [2^w], plain operators wrap as they do in the release profile,
    and the checked operators return options. [Quantity] is the two 128-bit halves
    of the source, with their limb-wise arithmetic. Sources are named relative to
    src/canister/src unless they say otherwise.

    ** Files

    Numbers and identifiers
    - Word, BTree, Text, Bytes: machine integers, ordered maps, text and decimal
      numerals, big-endian bytes (what the sources use of the Rust standard
      library and of the stable maps);
    - Cbor: CBOR data items, codecs with their round-trip law and the combinators
      behind the derived encodings (structs, variants, vectors); what the minicbor
      crate does with items is the class [Minicbor], and [Rfc8949] implements it
      down to the bytes;
    - Quantity, QuantityCodec: order/mod.rs, cbor/mod.rs ([Quantity], its
      arithmetic and encodings);
    - Ids: ids/mod.rs; Fees: order/fees.rs.

    The order book
    - OrderTypes: order/mod.rs and order/fill.rs (orders, prices, fills);
    - OrderQueue: order/queue/mod.rs; FillPlan: order/plan.rs;
    - OrderBook, BookSnapshot: order/book.rs;
    - BookInv, BookMatching, BookInvMatch, BookPending,
      BookRound, BookCancel: the invariant of a book and what matching,
      rounds, cancellation and runs of these do to it.

    Custody
    - Tokens, Balance, WriteBack: order/mod.rs (tokens), balance/*.rs;
      WriteBack also shows that the buffer refines updates in place;
    - BalanceTotals: token conservation of the balance operations;
    - History, OrderHistory: history/mod.rs, order/history/mod.rs,
      order/trades/mod.rs;
    - Settlement, SettlementSpec: settlement/mod.rs and what it releases.

    The public interface
    - ApiErrors, Api: src/libs/types/src/error/mod.rs and lib.rs, with the
      conversions of order/mod.rs, order/history/mod.rs and order/trades/mod.rs.

    The canister
    - UserRegistry, UserRegistryInv: user/mod.rs;
    - Permissions: state/permissions/mod.rs, state/execution_policy/mod.rs;
    - PairMap: state/map; Events: runtime/mod.rs, state/event/mod.rs and the
      installation arguments of src/libs/types-internal/src/lib.rs;
    - State: state/mod.rs; EventAudit: state/audit/mod.rs; Replay: what
      sequences of events preserve, and that replaying them rebuilds the heap;
    - Snapshot, Storage: state/snapshot/mod.rs, lifecycle/mod.rs, storage/mod.rs and
      the state cell of state/mod.rs. Storage works on the bytes of the stable
      regions ([Disk]) through the [Storable] implementations of ids/mod.rs,
      balance/mod.rs, user/mod.rs, history/mod.rs, state/event/mod.rs;
    - Codecs: the codec of every type that derives [Encode] and [Decode], from its
      field and variant numbers; cbor/mod.rs, src/libs/types-internal/src/cbor.rs;
    - EventSize: test_fixtures/event.rs, the worst case of each kind of event and
      the size of its encoding;
    - Executor, ExecutorSpec: execute/mod.rs, the timer guard of guard/mod.rs and
      [drive_matching] of lib.rs;
    - Ledger, Endpoints, EndpointSpec, Queries: ledger/mod.rs, lib.rs, the
      read-only operations;
    - EntryPoints: the update functions of main.rs and the log priorities of
      src/libs/types-internal/src/log.rs;
    - EventView: [get_events] of main.rs, src/libs/types-internal/src/event.rs and
      the client loop of src/integration_tests/src/lib.rs;
    - Client: src/libs/client/src/lib.rs, the two runtimes it is used with, and the
      table of the methods main.rs exports;
    - Flows: src/integration_tests/src, a canister set up beside two ledgers, the
      deposit flow and the fill that charges fees, driven through the client;
    - Dashboard, Metrics, Http: dashboard/mod.rs, metrics/mod.rs, [http_request].

    The running canister
    - System: the canister as the platform drives it. A [System] is the state and
      log with the suspended calls, the armed timers and the transfers the ledgers
      have accepted, a deposit counting for the canister when it is the recipient;
      [deliver] processes one [Message];
    - Accounting, StateInv: the invariant [core] that ties books, records, balances
      and outstanding settlements together; its centre is the reserve equation;
    - InvSettle, InvBook, InvMatch, InvOrder, InvFunds, InvExecutor, InvEndpoints:
      every transition, the executor and every endpoint keep it and
      do not trap;
    - SystemInv, SystemRun: the invariant of the system, its custody equation, and
      the systems [reached] by runs of messages, which are runs of events;
    - SystemLive: the executor makes progress and no wake-up is lost;
    - Views: what the views look up is there, and a client's calls finish;
    - Exit: a user can cancel all open orders and withdraw all that is free;
    - Bench: benchmarks.rs, the workloads the canister is measured with, and that
      the checks they make hold;
    - Fixtures: test_fixtures/mod.rs, order.rs, tokens.rs and the sample events of
      event.rs: the states, runtimes and random data of the unit tests, and that the
      generators draw what they promise.

    Theorems
    - Demo: a session of a concrete canister, evaluated; the witnesses use it;
    - NumericTheorems: the 256-bit arithmetic is exact and fails exactly on
      overflow, fees are rounded up and never exceed the amount, the settlement
      price is exact, the encodings round-trip and keep the order;
    - BookTheorems: a book never traps, [match_order] refines a greedy walk in
      price-time priority, rounds classify their orders and account for every
      unit, fill-or-kill is all or nothing, cancellation returns the open
      quantity, the snapshot round-trips, the book is never crossed;
    - CustodyTheorems: settlement releases what was reserved, pays, charges and
      refunds each order exactly and conserves every token, the write-back buffer
      has the outcome of updating the map in place, the histories keep
      their index and page exactly;
    - CanisterTheorems: token conservation over runs of events, upgrades restore
      the state from the bytes in stable memory and never a stale one, no event is
      larger than its worst case, deposits and withdrawals are exact around
      the ledger calls, the executor is bounded and drains, the registry and the
      halts keep their promises, the benchmarks' checks hold and the test data is valid;
    - SystemTheorems: over every run of messages the canister processes each
      message to its end, holds at the ledgers exactly what it owes, keeps the
      records in agreement with the books, can be replayed from its log, loses no
      wake-up and lets its timers run out;
    - ViewTheorems: the event log is published in full, the queries answer (but for an
      event index beyond the address space, which panics), a call of
      the client library is the entry point it names, and is always answered; an
      account is funded from end to end through a ledger and the client, and its
      owner can always leave with all of the money.

    ** Bounds and fuel

    Loops over lists are structural. The [while] loop of [drain_settling] takes
    the length of the settling queue plus one as fuel: each iteration removes one
    event, and the last one finds the queue empty ([drain_loop_drains] shows that
    it is enough). The walk of a fill plan recurses over the makers, each of which
    is visited once. A book is shown safe for fewer than [2^64] calls, the range
    of its sequence numbers; the canister for fewer than [MAX_STEPS] = [2^62]
    messages, so that no counter reaches its width, and for ledgers that hold at
    most [MAX_SUPPLY] = [2^192] units of a token for it. The client loop over the
    event log takes the number of events as fuel: each query but the first returns
    at least one, and a loop out of fuel is a trap, which the theorem excludes. The page
    walks of the benchmarks take the number of records plus one as fuel, since a page
    that is not the last holds a record; out of fuel they trap too.

    ** Parameters

    Code outside src/ is a parameter: [PrincipalType] (principals of the candid
    crate), [BigUint] (the integers behind candid's [Nat]), [BiBTreeMap] (the bimap
    crate), the runtime's readings (caller, time, controllers, instruction
    counter), the replies of the token ledgers and, where they are followed from
    end to end, [IcrcLedger] (the ICRC-1 and ICRC-2 standards), [Minicbor] and [IcrcCbor] (the
    encoding crates), [Candid] (blobs that decode at the type they were encoded at),
    [PrincipalSlice] (principals are at most 29 bytes), [Platform] (texts of the
    platform's errors), [Display] (how big integers and principals print), [Canlog] and
    [MetricsEncoder] (the log and metrics crates), [Proptest] (random data),
    [PrincipalText] (the texts of principals) and the template engine. The
    classes state what the sources rely on, and each has an instance, which Demo
    and the theorem files use. Three definitions of Client stand for platform
    code that the client meets and follow its documentation: [serve] (the dispatch the
    cdk macros generate), [bounded_wait] (a bounded-wait call) and [update_call] (a call
    of the test platform). [message_ok] is what a run assumes of its
    environment: callers the mode admits, the supply bound, 64-bit block indices,
    listed pairs and valid policies from the controllers. A message that breaks it
    may trap; the platform then undoes it, which [reached] includes.

    ** What is not modelled

    Candid's encoding is a parameter, CBOR's is not. The advisory texts of errors,
    the text of the log lines and the HTML of the dashboard are for people. Stable
    maps are finite maps with the bytes of their entries: the memory manager and the
    B-trees are a library's. Of the test fixtures, the wrappers of encoded ledger replies
    and the mock library's expectations are left out; of the test environment, the parts that start processes,
    download files and format floating-point texts are left out, and of the
    benchmarks what canbench measures and how serde reads the market data. *)

From stdpp Require Import prelude gmap sorting.
From Stdlib Require Import ZArith Lia.

(** ** Panics

    A Rust panic ([expect], [unwrap], [assert!], [panic!]) traps on the Internet
    Computer: the message is rolled back and produces no state. [exec A] is a
    computation that either finishes with a value or traps. *)

Inductive exec (A : Type) : Type :=
| Done (a : A)
| Trap.
Arguments Done {A} a.
Arguments Trap {A}.

Definition ebind {A B} (m : exec A) (k : A → exec B) : exec B :=
  match m with Done a => k a | Trap => Trap end.
Definition obind {A B} (m : option A) (k : A → option B) : option B :=
  match m with Some a => k a | None => None end.

Declare Scope oisy_scope.
Delimit Scope oisy_scope with oisy.
Open Scope oisy_scope.

(** Sequencing of computations that may trap. *)
Notation "'let!' p := m 'in' k" := (ebind m (λ p, k))
  (at level 10, p pattern, m at level 100, k at level 200) : oisy_scope.
(** The [?] operator on an [Option]. *)
Notation "'let?' p := m 'in' k" := (obind m (λ p, k))
  (at level 10, p pattern, m at level 100, k at level 200) : oisy_scope.

(** [Option::expect] / [Option::unwrap]. *)
Definition expect {A} (o : option A) : exec A :=
  match o with Some a => Done a | None => Trap end.

(** [assert!]. *)
Definition assert (b : bool) : exec unit := if b then Done () else Trap.

(** A [for] loop whose body threads a state and may trap. *)
Fixpoint exec_fold {A B} (f : B → A → exec B) (b : B) (l : list A) : exec B :=
  match l with
  | [] => Done b
  | a :: l => let! b' := f b a in exec_fold f b' l
  end.

(** Two computations with related results, which trap together. *)
Definition exec_rel {A B} (R : A → B → Prop) (x : exec A) (y : exec B) : Prop :=
  match x, y with
  | Done a, Done b => R a b
  | Trap, Trap => True
  | _, _ => False
  end.

(** A [map] whose closure may trap, collected in order. *)
Fixpoint exec_map {A B} (f : A → exec B) (l : list A) : exec (list B) :=
  match l with
  | [] => Done []
  | a :: l => let! b := f a in let! bs := exec_map f l in Done (b :: bs)
  end.

(** ** [Result] *)

Inductive result (A E : Type) : Type :=
| Ok (a : A)
| Err (e : E).
Arguments Ok {A E} a.
Arguments Err {A E} e.

(** [Option::ok_or]. *)
Definition ok_or {A E} (o : option A) (e : E) : result A E :=
  match o with Some a => Ok a | None => Err e end.

(** [Result::map_err]. *)
Definition map_err {A E F} (f : E → F) (r : result A E) : result A F :=
  match r with Ok a => Ok a | Err e => Err (f e) end.

(** [Result::is_ok]. *)
Definition is_ok {A E} (r : result A E) : bool :=
  match r with Ok _ => true | Err _ => false end.

(** The [?] operator on a [Result] inside a computation that may also trap. *)
Definition try_bind {A B E} (r : result A E) (k : A → exec (result B E)) :
    exec (result B E) :=
  match r with Ok a => k a | Err e => Done (Err e) end.

Notation "'let?!' p := r 'in' k" := (try_bind r (λ p, k))
  (at level 10, p pattern, r at level 100, k at level 200) : oisy_scope.

(** ** Lemmas on [exec] *)

Section exec_lemmas.
Context {A B : Type}.
Implicit Types (m : exec A) (f : A → exec B).

Lemma bind_Done m f b :
  ebind m f = Done b ↔ ∃ a, m = Done a ∧ f a = Done b.
Proof. destruct m; naive_solver. Qed.

Lemma obind_Some (m : option A) (f : A → option B) b :
  obind m f = Some b ↔ ∃ a, m = Some a ∧ f a = Some b.
Proof. destruct m; naive_solver. Qed.

Lemma expect_Done (o : option A) a : expect o = Done a ↔ o = Some a.
Proof. destruct o; naive_solver. Qed.

Lemma exec_fold_app (f : B → A → exec B) b l1 l2 :
  exec_fold f b (l1 ++ l2) = let! b' := exec_fold f b l1 in exec_fold f b' l2.
Proof.
  revert b; induction l1 as [|a l1 IH]; intros b; [done|].
  simpl. destruct (f b a); simpl; [apply IH|done].
Qed.

(** Loop rule: if every iteration finishes and keeps an invariant indexed by the
    elements still to come, the loop finishes and the invariant holds at the end. *)
Lemma exec_fold_total (I : list A → B → Prop) (f : B → A → exec B) l b0 :
  I l b0 →
  (∀ a rest b, I (a :: rest) b → ∃ b', f b a = Done b' ∧ I rest b') →
  ∃ b, exec_fold f b0 l = Done b ∧ I [] b.
Proof.
  intros H0 Hstep. revert b0 H0. induction l as [|a l IH]; intros b0 H0; simpl; [eauto|].
  destruct (Hstep _ _ _ H0) as (b1 & -> & H1). simpl. eauto.
Qed.

(** Loop rule for a loop known to finish. *)
Lemma exec_fold_inv (I : list A → B → Prop) (f : B → A → exec B) l b0 b :
  I l b0 →
  (∀ a rest b1 b2, I (a :: rest) b1 → f b1 a = Done b2 → I rest b2) →
  exec_fold f b0 l = Done b → I [] b.
Proof.
  intros H0 Hstep. revert b0 H0. induction l as [|a l IH]; intros b0 H0 Hf; simpl in Hf.
  - by injection Hf as <-.
  - destruct (f b0 a) as [b1|] eqn:E; [|done]. eauto.
Qed.

Lemma exec_map_total (P : A → B → Prop) (f : A → exec B) l :
  (∀ a, a ∈ l → ∃ b, f a = Done b ∧ P a b) → ∃ bs, exec_map f l = Done bs ∧ Forall2 P l bs.
Proof.
  induction l as [|a l IH]; intros Hf; simpl; [by exists []|].
  destruct (Hf a) as (b & -> & Hb); [left|].
  destruct IH as (bs & -> & Hbs); [intros; apply Hf; by right|].
  exists (b :: bs). simpl. auto.
Qed.
End exec_lemmas.

(** Related computations compose, and so do loops over them. *)
Lemma exec_rel_bind {A A' B B'} (R : A → A' → Prop) (Q : B → B' → Prop) m m'
    (f : A → exec B) (f' : A' → exec B') :
  exec_rel R m m' → (∀ a a', R a a' → exec_rel Q (f a) (f' a')) →
  exec_rel Q (ebind m f) (ebind m' f').
Proof. destruct m, m'; naive_solver. Qed.

Lemma exec_rel_fold {A B B'} (R : B → B' → Prop) (f : B → A → exec B) (f' : B' → A → exec B') l b b' :
  R b b' → (∀ a b b', a ∈ l → R b b' → exec_rel R (f b a) (f' b' a)) →
  exec_rel R (exec_fold f b l) (exec_fold f' b' l).
Proof.
  revert b b'. induction l as [|a l IH]; intros b b' HR Hf; [done|].
  apply (exec_rel_bind R).
  - apply Hf; [by left|done].
  - intros c c' Hc. apply IH; [done|]. intros x d d' Hx. apply Hf. by right.
Qed.

Lemma assert_Done b u : assert b = Done u ↔ b = true.
Proof. destruct b, u; naive_solver. Qed.

(** ** Proof automation

    [exec_inv] takes apart every hypothesis saying that a computation finished. *)

Ltac exec_inv :=
  repeat match goal with
  | H : ebind _ _ = Done _ |- _ => apply bind_Done in H; destruct H as (?&?&H); simpl in H
  | H : obind _ _ = Some _ |- _ => apply obind_Some in H; destruct H as (?&?&H); simpl in H
  | H : expect _ = Done _ |- _ => apply expect_Done in H
  | H : assert _ = Done _ |- _ => apply assert_Done in H
  | H : Done _ = Done _ |- _ => injection H as H
  | H : Trap = Done _ |- _ => discriminate H
  | H : unit |- _ => destruct H
  end; simplify_eq.

(** Case analysis on every [match] of the goal, closing impossible branches. *)
Ltac crush_match :=
  repeat (case_match; simplify_eq/=; try done).

(** ** Lists *)

Lemma elem_of_concat {A} (x : A) (ls : list (list A)) :
  x ∈ concat ls ↔ ∃ l, x ∈ l ∧ l ∈ ls.
Proof.
  induction ls as [|l ls IH]; simpl; [set_solver|].
  rewrite elem_of_app, IH. set_solver.
Qed.

Lemma StronglySorted_app_iff {A} (R : relation A) (l1 l2 : list A) :
  StronglySorted R (l1 ++ l2) ↔
    StronglySorted R l1 ∧ StronglySorted R l2 ∧ ∀ x y, x ∈ l1 → y ∈ l2 → R x y.
Proof.
  induction l1 as [|a l1 IH]; simpl.
  - split; [|by intros (?&?&?)]. intros Hs. split_and!; [constructor|done|].
    intros x y Hx. by apply not_elem_of_nil in Hx.
  - split.
    + intros Hs. apply StronglySorted_inv in Hs as [Hs Ha]. apply IH in Hs as (?&?&?).
      rewrite Forall_app, !Forall_forall in Ha.
      split_and!; [constructor; [done|apply Forall_forall, Ha]|done|].
      intros x y. rewrite elem_of_cons. naive_solver.
    + intros (Hs & ? & Hc). apply StronglySorted_inv in Hs as [Hs Ha].
      constructor; [apply IH; split_and!; [done..|]; intros; apply Hc; [by right|done]|].
      rewrite Forall_app. split; [done|]. apply Forall_forall. intros. apply Hc; [left|done].
Qed.

Lemma StronglySorted_NoDup_fmap {A B} (R : relation A) (f : A → B) (l : list A) :
  StronglySorted R l → (∀ x y, x ∈ l → y ∈ l → R x y → f x ≠ f y) → NoDup (f <$> l).
Proof.
  induction 1 as [|x l Hl IH Hx]; intros Hf; simpl; constructor.
  - intros Hin. apply list_elem_of_fmap in Hin as (y & E & Hy).
    rewrite Forall_forall in Hx. by apply (Hf x y); [left|right|apply Hx|].
  - apply IH. intros. apply Hf; [by right..|done].
Qed.

Lemma StronglySorted_weaken {A} (R R' : relation A) (l : list A) :
  (∀ x y, R x y → R' x y) → StronglySorted R l → StronglySorted R' l.
Proof.
  intros HR. induction 1 as [|x l Hl IH Hx]; constructor; [done|].
  eapply Forall_impl; [exact Hx|]. apply HR.
Qed.

Lemma StronglySorted_fmap {A B} (R : relation B) (f : A → B) (l : list A) :
  StronglySorted R (f <$> l) ↔ StronglySorted (λ x y, R (f x) (f y)) l.
Proof.
  induction l as [|x l IH]; simpl; [split; constructor|].
  split; intros Hs; apply StronglySorted_inv in Hs as [Hs Hx];
    (constructor; [by apply IH|by apply Forall_fmap]).
Qed.

Create HintDb oisy discriminated.
Create Rewrite HintDb oisy_sums.

(** ** Sums over lists *)

Definition sum_list_Z (l : list Z) : Z := foldr Z.add 0%Z l.
Definition sum_over {A} (f : A → Z) (l : list A) : Z := sum_list_Z (f <$> l).
Arguments sum_over : simpl never.

Section sums.
Context {A : Type}.
Implicit Types (f g : A → Z) (l k : list A).

Lemma sum_over_nil f : sum_over f [] = 0%Z.
Proof. done. Qed.

Lemma sum_over_cons f a l : sum_over f (a :: l) = (f a + sum_over f l)%Z.
Proof. done. Qed.

Lemma sum_over_app f l k : sum_over f (l ++ k) = (sum_over f l + sum_over f k)%Z.
Proof.
  induction l as [|a l IH]; [done|].
  simpl. rewrite !sum_over_cons, IH. lia.
Qed.

Lemma sum_over_perm f l k : l ≡ₚ k → sum_over f l = sum_over f k.
Proof. induction 1; rewrite ?sum_over_cons; lia. Qed.

Lemma sum_over_nonneg f l : (∀ a, a ∈ l → 0 ≤ f a)%Z → (0 ≤ sum_over f l)%Z.
Proof.
  induction l as [|a l IH]; intros Hf; [done|]. rewrite sum_over_cons.
  assert (0 ≤ f a)%Z by (apply Hf; left).
  assert (0 ≤ sum_over f l)%Z by (apply IH; intros; apply Hf; by right). lia.
Qed.

Lemma sum_over_elem_le f l a :
  (∀ a, a ∈ l → 0 ≤ f a)%Z → a ∈ l → (f a ≤ sum_over f l)%Z.
Proof.
  intros Hf Ha. apply list_elem_of_split in Ha as (l1&l2&->).
  rewrite sum_over_app, sum_over_cons.
  assert (0 ≤ sum_over f l1)%Z by (apply sum_over_nonneg; set_solver).
  assert (0 ≤ sum_over f l2)%Z by (apply sum_over_nonneg; set_solver). lia.
Qed.

Lemma sum_over_ext f g l :
  (∀ a, a ∈ l → f a = g a) → sum_over f l = sum_over g l.
Proof.
  induction l as [|a l IH]; intros Hfg; [done|].
  rewrite !sum_over_cons, (Hfg a), IH; [done|set_solver|left].
Qed.

Lemma sum_over_fmap {B} (h : B → A) f (l : list B) :
  sum_over f (h <$> l) = sum_over (f ∘ h) l.
Proof. unfold sum_over. by rewrite <-list_fmap_compose. Qed.

End sums.

Lemma sum_over_concat {A} (f : A → Z) (ls : list (list A)) :
  sum_over f (concat ls) = sum_over (sum_over f) ls.
Proof.
  induction ls as [|l ls IH]; [done|].
  simpl. by rewrite sum_over_app, sum_over_cons, IH.
Qed.

#[export] Hint Rewrite @sum_over_nil @sum_over_cons @sum_over_app : oisy_sums.
