(* ===== verification/Word.v ===== *)
(** * Machine integers

    [uint w] is a [w]-bit unsigned integer: a [Z] together with the (boolean,
    hence proof-irrelevant) fact that it is in range. Rust's [u8], [u16], [u32],
    [u64] and [u128] are its instances. The arithmetic of the source is written
    on [Z], with the wrap-around of each machine operation made explicit, and
    stored back with [mk_uint], which truncates to the width. *)

From stdpp Require Import prelude gmap.
From Stdlib Require Import ZArith Lia Eqdep_dec.
From S2P Require Import Prelude.

Open Scope Z_scope.

Definition in_range (w : N) (z : Z) : bool := (0 <=? z) && (z <? 2 ^ Z.of_N w).

Record uint (w : N) : Type := Uint { uval :> Z; uint_ok : in_range w uval = true }.
Arguments Uint {w} uval uint_ok.
Arguments uval {w} u.
Arguments uint_ok {w} u.

Abbreviation u8 := (uint 8).
Abbreviation u16 := (uint 16).
Abbreviation u32 := (uint 32).
Abbreviation u64 := (uint 64).
Abbreviation u128 := (uint 128).

(** Rebuild a boolean equality proof so that it computes to [eq_refl]. *)
Definition norm_true {b : bool} : b = true → b = true :=
  match b with true => λ _, eq_refl | false => λ H, H end.

Lemma wrap_in_range w z : in_range w (z mod 2 ^ Z.of_N w) = true.
Proof.
  unfold in_range. pose proof (Z.mod_pos_bound z (2 ^ Z.of_N w)).
  assert (0 < 2 ^ Z.of_N w) by (apply Z.pow_pos_nonneg; lia).
  apply andb_true_intro; split; [apply Z.leb_le|apply Z.ltb_lt]; lia.
Qed.

(** Truncation to the width: the [as] cast between unsigned integers. *)
Definition mk_uint (w : N) (z : Z) : uint w :=
  Uint (z mod 2 ^ Z.of_N w) (norm_true (wrap_in_range w z)).

Definition uint_max (w : N) : Z := 2 ^ Z.of_N w - 1.

(** [checked_add], [checked_sub], [checked_mul]: [None] out of range. *)
Definition checked (w : N) (z : Z) : option (uint w) :=
  if in_range w z then Some (mk_uint w z) else None.
Definition u_checked_add {w} (a b : uint w) : option (uint w) := checked w (a + b).
Definition u_checked_sub {w} (a b : uint w) : option (uint w) := checked w (a - b).
Definition u_checked_mul {w} (a b : uint w) : option (uint w) := checked w (a * b).

(** [overflowing_add] and [overflowing_sub]: the wrapped value and the carry. *)
Definition u_overflowing_add {w} (a b : uint w) : uint w * bool :=
  (mk_uint w (a + b), negb (in_range w (a + b))).
Definition u_overflowing_sub {w} (a b : uint w) : uint w * bool :=
  (mk_uint w (a - b), negb (in_range w (a - b))).

(** The operators [*], [<<], [>>], [&], [|] and the [as] casts. In the release
    profile of the workspace [*] and [<<] drop the bits beyond the width. *)
Definition u_mul {w} (a b : uint w) : uint w := mk_uint w (a * b).
Definition u_shl {w} (a : uint w) (n : Z) : uint w := mk_uint w (Z.shiftl a n).
Definition u_shr {w} (a : uint w) (n : Z) : uint w := mk_uint w (Z.shiftr a n).
Definition u_and {w} (a : uint w) (m : Z) : uint w := mk_uint w (Z.land a m).
Definition u_or {w} (a b : uint w) : uint w := mk_uint w (Z.lor a b).
Definition u_div {w} (a b : uint w) : uint w := mk_uint w (a / b).
Definition u_rem {w} (a b : uint w) : uint w := mk_uint w (a mod b).
Definition u_cast {w} (w' : N) (a : uint w) : uint w' := mk_uint w' a.
Definition u_of_bool {w} (b : bool) : uint w := mk_uint w (Z.b2z b).

(** [saturating_sub]. *)
Definition u_saturating_sub {w} (a b : uint w) : uint w := mk_uint w (Z.max 0 (a - b)).

Lemma uint_eq {w} (a b : uint w) : uval a = uval b → a = b.
Proof.
  destruct a as [a Ha], b as [b Hb]; simpl; intros <-. f_equal.
  apply UIP_dec, bool_dec.
Qed.

#[export] Instance uint_eq_dec w : EqDecision (uint w) := λ a b,
  match Z.eq_dec (uval a) (uval b) with
  | left H => left (uint_eq a b H)
  | right H => right (λ E, H (f_equal uval E))
  end.

Section uint.
Context {w : N}.
Implicit Types (a b c : uint w) (z : Z).

Lemma pow_width_pos : 0 < 2 ^ Z.of_N w.
Proof. apply Z.pow_pos_nonneg; lia. Qed.

Lemma in_range_iff z : in_range w z = true ↔ 0 ≤ z < 2 ^ Z.of_N w.
Proof. unfold in_range. rewrite andb_true_iff, Z.leb_le, Z.ltb_lt. done. Qed.

Lemma uint_range a : 0 ≤ a < 2 ^ Z.of_N w.
Proof. apply in_range_iff, uint_ok. Qed.

Lemma uint_eq_iff a b : a = b ↔ uval a = uval b.
Proof. split; [congruence|apply uint_eq]. Qed.

Lemma mk_uint_val z : uval (mk_uint w z) = z mod 2 ^ Z.of_N w.
Proof. done. Qed.

Lemma mk_uint_small z : 0 ≤ z < 2 ^ Z.of_N w → uval (mk_uint w z) = z.
Proof. intros. rewrite mk_uint_val. by apply Z.mod_small. Qed.

Lemma mk_uint_uval a : mk_uint w (uval a) = a.
Proof. apply uint_eq, mk_uint_small, uint_range. Qed.

Lemma checked_Some z a : checked w z = Some a ↔ uval a = z.
Proof.
  unfold checked. destruct (in_range w z) eqn:E.
  - apply in_range_iff in E. rewrite <-(mk_uint_small z) at 2 by done.
    rewrite <-uint_eq_iff. naive_solver.
  - split; [done|]. intros <-. by rewrite uint_ok in E.
Qed.

Lemma checked_None z : checked w z = None ↔ ¬ 0 ≤ z < 2 ^ Z.of_N w.
Proof.
  rewrite <-in_range_iff. unfold checked. destruct (in_range w z); naive_solver.
Qed.

Lemma checked_in z : 0 ≤ z < 2 ^ Z.of_N w → checked w z = Some (mk_uint w z).
Proof. intros Hz. apply checked_Some, mk_uint_small, Hz. Qed.

Lemma not_in_range z : negb (in_range w z) = false ↔ 0 ≤ z < 2 ^ Z.of_N w.
Proof. by rewrite negb_false_iff, in_range_iff. Qed.
End uint.

(** The ranges at the widths the source uses. *)
Lemma u128_range (a : u128) : 0 ≤ a < 2 ^ 128.
Proof. exact (uint_range a). Qed.
Lemma u64_range (a : u64) : 0 ≤ a < 2 ^ 64.
Proof. exact (uint_range a). Qed.
Lemma u32_range (a : u32) : 0 ≤ a < 2 ^ 32.
Proof. exact (uint_range a). Qed.
Lemma u16_range (a : u16) : 0 ≤ a < 2 ^ 16.
Proof. exact (uint_range a). Qed.
Lemma u8_range (a : u8) : 0 ≤ a < 2 ^ 8.
Proof. exact (uint_range a). Qed.

#[export] Instance uint_countable w : Countable (uint w) :=
  inj_countable' uval (mk_uint w) (@mk_uint_uval w).

(** ** [NonZeroU32], [NonZeroU64], [NonZeroU128] *)

Record nonzero (w : N) : Type := NonZero {
  nzval :> uint w;
  nonzero_ok : negb (uval nzval =? 0) = true
}.
Arguments NonZero {w} nzval nonzero_ok.
Arguments nzval {w} n.

(** [NonZero::new]. *)
Definition nz_new {w} (u : uint w) : option (nonzero w) :=
  match negb (uval u =? 0) as b return negb (uval u =? 0) = b → option (nonzero w) with
  | true => λ H, Some (NonZero u (norm_true H))
  | false => λ _, None
  end eq_refl.

Lemma nonzero_eq {w} (a b : nonzero w) : nzval a = nzval b → a = b.
Proof.
  destruct a as [a Ha], b as [b Hb]; simpl; intros <-. f_equal.
  apply UIP_dec, bool_dec.
Qed.

#[export] Instance nonzero_eq_dec w : EqDecision (nonzero w) := λ a b,
  match decide (nzval a = nzval b) with
  | left H => left (nonzero_eq a b H)
  | right H => right (λ E, H (f_equal nzval E))
  end.

Lemma nonzero_pos {w} (n : nonzero w) : 0 < nzval n.
Proof.
  pose proof (uint_range (nzval n)). destruct n as [n Hn]; simpl in *.
  apply negb_true_iff, Z.eqb_neq in Hn. lia.
Qed.

Lemma nz_new_Some {w} (u : uint w) n : nz_new u = Some n ↔ nzval n = u.
Proof.
  unfold nz_new. split.
  - generalize (eq_refl (negb (uval u =? 0))).
    generalize (negb (uval u =? 0)) at 2 3 as b. intros [] H E; naive_solver.
  - intros <-. pose proof (nonzero_pos n) as Hpos.
    assert (Hn : negb (uval (nzval n) =? 0) = true) by (apply negb_true_iff, Z.eqb_neq; lia).
    generalize (eq_refl (negb (uval (nzval n) =? 0))).
    generalize (negb (uval (nzval n) =? 0)) at 2 3 as b. intros [] H; [|congruence].
    f_equal. by apply nonzero_eq.
Qed.

Lemma nz_new_None {w} (u : uint w) : nz_new u = None ↔ uval u = 0.
Proof.
  split.
  - intros H. destruct (Z.eq_dec (uval u) 0) as [|Hne]; [done|].
    assert (Hn : negb (uval u =? 0) = true) by (by apply negb_true_iff, Z.eqb_neq).
    assert (nz_new u = Some (NonZero u Hn)) by (by apply nz_new_Some). congruence.
  - intros H. destruct (nz_new u) as [n|] eqn:E; [|done].
    apply nz_new_Some in E as <-. pose proof (nonzero_pos n). lia.
Qed.

Arguments mk_uint : simpl never.
Arguments uval : simpl never.
Arguments in_range : simpl never.
Arguments Z.pow : simpl never.

(** Bring the range of every machine integer in sight into the context. *)
Ltac uint_bounds :=
  repeat match goal with
  | a : uint ?w |- _ =>
      lazymatch goal with
      | _ : 0 ≤ uval a < _ |- _ => fail
      | _ => pose proof (uint_range a)
      end
  end;
  repeat match goal with
  | |- context [uval ?a] =>
      lazymatch goal with
      | _ : 0 ≤ uval a < _ |- _ => fail
      | _ => pose proof (uint_range a)
      end
  | H : context [uval ?a] |- _ =>
      lazymatch goal with
      | _ : 0 ≤ uval a < _ |- _ => fail
      | _ => pose proof (uint_range a)
      end
  end.

Ltac uint_lia := uint_bounds; change (2 ^ Z.of_N 128) with (2 ^ 128) in *;
  change (2 ^ Z.of_N 64) with (2 ^ 64) in *; change (2 ^ Z.of_N 32) with (2 ^ 32) in *;
  change (2 ^ Z.of_N 16) with (2 ^ 16) in *; change (2 ^ Z.of_N 8) with (2 ^ 8) in *; lia.
