(* ===== verification/BTree.v ===== *)
(** * Ordered maps

    [BTreeMap], [BTreeSet] and [StableBTreeMap] are finite maps and sets that
    iterate in key order. A map is stdpp's [gmap], whose equality is extensional;
    [btree_iter] lists its entries in increasing key order, the order being the
    type's [Ord::cmp]. *)

From stdpp Require Import prelude gmap sorting.
From Stdlib Require Import ZArith Lia.
From S2P Require Import Prelude Word.

(** ** [Ord] *)

Class Ord (K : Type) : Type := ord_cmp : K → K → comparison.

Class OrdLaws (K : Type) `{Ord K} : Prop := {
  ord_eq (a b : K) : ord_cmp a b = Eq ↔ a = b;
  ord_opp (a b : K) : ord_cmp b a = CompOpp (ord_cmp a b);
  ord_lt_trans (a b c : K) : ord_cmp a b = Lt → ord_cmp b c = Lt → ord_cmp a c = Lt
}.

#[export] Instance uint_Ord w : Ord (uint w) := λ a b, Z.compare a b.
#[export] Instance uint_OrdLaws w : OrdLaws (uint w).
Proof.
  split; unfold ord_cmp, uint_Ord; intros.
  - by rewrite Z.compare_eq_iff, uint_eq_iff.
  - apply Z.compare_antisym.
  - rewrite Z.compare_lt_iff in *. lia.
Qed.

(** [std::cmp::Reverse]. *)
Record Reverse (K : Type) : Type := MkReverse { unreverse : K }.
Arguments MkReverse {K} unreverse.
Arguments unreverse {K} r.
#[export] Instance Reverse_eq_dec {K} `{EqDecision K} : EqDecision (Reverse K).
Proof. solve_decision. Defined.
#[export] Instance Reverse_countable {K} `{Countable K} : Countable (Reverse K).
Proof. apply (inj_countable' unreverse MkReverse). by intros []. Defined.
#[export] Instance Reverse_Ord {K} `{Ord K} : Ord (Reverse K) :=
  λ a b, ord_cmp (unreverse b) (unreverse a).
#[export] Instance Reverse_OrdLaws {K} `{OrdLaws K} : OrdLaws (Reverse K).
Proof.
  split; unfold ord_cmp, Reverse_Ord; intros.
  - destruct a, b; simpl. rewrite ord_eq. naive_solver.
  - apply ord_opp.
  - eauto using ord_lt_trans.
Qed.

(** Field-wise comparison, as [#[derive(PartialOrd, Ord)]] produces it. *)
Definition cmp_lex (c1 c2 : comparison) : comparison :=
  match c1 with Eq => c2 | c => c end.

#[export] Instance prod_Ord {A B} `{Ord A, Ord B} : Ord (A * B) :=
  λ p q, cmp_lex (ord_cmp p.1 q.1) (ord_cmp p.2 q.2).
#[export] Instance prod_OrdLaws {A B} `{OrdLaws A, OrdLaws B} : OrdLaws (A * B).
Proof.
  split; unfold ord_cmp, prod_Ord, cmp_lex.
  - intros [a1 b1] [a2 b2]; simpl. destruct (ord_cmp a1 a2) eqn:Ea.
    + apply ord_eq in Ea as ->. rewrite ord_eq. naive_solver.
    + split; [done|]. intros [= -> ->]. by rewrite (proj2 (ord_eq a2 a2) eq_refl) in Ea.
    + split; [done|]. intros [= -> ->]. by rewrite (proj2 (ord_eq a2 a2) eq_refl) in Ea.
  - intros [a1 b1] [a2 b2]; simpl. rewrite (ord_opp a1 a2), (ord_opp b1 b2).
    by destruct (ord_cmp a1 a2).
  - intros [a1 b1] [a2 b2] [a3 b3]; simpl.
    destruct (ord_cmp a1 a2) eqn:E1, (ord_cmp a2 a3) eqn:E2; try done;
      repeat match goal with H : ord_cmp _ _ = Eq |- _ => apply ord_eq in H as -> end;
      rewrite ?(proj2 (ord_eq _ _) eq_refl), ?E1, ?E2; try done.
    + apply ord_lt_trans.
    + by rewrite (ord_lt_trans _ _ _ E1 E2).
Qed.

(** An order read off an injective view of the type. *)
Lemma ord_laws_via {A K} `{OrdLaws K} (f : A → K) `{Ord A} :
  (∀ a b, f a = f b → a = b) → (∀ a b, ord_cmp a b = ord_cmp (f a) (f b)) → OrdLaws A.
Proof.
  intros Hinj Hcmp. split; intros; rewrite ?Hcmp in *.
  - rewrite ord_eq. naive_solver.
  - apply ord_opp.
  - eauto using ord_lt_trans.
Qed.

(** ** Iteration in key order *)

Section btree.
Context {K : Type} `{Countable K, !Ord K, !OrdLaws K}.

Definition key_lt (a b : K) : Prop := ord_cmp a b = Lt.
Definition key_le (a b : K) : Prop := ord_cmp a b ≠ Gt.

#[export] Instance key_le_dec : RelDecision key_le.
Proof. intros a b. unfold key_le. destruct (ord_cmp a b); [left|left|right]; congruence. Defined.

Lemma key_lt_irrefl a : ¬ key_lt a a.
Proof. unfold key_lt. by rewrite (proj2 (ord_eq a a) eq_refl). Qed.

#[export] Instance key_lt_trans : Transitive key_lt.
Proof. intros a b c. apply ord_lt_trans. Qed.

Lemma key_le_lt a b : key_le a b ↔ a = b ∨ key_lt a b.
Proof.
  unfold key_le, key_lt. rewrite <-ord_eq. destruct (ord_cmp a b); naive_solver.
Qed.

Lemma key_lt_not_le a b : ¬ key_le a b ↔ key_lt b a.
Proof.
  unfold key_le, key_lt. rewrite (ord_opp a b). destruct (ord_cmp a b); naive_solver.
Qed.

#[export] Instance key_le_trans : Transitive key_le.
Proof.
  intros a b c. rewrite !key_le_lt. intros [->|?] [->|?]; eauto. right. by etrans.
Qed.

#[export] Instance key_le_total : Total key_le.
Proof.
  intros a b. destruct (decide (key_le a b)) as [|Hn]; [by left|right].
  apply key_lt_not_le in Hn. apply key_le_lt. by right.
Qed.

Context {V : Type}.
Implicit Types (m : gmap K V) (l : list (K * V)).

Definition entry_le (p q : K * V) : Prop := key_le p.1 q.1.
Definition entry_lt (p q : K * V) : Prop := key_lt p.1 q.1.
#[export] Instance entry_le_dec : RelDecision entry_le := λ p q, key_le_dec p.1 q.1.
#[export] Instance entry_le_trans : Transitive entry_le.
Proof. intros p q r. unfold entry_le. apply key_le_trans. Qed.
#[export] Instance entry_le_total : Total entry_le.
Proof. intros p q. apply key_le_total. Qed.
#[export] Instance entry_lt_antisymm : AntiSymm (=) entry_lt.
Proof.
  intros p q Hpq Hqp. exfalso. apply (key_lt_irrefl p.1). by apply (key_lt_trans _ q.1).
Qed.

(** [BTreeMap::iter]: the entries in increasing key order. *)
Definition btree_iter (m : gmap K V) : list (K * V) := merge_sort entry_le (map_to_list m).

(** Strictly increasing keys. *)
Definition keys_sorted (l : list (K * V)) : Prop := StronglySorted entry_lt l.

Lemma btree_iter_perm m : btree_iter m ≡ₚ map_to_list m.
Proof. apply merge_sort_Permutation. Qed.

Lemma btree_iter_elem m k v : (k, v) ∈ btree_iter m ↔ m !! k = Some v.
Proof. rewrite btree_iter_perm. apply elem_of_map_to_list. Qed.

Lemma btree_iter_keys_NoDup m : NoDup (btree_iter m).*1.
Proof. rewrite btree_iter_perm. apply NoDup_fst_map_to_list. Qed.

Lemma sorted_strict l : StronglySorted entry_le l → NoDup l.*1 → keys_sorted l.
Proof.
  induction 1 as [|p l Hl IH Hp]; intros Hnd; [constructor|].
  inversion Hnd as [|?? Hp1 Hnd']; subst. constructor; [by apply IH|].
  rewrite Forall_forall in Hp |- *. intros q Hq. specialize (Hp q Hq).
  apply key_le_lt in Hp as [E|]; [|done].
  destruct Hp1. rewrite E. by apply list_elem_of_fmap_2.
Qed.

Lemma btree_iter_sorted m : keys_sorted (btree_iter m).
Proof.
  apply sorted_strict; [apply StronglySorted_merge_sort; apply _|apply btree_iter_keys_NoDup].
Qed.

Lemma keys_sorted_NoDup l : keys_sorted l → NoDup l.
Proof.
  induction 1 as [|p l Hl IH Hp]; constructor; [|done]. intros Hin.
  rewrite Forall_forall in Hp. by apply (key_lt_irrefl p.1), Hp.
Qed.

(** The listing is determined by its order and its entries. *)
Lemma btree_iter_unique m l :
  keys_sorted l → (∀ k v, (k, v) ∈ l ↔ m !! k = Some v) → btree_iter m = l.
Proof.
  intros Hl Hm. apply (StronglySorted_unique entry_lt); [apply btree_iter_sorted|done|].
  apply NoDup_Permutation.
  - apply keys_sorted_NoDup, btree_iter_sorted.
  - by apply keys_sorted_NoDup.
  - intros [k v]. by rewrite btree_iter_elem, Hm.
Qed.

Lemma btree_iter_empty : btree_iter (∅ : gmap K V) = [].
Proof. apply btree_iter_unique; [constructor|]. intros. rewrite lookup_empty. set_solver. Qed.

Lemma btree_iter_nil m : btree_iter m = [] ↔ m = ∅.
Proof.
  split; [|intros ->; apply btree_iter_empty]. intros E. apply map_eq. intros k.
  rewrite lookup_empty. destruct (m !! k) as [v|] eqn:Ek; [|done].
  apply btree_iter_elem in Ek. rewrite E in Ek. by apply not_elem_of_nil in Ek.
Qed.

Lemma btree_iter_first m k v l k' v' :
  btree_iter m = (k, v) :: l → m !! k' = Some v' → k' = k ∨ key_lt k k'.
Proof.
  intros E Hk. apply btree_iter_elem in Hk. pose proof (btree_iter_sorted m) as Hs.
  rewrite E in Hk, Hs. apply StronglySorted_inv in Hs as [_ Hs]. rewrite Forall_forall in Hs.
  apply elem_of_cons in Hk as [[= -> ->]|Hk]; [by left|right]. apply (Hs _ Hk).
Qed.

(** Removing, or replacing the value of, the first entry. *)
Lemma btree_iter_delete_first m k v l :
  btree_iter m = (k, v) :: l → btree_iter (delete k m) = l.
Proof.
  intros E. pose proof (btree_iter_sorted m) as Hs. rewrite E in Hs.
  apply StronglySorted_inv in Hs as [Hs Hk]. apply btree_iter_unique; [done|].
  intros k' v'. rewrite lookup_delete. case_decide as Ek.
  - subst k'. split; [|done]. intros Hin. rewrite Forall_forall in Hk.
    by destruct (key_lt_irrefl k (Hk _ Hin)).
  - rewrite <-btree_iter_elem, E, elem_of_cons. naive_solver.
Qed.

Lemma btree_iter_replace_first m k v v' l :
  btree_iter m = (k, v) :: l → btree_iter (<[k:=v']> m) = (k, v') :: l.
Proof.
  intros E. pose proof (btree_iter_sorted m) as Hs. rewrite E in Hs.
  apply StronglySorted_inv in Hs as [Hs Hk]. apply btree_iter_unique; [by constructor|].
  intros k' w. rewrite lookup_insert, elem_of_cons. case_decide as Ek.
  - subst k'. split; [|naive_solver]. intros [[= <-]|Hin]; [done|].
    rewrite Forall_forall in Hk. by destruct (key_lt_irrefl k (Hk _ Hin)).
  - rewrite <-btree_iter_elem, E, elem_of_cons. naive_solver.
Qed.

Lemma list_to_map_btree_iter m : list_to_map (btree_iter m) = m.
Proof.
  rewrite <-(list_to_map_to_list m) at 2.
  apply list_to_map_proper; [apply btree_iter_keys_NoDup|apply btree_iter_perm].
Qed.

(** Where an entry sits: the smaller keys before it, the larger ones after. *)
Lemma btree_iter_lookup_split m k v :
  m !! k = Some v → ∃ l1 l2, btree_iter m = l1 ++ (k, v) :: l2 ∧
    keys_sorted (l1 ++ l2) ∧ Forall (λ p, key_lt p.1 k) l1 ∧ Forall (λ p, key_lt k p.1) l2.
Proof.
  intros Hk. apply btree_iter_elem, list_elem_of_split in Hk as (l1 & l2 & E).
  exists l1, l2. split; [done|]. pose proof (btree_iter_sorted m) as Hs. rewrite E in Hs.
  clear E. induction l1 as [|p l1 IH]; simpl in *.
  - apply StronglySorted_inv in Hs as [Hs Hl2]. split_and!; [done|constructor|done].
  - apply StronglySorted_inv in Hs as [Hs Hp]. destruct (IH Hs) as (Hs' & Hl1 & Hl2).
    rewrite Forall_app, Forall_cons in Hp. destruct Hp as (Hp1 & Hpk & Hp2).
    split_and!; [|by constructor|done]. constructor; [done|by apply Forall_app].
Qed.

(** Where a key sits or would sit: the listings of the map, of the map with the
    key bound to another value and of the map without the key. *)
Lemma btree_iter_insert_split m k w :
  ∃ l1 l2,
    btree_iter m = l1 ++ from_option (λ v, [(k, v)]) [] (m !! k) ++ l2 ∧
    btree_iter (<[k := w]> m) = l1 ++ (k, w) :: l2 ∧
    btree_iter (delete k m) = l1 ++ l2 ∧
    Forall (λ p, key_lt p.1 k) l1 ∧ Forall (λ p, key_lt k p.1) l2.
Proof.
  destruct (btree_iter_lookup_split (<[k := w]> m) k w) as (l1 & l2 & E & Hs & H1 & H2);
    [by rewrite lookup_insert_eq|].
  exists l1, l2.
  assert (Hd : btree_iter (delete k m) = l1 ++ l2).
  { apply btree_iter_unique; [done|]. intros k' v'.
    rewrite lookup_delete. case_decide as Ek.
    - subst k'. split; [|done]. rewrite elem_of_app, !Forall_forall in *.
      intros [Hin|Hin]; [apply H1 in Hin|apply H2 in Hin]; by apply key_lt_irrefl in Hin.
    - rewrite <-(lookup_insert_ne m k k' w), <-btree_iter_elem, E by done. set_solver. }
  split_and!; [|done..]. destruct (m !! k) as [v|] eqn:Ek; simpl.
  - rewrite <-(insert_delete_id m k v) by done.
    apply btree_iter_unique.
    + apply StronglySorted_app_iff in Hs as (S1 & S2 & S12). rewrite Forall_forall in H1.
      apply StronglySorted_app_iff. split_and!; [done|by constructor|].
      intros x y Hx. rewrite elem_of_cons. intros [->|Hy]; [by apply H1|by apply S12].
    + intros k' v'. rewrite lookup_insert. case_decide as Ek'.
      * subst k'. rewrite elem_of_app, elem_of_cons, !Forall_forall in *. split; [|naive_solver].
        intros [Hin|[[= <-]|Hin]]; [apply H1 in Hin|done|apply H2 in Hin];
          by apply key_lt_irrefl in Hin.
      * rewrite <-btree_iter_elem, Hd. set_solver.
  - by rewrite <-Hd, delete_id.
Qed.
End btree.

(** Collecting a list into a set. *)
Lemma size_list_le {A} `{Countable A} (l : list A) : (size (list_to_set l : gset A) ≤ length l)%nat.
Proof.
  induction l as [|a l IH]; [done|]. cbn [list_to_set length]. rewrite size_union_alt, size_singleton.
  pose proof (subseteq_size (list_to_set l ∖ {[a]}) (list_to_set l : gset A) ltac:(set_solver)). lia.
Qed.

(** [BTreeSet::iter]. *)
Definition bset_iter {K} `{Countable K, !Ord K} (s : gset K) : list K :=
  (btree_iter (gset_to_gmap () s)).*1.

Lemma bset_iter_elem {K} `{Countable K, !Ord K, !OrdLaws K} (s : gset K) (k : K) :
  k ∈ bset_iter s ↔ k ∈ s.
Proof.
  unfold bset_iter. rewrite list_elem_of_fmap. split.
  - intros ([k' []] & -> & Hin). apply btree_iter_elem, lookup_gset_to_gmap_Some in Hin. naive_solver.
  - intros Hk. exists (k, ()). split; [done|]. by apply btree_iter_elem, lookup_gset_to_gmap_Some.
Qed.

Lemma list_to_set_bset_iter {K} `{Countable K, !Ord K, !OrdLaws K} (s : gset K) :
  list_to_set (bset_iter s) = s.
Proof. apply set_eq. intros k. by rewrite elem_of_list_to_set, bset_iter_elem. Qed.

Arguments btree_iter : simpl never.
