(* ===== verification/Text.v ===== *)
(** * Text

    A [String] of the source is the list of its UTF-8 bytes. Text literals, the
    ASCII case functions of the standard library, and decimal numerals. *)

From Stdlib Require Import String Ascii.
From stdpp Require Import prelude.
From Stdlib Require Import ZArith Lia.
From S2P Require Import Prelude Word.
Open Scope Z_scope.

(** A literal of the source. *)
Definition text (s : string) : list u8 :=
  (λ c, mk_uint 8 (Z.of_N (N_of_ascii c))) <$> list_ascii_of_string s.

Arguments text s%_string_scope.

(** [str::eq_ignore_ascii_case] and [str::to_ascii_uppercase]: bytes 65 to 90 are the
    upper-case letters, 32 below the lower-case ones. *)
Definition ascii_lower (c : u8) : Z := if (65 <=? c) && (c <=? 90) then c + 32 else uval c.
Definition eq_ignore_ascii_case (a b : list u8) : bool :=
  bool_decide (ascii_lower <$> a = ascii_lower <$> b).
Definition ascii_upper (c : u8) : u8 := if (97 <=? c) && (c <=? 122) then mk_uint 8 (c - 32) else c.
Definition to_ascii_uppercase (s : list u8) : list u8 := ascii_upper <$> s.

(** ** Decimal numerals *)

Definition is_digit (c : u8) : bool := (48 <=? c) && (c <=? 57).
Definition digit_0 : u8 := mk_uint 8 48.

(** The number a string of digits spells. *)
Fixpoint decimal_from (acc : Z) (s : list u8) : Z :=
  match s with [] => acc | c :: s => decimal_from (acc * 10 + (c - 48)) s end.
Definition decimal_val (s : list u8) : Z := decimal_from 0 s.

Lemma decimal_from_shift s : ∀ acc,
  decimal_from acc s = acc * 10 ^ Z.of_nat (length s) + decimal_val s.
Proof.
  unfold decimal_val. induction s as [|c s IH]; intros acc; cbn [decimal_from length]; [lia|].
  rewrite IH, (IH (0 * 10 + _)), Nat2Z.inj_succ, Z.pow_succ_r by lia. ring.
Qed.

Lemma decimal_val_app s t :
  decimal_val (s ++ t) = decimal_val s * 10 ^ Z.of_nat (length t) + decimal_val t.
Proof.
  unfold decimal_val. rewrite <- decimal_from_shift. generalize 0.
  induction s as [|c s IH]; intros acc; [done|]. apply IH.
Qed.

Lemma decimal_val_zeros n : decimal_val (replicate n digit_0) = 0.
Proof. unfold decimal_val. induction n as [|n IH]; [done|exact IH]. Qed.

(** [u64::from_str] on the digits it accepts; a leading [+] is accepted too. *)
Definition u64_from_digits (s : list u8) : option u64 :=
  match s with
  | [] => None
  | _ => if forallb is_digit s then checked 64 (decimal_val s) else None
  end.
Definition u64_from_str (s : list u8) : option u64 :=
  match s with
  | c :: rest => if uval c =? 43 then u64_from_digits rest else u64_from_digits s
  | [] => None
  end.

(** ** Trimming and padding *)

(** [str::trim_end_matches] of a character. *)
Fixpoint trim_end (c : u8) (s : list u8) : list u8 :=
  match s with
  | [] => []
  | x :: s =>
      match trim_end c s with
      | [] => if bool_decide (x = c) then [] else [x]
      | t => x :: t
      end
  end.

Lemma trim_end_spec c s :
  s = trim_end c s ++ replicate (length s - length (trim_end c s)) c ∧
  (length (trim_end c s) ≤ length s)%nat ∧ last (trim_end c s) ≠ Some c.
Proof.
  induction s as [|x s (E & Hl & Hc)]; [done|]. cbn [trim_end length].
  destruct (trim_end c s) as [|y t] eqn:Et.
  - cbn [length app] in *. rewrite Nat.sub_0_r in E. case_bool_decide as Hx.
    + split_and!; cbn [length app]; [|lia|done]. rewrite Nat.sub_0_r. cbn [replicate]. by rewrite <- E, Hx.
    + split_and!; cbn [length app]; [|lia|by intros [= ->]]. by rewrite Nat.sub_succ, Nat.sub_0_r, <- E.
  - cbn [length app] in *. split_and!; [|lia|done]. by rewrite Nat.sub_succ, <- E.
Qed.

(** [format!("{:0>width$}", s)]. *)
Definition pad_zeros (width : nat) (s : list u8) : list u8 :=
  replicate (width - length s) digit_0 ++ s.

Lemma length_pad_zeros width s : length (pad_zeros width s) = Nat.max width (length s).
Proof. unfold pad_zeros. rewrite length_app, length_replicate. lia. Qed.

Lemma decimal_val_pad width s : decimal_val (pad_zeros width s) = decimal_val s.
Proof. unfold pad_zeros. rewrite decimal_val_app, decimal_val_zeros. lia. Qed.

(** [join] of the standard library. *)
Fixpoint join (sep : list u8) (parts : list (list u8)) : list u8 :=
  match parts with
  | [] => []
  | [p] => p
  | p :: parts => p ++ sep ++ join sep parts
  end.
