(* ===== verification/Quantity.v ===== *)
(** * [Quantity]: 256-bit unsigned amounts (src/canister/src/order/mod.rs)

    The limb arithmetic of [order::Quantity], operation by operation, and the
    proof that it is exact arithmetic on the number [qval] represents. *)

From stdpp Require Import prelude gmap.
From Stdlib Require Import ZArith Lia.
From S2P Require Import Prelude Word.

Record Quantity : Type := MkQuantity { high : u128; low : u128 }.

#[export] Instance Quantity_eq_dec : EqDecision Quantity.
Proof. solve_decision. Defined.

(** The number a quantity stands for. *)
Definition qval (q : Quantity) : Z := high q * 2 ^ 128 + low q.

Definition Quantity_ZERO : Quantity := MkQuantity (mk_uint 128 0) (mk_uint 128 0).
Definition Quantity_MAX : Quantity :=
  MkQuantity (mk_uint 128 (uint_max 128)) (mk_uint 128 (uint_max 128)).

Definition from_u128 (value : u128) : Quantity := MkQuantity (mk_uint 128 0) value.
Definition from_u64 (value : u64) : Quantity := MkQuantity (mk_uint 128 0) (u_cast 128 value).

Definition as_u128 (self : Quantity) : option u128 :=
  if decide (uval (high self) = 0) then Some (low self) else None.

Definition is_zero (self : Quantity) : bool := (high self =? 0) && (low self =? 0).

(** The canonical representative of a number below [2^256]; used in statements. *)
Definition q_of_Z (z : Z) : Quantity :=
  MkQuantity (mk_uint 128 (z / 2 ^ 128)) (mk_uint 128 z).

Definition checked_sub (self other : Quantity) : option Quantity :=
  if is_zero other then Some self else
  let '(low', borrow) := u_overflowing_sub (low self) (low other) in
  let? rhs := u_checked_add (high other) (u_of_bool borrow) in
  let? high' := u_checked_sub (high self) rhs in
  Some (MkQuantity high' low').

Definition checked_add (self rhs : Quantity) : option Quantity :=
  let '(low', carry) := u_overflowing_add (low self) (low rhs) in
  let? h := u_checked_add (high self) (high rhs) in
  let? high' := u_checked_add h (u_of_bool carry) in
  Some (MkQuantity high' low').

Definition checked_shl_64 (self : Quantity) : option Quantity :=
  if negb (u_shr (high self) 64 =? 0) then None else
  Some (MkQuantity (u_or (u_shl (high self) 64) (u_shr (low self) 64))
                   (u_shl (low self) 64)).

Definition low_mask : Z := 0xFFFFFFFFFFFFFFFF.

Definition checked_mul_u64 (self : Quantity) (rhs : u64) : option Quantity :=
  let rhs : u128 := u_cast 128 rhs in
  let low_lo := u_and (low self) low_mask in
  let low_hi := u_shr (low self) 64 in
  let prod_lo := u_mul low_lo rhs in
  let prod_hi := u_mul low_hi rhs in
  let '(low', carry) := u_overflowing_add prod_lo (u_shl prod_hi 64) in
  let? h1 := u_checked_mul (high self) rhs in
  let? h2 := u_checked_add h1 (u_shr prod_hi 64) in
  let? high' := u_checked_add h2 (u_of_bool carry) in
  Some (MkQuantity high' low').

Definition checked_mul_u128 (self : Quantity) (rhs : u128) : option Quantity :=
  match checked 64 rhs with
  | Some rhs => checked_mul_u64 self rhs
  | None =>
      let? lo := checked_mul_u64 self (u_cast 64 rhs) in
      let? hi := checked_mul_u64 self (u_cast 64 (u_shr rhs 64)) in
      let? hi' := checked_shl_64 hi in
      checked_add lo hi'
  end.

Definition checked_div_rem_u64 (self : Quantity) (divisor : u64) : option (Quantity * u64) :=
  if divisor =? 0 then None else
  let d : u128 := u_cast 128 divisor in
  if high self =? 0 then
    Some (from_u128 (u_div (low self) d), u_cast 64 (u_rem (low self) d))
  else
  let q1 := u_div (high self) d in
  let r1 := u_rem (high self) d in
  let low_hi := u_shr (low self) 64 in
  let low_lo := u_and (low self) low_mask in
  let dividend2 := u_or (u_shl r1 64) low_hi in
  let q2 := u_div dividend2 d in
  let r2 := u_rem dividend2 d in
  let dividend3 := u_or (u_shl r2 64) low_lo in
  let q3 := u_div dividend3 d in
  let r3 := u_rem dividend3 d in
  let low_out := u_or (u_shl q2 64) q3 in
  Some (MkQuantity q1 low_out, u_cast 64 r3).

(** [is_multiple_of]; the lot size is a [NonZeroU64], so the [expect] on the
    division by it cannot fire, which [is_multiple_of_spec] states. *)
Definition is_multiple_of (self : Quantity) (lot_size : nonzero 64) : exec bool :=
  if high self =? 0 then Done (low self mod lot_size =? 0) else
  let! (_, remainder) := expect (checked_div_rem_u64 self lot_size) in
  Done (remainder =? 0).

(** [Ord for Quantity]: the high limbs first, then the low limbs. *)
Definition cmp (self other : Quantity) : comparison :=
  match Z.compare (high self) (high other) with
  | Eq => Z.compare (low self) (low other)
  | c => c
  end.

Definition q_ltb (a b : Quantity) : bool := match cmp a b with Lt => true | _ => false end.
Definition q_leb (a b : Quantity) : bool := match cmp a b with Gt => false | _ => true end.
(** [std::cmp::min]. *)
Definition q_min (a b : Quantity) : Quantity := match cmp a b with Gt => b | _ => a end.

(** ** Representation *)

Lemma qval_range q : 0 ≤ qval q < 2 ^ 256.
Proof.
  unfold qval. pose proof (u128_range (high q)). pose proof (u128_range (low q)). change (2 ^ 256) with (2 ^ 128 * 2 ^ 128). lia.
Qed.

Lemma qval_limbs q h l :
  0 ≤ l < 2 ^ 128 → qval q = h * 2 ^ 128 + l ↔ uval (high q) = h ∧ uval (low q) = l.
Proof.
  intros Hl. unfold qval. pose proof (u128_range (low q)). split; [|intros []; lia].
  intros E. assert (uval (high q) = h) by nia. lia.
Qed.

Lemma qval_inj p q : qval p = qval q → p = q.
Proof.
  intros E. destruct p as [h l]. symmetry in E. unfold qval at 2 in E; simpl in E.
  apply qval_limbs in E as [Hh Hl]; [|apply u128_range].
  destruct q; simpl in *. f_equal; by apply uint_eq.
Qed.

Lemma qval_eq_iff p q : p = q ↔ qval p = qval q.
Proof. split; [congruence|apply qval_inj]. Qed.

Lemma qval_zero : qval Quantity_ZERO = 0.
Proof. reflexivity. Qed.

Lemma qval_max : qval Quantity_MAX = 2 ^ 256 - 1.
Proof. reflexivity. Qed.

Lemma q_of_Z_val z : 0 ≤ z < 2 ^ 256 → qval (q_of_Z z) = z.
Proof.
  intros Hz. unfold qval, q_of_Z; cbn [high low]. rewrite !mk_uint_val.
  change (Z.of_N 128) with 128.
  change (2 ^ 256) with (2 ^ 128 * 2 ^ 128) in Hz.
  rewrite (Z.mod_small (z / _)); [|split; [apply Z.div_pos|apply Z.div_lt_upper_bound]; lia].
  pose proof (Z.div_mod z (2 ^ 128)). lia.
Qed.

Lemma q_of_Z_qval q : q_of_Z (qval q) = q.
Proof. apply qval_inj, q_of_Z_val, qval_range. Qed.

Lemma qval_from_u128 v : qval (from_u128 v) = v.
Proof. reflexivity. Qed.

Lemma qval_from_u64 v : qval (from_u64 v) = v.
Proof.
  unfold qval, from_u64, u_cast; cbn [high low].
  rewrite (mk_uint_small v); [reflexivity|].
  pose proof (u64_range v). change (Z.of_N 128) with 128. lia.
Qed.

Lemma is_zero_spec q : is_zero q = (qval q =? 0).
Proof.
  unfold is_zero, qval. pose proof (u128_range (high q)). pose proof (u128_range (low q)).
  destruct (Z.eqb_spec (high q) 0), (Z.eqb_spec (low q) 0); simpl; symmetry;
    first [apply Z.eqb_eq | apply Z.eqb_neq]; nia.
Qed.

Lemma as_u128_spec q :
  as_u128 q = if qval q <? 2 ^ 128 then Some (mk_uint 128 (qval q)) else None.
Proof.
  unfold as_u128, qval. pose proof (u128_range (high q)). pose proof (u128_range (low q)).
  case_decide as E; destruct (Z.ltb_spec (high q * 2 ^ 128 + low q) (2 ^ 128)); try nia; [|done].
  f_equal. apply uint_eq. rewrite mk_uint_small; change (Z.of_N 128) with 128; lia.
Qed.

Lemma cmp_spec p q : cmp p q = Z.compare (qval p) (qval q).
Proof.
  unfold cmp, qval. pose proof (u128_range (low p)). pose proof (u128_range (low q)).
  destruct (Z.compare_spec (high p) (high q)) as [E|E|E]; symmetry.
  - rewrite E. destruct (Z.compare_spec (low p) (low q));
      [apply Z.compare_eq_iff|apply Z.compare_lt_iff|apply Z.compare_gt_iff]; lia.
  - apply Z.compare_lt_iff. nia.
  - apply Z.compare_gt_iff. nia.
Qed.

Lemma q_ltb_spec p q : q_ltb p q = (qval p <? qval q).
Proof. unfold q_ltb. rewrite cmp_spec. done. Qed.

Lemma q_leb_spec p q : q_leb p q = (qval p <=? qval q).
Proof. unfold q_leb. rewrite cmp_spec. done. Qed.

Lemma qval_min p q : qval (q_min p q) = Z.min (qval p) (qval q).
Proof. unfold q_min. rewrite cmp_spec. unfold Z.min. by destruct (_ ?= _). Qed.

(** ** Exactness of the limb operations *)

Lemma overflowing_add_val (a b : u128) :
  uval (fst (u_overflowing_add a b)) + Z.b2z (snd (u_overflowing_add a b)) * 2 ^ 128 = a + b.
Proof.
  pose proof (u128_range a). pose proof (u128_range b).
  unfold u_overflowing_add; cbn [fst snd]. rewrite mk_uint_val.
  change (Z.of_N 128) with 128. destruct (negb _) eqn:E; cbn [Z.b2z].
  - apply negb_true_iff, not_true_iff_false in E. rewrite in_range_iff in E.
    change (Z.of_N 128) with 128 in E.
    rewrite <-(Z.mod_add _ (-1)) by lia. rewrite Z.mod_small; lia.
  - apply not_in_range in E. change (Z.of_N 128) with 128 in E. rewrite Z.mod_small; lia.
Qed.

Lemma overflowing_sub_val (a b : u128) :
  uval (fst (u_overflowing_sub a b)) - Z.b2z (snd (u_overflowing_sub a b)) * 2 ^ 128 = a - b.
Proof.
  pose proof (u128_range a). pose proof (u128_range b).
  unfold u_overflowing_sub; cbn [fst snd]. rewrite mk_uint_val.
  change (Z.of_N 128) with 128. destruct (negb _) eqn:E; cbn [Z.b2z].
  - apply negb_true_iff, not_true_iff_false in E. rewrite in_range_iff in E.
    change (Z.of_N 128) with 128 in E.
    rewrite <-(Z.mod_add _ 1) by lia. rewrite Z.mod_small; lia.
  - apply not_in_range in E. change (Z.of_N 128) with 128 in E. rewrite Z.mod_small; lia.
Qed.

Lemma u_of_bool_val b : uval (u_of_bool b : u128) = Z.b2z b.
Proof. by destruct b. Qed.

(** Putting the limbs together: the low limb is known, the high limb is a chain
    of checked additions of non-negative terms. *)
Lemma limbs_Some (h : Z) (l : u128) (o : option u128) q :
  (∀ x, o = Some x ↔ uval x = h) →
  (let? x := o in Some (MkQuantity x l)) = Some q ↔ qval q = h * 2 ^ 128 + l.
Proof.
  intros Ho. rewrite qval_limbs by apply u128_range. rewrite obind_Some. split.
  - intros (x & Hx & [= <-]); simpl. apply Ho in Hx. auto.
  - intros [Hh Hl]. exists (high q). rewrite Ho. split; [done|].
    destruct q; simpl in *. repeat f_equal. by apply uint_eq.
Qed.

Lemma checked_chain2 (a b c : Z) (x : u128) :
  0 ≤ a → 0 ≤ b → 0 ≤ c →
  (let? h1 := checked 128 a in let? h2 := checked 128 (uval (h1 : u128) + b) in
   checked 128 (uval (h2 : u128) + c)) = Some x ↔ uval x = a + b + c.
Proof.
  intros. pose proof (u128_range x). rewrite obind_Some. split.
  - intros (h1 & Eh1 & E). apply checked_Some in Eh1. apply obind_Some in E as (h2 & Eh2 & E).
    apply checked_Some in Eh2, E. lia.
  - intros E. exists (mk_uint 128 a).
    rewrite checked_in by (change (Z.of_N 128) with 128; lia). split; [done|].
    rewrite obind_Some. rewrite mk_uint_small by (change (Z.of_N 128) with 128; lia).
    exists (mk_uint 128 (a + b)).
    rewrite checked_in by (change (Z.of_N 128) with 128; lia). split; [done|].
    rewrite mk_uint_small by (change (Z.of_N 128) with 128; lia). apply checked_Some. lia.
Qed.

(** [checked_add] computes the sum, and fails exactly when it is not a [u256]. *)
Lemma checked_add_Some p q r : checked_add p q = Some r ↔ qval r = qval p + qval q.
Proof.
  unfold checked_add. pose proof (overflowing_add_val (low p) (low q)) as Hl.
  destruct (u_overflowing_add _ _) as [l c]; cbn [fst snd] in Hl.
  transitivity (qval r = (high p + high q + Z.b2z c) * 2 ^ 128 + l);
    [|unfold qval at 3 4; split; lia].
  rewrite <-(limbs_Some _ l (let? h := u_checked_add (high p) (high q) in
                               u_checked_add h (u_of_bool c))).
  - unfold obind. by repeat case_match.
  - intros x. pose proof (u128_range (high p)). pose proof (u128_range (high q)).
    pose proof (u128_range x). rewrite obind_Some. unfold u_checked_add.
    setoid_rewrite checked_Some. setoid_rewrite u_of_bool_val. split.
    + intros (h & ? & ?). lia.
    + intros E. exists (mk_uint 128 (high p + high q)).
      rewrite mk_uint_small; [lia|]. change (Z.of_N 128) with 128. destruct c; simpl in *; lia.
Qed.

Lemma checked_sub_Some p q r : checked_sub p q = Some r ↔ qval p = qval r + qval q.
Proof.
  unfold checked_sub. rewrite is_zero_spec. destruct (Z.eqb_spec (qval q) 0) as [E|E].
  { rewrite E, Z.add_0_r, <-qval_eq_iff. naive_solver. }
  pose proof (overflowing_sub_val (low p) (low q)) as Hl.
  destruct (u_overflowing_sub _ _) as [l c]; cbn [fst snd] in Hl.
  transitivity (qval r = (high p - high q - Z.b2z c) * 2 ^ 128 + l);
    [|unfold qval at 2 4; split; lia].
  rewrite <-(limbs_Some _ l (let? h := u_checked_add (high q) (u_of_bool c) in
                               u_checked_sub (high p) h)).
  - unfold obind. by repeat case_match.
  - intros x. pose proof (u128_range (high p)). pose proof (u128_range (high q)).
    pose proof (u128_range x). rewrite obind_Some. unfold u_checked_add, u_checked_sub.
    setoid_rewrite checked_Some. setoid_rewrite u_of_bool_val. split.
    + intros (h & ? & ?). lia.
    + intros E'. exists (mk_uint 128 (high q + Z.b2z c)).
      rewrite mk_uint_small; [lia|]. change (Z.of_N 128) with 128. destruct c; simpl in *; lia.
Qed.

Lemma shr64_val (a : u128) : uval (u_shr a 64) = a / 2 ^ 64.
Proof.
  unfold u_shr. rewrite Z.shiftr_div_pow2 by lia. pose proof (u128_range a).
  apply mk_uint_small. change (Z.of_N 128) with 128.
  split; [apply Z.div_pos|apply Z.div_lt_upper_bound]; lia.
Qed.

Lemma and_mask_val (a : u128) : uval (u_and a low_mask) = a mod 2 ^ 64.
Proof.
  unfold u_and. change low_mask with (Z.ones 64). rewrite Z.land_ones by lia.
  apply mk_uint_small. change (Z.of_N 128) with 128.
  pose proof (Z.mod_pos_bound a (2 ^ 64)). lia.
Qed.

Lemma shl64_val (a : u128) : uval (u_shl a 64) = (a mod 2 ^ 64) * 2 ^ 64.
Proof.
  unfold u_shl. rewrite Z.shiftl_mul_pow2, mk_uint_val by lia.
  change (2 ^ Z.of_N 128) with (2 ^ 64 * 2 ^ 64). by rewrite Z.mul_mod_distr_r by lia.
Qed.

Lemma lor_shifted a b : 0 ≤ b < 2 ^ 64 → Z.lor (a * 2 ^ 64) b = a * 2 ^ 64 + b.
Proof.
  intros Hb. rewrite <-Z.lxor_lor, <-Z.add_nocarry_lxor; try done.
  all: rewrite <-Z.shiftl_mul_pow2 by lia; apply Z.bits_inj_iff; intros i.
  all: rewrite Z.land_spec, Z.bits_0.
  all: destruct (Z.lt_ge_cases i 64) as [Hi|Hi]; [rewrite Z.shiftl_spec_low by lia; done|].
  all: destruct (Z.eq_dec b 0) as [->|?]; [by rewrite Z.bits_0, andb_false_r|].
  all: rewrite (Z.bits_above_log2 b), andb_false_r; [done|lia|].
  all: assert (Z.log2 b < 64) by (apply Z.log2_lt_pow2; lia); lia.
Qed.

Lemma or_shifted_val (a b : u128) :
  0 ≤ b < 2 ^ 64 → uval (u_or (u_shl a 64) b) = (a mod 2 ^ 64) * 2 ^ 64 + b.
Proof.
  intros Hb. unfold u_or. rewrite shl64_val, lor_shifted by done.
  apply mk_uint_small. change (2 ^ Z.of_N 128) with (2 ^ 64 * 2 ^ 64).
  pose proof (Z.mod_pos_bound a (2 ^ 64)). nia.
Qed.

Lemma u64_as_u128_val (a : u64) : uval (u_cast 128 a) = a.
Proof.
  unfold u_cast. pose proof (u64_range a).
  apply mk_uint_small. change (Z.of_N 128) with 128. lia.
Qed.

(** [checked_mul_u64] computes the product, and fails exactly when it is not a [u256]. *)
Lemma checked_mul_u64_Some p (r : u64) q :
  checked_mul_u64 p r = Some q ↔ qval q = qval p * r.
Proof.
  unfold checked_mul_u64. pose proof (u64_range r) as Hr.
  pose proof (u128_range (high p)) as Hh. pose proof (u128_range (low p)) as Hl.
  assert (Hm : ∀ x : u128, 0 ≤ x < 2 ^ 64 → uval (u_mul x (u_cast 128 r)) = x * r).
  { intros x Hx. unfold u_mul. rewrite u64_as_u128_val. apply mk_uint_small.
    change (2 ^ Z.of_N 128) with (2 ^ 64 * 2 ^ 64). nia. }
  assert (Hlo := Hm (u_and (low p) low_mask)). assert (Hhi := Hm (u_shr (low p) 64)).
  rewrite and_mask_val in Hlo. rewrite shr64_val in Hhi.
  specialize (Hlo ltac:(apply Z.mod_pos_bound; lia)).
  specialize (Hhi ltac:(split; [apply Z.div_pos|apply Z.div_lt_upper_bound]; lia)).
  set (prod_lo := u_mul (u_and _ _) _) in *. set (prod_hi := u_mul (u_shr _ _) _) in *.
  pose proof (overflowing_add_val prod_lo (u_shl prod_hi 64)) as Hs.
  rewrite shl64_val in Hs.
  destruct (u_overflowing_add _ _) as [l c]; cbn [fst snd] in Hs.
  transitivity (qval q = (high p * r + prod_hi / 2 ^ 64 + Z.b2z c) * 2 ^ 128 + l).
  2: { unfold qval at 3. change (2 ^ 128) with (2 ^ 64 * 2 ^ 64) in *.
       pose proof (Z.div_mod (low p) (2 ^ 64)). pose proof (Z.div_mod prod_hi (2 ^ 64)).
       split; nia. }
  rewrite <-(limbs_Some _ l
    (let? h1 := u_checked_mul (high p) (u_cast 128 r) in
     let? h2 := u_checked_add h1 (u_shr prod_hi 64) in u_checked_add h2 (u_of_bool c))).
  - unfold obind. by repeat case_match.
  - intros x. unfold u_checked_mul, u_checked_add.
    rewrite u64_as_u128_val, shr64_val, u_of_bool_val. apply checked_chain2; [nia| |].
    + apply Z.div_pos; [apply u128_range|lia].
    + by destruct c.
Qed.

(** An operation characterised by its results is the checked one. *)
Definition q_checked (z : Z) : option Quantity :=
  if (0 <=? z) && (z <? 2 ^ 256) then Some (q_of_Z z) else None.

Lemma q_checked_Some z q : q_checked z = Some q ↔ qval q = z.
Proof.
  unfold q_checked. pose proof (qval_range q).
  destruct (Z.leb_spec 0 z), (Z.ltb_spec z (2 ^ 256)); simpl; split; intros E; try lia; try done.
  - injection E as <-. apply q_of_Z_val. lia.
  - subst z. by rewrite q_of_Z_qval.
Qed.

Lemma q_checked_unique (o : option Quantity) z :
  (∀ q, o = Some q ↔ qval q = z) → o = q_checked z.
Proof.
  intros Ho. destruct (q_checked z) as [q|] eqn:E.
  - apply q_checked_Some in E. by apply Ho.
  - destruct o as [q|]; [|done]. assert (qval q = z) as Hq by (by apply Ho).
    apply q_checked_Some in Hq. congruence.
Qed.

Lemma q_checked_in z : 0 ≤ z < 2 ^ 256 → q_checked z = Some (q_of_Z z).
Proof. intros Hz. apply q_checked_Some, q_of_Z_val, Hz. Qed.

Lemma q_checked_None z : q_checked z = None ↔ ¬ 0 ≤ z < 2 ^ 256.
Proof.
  unfold q_checked. destruct (Z.leb_spec 0 z), (Z.ltb_spec z (2 ^ 256)); simpl; split;
    intros; try done; lia.
Qed.

Lemma checked_add_eq p q : checked_add p q = q_checked (qval p + qval q).
Proof. apply q_checked_unique. intros r. apply checked_add_Some. Qed.

Lemma checked_sub_eq p q : checked_sub p q = q_checked (qval p - qval q).
Proof. apply q_checked_unique. intros r. rewrite checked_sub_Some. lia. Qed.

Lemma checked_mul_u64_eq p r : checked_mul_u64 p r = q_checked (qval p * r).
Proof. apply q_checked_unique. intros q. apply checked_mul_u64_Some. Qed.

Lemma checked_shl_64_Some p q : checked_shl_64 p = Some q ↔ qval q = qval p * 2 ^ 64.
Proof.
  unfold checked_shl_64. rewrite shr64_val.
  pose proof (u128_range (high p)) as Hh. pose proof (u128_range (low p)) as Hl.
  pose proof (qval_range q) as Hq.
  pose proof (Z.div_mod (high p) (2 ^ 64) ltac:(lia)) as Hdh.
  pose proof (Z.mod_pos_bound (high p) (2 ^ 64) ltac:(lia)).
  change (2 ^ 256) with (2 ^ 64 * 2 ^ 64 * 2 ^ 128) in Hq.
  destruct (Z.eqb_spec (high p / 2 ^ 64) 0) as [E|E]; cbn [negb].
  - assert (Hmod : uval (high p) mod 2 ^ 64 = high p) by lia.
    assert (Hlo : 0 ≤ low p / 2 ^ 64 < 2 ^ 64)
      by (split; [apply Z.div_pos|apply Z.div_lt_upper_bound]; lia).
    transitivity (qval (MkQuantity (u_or (u_shl (high p) 64) (u_shr (low p) 64))
                     (u_shl (low p) 64)) = qval q).
    + rewrite <-qval_eq_iff. naive_solver.
    + unfold qval at 1 4; cbn [high low].
      rewrite or_shifted_val by (by rewrite shr64_val).
      rewrite shr64_val, shl64_val, Hmod. pose proof (Z.div_mod (low p) (2 ^ 64)).
      change (2 ^ 128) with (2 ^ 64 * 2 ^ 64). split; lia.
  - split; [done|]. unfold qval at 2. intros E'. exfalso.
    assert (1 ≤ high p / 2 ^ 64) by (pose proof (Z.div_pos (high p) (2 ^ 64)); lia).
    assert (2 ^ 64 ≤ high p) by lia. change (2 ^ 128) with (2 ^ 64 * 2 ^ 64) in *. nia.
Qed.

(** [checked_mul_u128] computes the product, and fails exactly when it is not a [u256]. *)
Lemma checked_mul_u128_Some p (r : u128) q :
  checked_mul_u128 p r = Some q ↔ qval q = qval p * r.
Proof.
  unfold checked_mul_u128. destruct (checked 64 r) as [r'|] eqn:Er.
  { apply checked_Some in Er. rewrite checked_mul_u64_Some. by rewrite Er. }
  pose proof (u128_range r) as Hr. pose proof (qval_range p) as Hp.
  pose proof (Z.div_mod r (2 ^ 64) ltac:(lia)) as Hd.
  pose proof (Z.mod_pos_bound r (2 ^ 64) ltac:(lia)).
  assert (Hlo : uval (u_cast 64 r) = r mod 2 ^ 64) by done.
  assert (Hhi : uval (u_cast 64 (u_shr r 64)) = r / 2 ^ 64).
  { unfold u_cast. rewrite shr64_val. apply mk_uint_small. change (Z.of_N 64) with 64.
    split; [apply Z.div_pos|apply Z.div_lt_upper_bound]; lia. }
  assert (0 ≤ r / 2 ^ 64) by (apply Z.div_pos; lia).
  assert (Hpr : qval p * r = qval p * (r mod 2 ^ 64) + qval p * (r / 2 ^ 64) * 2 ^ 64)
    by (rewrite Hd at 1; lia).
  split.
  - intros E. apply obind_Some in E as (lo & E1 & E). apply obind_Some in E as (hi & E2 & E).
    apply obind_Some in E as (hi' & E3 & E).
    apply checked_mul_u64_Some in E1, E2. apply checked_shl_64_Some in E3.
    apply checked_add_Some in E. rewrite E, E1, E3, E2, Hlo, Hhi. lia.
  - intros E. pose proof (qval_range q) as Hq.
    assert (HA : 0 ≤ qval p * (r mod 2 ^ 64)) by (apply Z.mul_nonneg_nonneg; lia).
    assert (HB : 0 ≤ qval p * (r / 2 ^ 64)) by (apply Z.mul_nonneg_nonneg; lia).
    rewrite !checked_mul_u64_eq, Hlo, Hhi. rewrite Hpr in E.
    set (A := qval p * (r mod 2 ^ 64)) in *. set (B := qval p * (r / 2 ^ 64)) in *.
    clearbody A B. rewrite !q_checked_in by lia. cbn [obind].
    replace (checked_shl_64 (q_of_Z B)) with (Some (q_of_Z (B * 2 ^ 64))).
    + cbn [obind]. apply checked_add_Some. rewrite !q_of_Z_val by lia. lia.
    + symmetry. apply checked_shl_64_Some. rewrite !q_of_Z_val by lia. done.
Qed.

Lemma checked_mul_u128_eq p r : checked_mul_u128 p r = q_checked (qval p * r).
Proof. apply q_checked_unique. intros q. apply checked_mul_u128_Some. Qed.

Lemma u_div_val (a b : u128) : 0 < b → uval (u_div a b) = a / b.
Proof.
  intros Hb. unfold u_div. pose proof (u128_range a). apply mk_uint_small.
  change (Z.of_N 128) with 128.
  split; [apply Z.div_pos|apply Z.div_lt_upper_bound]; nia.
Qed.

Lemma u_rem_val (a b : u128) : 0 < b → uval (u_rem a b) = a mod b.
Proof.
  intros Hb. unfold u_rem. pose proof (u128_range b). apply mk_uint_small.
  change (Z.of_N 128) with 128. pose proof (Z.mod_pos_bound a b). lia.
Qed.

Lemma u_cast64_val (a : u128) : 0 ≤ a < 2 ^ 64 → uval (u_cast 64 a) = a.
Proof. intros. unfold u_cast. by apply mk_uint_small. Qed.

(** One step of the schoolbook division: the remainder [r < d] of the previous
    step, shifted by 64 bits, with the next 64-bit chunk [c] or'd in. *)
Lemma div_step (r d c : u128) :
  0 ≤ r < d → d < 2 ^ 64 → 0 ≤ c < 2 ^ 64 →
  let n := u_or (u_shl r 64) c in
  r * 2 ^ 64 + c = d * u_div n d + u_rem n d ∧
  0 ≤ u_div n d < 2 ^ 64 ∧ 0 ≤ u_rem n d < d.
Proof.
  intros Hr Hd Hc n.
  assert (Hn : uval n = r * 2 ^ 64 + c).
  { unfold n. rewrite or_shifted_val by done. rewrite Z.mod_small; lia. }
  rewrite u_div_val, u_rem_val, Hn by lia.
  split; [apply Z.div_mod; lia|]. split; [|apply Z.mod_pos_bound; lia].
  split; [apply Z.div_pos|apply Z.div_lt_upper_bound]; nia.
Qed.

Lemma low_chunks (l : u128) :
  uval l = u_shr l 64 * 2 ^ 64 + u_and l low_mask ∧
  0 ≤ u_shr l 64 < 2 ^ 64 ∧ 0 ≤ u_and l low_mask < 2 ^ 64.
Proof.
  pose proof (u128_range l). rewrite shr64_val, and_mask_val.
  pose proof (Z.div_mod l (2 ^ 64)). pose proof (Z.mod_pos_bound l (2 ^ 64)).
  split; [lia|]. split; [|lia]. split; [apply Z.div_pos|apply Z.div_lt_upper_bound]; lia.
Qed.

Lemma div_result p (d : u64) (q : Quantity) (r : u128) :
  qval p = d * qval q + r → 0 ≤ r < d →
  Some (q, u_cast 64 r) = Some (q_of_Z (qval p / d), mk_uint 64 (qval p mod d)).
Proof.
  intros E Hr.
  rewrite <-(Z.div_unique (qval p) d (qval q) r ltac:(lia) E).
  rewrite <-(Z.mod_unique (qval p) d (qval q) r ltac:(lia) E).
  by rewrite q_of_Z_qval.
Qed.

(** [checked_div_rem_u64] is Euclidean division. *)
Lemma checked_div_rem_u64_eq p (d : u64) :
  checked_div_rem_u64 p d =
    if d =? 0 then None
    else Some (q_of_Z (qval p / d), mk_uint 64 (qval p mod d)).
Proof.
  unfold checked_div_rem_u64. pose proof (u64_range d) as Hd.
  destruct (Z.eqb_spec d 0) as [|Hd0]; [done|].
  assert (Hdv := u64_as_u128_val d). set (D := u_cast 128 d) in *.
  pose proof (u128_range (low p)). pose proof (low_chunks (low p)) as (Hsplit & Hhi & Hlo).
  destruct (Z.eqb_spec (high p) 0) as [Eh|Eh].
  - apply div_result; rewrite ?u_rem_val by lia; rewrite <-Hdv; [|apply Z.mod_pos_bound; lia].
    rewrite qval_from_u128, u_div_val by lia. unfold qval. rewrite Eh. apply Z.div_mod. lia.
  - set (r1 := u_rem (high p) D).
    assert (Hr1 : 0 ≤ r1 < D) by (unfold r1; rewrite u_rem_val by lia; apply Z.mod_pos_bound; lia).
    assert (E1 : uval (high p) = D * u_div (high p) D + r1)
      by (unfold r1; rewrite u_div_val, u_rem_val by lia; apply Z.div_mod; lia).
    pose proof (div_step r1 D (u_shr (low p) 64) Hr1 ltac:(lia) Hhi) as (E2 & Hq2 & Hr2).
    set (r2 := u_rem (u_or (u_shl r1 64) (u_shr (low p) 64)) D) in *.
    pose proof (div_step r2 D (u_and (low p) low_mask) Hr2 ltac:(lia) Hlo) as (E3 & Hq3 & Hr3).
    apply div_result; [|lia]. unfold qval; cbn [high low].
    rewrite or_shifted_val by done. rewrite (Z.mod_small (u_div _ _)) by done.
    rewrite Hsplit, E1, <-Hdv. change (2 ^ 128) with (2 ^ 64 * 2 ^ 64).
    clearbody r2. set (q2 := u_div (u_or (u_shl r1 64) _) D) in *.
    set (q3 := u_div (u_or (u_shl r2 64) _) D) in *. nia.
Qed.

Lemma is_multiple_of_eq p (lot : nonzero 64) :
  is_multiple_of p lot = Done (qval p mod lot =? 0).
Proof.
  unfold is_multiple_of. pose proof (nonzero_pos lot) as Hlot.
  destruct (Z.eqb_spec (high p) 0) as [E|E].
  - replace (qval p) with (uval (low p)); [done|]. unfold qval. lia.
  - rewrite checked_div_rem_u64_eq. destruct (Z.eqb_spec lot 0); [lia|]. simpl.
    rewrite mk_uint_small; [done|]. change (Z.of_N 64) with 64.
    pose proof (Z.mod_pos_bound (qval p) lot). pose proof (u64_range lot). lia.
Qed.
