(* ===== verification/Bytes.v ===== *)
(** * Big-endian byte strings

    [uN::to_be_bytes] / [uN::from_be_bytes] of the standard library, as lists of
    [u8], and the fact the stable B-tree maps rely on: on strings of one width
    the byte order is the numeric order. *)

From stdpp Require Import prelude gmap.
From Stdlib Require Import ZArith Lia.
From S2P Require Import Prelude Word.

(** The [n] lowest bytes of [z], most significant first. *)
Fixpoint be_bytes (n : nat) (z : Z) : list u8 :=
  match n with
  | O => []
  | S n => mk_uint 8 (z / 2 ^ (8 * Z.of_nat n)) :: be_bytes n z
  end.

(** The number a byte string spells, most significant byte first. *)
Fixpoint be_val (bs : list u8) : Z :=
  match bs with
  | [] => 0
  | b :: bs => b * 2 ^ (8 * Z.of_nat (length bs)) + be_val bs
  end.

(** The lexicographic order on byte strings. *)
Fixpoint bytes_compare (xs ys : list u8) : comparison :=
  match xs, ys with
  | [], [] => Eq
  | [], _ :: _ => Lt
  | _ :: _, [] => Gt
  | x :: xs, y :: ys =>
      match Z.compare x y with Eq => bytes_compare xs ys | c => c end
  end.

Lemma pow_bytes_S n : 2 ^ (8 * Z.of_nat (S n)) = 2 ^ 8 * 2 ^ (8 * Z.of_nat n).
Proof. rewrite <-Z.pow_add_r by lia. f_equal. lia. Qed.

Lemma pow_bytes_pos n : 0 < 2 ^ (8 * Z.of_nat n).
Proof. apply Z.pow_pos_nonneg; lia. Qed.

Lemma be_bytes_length n z : length (be_bytes n z) = n.
Proof. induction n; simpl; congruence. Qed.

Lemma be_val_range bs : 0 ≤ be_val bs < 2 ^ (8 * Z.of_nat (length bs)).
Proof.
  induction bs as [|b bs IH]; [done|]. cbn [be_val length].
  rewrite pow_bytes_S. pose proof (u8_range b). nia.
Qed.

Lemma be_val_app xs ys :
  be_val (xs ++ ys) = be_val xs * 2 ^ (8 * Z.of_nat (length ys)) + be_val ys.
Proof.
  induction xs as [|x xs IH]; [simpl; lia|]. cbn [be_val app]. rewrite IH, length_app.
  rewrite Nat2Z.inj_add, Z.mul_add_distr_l, Z.pow_add_r by lia. lia.
Qed.

Lemma be_val_bytes n z : be_val (be_bytes n z) = z mod 2 ^ (8 * Z.of_nat n).
Proof.
  induction n as [|n IH]; [by rewrite Z.mod_1_r|]. cbn [be_val be_bytes].
  rewrite be_bytes_length, IH, mk_uint_val, pow_bytes_S. pose proof (pow_bytes_pos n).
  rewrite (Z.mul_comm (2 ^ 8)), Z.rem_mul_r by lia. change (Z.of_N 8) with 8. lia.
Qed.

Lemma be_val_inj xs ys : length xs = length ys → be_val xs = be_val ys → xs = ys.
Proof.
  revert ys; induction xs as [|x xs IH]; intros [|y ys] Hlen E; try done.
  cbn [be_val length] in *. injection Hlen as Hlen. rewrite Hlen in E.
  pose proof (be_val_range xs) as Hx. pose proof (be_val_range ys). rewrite Hlen in Hx.
  assert (uval x = y) by nia. f_equal; [by apply uint_eq|]. apply IH; nia.
Qed.

Lemma be_bytes_val bs n : length bs = n → be_bytes n (be_val bs) = bs.
Proof.
  intros <-. apply be_val_inj; [apply be_bytes_length|].
  rewrite be_val_bytes. apply Z.mod_small, be_val_range.
Qed.

Lemma be_val_replicate_zero n bs : be_val (replicate n (mk_uint 8 0) ++ bs) = be_val bs.
Proof. induction n as [|n IH]; [done|]. cbn [replicate app be_val]. rewrite IH. reflexivity. Qed.

(** The byte order of equally long strings is the order of the numbers they spell. *)
Lemma bytes_compare_val xs ys :
  length xs = length ys → bytes_compare xs ys = Z.compare (be_val xs) (be_val ys).
Proof.
  revert ys; induction xs as [|x xs IH]; intros [|y ys] Hlen; try done.
  cbn [be_val bytes_compare length] in *. injection Hlen as Hlen. rewrite Hlen.
  pose proof (be_val_range xs) as Hx. pose proof (be_val_range ys). rewrite Hlen in Hx.
  destruct (Z.compare_spec x y) as [->|E|E].
  - rewrite IH by done. symmetry. apply Z.add_compare_mono_l.
  - symmetry. apply Z.compare_lt_iff. nia.
  - symmetry. apply Z.compare_gt_iff. nia.
Qed.

Lemma bytes_compare_app xs ys xs' ys' :
  length xs = length ys →
  bytes_compare (xs ++ xs') (ys ++ ys') =
    match bytes_compare xs ys with Eq => bytes_compare xs' ys' | c => c end.
Proof.
  revert ys; induction xs as [|x xs IH]; intros [|y ys] Hlen; try done.
  simpl. destruct (_ ?= _); [apply IH; naive_solver|done..].
Qed.
