(* ===== verification/Cbor.v ===== *)
(** * CBOR

    What the canister writes to stable memory goes through the [minicbor] crate:
    a value is one CBOR data item, and the derived implementations lay the fields
    of a struct or of an enum variant out by the indices the source annotates
    ([#[n(0)]], [#[n(1)]], ...). The crate is a parameter, the class [Minicbor],
    with its documented behaviour as laws; the codecs of the canister's own types
    are built on it from the combinators of this file. An implementation of the
    class after RFC 8949 closes the file. *)

From stdpp Require Import prelude gmap.
From Stdlib Require Import ZArith Lia.
From S2P Require Import Prelude Word Bytes.
Open Scope Z_scope.

(** ** Data items *)

(** [CArray]: an element is an item, or null. *)
Local Unset Elimination Schemes.
Inductive cbor : Type :=
| CUint (n : u64)
| CBytes (bs : list u8)
| CText (s : list u8)
| CArray (items : list (option cbor))
| CTag (tag : u64) (content : cbor)
| CBool (b : bool).
Local Set Elimination Schemes.

Section cbor_ind.
Context (P : cbor → Prop).
Hypothesis P_uint : ∀ n, P (CUint n).
Hypothesis P_bytes : ∀ bs, P (CBytes bs).
Hypothesis P_text : ∀ s, P (CText s).
Hypothesis P_array : ∀ items, Forall (from_option P True) items → P (CArray items).
Hypothesis P_tag : ∀ t c, P c → P (CTag t c).
Hypothesis P_bool : ∀ b, P (CBool b).

Fixpoint cbor_ind (c : cbor) : P c :=
  match c with
  | CUint n => P_uint n
  | CBytes bs => P_bytes bs
  | CText s => P_text s
  | CArray items =>
      P_array items ((fix go items : Forall (from_option P True) items :=
        match items with
        | [] => List.Forall_nil _
        | x :: items =>
            @List.Forall_cons _ (from_option P True) x items
              (match x return from_option P True x with Some c => cbor_ind c | None => I end)
              (go items)
        end) items)
  | CTag t c => P_tag t c (cbor_ind c)
  | CBool b => P_bool b
  end.
End cbor_ind.

(** Every length fits the 64 bits a header has for it. *)
Definition len_fits {A} (l : list A) : bool := Z.of_nat (length l) <? 2 ^ 64.
Fixpoint cbor_fits (c : cbor) : bool :=
  match c with
  | CUint _ | CBool _ => true
  | CBytes bs | CText bs => len_fits bs
  | CArray items =>
      len_fits items &&
      forallb (λ x, match x with Some c => cbor_fits c | None => true end) items
  | CTag _ c => cbor_fits c
  end.
Definition opt_fits (x : option cbor) : bool := from_option cbor_fits true x.

Lemma cbor_fits_array items :
  cbor_fits (CArray items) = len_fits items && forallb opt_fits items.
Proof. done. Qed.

(** ** The crate *)

(** [mc_struct] and [mc_variant] lay fields out by index, an absent [Option] being
    [None]; [mc_field] and [mc_variant_field] are what the derived decoders find at
    an index, nothing when the field is absent. [mc_write] and [mc_read] are
    [minicbor::encode] and [minicbor::decode] between items and bytes. *)
Class Minicbor : Type := {
  mc_struct : list (option cbor) → cbor;
  mc_field : cbor → nat → option cbor;
  mc_variant : u32 → list (option cbor) → cbor;
  mc_variant_index : cbor → option u32;
  mc_variant_field : cbor → nat → option cbor;
  mc_write : cbor → list u8;
  mc_read : list u8 → option cbor;
  mc_field_struct fs i : mc_field (mc_struct fs) i = mjoin (fs !! i);
  mc_variant_index_variant k fs : mc_variant_index (mc_variant k fs) = Some k;
  mc_variant_field_variant k fs i : mc_variant_field (mc_variant k fs) i = mjoin (fs !! i);
  mc_struct_fits fs : len_fits fs → forallb opt_fits fs → cbor_fits (mc_struct fs);
  mc_variant_fits k fs : len_fits fs → forallb opt_fits fs → cbor_fits (mc_variant k fs);
  mc_read_write c : cbor_fits c → mc_read (mc_write c) = Some c;
  mc_write_nonempty c : mc_write c ≠ []
}.

(** ** Codecs *)

(** [minicbor::Encode] and [minicbor::Decode] of a type, the second reading back
    what the first wrote. *)
Record Codec (A : Type) : Type := MkCodec {
  c_enc : A → cbor;
  c_dec : cbor → option A;
  c_ok a : c_dec (c_enc a) = Some a
}.
Arguments MkCodec {A} c_enc c_dec c_ok.
Arguments c_enc {A} c a.
Arguments c_dec {A} c x.
Arguments c_ok {A} c a.

Lemma c_enc_inj {A} (c : Codec A) a b : c_enc c a = c_enc c b → a = b.
Proof. intros E. pose proof (c_ok c a) as Ha. rewrite E, c_ok in Ha. congruence. Qed.

(** A codec of another representation of the type. *)
Program Definition c_iso {A B} (c : Codec A) (to : B → A) (from : A → option B)
    (inv : ∀ b, from (to b) = Some b) : Codec B :=
  MkCodec (λ b, c_enc c (to b)) (λ x, c_dec c x ≫= from) _.
Next Obligation. intros A B c to from inv b. cbn. rewrite c_ok. apply inv. Qed.

(** [u8], [u16], [u32] and [u64] are written as unsigned integers; a narrower type
    refuses a number it cannot hold. *)
Definition enc_uint {w} (n : uint w) : cbor := CUint (u_cast 64 n).
Definition dec_uint {w} (x : cbor) : option (uint w) :=
  match x with CUint n => checked w n | _ => None end.
Lemma dec_enc_uint {w} (Hw : (w <=? 64)%N = true) (a : uint w) : dec_uint (enc_uint a) = Some a.
Proof.
  cbn. apply checked_Some. pose proof (uint_range a) as [Ha Hlt]. apply N.leb_le in Hw.
  unfold u_cast. symmetry. apply mk_uint_small. split; [done|].
  eapply Z.lt_le_trans; [exact Hlt|]. apply Z.pow_le_mono_r; lia.
Qed.
Definition c_uint (w : N) (Hw : (w <=? 64)%N = true) : Codec (uint w) :=
  MkCodec enc_uint dec_uint (dec_enc_uint Hw).
Definition c_u8 : Codec u8 := c_uint 8 eq_refl.
Definition c_u16 : Codec u16 := c_uint 16 eq_refl.
Definition c_u32 : Codec u32 := c_uint 32 eq_refl.
Definition c_u64 : Codec u64 := c_uint 64 eq_refl.

Definition dec_bool (x : cbor) : option bool :=
  match x with CBool b => Some b | _ => None end.
Definition c_bool : Codec bool := MkCodec CBool dec_bool (λ _, eq_refl).

(** [String]. *)
Definition dec_text (x : cbor) : option (list u8) :=
  match x with CText s => Some s | _ => None end.
Definition c_text : Codec (list u8) := MkCodec CText dec_text (λ _, eq_refl).

(** [Vec<T>]. *)
Definition enc_vec {A} (c : Codec A) (l : list A) : cbor := CArray ((λ a, Some (c_enc c a)) <$> l).
Definition dec_vec {A} (c : Codec A) (x : cbor) : option (list A) :=
  match x with CArray items => mapM (λ o : option cbor, o ≫= c_dec c) items | _ => None end.
Lemma dec_enc_vec {A} (c : Codec A) l : dec_vec c (enc_vec c l) = Some l.
Proof.
  cbn. induction l as [|a l IH]; [done|].
  rewrite fmap_cons. cbn. rewrite c_ok. cbn. by rewrite IH.
Qed.
Definition c_vec {A} (c : Codec A) : Codec (list A) :=
  MkCodec (enc_vec c) (dec_vec c) (dec_enc_vec c).

Section derive.
Context `{Minicbor}.

(** *** Fields *)

(** A sequence of fields, from some index on: their items, and how they are read
    from what is found at the indices. *)
Record Fields (A : Type) : Type := MkFields {
  f_width : nat;
  f_enc : A → list (option cbor);
  f_dec : (nat → option cbor) → option A;
  f_width_ok a : length (f_enc a) = f_width;
  f_ok a get : (∀ j, get j = mjoin (f_enc a !! j)) → f_dec get = Some a
}.
Arguments MkFields {A} f_width f_enc f_dec f_width_ok f_ok.
Arguments f_width {A} f.
Arguments f_enc {A} f a.
Arguments f_dec {A} f get.
Arguments f_width_ok {A} f a.
Arguments f_ok {A} f a get.

Program Definition f_nil : Fields () := MkFields 0 (λ _, []) (λ _, Some ()) _ _.
Next Obligation. done. Qed.
Next Obligation. by intros []. Qed.

(** A field that has to be there. *)
Program Definition f_cons {A B} (c : Codec A) (fs : Fields B) : Fields (A * B) :=
  MkFields (S (f_width fs)) (λ p, Some (c_enc c p.1) :: f_enc fs p.2)
    (λ get, let? x := get 0%nat in let? a := c_dec c x in
            let? b := f_dec fs (λ j, get (S j)) in Some (a, b)) _ _.
Next Obligation. intros A B c fs [a b]. cbn. by rewrite f_width_ok. Qed.
Next Obligation.
  intros A B c fs [a b] get Hget. cbn in *. rewrite (Hget 0%nat). cbn. rewrite c_ok.
  rewrite (f_ok fs b); [done|]. intros j. apply (Hget (S j)).
Qed.

(** An [Option] field: nothing is written for [None]. *)
Program Definition f_opt {A B} (c : Codec A) (fs : Fields B) : Fields (option A * B) :=
  MkFields (S (f_width fs)) (λ p, (c_enc c <$> p.1) :: f_enc fs p.2)
    (λ get, let? a := match get 0%nat with
                      | None => Some None
                      | Some x => Some <$> c_dec c x
                      end in
            let? b := f_dec fs (λ j, get (S j)) in Some (a, b)) _ _.
Next Obligation. intros A B c fs [a b]. cbn. by rewrite f_width_ok. Qed.
Next Obligation.
  intros A B c fs [a b] get Hget. cbn in *. rewrite (Hget 0%nat).
  rewrite (f_ok fs b) by (intros j; apply (Hget (S j))).
  destruct a as [a|]; cbn; [|done]. by rewrite c_ok.
Qed.

(** [#[derive(Encode, Decode)]] of a struct. *)
Program Definition c_struct {A B} (fs : Fields A) (to : B → A) (from : A → B)
    (inv : ∀ b, from (to b) = b) : Codec B :=
  MkCodec (λ b, mc_struct (f_enc fs (to b))) (λ x, from <$> f_dec fs (mc_field x)) _.
Next Obligation.
  intros A B fs to from inv b. cbn. rewrite (f_ok fs (to b)).
  - cbn. by rewrite inv.
  - intros j. apply mc_field_struct.
Qed.

(** A struct with one unnamed field. *)
Definition c_newtype {A B} (c : Codec A) (to : B → A) (from : A → B)
    (inv : ∀ b, from (to b) = b) : Codec B :=
  c_struct (f_cons c f_nil) (λ b, (to b, ())) (λ p, from p.1) inv.

(** *** Variants *)

Record Variants (A : Type) : Type := MkVariants {
  v_indices : list u32;
  v_enc : A → u32 * list (option cbor);
  v_dec : u32 → (nat → option cbor) → option A;
  v_known a : (v_enc a).1 ∈ v_indices;
  v_ok a get : (∀ j, get j = mjoin ((v_enc a).2 !! j)) → v_dec (v_enc a).1 get = Some a
}.
Arguments MkVariants {A} v_indices v_enc v_dec v_known v_ok.
Arguments v_indices {A} v.
Arguments v_enc {A} v a.
Arguments v_dec {A} v k get.
Arguments v_known {A} v a.
Arguments v_ok {A} v a get.

Program Definition v_nil : Variants Empty_set :=
  MkVariants [] (λ a, match a with end) (λ _ _, None) _ _.
Next Obligation. by intros []. Qed.
Next Obligation. by intros []. Qed.

(** The variant annotated with index [k], which no other one has. *)
Definition fresh_index (k : u32) (ks : list u32) : bool := forallb (λ j : u32, negb (j =? k)) ks.
Lemma fresh_index_spec k ks : fresh_index k ks = true → k ∉ ks.
Proof.
  unfold fresh_index. rewrite forallb_forall. intros Hf Hin%list_elem_of_In.
  specialize (Hf k Hin). by rewrite Z.eqb_refl in Hf.
Qed.

Program Definition v_cons {A B} (k : u32) (fs : Fields A) (vs : Variants B)
    (fresh : fresh_index k (v_indices vs) = true) : Variants (A + B) :=
  MkVariants (k :: v_indices vs)
    (λ x, match x with inl a => (k, f_enc fs a) | inr b => v_enc vs b end)
    (λ i get, if bool_decide (i = k) then inl <$> f_dec fs get else inr <$> v_dec vs i get) _ _.
Next Obligation. intros A B k fs vs fresh [a|b]; [left|right; apply v_known]. Qed.
Next Obligation.
  intros A B k fs vs fresh [a|b] get Hget; cbn in *.
  - rewrite bool_decide_eq_true_2 by done. by rewrite (f_ok fs a).
  - apply fresh_index_spec in fresh. rewrite bool_decide_eq_false_2.
    + by rewrite (v_ok vs b).
    + intros E. apply fresh. rewrite <- E. apply v_known.
Qed.

(** [#[derive(Encode, Decode)]] of an enum. *)
Program Definition c_enum {A B} (vs : Variants A) (to : B → A) (from : A → B)
    (inv : ∀ b, from (to b) = b) : Codec B :=
  MkCodec (λ b, mc_variant (v_enc vs (to b)).1 (v_enc vs (to b)).2)
    (λ x, let? k := mc_variant_index x in from <$> v_dec vs k (mc_variant_field x)) _.
Next Obligation.
  intros A B vs to from inv b. cbn. rewrite mc_variant_index_variant. cbn. rewrite (v_ok vs (to b)).
  - cbn. by rewrite inv.
  - intros j. apply mc_variant_field_variant.
Qed.

(** *** Encodings that always fit *)

(** Types without strings and vectors: no length is ever written. *)
Class CodecFits {A} (c : Codec A) : Prop := codec_fits a : cbor_fits (c_enc c a).
Class FieldsFit {A} (fs : Fields A) : Prop := fields_fit a : forallb opt_fits (f_enc fs a).
Class VariantsFit {A} (vs : Variants A) : Prop :=
  variants_fit a : len_fits (v_enc vs a).2 ∧ forallb opt_fits (v_enc vs a).2.

#[export] Instance uint_fits w Hw : CodecFits (c_uint w Hw).
Proof. done. Qed.
#[export] Instance bool_fits : CodecFits c_bool.
Proof. done. Qed.
#[export] Instance iso_fits {A B} (c : Codec A) to from (inv : ∀ b : B, from (to b) = Some b) :
  CodecFits c → CodecFits (c_iso c to from inv).
Proof. intros Hc b. apply (Hc (to b)). Qed.
#[export] Instance nil_fits : FieldsFit f_nil.
Proof. done. Qed.
#[export] Instance cons_fits {A B} (c : Codec A) (fs : Fields B) :
  CodecFits c → FieldsFit fs → FieldsFit (f_cons c fs).
Proof. intros Hc Hf [a b]. cbn. apply andb_True. split; [apply Hc|apply Hf]. Qed.
#[export] Instance opt_fits_ {A B} (c : Codec A) (fs : Fields B) :
  CodecFits c → FieldsFit fs → FieldsFit (f_opt c fs).
Proof. intros Hc Hf [[a|] b]; cbn; [apply andb_True; split; [apply Hc|]|]; apply Hf. Qed.
#[export] Instance struct_fits {A B} (fs : Fields A) to from (inv : ∀ b : B, from (to b) = b) :
  TCEq (Z.of_nat (f_width fs) <? 2 ^ 64) true → FieldsFit fs → CodecFits (c_struct fs to from inv).
Proof.
  rewrite TCEq_eq. intros Hw Hf b. apply mc_struct_fits; [|apply Hf].
  unfold len_fits. by rewrite f_width_ok, Hw.
Qed.
#[export] Instance newtype_fits {A B} (c : Codec A) to from (inv : ∀ b : B, from (to b) = b) :
  CodecFits c → CodecFits (c_newtype c to from inv).
Proof. intros Hc. unfold c_newtype. apply struct_fits; [done|apply _]. Qed.
#[export] Instance v_nil_fits : VariantsFit v_nil.
Proof. by intros []. Qed.
#[export] Instance v_cons_fits {A B} k (fs : Fields A) (vs : Variants B) fresh :
  TCEq (Z.of_nat (f_width fs) <? 2 ^ 64) true → FieldsFit fs → VariantsFit vs →
  VariantsFit (v_cons k fs vs fresh).
Proof.
  rewrite TCEq_eq. intros Hw Hf Hv [a|b]; [|apply Hv]. split; [|apply Hf].
  unfold len_fits. cbn. by rewrite f_width_ok, Hw.
Qed.
#[export] Instance enum_fits {A B} (vs : Variants A) to from (inv : ∀ b : B, from (to b) = b) :
  VariantsFit vs → CodecFits (c_enum vs to from inv).
Proof. intros Hv b. destruct (Hv (to b)). by apply mc_variant_fits. Qed.
End derive.
Arguments MkFields {A} f_width f_enc f_dec f_width_ok f_ok.
Arguments f_width {A} f.
Arguments f_enc {A} f a.
Arguments f_dec {A} f get.
Arguments MkVariants {A} v_indices v_enc v_dec v_known v_ok.
Arguments v_indices {A} v.
Arguments v_enc {A} v a.
Arguments v_dec {A} v k get.

(** ** RFC 8949 *)

Module Rfc8949.

(** The header of an item: its major type, and its argument in the shortest form. *)
Definition head (major n : Z) : list u8 :=
  if n <? 24 then [mk_uint 8 (major * 32 + n)]
  else if n <? 2 ^ 8 then mk_uint 8 (major * 32 + 24) :: be_bytes 1 n
  else if n <? 2 ^ 16 then mk_uint 8 (major * 32 + 25) :: be_bytes 2 n
  else if n <? 2 ^ 32 then mk_uint 8 (major * 32 + 26) :: be_bytes 4 n
  else mk_uint 8 (major * 32 + 27) :: be_bytes 8 n.

Definition null : u8 := mk_uint 8 246.

Fixpoint write (c : cbor) : list u8 :=
  match c with
  | CUint n => head 0 n
  | CBytes bs => head 2 (Z.of_nat (length bs)) ++ bs
  | CText s => head 3 (Z.of_nat (length s)) ++ s
  | CArray items =>
      head 4 (Z.of_nat (length items)) ++
      concat ((λ x, match x with Some c => write c | None => [null] end) <$> items)
  | CTag t c => head 6 t ++ write c
  | CBool b => [mk_uint 8 (if b then 245 else 244)]
  end.
Definition write_opt (x : option cbor) : list u8 :=
  match x with Some c => write c | None => [null] end.

(** The argument of a header with the given low bits. *)
Definition read_be (n : nat) (bs : list u8) : option (u64 * list u8) :=
  if (length bs <? n)%nat then None else Some (mk_uint 64 (be_val (take n bs)), drop n bs).
Definition read_arg (info : Z) (bs : list u8) : option (u64 * list u8) :=
  if info <? 24 then Some (mk_uint 64 info, bs)
  else if info =? 24 then read_be 1 bs
  else if info =? 25 then read_be 2 bs
  else if info =? 26 then read_be 4 bs
  else if info =? 27 then read_be 8 bs
  else None.
Definition read_string (n : u64) (bs : list u8) : option (list u8 * list u8) :=
  if Z.of_nat (length bs) <? n then None
  else Some (take (Z.to_nat n) bs, drop (Z.to_nat n) bs).

(** An item or null, and what follows it. *)
Fixpoint read_item (fuel : nat) (bs : list u8) : option (option cbor * list u8) :=
  match fuel, bs with
  | S fuel, b :: bs =>
      if uval b =? 244 then Some (Some (CBool false), bs)
      else if uval b =? 245 then Some (Some (CBool true), bs)
      else if uval b =? 246 then Some (None, bs)
      else
        let? (n, bs) := read_arg (b mod 32) bs in
        match uval b / 32 with
        | 0 => Some (Some (CUint n), bs)
        | 2 => let? (s, bs) := read_string n bs in Some (Some (CBytes s), bs)
        | 3 => let? (s, bs) := read_string n bs in Some (Some (CText s), bs)
        | 4 => let? (items, bs) := read_items fuel n bs in Some (Some (CArray items), bs)
        | 6 => let? (c, bs) := read_item fuel bs in
               let? c := c in Some (Some (CTag n c), bs)
        | _ => None
        end
  | _, _ => None
  end
with read_items (fuel : nat) (n : Z) (bs : list u8) : option (list (option cbor) * list u8) :=
  match fuel with
  | O => None
  | S fuel =>
      if n =? 0 then Some ([], bs) else
      let? (x, bs) := read_item fuel bs in
      let? (items, bs) := read_items fuel (n - 1) bs in
      Some (x :: items, bs)
  end.

(** Every item of the text and every step of a list takes one unit of fuel. *)
Definition read (bs : list u8) : option cbor :=
  match read_item (2 * length bs) bs with Some (Some c, _) => Some c | _ => None end.

Lemma read_be_bytes n z bs :
  (n ≤ 8)%nat → 0 ≤ z < 2 ^ (8 * Z.of_nat n) →
  read_be n (be_bytes n z ++ bs) = Some (mk_uint 64 z, bs).
Proof.
  intros Hn Hz. unfold read_be. rewrite length_app, be_bytes_length.
  destruct (Nat.ltb_spec (n + length bs) n); [lia|].
  rewrite take_app_length', drop_app_length' by (by rewrite be_bytes_length).
  by rewrite be_val_bytes, Z.mod_small.
Qed.

(** Reading a header: its first byte is none of the simple values, it names the
    major type, and the argument is read back. *)
Lemma read_head major (n : u64) bs :
  0 ≤ major < 7 →
  ∃ (b : u8) hd, head major n = b :: hd ∧ uval b < 244 ∧ uval b / 32 = major ∧
    read_arg (b mod 32) (hd ++ bs) = Some (n, bs).
Proof.
  intros Hm. pose proof (uint_range n) as Hn. change (Z.of_N 64) with 64 in Hn.
  assert (Hb : ∀ k, 0 ≤ k < 32 → uval (mk_uint 8 (major * 32 + k)) = major * 32 + k)
    by (intros k Hk; apply mk_uint_small; change (Z.of_N 8) with 8; lia).
  assert (Hd : ∀ k, 0 ≤ k < 32 → (major * 32 + k) / 32 = major ∧ (major * 32 + k) mod 32 = k).
  { intros k Hk. rewrite Z.add_comm, Z.div_add, Z.mod_add by lia.
    rewrite Z.div_small, Z.mod_small by lia. lia. }
  assert (Hw : ∀ k info, (k ≤ 8)%nat → 24 ≤ info < 32 → 0 ≤ n < 2 ^ (8 * Z.of_nat k) →
    (∀ bs, read_arg info bs = read_be k bs) →
    ∃ (b : u8) hd, mk_uint 8 (major * 32 + info) :: be_bytes k n = b :: hd ∧ uval b < 244 ∧
      uval b / 32 = major ∧ read_arg (b mod 32) (hd ++ bs) = Some (n, bs)).
  { intros k info Hk Hi Hr Hread. eexists _, _. split; [done|]. rewrite Hb by lia.
    destruct (Hd info ltac:(lia)) as [-> ->]. split_and!; [lia|done|].
    by rewrite Hread, read_be_bytes, mk_uint_uval. }
  unfold head. destruct (Z.ltb_spec n 24) as [H24|_].
  { eexists _, _. split; [done|]. rewrite Hb by lia. destruct (Hd n ltac:(lia)) as [-> ->].
    split_and!; [lia|done|]. unfold read_arg. rewrite (proj2 (Z.ltb_lt _ _)) by lia.
    simpl. by rewrite mk_uint_uval. }
  destruct (Z.ltb_spec n (2 ^ 8)); [by apply Hw; [lia..|]|].
  destruct (Z.ltb_spec n (2 ^ 16)); [by apply Hw; [lia..|]|].
  destruct (Z.ltb_spec n (2 ^ 32)); by apply Hw; [lia..|].
Qed.

Lemma head_nonempty major n : (1 ≤ length (head major n))%nat.
Proof. unfold head. repeat case_match; simpl; lia. Qed.

Lemma write_nonempty c : (1 ≤ length (write c))%nat.
Proof.
  destruct c; cbn [write]; rewrite ?length_app; try (pose proof (head_nonempty 0 n); lia);
    try (simpl; lia).
  - pose proof (head_nonempty 2 (Z.of_nat (length bs))). lia.
  - pose proof (head_nonempty 3 (Z.of_nat (length s))). lia.
  - pose proof (head_nonempty 4 (Z.of_nat (length items))). lia.
  - pose proof (head_nonempty 6 tag). lia.
Qed.

(** What follows a header is read by its major type. *)
Lemma read_item_head fuel major (n : u64) bs :
  0 ≤ major < 7 →
  read_item (S fuel) (head major n ++ bs) =
    match major with
    | 0 => Some (Some (CUint n), bs)
    | 2 => let? (s, bs) := read_string n bs in Some (Some (CBytes s), bs)
    | 3 => let? (s, bs) := read_string n bs in Some (Some (CText s), bs)
    | 4 => let? (items, bs) := read_items fuel n bs in Some (Some (CArray items), bs)
    | 6 => let? (c, bs) := read_item fuel bs in let? c := c in Some (Some (CTag n c), bs)
    | _ => None
    end.
Proof.
  intros Hm. destruct (read_head major n bs Hm) as (b & hd & -> & Hb & Hmaj & Harg).
  cbn [app read_item].
  destruct (Z.eqb_spec b 244); [lia|]. destruct (Z.eqb_spec b 245); [lia|].
  destruct (Z.eqb_spec b 246); [lia|]. rewrite Harg, Hmaj. done.
Qed.

(** The length of a list as the argument of a header. *)
Lemma len_arg {A} (l : list A) :
  len_fits l → uval (mk_uint 64 (Z.of_nat (length l))) = Z.of_nat (length l).
Proof.
  unfold len_fits. intros Hs%Is_true_true%Z.ltb_lt.
  apply mk_uint_small. change (Z.of_N 64) with 64. lia.
Qed.

Lemma read_string_app (s : list u8) bs :
  len_fits s → read_string (mk_uint 64 (Z.of_nat (length s))) (s ++ bs) = Some (s, bs).
Proof.
  intros Hs. unfold read_string. rewrite len_arg, length_app by done.
  destruct (Z.ltb_spec (Z.of_nat (length s + length bs)) (Z.of_nat (length s))); [lia|].
  by rewrite Nat2Z.id, take_app_length, drop_app_length.
Qed.

Definition reads (c : cbor) : Prop := cbor_fits c → ∀ fuel bs,
  (2 * length (write c) ≤ fuel)%nat → read_item fuel (write c ++ bs) = Some (Some c, bs).

Lemma read_items_write items bs : ∀ fuel,
  Forall (from_option reads True) items → forallb opt_fits items →
  (2 * length (concat (write_opt <$> items)) < fuel)%nat →
  read_items fuel (Z.of_nat (length items)) (concat (write_opt <$> items) ++ bs) = Some (items, bs).
Proof.
  induction items as [|x items IH]; intros fuel Hr Hf Hfuel; (destruct fuel as [|fuel]; [lia|]);
    [done|].
  apply Forall_cons in Hr as [Hx Hr]. cbn [forallb] in Hf. apply andb_True in Hf as [Hfx Hf].
  rewrite fmap_cons in *. cbn [concat] in *. rewrite length_app in Hfuel.
  cbn [read_items length]. destruct (Z.eqb_spec (Z.of_nat (S (length items))) 0); [lia|].
  replace (Z.of_nat (S (length items)) - 1) with (Z.of_nat (length items)) by lia.
  assert (Ex : read_item fuel ((write_opt x ++ concat (write_opt <$> items)) ++ bs) =
    Some (x, concat (write_opt <$> items) ++ bs) ∧ (1 ≤ length (write_opt x))%nat).
  { rewrite <- app_assoc. destruct x as [c|]; cbn [write_opt] in *.
    - pose proof (write_nonempty c). split; [apply Hx; [done|lia]|done].
    - cbn [length] in *. destruct fuel as [|fuel]; [lia|]. done. }
  destruct Ex as [-> Hlen]. cbn [obind]. rewrite IH by (done || lia). done.
Qed.

Lemma read_item_write c : reads c.
Proof.
  induction c as [n|s|s|items IH|t c IH|b] using cbor_ind; intros Hf fuel bs Hfuel;
    match type of Hfuel with (2 * length ?l ≤ _)%nat =>
      assert (1 ≤ length l)%nat by apply write_nonempty end;
    (destruct fuel as [|fuel]; [lia|]); cbn [write] in *; rewrite ?length_app in Hfuel.
  - by apply read_item_head.
  - rewrite <- app_assoc, <- len_arg, read_item_head by (done || lia).
    rewrite read_string_app by done. done.
  - rewrite <- app_assoc, <- len_arg, read_item_head by (done || lia).
    rewrite read_string_app by done. done.
  - rewrite cbor_fits_array in Hf. apply andb_True in Hf as [Hl Hf].
    pose proof (head_nonempty 4 (Z.of_nat (length items))).
    rewrite <- app_assoc, <- len_arg, read_item_head by (done || lia). rewrite len_arg by done.
    change (λ x, match x with Some c => write c | None => [null] end) with write_opt in *.
    rewrite read_items_write by (done || lia). done.
  - pose proof (head_nonempty 6 t). rewrite <- app_assoc, read_item_head by lia.
    rewrite IH by (done || lia). done.
  - by destruct b.
Qed.

Lemma read_write c : cbor_fits c → read (write c) = Some c.
Proof.
  intros Hc. unfold read. rewrite <- (app_nil_r (write c)) at 2.
  by rewrite read_item_write.
Qed.

(** The derived layout: an array of the fields, the absent ones at its end left out;
    an enum is the array of its index and its fields. *)
Fixpoint strip (fs : list (option cbor)) : list (option cbor) :=
  match fs with
  | [] => []
  | x :: fs => match x, strip fs with None, [] => [] | x, fs => x :: fs end
  end.

Lemma strip_lookup fs : ∀ i, mjoin (strip fs !! i) = mjoin (fs !! i).
Proof.
  induction fs as [|x fs IH]; intros i; [done|]. cbn [strip].
  destruct x as [c|]; [destruct i; [done|apply IH]|].
  destruct (strip fs) as [|y l] eqn:E; [|destruct i; [done|apply IH]].
  destruct i; [done|]. rewrite lookup_nil. cbn. by rewrite <- IH, lookup_nil.
Qed.

Lemma strip_fits fs : forallb opt_fits fs → forallb opt_fits (strip fs).
Proof.
  induction fs as [|x fs IH]; [done|]. cbn [forallb strip]. intros [Hx Hf]%andb_True.
  specialize (IH Hf). revert IH Hx.
  destruct x; [|destruct (strip fs)]; cbn [forallb]; rewrite ?andb_True; tauto.
Qed.

Lemma strip_length fs : (length (strip fs) ≤ length fs)%nat.
Proof.
  induction fs as [|x fs IH]; [done|]. cbn [strip length].
  destruct x; [|destruct (strip fs)]; cbn [length] in *; lia.
Qed.

Definition elements (c : cbor) : list (option cbor) :=
  match c with CArray items => items | _ => [] end.
Definition struct_ (fs : list (option cbor)) : cbor := CArray (strip fs).
Definition field (c : cbor) (i : nat) : option cbor := mjoin (elements c !! i).
Definition variant (k : u32) (fs : list (option cbor)) : cbor :=
  CArray [Some (CUint (u_cast 64 k)); Some (struct_ fs)].
Definition variant_index (c : cbor) : option u32 :=
  let? x := field c 0 in match x with CUint n => checked 32 n | _ => None end.
Definition variant_field (c : cbor) (i : nat) : option cbor :=
  let? x := field c 1 in field x i.

Lemma struct_fits fs : len_fits fs → forallb opt_fits fs → cbor_fits (struct_ fs).
Proof.
  intros Hl Hf. unfold struct_. rewrite cbor_fits_array. apply andb_True.
  split; [|by apply strip_fits]. revert Hl. unfold len_fits. pose proof (strip_length fs).
  rewrite !Is_true_true, !Z.ltb_lt. lia.
Qed.

#[export] Program Instance minicbor : Minicbor := {|
  mc_struct := struct_;
  mc_field := field;
  mc_variant := variant;
  mc_variant_index := variant_index;
  mc_variant_field := variant_field;
  mc_write := write;
  mc_read := read
|}.
Next Obligation. intros fs i. apply strip_lookup. Qed.
Next Obligation. intros k fs. apply (c_ok c_u32). Qed.
Next Obligation. intros k fs i. apply strip_lookup. Qed.
Next Obligation. apply struct_fits. Qed.
Next Obligation.
  intros k fs Hl Hf. unfold variant. rewrite cbor_fits_array. cbn [forallb opt_fits from_option].
  pose proof (struct_fits fs Hl Hf). rewrite !andb_True. done.
Qed.
Next Obligation. apply read_write. Qed.
Next Obligation. intros c E. pose proof (write_nonempty c) as Hc. rewrite E in Hc. simpl in Hc. lia. Qed.
End Rfc8949.
