(* ===== verification/QuantityCodec.v ===== *)
(** * Conversions of [Quantity] (src/canister/src/order/mod.rs, cbor/mod.rs)

    Big-endian bytes, candid [Nat]s and CBOR. The big-integer library behind
    [Nat] is a parameter, [BigUint]; CBOR is modelled at the level of data items,
    what the calls of the source on the [minicbor] encoder and decoder write and read. *)

From stdpp Require Import prelude gmap.
From Stdlib Require Import ZArith Lia.
From S2P Require Import Prelude Word Bytes Cbor Quantity.

(** ** Bytes *)

Definition to_be_bytes (self : Quantity) : list u8 :=
  be_bytes 16 (high self) ++ be_bytes 16 (low self).

Definition from_be_bytes (bytes : list u8) : option Quantity :=
  if (32 <? length bytes)%nat then None else
  let buf := replicate (32 - length bytes) (mk_uint 8 0) ++ bytes in
  Some (MkQuantity (mk_uint 128 (be_val (take 16 buf)))
                   (mk_uint 128 (be_val (drop 16 buf)))).

(** ** Candid [Nat] *)

(** The part of [num_bigint::BigUint] the conversions call, on the numbers it
    represents, with its documented behaviour: [bits] is the length of the binary
    representation, [to_bytes_be] is the shortest big-endian byte string (one byte
    for zero). *)
Class BigUint : Type := {
  big_bits : N → Z;
  big_to_bytes_be : N → list u8;
  big_from_bytes_be : list u8 → N;
  big_bits_spec n k : 0 ≤ k → big_bits n ≤ k ↔ Z.of_N n < 2 ^ k;
  big_to_bytes_be_val n : be_val (big_to_bytes_be n) = Z.of_N n;
  big_to_bytes_be_short n k :
    (0 < k)%nat → Z.of_N n < 2 ^ (8 * Z.of_nat k) → (length (big_to_bytes_be n) ≤ k)%nat;
  big_from_bytes_be_val bs : Z.of_N (big_from_bytes_be bs) = be_val bs
}.

Inductive QuantityOverflowError : Type := MkQuantityOverflowError.

Section nat.
Context `{BigUint}.

Definition to_nat (self : Quantity) : N :=
  if high self =? 0 then Z.to_N (low self)
  else big_from_bytes_be (to_be_bytes self).

Definition try_from_nat (value : N) : result Quantity QuantityOverflowError :=
  if 256 <? big_bits value then Err MkQuantityOverflowError
  else ok_or (from_be_bytes (big_to_bytes_be value)) MkQuantityOverflowError.
End nat.

(** ** CBOR *)

(** Tag 2 of RFC 8949. *)
Definition PosBignum : u64 := mk_uint 64 2.

Inductive cbor_error : Type := TypeMismatch | Message.

(** [Decoder::u64], [Decoder::tag], [Decoder::bytes], on a decoder before an item:
    the value, or an error; after a tag the decoder is before the tagged item. *)
Definition d_u64 (d : cbor) : result u64 cbor_error :=
  match d with CUint n => Ok n | _ => Err TypeMismatch end.
Definition d_tag (d : cbor) : result (u64 * cbor) cbor_error :=
  match d with CTag t d => Ok (t, d) | _ => Err TypeMismatch end.
Definition d_bytes (d : cbor) : result (list u8) cbor_error :=
  match d with CBytes bs => Ok bs | _ => Err TypeMismatch end.

(** [buf.iter().position(|&b| b != 0).unwrap_or(buf.len())]. *)
Fixpoint leading_zeros (buf : list u8) : nat :=
  match buf with
  | [] => 0
  | b :: buf => if b =? 0 then S (leading_zeros buf) else 0
  end.

Definition encode (self : Quantity) : cbor :=
  if (high self =? 0) && (low self <=? uint_max 64) then CUint (u_cast 64 (low self))
  else
    let buf := to_be_bytes self in
    CTag PosBignum (CBytes (drop (leading_zeros buf) buf)).

Definition decode (d : cbor) : result Quantity cbor_error :=
  match d_u64 d with
  | Ok n => Ok (from_u64 n)
  | Err TypeMismatch =>
      match d_tag d with
      | Err e => Err e
      | Ok (tag, d) =>
          if negb (bool_decide (tag = PosBignum)) then Err Message else
          match d_bytes d with
          | Err e => Err e
          | Ok bytes => ok_or (from_be_bytes bytes) Message
          end
      end
  | Err e => Err e
  end.

(** The [u128] and [NonZeroU128] codecs layered on it. *)
Definition encode_u128 (v : u128) : cbor := encode (from_u128 v).
Definition decode_u128 (d : cbor) : result u128 cbor_error :=
  match decode d with Ok q => ok_or (as_u128 q) Message | Err e => Err e end.

Definition encode_non_zero_u128 (v : nonzero 128) : cbor := encode_u128 v.
Definition decode_non_zero_u128 (d : cbor) : result (nonzero 128) cbor_error :=
  match decode_u128 d with Ok v => ok_or (nz_new v) Message | Err e => Err e end.

Definition encode_non_zero_u64 (v : nonzero 64) : cbor := CUint v.
Definition decode_non_zero_u64 (d : cbor) : result (nonzero 64) cbor_error :=
  match d_u64 d with Ok v => ok_or (nz_new v) Message | Err e => Err e end.

(** ** Round trips *)

Lemma to_be_bytes_length q : length (to_be_bytes q) = 32%nat.
Proof. unfold to_be_bytes. by rewrite length_app, !be_bytes_length. Qed.

Lemma to_be_bytes_val q : be_val (to_be_bytes q) = qval q.
Proof.
  unfold to_be_bytes, qval. rewrite be_val_app, !be_val_bytes, be_bytes_length.
  change (8 * Z.of_nat 16) with 128. rewrite !Z.mod_small by apply u128_range. done.
Qed.

(** Decoding reads the number the bytes spell, and fails exactly beyond 32 bytes. *)
Lemma from_be_bytes_eq bs :
  from_be_bytes bs = if (32 <? length bs)%nat then None else Some (q_of_Z (be_val bs)).
Proof.
  unfold from_be_bytes. destruct (Nat.ltb_spec 32 (length bs)) as [|Hlen]; [done|]. f_equal.
  rewrite <-(be_val_replicate_zero (32 - length bs) bs).
  set (buf := replicate _ _ ++ bs).
  assert (Hbuf : length buf = 32%nat) by (unfold buf; rewrite length_app, length_replicate; lia).
  clearbody buf. clear bs Hlen.
  rewrite <-(take_drop 16 buf) at 3. rewrite be_val_app, length_drop, Hbuf.
  change (8 * Z.of_nat (32 - 16)) with 128.
  pose proof (be_val_range (take 16 buf)) as H1. pose proof (be_val_range (drop 16 buf)) as H2.
  rewrite length_take in H1. rewrite length_drop in H2. rewrite Hbuf in H1, H2.
  change (8 * Z.of_nat (16 `min` 32)) with 128 in H1.
  change (8 * Z.of_nat (32 - 16)) with 128 in H2.
  apply qval_inj. rewrite q_of_Z_val by (change (2 ^ 256) with (2 ^ 128 * 2 ^ 128); nia).
  unfold qval; cbn [high low]. rewrite !mk_uint_small by done. done.
Qed.

Lemma from_to_be_bytes q : from_be_bytes (to_be_bytes q) = Some q.
Proof.
  rewrite from_be_bytes_eq, to_be_bytes_length, to_be_bytes_val. simpl.
  by rewrite q_of_Z_qval.
Qed.

Section nat_lemmas.
Context `{BigUint}.

Lemma to_nat_val q : Z.of_N (to_nat q) = qval q.
Proof.
  unfold to_nat. pose proof (u128_range (low q)). destruct (Z.eqb_spec (high q) 0) as [E|E].
  - unfold qval. lia.
  - by rewrite big_from_bytes_be_val, to_be_bytes_val.
Qed.

Lemma try_from_nat_eq n :
  try_from_nat n =
    if Z.of_N n <? 2 ^ 256 then Ok (q_of_Z (Z.of_N n)) else Err MkQuantityOverflowError.
Proof.
  unfold try_from_nat. pose proof (big_bits_spec n 256 ltac:(lia)) as Hb.
  destruct (Z.ltb_spec 256 (big_bits n)), (Z.ltb_spec (Z.of_N n) (2 ^ 256)) as [Hn|Hn];
    try lia; [done|].
  rewrite from_be_bytes_eq, big_to_bytes_be_val.
  pose proof (big_to_bytes_be_short n 32 ltac:(lia) Hn).
  destruct (Nat.ltb_spec 32 (length (big_to_bytes_be n))); [lia|done].
Qed.
End nat_lemmas.

Lemma drop_leading_zeros_val bs : be_val (drop (leading_zeros bs) bs) = be_val bs.
Proof.
  induction bs as [|b bs IH]; [done|]. cbn [leading_zeros].
  destruct (Z.eqb_spec b 0) as [E|E]; [|done]. cbn [drop be_val]. rewrite IH, E. lia.
Qed.

Lemma decode_bignum q :
  let buf := to_be_bytes q in decode (CTag PosBignum (CBytes (drop (leading_zeros buf) buf))) = Ok q.
Proof.
  intros buf. unfold decode; cbn [d_u64 d_tag d_bytes].
  rewrite bool_decide_eq_true_2 by done; cbn [negb].
  rewrite from_be_bytes_eq, length_drop, drop_leading_zeros_val. unfold buf.
  rewrite to_be_bytes_length, to_be_bytes_val, q_of_Z_qval.
  destruct (Nat.ltb_spec 32 (32 - leading_zeros (to_be_bytes q))); [lia|done].
Qed.

Lemma decode_encode q : decode (encode q) = Ok q.
Proof.
  unfold encode. pose proof (u128_range (low q)).
  destruct (Z.eqb_spec (high q) 0) as [Eh|Eh]; [|apply decode_bignum].
  destruct (Z.leb_spec (low q) (uint_max 64)) as [El|El]; [|apply decode_bignum].
  change (uint_max 64) with (2 ^ 64 - 1) in El.
  unfold decode; cbn [andb d_u64]. f_equal. apply qval_inj.
  rewrite qval_from_u64, u_cast64_val by lia. unfold qval. lia.
Qed.

Lemma decode_encode_u128 v : decode_u128 (encode_u128 v) = Ok v.
Proof.
  unfold decode_u128, encode_u128. rewrite decode_encode, as_u128_spec, qval_from_u128.
  pose proof (u128_range v). destruct (Z.ltb_spec v (2 ^ 128)); [|lia]. cbn. by rewrite mk_uint_uval.
Qed.

Lemma decode_encode_non_zero_u128 v : decode_non_zero_u128 (encode_non_zero_u128 v) = Ok v.
Proof.
  unfold decode_non_zero_u128, encode_non_zero_u128. rewrite decode_encode_u128.
  by assert (nz_new v = Some v) as -> by (by apply nz_new_Some).
Qed.

Lemma decode_encode_non_zero_u64 v : decode_non_zero_u64 (encode_non_zero_u64 v) = Ok v.
Proof. cbn. by assert (nz_new v = Some v) as -> by (by apply nz_new_Some). Qed.

(** A zero is refused, and so is a quantity too large for the type. *)
Lemma decode_u128_wide q : 2 ^ 128 ≤ qval q → decode_u128 (encode q) = Err Message.
Proof.
  intros Hq. unfold decode_u128. rewrite decode_encode, as_u128_spec.
  by rewrite (proj2 (Z.ltb_ge _ _)) by done.
Qed.

Lemma decode_non_zero_u64_zero (z : u64) :
  decode_non_zero_u64 (CUint z) = Err Message ↔ uval z = 0.
Proof. cbn. rewrite <-nz_new_None. by destruct (nz_new z). Qed.

(** Only the plain integer itself is read as a non-zero 64-bit one. *)
Lemma decode_non_zero_u64_iff d v : decode_non_zero_u64 d = Ok v ↔ d = CUint v.
Proof.
  split; [|intros ->; apply decode_encode_non_zero_u64]. unfold decode_non_zero_u64.
  destruct (d_u64 d) as [u|] eqn:E; [|done]. destruct (nz_new u) as [v'|] eqn:En; [|done].
  intros [= ->]. apply nz_new_Some in En as ->. destruct d; naive_solver.
Qed.

(** ** An implementation of the [BigUint] interface *)

Definition bits_N (n : N) : Z := match n with N0 => 0 | _ => Z.log2 (Z.of_N n) + 1 end.
Definition width_N (n : N) : nat := Nat.max 1 (Z.to_nat ((bits_N n + 7) / 8)).

Lemma bits_N_spec n k : 0 ≤ k → bits_N n ≤ k ↔ Z.of_N n < 2 ^ k.
Proof.
  intros Hk. unfold bits_N. destruct n as [|p].
  - split; [|done]. intros _. by apply Z.pow_pos_nonneg.
  - pose proof (Z.log2_lt_pow2 (Z.of_N (N.pos p)) k). lia.
Qed.

Lemma bits_N_nonneg n : 0 ≤ bits_N n.
Proof. unfold bits_N. destruct n; [done|]. pose proof (Z.log2_nonneg (Z.of_N (N.pos p))). lia. Qed.

Lemma width_N_fits n : Z.of_N n < 2 ^ (8 * Z.of_nat (width_N n)).
Proof.
  apply bits_N_spec; [lia|]. unfold width_N. pose proof (bits_N_nonneg n).
  pose proof (Z.mul_div_le (bits_N n + 7) 8). pose proof (Z.mod_pos_bound (bits_N n + 7) 8).
  pose proof (Z.div_mod (bits_N n + 7) 8). lia.
Qed.

#[export] Program Instance BigUint_N : BigUint := {|
  big_bits := bits_N;
  big_to_bytes_be n := be_bytes (width_N n) (Z.of_N n);
  big_from_bytes_be bs := Z.to_N (be_val bs)
|}.
Next Obligation. intros. by apply bits_N_spec. Qed.
Next Obligation.
  intros n. cbv beta. rewrite be_val_bytes. apply Z.mod_small.
  pose proof (width_N_fits n). lia.
Qed.
Next Obligation.
  intros n k Hk Hn. cbv beta. rewrite be_bytes_length. apply bits_N_spec in Hn; [|lia].
  unfold width_N. pose proof (bits_N_nonneg n).
  assert ((bits_N n + 7) / 8 < Z.of_nat k + 1) by (apply Z.div_lt_upper_bound; lia). lia.
Qed.
Next Obligation. intros bs. cbv beta. pose proof (be_val_range bs). lia. Qed.
