(* ===== verification/Ids.v ===== *)
(** * Identifiers (src/canister/src/ids/mod.rs)

    [Seq], the marker-typed 64-bit sequences, [CompositeId], the pairs of
    identifiers, and the [FixedWidthId] trait both implement: a fixed-width
    big-endian byte form, which keys the stable maps, and a canonical hexadecimal
    text form, which the API shows. A string is the list of its UTF-8 bytes. *)

From stdpp Require Import prelude gmap.
From Stdlib Require Import ZArith Lia ZifyBool.
From S2P Require Import Prelude Word BTree Bytes.

(** ** [Seq] *)

Record Seq (M : Set) : Type := MkSeq { seq_get : u64 }.
Arguments MkSeq {M} seq_get.
Arguments seq_get {M} s.

#[export] Instance Seq_eq_dec M : EqDecision (Seq M).
Proof. solve_decision. Defined.
#[export] Instance Seq_countable M : Countable (Seq M).
Proof. apply (inj_countable' seq_get MkSeq). by intros []. Defined.

Definition Seq_ZERO {M} : Seq M := MkSeq (mk_uint 64 0).
Definition Seq_ONE {M} : Seq M := MkSeq (mk_uint 64 1).
Definition Seq_MAX {M} : Seq M := MkSeq (mk_uint 64 (uint_max 64)).

(** The number behind a sequence. *)
Definition seqZ {M} (s : Seq M) : Z := seq_get s.

(** Test and witness literals. *)
Definition seq_lit {M} (z : Z) : Seq M := MkSeq (mk_uint 64 z).

Definition increment {M} (self : Seq M) : exec (Seq M) :=
  let! v := expect (u_checked_add (seq_get self) (mk_uint 64 1)) in Done (MkSeq v).

Lemma seqZ_range {M} (s : Seq M) : 0 ≤ seqZ s < 2 ^ 64.
Proof. apply u64_range. Qed.

Lemma seqZ_inj {M} (s t : Seq M) : seqZ s = seqZ t → s = t.
Proof. destruct s, t. intros E. f_equal. by apply uint_eq. Qed.

Lemma increment_Done {M} (s t : Seq M) : increment s = Done t ↔ seqZ t = seqZ s + 1.
Proof.
  unfold increment, u_checked_add. change (uval (mk_uint 64 1)) with 1.
  rewrite bind_Done. setoid_rewrite expect_Done. setoid_rewrite checked_Some.
  split; [intros (v & Hv & [= <-]); done|].
  intros E. exists (seq_get t). destruct t. done.
Qed.

Lemma increment_total {M} (s : Seq M) :
  seqZ s < uint_max 64 → ∃ t, increment s = Done t ∧ seqZ t = seqZ s + 1.
Proof.
  intros Hs. exists (seq_lit (seqZ s + 1)). pose proof (seqZ_range s).
  assert (E : seqZ (seq_lit (M:=M) (seqZ s + 1)) = seqZ s + 1).
  { unfold seqZ at 1, seq_lit; simpl. rewrite mk_uint_small; [done|].
    change (uint_max 64) with (2 ^ 64 - 1) in Hs. change (Z.of_N 64) with 64. lia. }
  split; [by apply increment_Done|done].
Qed.

(** ** Hexadecimal text *)

Definition hex_digit (d : Z) : u8 := mk_uint 8 (if d <? 10 then 48 + d else 87 + d).

(** [{:0Nx}] of a number below [16^n]: [n] lower-case digits. *)
Fixpoint hex_digits (n : nat) (z : Z) : list u8 :=
  match n with
  | O => []
  | S n => hex_digit (z / 2 ^ (4 * Z.of_nat n) mod 16) :: hex_digits n z
  end.

(** [char::to_digit(16)] on an ASCII byte. *)
Definition digit_of_hex (b : u8) : option Z :=
  if (48 <=? b) && (b <=? 57) then Some (b - 48)
  else if (97 <=? b) && (b <=? 102) then Some (b - 87)
  else if (65 <=? b) && (b <=? 70) then Some (b - 55)
  else None.

(** The digit loop of [u64::from_str_radix(_, 16)]. *)
Fixpoint hex_accumulate (acc : u64) (s : list u8) : option u64 :=
  match s with
  | [] => Some acc
  | b :: s =>
      let? d := digit_of_hex b in
      let? m := checked 64 (acc * 16) in
      let? acc' := checked 64 (uval (m : u64) + d) in
      hex_accumulate acc' s
  end.

(** [u64::from_str_radix(s, 16)]: no digits is an error, one leading [+] is skipped. *)
Definition from_str_radix_16 (s : list u8) : option u64 :=
  match s with
  | [] => None
  | b :: s' =>
      if b =? 43 then match s' with [] => None | _ => hex_accumulate (mk_uint 64 0) s' end
      else hex_accumulate (mk_uint 64 0) s
  end.

Definition is_canonical_hex (s : list u8) (byte_width : nat) : bool :=
  (length s =? 2 * byte_width)%nat &&
  forallb (λ b : u8, ((48 <=? b) && (b <=? 57)) || ((97 <=? b) && (b <=? 102))) s.

(** ** [FixedWidthId] *)

Inductive ParseFixedWithIdError : Type := MkParseFixedWithIdError.

Class FixedWidthId (A : Type) : Type := {
  WIDTH : nat;
  write_be_bytes : A → list u8 → list u8;
  id_from_be_bytes : list u8 → result A ParseFixedWithIdError;
  write_hex : A → list u8;
  from_hex : list u8 → result A ParseFixedWithIdError
}.
Arguments WIDTH A {_}.

#[export] Instance Seq_FixedWidthId M : FixedWidthId (Seq M) := {
  WIDTH := 8;
  write_be_bytes self bytes := bytes ++ be_bytes 8 (seq_get self);
  id_from_be_bytes bytes :=
    if (length bytes =? 8)%nat then Ok (MkSeq (mk_uint 64 (be_val bytes)))
    else Err MkParseFixedWithIdError;
  write_hex self := hex_digits 16 (seq_get self);
  from_hex s :=
    if negb (is_canonical_hex s 8) then Err MkParseFixedWithIdError
    else match from_str_radix_16 s with
         | Some v => Ok (MkSeq v)
         | None => Err MkParseFixedWithIdError
         end
}.

Record CompositeId (A B : Type) : Type := MkCompositeId { first : A; second : B }.
Arguments MkCompositeId {A B} first second.
Arguments first {A B} c.
Arguments second {A B} c.

#[export] Instance CompositeId_eq_dec {A B} `{EqDecision A, EqDecision B} :
  EqDecision (CompositeId A B).
Proof. solve_decision. Defined.
#[export] Instance CompositeId_countable {A B} `{Countable A, Countable B} :
  Countable (CompositeId A B).
Proof.
  apply (inj_countable' (λ c, (first c, second c)) (λ p, MkCompositeId p.1 p.2)). by intros [].
Defined.

Definition into_parts {A B} (self : CompositeId A B) : A * B := (first self, second self).

#[export] Instance CompositeId_FixedWidthId A B `{FixedWidthId A, FixedWidthId B} :
    FixedWidthId (CompositeId A B) := {
  WIDTH := WIDTH A + WIDTH B;
  write_be_bytes self bytes := write_be_bytes (second self) (write_be_bytes (first self) bytes);
  id_from_be_bytes bytes :=
    if negb (length bytes =? WIDTH A + WIDTH B)%nat then Err MkParseFixedWithIdError else
    match id_from_be_bytes (take (WIDTH A) bytes) with
    | Err e => Err e
    | Ok a => match id_from_be_bytes (drop (WIDTH A) bytes) with
              | Err e => Err e
              | Ok b => Ok (MkCompositeId a b)
              end
    end;
  write_hex self := write_hex (first self) ++ write_hex (second self);
  from_hex s :=
    if negb (is_canonical_hex s (WIDTH A + WIDTH B)) then Err MkParseFixedWithIdError else
    match from_hex (take (WIDTH A * 2) s) with
    | Err e => Err e
    | Ok a => match from_hex (drop (WIDTH A * 2) s) with
              | Err e => Err e
              | Ok b => Ok (MkCompositeId a b)
              end
    end
}.

(** [Storable for CompositeId]: the key bytes of the stable maps. *)
Definition to_bytes {A} `{FixedWidthId A} (self : A) : list u8 := write_be_bytes self [].
Definition from_bytes {A} `{FixedWidthId A} (bytes : list u8) : exec A :=
  let! _ := assert (length bytes =? WIDTH A)%nat in
  match id_from_be_bytes bytes with Ok a => Done a | Err _ => Trap end.

(** [Display] and [FromStr]. *)
Definition to_string {A} `{FixedWidthId A} (self : A) : list u8 := write_hex self.
Definition from_str {A} `{FixedWidthId A} (s : list u8) : result A ParseFixedWithIdError :=
  from_hex s.

(** ** The derived orders *)

#[export] Instance Seq_Ord M : Ord (Seq M) := λ a b, Z.compare (seqZ a) (seqZ b).
#[export] Instance Seq_OrdLaws M : OrdLaws (Seq M).
Proof. apply (ord_laws_via seq_get); [|done]. intros [] [] E. simpl in E. by rewrite E. Qed.

#[export] Instance CompositeId_Ord {A B} `{Ord A, Ord B} : Ord (CompositeId A B) :=
  λ a b, cmp_lex (ord_cmp (first a) (first b)) (ord_cmp (second a) (second b)).
#[export] Instance CompositeId_OrdLaws {A B} `{OrdLaws A, OrdLaws B} :
  OrdLaws (CompositeId A B).
Proof. apply (ord_laws_via into_parts); [|done]. by intros [] [] [= -> ->]. Qed.

(** ** Laws of [FixedWidthId]

    What the stable maps and the API rely on: the byte form has the announced
    width, round-trips and is ordered like the identifier; the text form
    round-trips, and is the only text that parses to the identifier. *)

Class FixedWidthIdLaws (A : Type) `{FixedWidthId A, Ord A} : Prop := {
  write_be_bytes_app a bs : write_be_bytes a bs = bs ++ to_bytes a;
  to_bytes_length a : length (to_bytes a) = WIDTH A;
  id_from_to_bytes a : id_from_be_bytes (to_bytes a) = Ok a;
  to_bytes_order a b : bytes_compare (to_bytes a) (to_bytes b) = ord_cmp a b;
  write_hex_canonical a : is_canonical_hex (write_hex a) (WIDTH A) = true;
  from_write_hex a : from_hex (write_hex a) = Ok a;
  write_from_hex s a : from_hex s = Ok a → write_hex a = s
}.

Definition is_hex_byte (b : u8) : bool :=
  ((48 <=? b) && (b <=? 57)) || ((97 <=? b) && (b <=? 102)).

(** The value of a lower-case hexadecimal byte. *)
Definition hex_byte_val (b : u8) : Z := if b <=? 57 then b - 48 else b - 87.

Fixpoint hex_val (s : list u8) : Z :=
  match s with
  | [] => 0
  | b :: s => hex_byte_val b * 2 ^ (4 * Z.of_nat (length s)) + hex_val s
  end.

Lemma pow_hex_S n : 2 ^ (4 * Z.of_nat (S n)) = 16 * 2 ^ (4 * Z.of_nat n).
Proof. change 16 with (2 ^ 4). rewrite <-Z.pow_add_r by lia. f_equal. lia. Qed.

Lemma pow_hex_pos n : 0 < 2 ^ (4 * Z.of_nat n).
Proof. apply Z.pow_pos_nonneg; lia. Qed.

Lemma hex_digit_val d : 0 ≤ d < 16 →
  is_hex_byte (hex_digit d) = true ∧ hex_byte_val (hex_digit d) = d.
Proof.
  intros Hd. unfold hex_digit, is_hex_byte, hex_byte_val.
  destruct (Z.ltb_spec d 10); rewrite mk_uint_small by (change (2 ^ Z.of_N 8) with 256; lia);
    split; [lia|case_match; lia|lia|case_match; lia].
Qed.

Lemma is_hex_byte_val b : is_hex_byte b = true →
  0 ≤ hex_byte_val b < 16 ∧ digit_of_hex b = Some (hex_byte_val b) ∧ uval b ≠ 43.
Proof. unfold is_hex_byte, hex_byte_val, digit_of_hex. intros Hb.
  repeat case_match; split_and!; try done; try lia; try (f_equal; lia).
Qed.

Lemma hex_byte_val_inj a b :
  is_hex_byte a = true → is_hex_byte b = true → hex_byte_val a = hex_byte_val b → a = b.
Proof.
  unfold is_hex_byte, hex_byte_val. intros Ha Hb E. apply uint_eq. repeat case_match; lia.
Qed.

Lemma hex_digits_length n z : length (hex_digits n z) = n.
Proof. induction n; simpl; congruence. Qed.

Lemma hex_digits_hex n z : Forall (λ b, is_hex_byte b = true) (hex_digits n z).
Proof.
  induction n as [|n IH]; constructor; [|done].
  apply hex_digit_val, Z.mod_pos_bound. lia.
Qed.

Lemma hex_val_digits n z : hex_val (hex_digits n z) = z mod 2 ^ (4 * Z.of_nat n).
Proof.
  induction n as [|n IH]; [by rewrite Z.mod_1_r|]. cbn [hex_val hex_digits].
  rewrite hex_digits_length, IH, pow_hex_S. pose proof (pow_hex_pos n).
  rewrite (proj2 (hex_digit_val _ (Z.mod_pos_bound _ 16 ltac:(lia)))).
  rewrite (Z.mul_comm 16), Z.rem_mul_r by lia. lia.
Qed.

Lemma hex_val_range s : Forall (λ b, is_hex_byte b = true) s →
  0 ≤ hex_val s < 2 ^ (4 * Z.of_nat (length s)).
Proof.
  induction 1 as [|b s Hb _ IH]; [done|]. cbn [hex_val length]. rewrite pow_hex_S.
  pose proof (is_hex_byte_val b Hb). nia.
Qed.

Lemma hex_val_inj s t :
  Forall (λ b, is_hex_byte b = true) s → Forall (λ b, is_hex_byte b = true) t →
  length s = length t → hex_val s = hex_val t → s = t.
Proof.
  intros Hs. revert t. induction Hs as [|b s Hb Hs IH]; intros t Ht Hlen E.
  { by destruct t. }
  destruct Ht as [|c t Hc Ht]; [done|]. cbn [hex_val length] in *. injection Hlen as Hlen.
  pose proof (hex_val_range s Hs) as Rs. pose proof (hex_val_range t Ht) as Rt.
  rewrite Hlen in *. assert (hex_byte_val b = hex_byte_val c) by nia.
  f_equal; [by apply hex_byte_val_inj|]. apply IH; [done..|nia].
Qed.

(** The digit loop computes the value of a canonical string that fits in 64 bits. *)
Lemma hex_accumulate_eq s (acc : u64) :
  Forall (λ b, is_hex_byte b = true) s →
  acc * 2 ^ (4 * Z.of_nat (length s)) + hex_val s < 2 ^ 64 →
  ∃ v, hex_accumulate acc s = Some v ∧
       uval v = acc * 2 ^ (4 * Z.of_nat (length s)) + hex_val s.
Proof.
  intros Hs. revert acc. induction Hs as [|b s Hb Hs IH]; intros acc Hfit.
  { exists acc. simpl. split; [done|]. change (2 ^ (4 * Z.of_nat 0)) with 1. lia. }
  cbn [hex_val length hex_accumulate] in *. rewrite pow_hex_S in *.
  pose proof (is_hex_byte_val b Hb) as (Hd & -> & _). pose proof (u64_range acc).
  pose proof (hex_val_range s Hs). pose proof (pow_hex_pos (length s)). cbn [obind].
  assert (Hm : 0 ≤ acc * 16 + hex_byte_val b < 2 ^ 64) by nia.
  rewrite checked_in by (change (Z.of_N 64) with 64; lia). cbn [obind].
  rewrite mk_uint_small by (change (Z.of_N 64) with 64; lia).
  rewrite checked_in by (change (Z.of_N 64) with 64; lia). cbn [obind].
  destruct (IH (mk_uint 64 (acc * 16 + hex_byte_val b))) as (v & -> & Hv).
  { rewrite mk_uint_small by done. nia. }
  exists v. split; [done|]. rewrite Hv, mk_uint_small by done. nia.
Qed.

Lemma is_canonical_hex_spec s n :
  is_canonical_hex s n = true ↔
  length s = (2 * n)%nat ∧ Forall (λ b, is_hex_byte b = true) s.
Proof.
  unfold is_canonical_hex. rewrite andb_true_iff, Nat.eqb_eq, forallb_forall, Forall_forall.
  unfold is_hex_byte. by setoid_rewrite list_elem_of_In.
Qed.

Lemma from_str_radix_16_eq s :
  length s = 16%nat → Forall (λ b, is_hex_byte b = true) s →
  from_str_radix_16 s = Some (mk_uint 64 (hex_val s)).
Proof.
  intros Hlen Hs. pose proof (hex_val_range s Hs) as Hr. rewrite Hlen in Hr.
  change (4 * Z.of_nat 16) with 64 in Hr.
  destruct (hex_accumulate_eq s (mk_uint 64 0)) as (v & Hv & Ev); [done|..].
  { rewrite Hlen. change (4 * Z.of_nat 16) with 64. rewrite mk_uint_small; [lia|done]. }
  rewrite mk_uint_small in Ev by done.
  assert (v = mk_uint 64 (hex_val s)) as <- by (apply uint_eq; rewrite mk_uint_small; [lia|done]).
  unfold from_str_radix_16. destruct s as [|b s]; [done|].
  inversion Hs as [|?? Hb _]; subst. pose proof (is_hex_byte_val b Hb) as (_ & _ & Hp).
  destruct (Z.eqb_spec b 43); done.
Qed.

Lemma Seq_to_bytes {M} (s : Seq M) : to_bytes s = be_bytes 8 (seqZ s).
Proof. reflexivity. Qed.

Lemma Seq_from_be_bytes M bs : id_from_be_bytes (A:=Seq M) bs =
  if (length bs =? 8)%nat then Ok (seq_lit (be_val bs)) else Err MkParseFixedWithIdError.
Proof. reflexivity. Qed.

Lemma Seq_from_hex M s : from_hex (A:=Seq M) s =
  if negb (is_canonical_hex s 8) then Err MkParseFixedWithIdError else
  match from_str_radix_16 s with Some v => Ok (MkSeq v) | None => Err MkParseFixedWithIdError end.
Proof. reflexivity. Qed.

Lemma seq_lit_seqZ {M} (s : Seq M) : seq_lit (seqZ s) = s.
Proof. destruct s as [v]. unfold seq_lit, seqZ; simpl. by rewrite mk_uint_uval. Qed.

Lemma Seq_be_val {M} (s : Seq M) : be_val (be_bytes 8 (seqZ s)) = seqZ s.
Proof. rewrite be_val_bytes. apply Z.mod_small, seqZ_range. Qed.

Lemma Seq_hex_canonical {M} (s : Seq M) : is_canonical_hex (hex_digits 16 (seqZ s)) 8 = true.
Proof. apply is_canonical_hex_spec. split; [apply hex_digits_length|apply hex_digits_hex]. Qed.

#[export] Instance Seq_laws M : FixedWidthIdLaws (Seq M).
Proof.
  split.
  - done.
  - intros a. apply be_bytes_length.
  - intros a. rewrite Seq_to_bytes, Seq_from_be_bytes, be_bytes_length, Seq_be_val.
    by rewrite seq_lit_seqZ.
  - intros a b. rewrite !Seq_to_bytes.
    by rewrite bytes_compare_val, !Seq_be_val by (by rewrite !be_bytes_length).
  - intros a. apply Seq_hex_canonical.
  - intros a. rewrite Seq_from_hex. change (write_hex a) with (hex_digits 16 (seqZ a)).
    rewrite Seq_hex_canonical. cbn [negb].
    rewrite from_str_radix_16_eq by (apply hex_digits_length || apply hex_digits_hex).
    rewrite hex_val_digits, Z.mod_small by apply seqZ_range. f_equal. apply seq_lit_seqZ.
  - intros s a. rewrite Seq_from_hex. change (write_hex a) with (hex_digits 16 (seqZ a)).
    destruct (is_canonical_hex s 8) eqn:Hs; [|done]. cbn [negb].
    apply is_canonical_hex_spec in Hs as [Hlen Hs].
    rewrite from_str_radix_16_eq by done. intros [= <-].
    pose proof (hex_val_range s Hs) as Hr. rewrite Hlen in Hr.
    apply hex_val_inj; [apply hex_digits_hex|done|by rewrite hex_digits_length|].
    unfold seqZ; cbn [seq_get]. rewrite hex_val_digits, mk_uint_small by done.
    apply Z.mod_small, Hr.
Qed.

Section composite.
Context {A B : Type} `{FixedWidthIdLaws A, FixedWidthIdLaws B}.
Implicit Types c : CompositeId A B.

Lemma composite_to_bytes c : to_bytes c = to_bytes (first c) ++ to_bytes (second c).
Proof.
  destruct c as [a b]. unfold to_bytes at 1; simpl. by rewrite !write_be_bytes_app.
Qed.

Lemma write_hex_length {C} `{FixedWidthIdLaws C} (x : C) :
  length (write_hex x) = (WIDTH C * 2)%nat.
Proof.
  pose proof (write_hex_canonical x) as Hx. apply is_canonical_hex_spec in Hx as [Hx _]. lia.
Qed.

Lemma composite_hex_canonical c : is_canonical_hex (write_hex c) (WIDTH A + WIDTH B) = true.
Proof.
  destruct c as [a b]. cbn [write_hex CompositeId_FixedWidthId first second].
  pose proof (write_hex_canonical a) as Ha. pose proof (write_hex_canonical b) as Hb.
  apply is_canonical_hex_spec in Ha as [??], Hb as [??]. apply is_canonical_hex_spec.
  rewrite length_app. split; [lia|by apply Forall_app].
Qed.

#[export] Instance CompositeId_laws : FixedWidthIdLaws (CompositeId A B).
Proof.
  split.
  - intros [a b] bs. rewrite composite_to_bytes; simpl.
    by rewrite (write_be_bytes_app b), (write_be_bytes_app a), app_assoc.
  - intros c. by rewrite composite_to_bytes, length_app, !to_bytes_length.
  - intros [a b]. rewrite composite_to_bytes.
    cbn [first second id_from_be_bytes CompositeId_FixedWidthId].
    rewrite length_app, !to_bytes_length, Nat.eqb_refl. cbn [negb].
    rewrite <-(to_bytes_length a), take_app_length, drop_app_length.
    by rewrite !id_from_to_bytes.
  - intros [a b] [a' b'].
    rewrite !composite_to_bytes, bytes_compare_app by (by rewrite !to_bytes_length).
    cbn [first second]. rewrite !to_bytes_order. unfold ord_cmp at 3, CompositeId_Ord.
    cbn [first second]. by destruct (ord_cmp a a').
  - apply composite_hex_canonical.
  - intros [a b]. cbn [from_hex CompositeId_FixedWidthId].
    rewrite composite_hex_canonical. cbn [negb write_hex CompositeId_FixedWidthId first second].
    rewrite <-(write_hex_length a), take_app_length, drop_app_length. by rewrite !from_write_hex.
  - intros s [a b]. cbn [from_hex write_hex CompositeId_FixedWidthId first second].
    destruct (is_canonical_hex s _); cbn [negb]; [|done].
    destruct (from_hex (take _ s)) as [a'|] eqn:Ea; [|done].
    destruct (from_hex (drop _ s)) as [b'|] eqn:Eb; [|done]. intros [= <- <-].
    apply write_from_hex in Ea as ->, Eb as ->. apply take_drop.
Qed.
End composite.

(** ** The identifiers of the canister *)

Inductive OrderBookMarker : Set := .
Inductive OrderSeqMarker : Set := .
Inductive FillSeqMarker : Set := .
Inductive InsertionSeqMarker : Set := .
Inductive UserIdMarker : Set := .

Abbreviation OrderBookId := (Seq OrderBookMarker).
Abbreviation OrderSeq := (Seq OrderSeqMarker).
Abbreviation FillSeq := (Seq FillSeqMarker).
Abbreviation InsertionSeq := (Seq InsertionSeqMarker).
Abbreviation UserId := (Seq UserIdMarker).
Abbreviation OrderId := (CompositeId OrderBookId OrderSeq).
Abbreviation TradeId := (CompositeId OrderId FillSeq).
