(* ===== verification/Fees.v ===== *)
(** * Basis points and fees (src/canister/src/order/fees.rs) *)

From stdpp Require Import prelude gmap.
From Stdlib Require Import ZArith Lia Eqdep_dec.
From S2P Require Import Prelude Word Quantity.

(** A [u16] that [BasisPoint::new] accepted: the field is private and the type
    has no other constructor. *)
Record BasisPoint : Type := MkBasisPoint { bps : u16; bps_ok : (bps <=? 10000) = true }.

Inductive InvalidBasisPoint : Type := OutOfRange (v : u16).

Definition BasisPoint_ZERO : BasisPoint := MkBasisPoint (mk_uint 16 0) eq_refl.
Definition BasisPoint_MAX : BasisPoint := MkBasisPoint (mk_uint 16 10000) eq_refl.

Definition BasisPoint_new (value : u16) : result BasisPoint InvalidBasisPoint :=
  match (value <=? 10000) as b return (value <=? 10000) = b → _ with
  | true => λ H, Ok (MkBasisPoint value (norm_true H))
  | false => λ _, Err (OutOfRange value)
  end eq_refl.

Lemma BasisPoint_eq (a b : BasisPoint) : bps a = bps b → a = b.
Proof.
  destruct a as [a Ha], b as [b Hb]; simpl; intros <-. f_equal.
  apply UIP_dec, bool_dec.
Qed.

#[export] Instance BasisPoint_eq_dec : EqDecision BasisPoint := λ a b,
  match decide (bps a = bps b) with
  | left H => left (BasisPoint_eq a b H)
  | right H => right (λ E, H (f_equal bps E))
  end.

(** [u64::div_ceil]. *)
Definition div_ceil (x d : Z) : Z := (x + d - 1) / d.

Definition mul_ceil (self : BasisPoint) (amount : Quantity) : exec Quantity :=
  if bool_decide (self = BasisPoint_ZERO) || bool_decide (amount = Quantity_ZERO)
  then Done Quantity_ZERO else
  if bool_decide (self = BasisPoint_MAX) then Done amount else
  let bps : u64 := u_cast 64 (bps self) in
  let! (q, r) := expect (checked_div_rem_u64 amount (mk_uint 64 10000)) in
  let! main := expect (checked_mul_u64 q bps) in
  let! rem_num := expect (u_checked_mul r bps) in
  let rem_ceil : u64 := mk_uint 64 (div_ceil rem_num 10000) in
  expect (checked_add main (from_u64 rem_ceil)).

Record FeeRates : Type := MkFeeRates { maker : BasisPoint; taker : BasisPoint }.

#[export] Instance FeeRates_eq_dec : EqDecision FeeRates.
Proof. solve_decision. Defined.

(** ** Correctness *)

Lemma bps_range b : 0 ≤ bps b ≤ 10000.
Proof.
  pose proof (u16_range (bps b)). pose proof (bps_ok b) as H0. apply Z.leb_le in H0. lia.
Qed.

(** The amount a fee at rate [b] takes of [a]: the exact product, rounded up. *)
Definition fee_of (b : BasisPoint) (a : Z) : Z := div_ceil (a * bps b) 10000.

Lemma fee_of_le b a : 0 ≤ a → 0 ≤ fee_of b a ≤ a.
Proof.
  intros Ha. unfold fee_of, div_ceil. pose proof (bps_range b). split.
  - apply Z.div_pos; nia.
  - apply Z.lt_succ_r, Z.div_lt_upper_bound; nia.
Qed.

Lemma fee_of_zero b : fee_of b 0 = 0.
Proof. reflexivity. Qed.

Lemma fee_of_ZERO a : fee_of BasisPoint_ZERO a = 0.
Proof. unfold fee_of. change (uval (bps BasisPoint_ZERO)) with 0. by rewrite Z.mul_0_r. Qed.

Lemma fee_of_MAX a : fee_of BasisPoint_MAX a = a.
Proof.
  unfold fee_of, div_ceil. change (uval (bps BasisPoint_MAX)) with 10000.
  replace (a * 10000 + 10000 - 1) with (a * 10000 + 9999) by lia.
  rewrite Z.div_add_l by lia. change (9999 / 10000) with 0. lia.
Qed.

(** Splitting the amount into quotient and remainder by 10,000. *)
Lemma fee_of_split b a :
  fee_of b a = a / 10000 * bps b + div_ceil (a mod 10000 * bps b) 10000.
Proof.
  unfold fee_of, div_ceil. pose proof (Z.div_mod a 10000 ltac:(lia)) as Ha.
  replace (a * bps b + 10000 - 1)
    with (a / 10000 * bps b * 10000 + (a mod 10000 * bps b + 10000 - 1))
    by (rewrite Ha at 3; lia).
  by rewrite Z.div_add_l by lia.
Qed.

Lemma mul_ceil_eq b a : mul_ceil b a = Done (q_of_Z (fee_of b (qval a))).
Proof.
  unfold mul_ceil. pose proof (qval_range a) as Ha. pose proof (bps_range b) as Hb.
  case_bool_decide as E1; simpl; [subst b; by rewrite fee_of_ZERO|].
  case_bool_decide as E2; simpl; [by subst a|].
  case_bool_decide as E3; [subst b; by rewrite fee_of_MAX, q_of_Z_qval|].
  assert (Hbps : uval (u_cast 64 (bps b)) = bps b).
  { unfold u_cast. apply mk_uint_small. change (Z.of_N 64) with 64. lia. }
  rewrite checked_div_rem_u64_eq. change (uval (mk_uint 64 10000)) with 10000. simpl.
  pose proof (Z.div_mod (qval a) 10000 ltac:(lia)) as Hdm.
  pose proof (Z.mod_pos_bound (qval a) 10000 ltac:(lia)) as Hm.
  assert (Hq : 0 ≤ qval a / 10000) by (apply Z.div_pos; lia).
  rewrite checked_mul_u64_eq, Hbps, q_of_Z_val, q_checked_in by nia. simpl.
  unfold u_checked_mul. rewrite mk_uint_small, Hbps, checked_in
    by (change (Z.of_N 64) with 64; nia). simpl.
  rewrite mk_uint_small by (change (Z.of_N 64) with 64; nia).
  assert (Hc : 0 ≤ div_ceil (qval a mod 10000 * bps b) 10000 ≤ 10000).
  { unfold div_ceil. split; [apply Z.div_pos; nia|apply Z.lt_succ_r, Z.div_lt_upper_bound; nia]. }
  pose proof (fee_of_le b (qval a) ltac:(lia)) as Hle. pose proof (fee_of_split b (qval a)) as Hs.
  rewrite checked_add_eq, qval_from_u64, mk_uint_small, q_of_Z_val, <-Hs, q_checked_in
    by (try change (Z.of_N 64) with 64; nia). done.
Qed.
