(* ===== verification/OrderTypes.v ===== *)
(** * Orders, prices and fills (src/canister/src/order/mod.rs, order/fill.rs)

    The order data types and the price arithmetic of settlement. [Price] and
    [TickSize] are newtypes over [u128] and [NonZeroU128], [LotSize] one over
    [NonZeroU64]; the newtype wrappers are dropped. *)

From stdpp Require Import prelude gmap.
From Stdlib Require Import ZArith Lia.
From S2P Require Import Prelude Word BTree Quantity Ids.

Inductive Side : Set := Buy | Sell.
Inductive TimeInForce : Set := GoodTilCanceled | FillOrKill.
Inductive OrderStatus : Set := Pending | Open | Filled | Canceled | Expired.
Inductive PairToken : Set := Base | Quote.

#[export] Instance Side_eq_dec : EqDecision Side.
Proof. solve_decision. Defined.
#[export] Instance TimeInForce_eq_dec : EqDecision TimeInForce.
Proof. solve_decision. Defined.
#[export] Instance OrderStatus_eq_dec : EqDecision OrderStatus.
Proof. solve_decision. Defined.
#[export] Instance PairToken_eq_dec : EqDecision PairToken.
Proof. solve_decision. Defined.

(** [TimeInForce::default]. *)
Definition TimeInForce_default : TimeInForce := GoodTilCanceled.

(** ** Prices *)

Abbreviation Price := u128.
Abbreviation TickSize := (nonzero 128).
Abbreviation LotSize := (nonzero 64).

Definition price_is_zero (self : Price) : bool := self =? 0.
Definition price_is_multiple_of (self : Price) (tick_size : TickSize) : bool :=
  self mod tick_size =? 0.
Definition price_checked_sub (self other : Price) : option Price := u_checked_sub self other.

(** [Price::checked_mul_quantity_scaled]: [None] on 256-bit overflow, a panic on
    an inexact quotient. *)
Definition checked_mul_quantity_scaled (self : Price) (quantity : Quantity)
    (base_scale : nonzero 64) : exec (option Quantity) :=
  match checked_mul_u128 quantity self with
  | None => Done None
  | Some product =>
      match checked_div_rem_u64 product base_scale with
      | None => Done None
      | Some (quote, remainder) =>
          let! _ := assert (remainder =? 0) in
          Done (Some quote)
      end
  end.

(** ** Orders *)

Record PendingOrder : Type := MkPendingOrder {
  po_side : Side; po_price : Price; po_quantity : Quantity; po_tif : TimeInForce
}.

Record Order : Type := MkOrder {
  o_id : OrderSeq; o_side : Side; o_price : Price; o_remaining : Quantity; o_tif : TimeInForce
}.

Record RestingOrder : Type := MkRestingOrder {
  r_id : OrderSeq; r_remaining : Quantity; r_tif : TimeInForce
}.

#[export] Instance Order_eq_dec : EqDecision Order.
Proof. solve_decision. Defined.
#[export] Instance RestingOrder_eq_dec : EqDecision RestingOrder.
Proof. solve_decision. Defined.

(** [PendingOrder::into_order]. *)
Definition into_order (self : PendingOrder) (id : OrderSeq) : Order :=
  MkOrder id (po_side self) (po_price self) (po_quantity self) (po_tif self).

(** [Order::reduce_quantity]. *)
Definition order_reduce_quantity (self : Order) (amount : Quantity) : exec Order :=
  let! q := expect (checked_sub (o_remaining self) amount) in
  Done (MkOrder (o_id self) (o_side self) (o_price self) q (o_tif self)).

(** [RestingOrder::from(Order)]. *)
Definition resting_from (order : Order) : RestingOrder :=
  MkRestingOrder (o_id order) (o_remaining order) (o_tif order).

(** [RestingOrder::to_order]. *)
Definition to_order (self : RestingOrder) (side : Side) (price : Price) : Order :=
  MkOrder (r_id self) side price (r_remaining self) (r_tif self).

(** [RestingOrder::reduce_quantity]. *)
Definition resting_reduce_quantity (self : RestingOrder) (amount : Quantity) :
    exec RestingOrder :=
  let! q := expect (checked_sub (r_remaining self) amount) in
  Done (MkRestingOrder (r_id self) q (r_tif self)).

(** ** Fills *)

Record Fill : Type := MkFill {
  fill_seq : FillSeq;
  taker_order_seq : OrderSeq;
  taker_side : Side;
  taker_price : Price;
  maker_order_seq : OrderSeq;
  maker_price : Price;
  fill_quantity : Quantity
}.

#[export] Instance Fill_eq_dec : EqDecision Fill.
Proof. solve_decision. Defined.

(** [OrderId::book_id], [OrderId::seq] and the [TradeId] helpers. *)
Definition book_id (self : OrderId) : OrderBookId := first self.
Definition order_seq (self : OrderId) : OrderSeq := second self.
Abbreviation FillId := (CompositeId OrderBookId FillSeq).
Definition trade_order_id (self : TradeId) : OrderId := first self.
Definition trade_seq (self : TradeId) : FillSeq := second self.
Definition fill_id (self : TradeId) : FillId :=
  MkCompositeId (book_id (first self)) (second self).
Definition first_of (order : OrderId) : TradeId := MkCompositeId order Seq_ZERO.
Definition last_of (order : OrderId) : TradeId := MkCompositeId order Seq_MAX.

(** ** Arithmetic of the settlement price *)

(** The exact quotient, and the divisibility the pair-creation checks establish. *)
Definition scaledZ (p : Price) (q : Quantity) (s : nonzero 64) : Z := p * qval q / s.

Definition scale_exact (p : Price) (q : Quantity) (s : nonzero 64) : Prop :=
  p * qval q mod s = 0.

Lemma scale_exact_of_lots (tick : TickSize) (lot : LotSize) (s : nonzero 64) (p : Price) q :
  tick * lot mod s = 0 → p mod tick = 0 → qval q mod lot = 0 → scale_exact p q s.
Proof.
  unfold scale_exact. pose proof (nonzero_pos tick). pose proof (nonzero_pos lot).
  pose proof (nonzero_pos s). rewrite !Z.mod_divide by lia. intros [a Ha] [b ->] [c ->].
  exists (a * b * c). replace (b * tick * (c * lot)) with (b * c * (tick * lot)) by lia.
  rewrite Ha. lia.
Qed.

Lemma scaledZ_mul (p : Price) q s : scale_exact p q s → scaledZ p q s * s = p * qval q.
Proof.
  intros E. unfold scaledZ. pose proof (nonzero_pos s).
  pose proof (Z.div_mod (p * qval q) s ltac:(lia)) as Hd. unfold scale_exact in E. lia.
Qed.

Lemma scaledZ_nonneg p q s : 0 ≤ scaledZ p q s.
Proof.
  pose proof (nonzero_pos s). pose proof (qval_range q). pose proof (u128_range p).
  apply Z.div_pos; nia.
Qed.

Lemma scaledZ_le_product (p : Price) q s : scaledZ p q s ≤ p * qval q.
Proof.
  pose proof (nonzero_pos s). pose proof (qval_range q). pose proof (u128_range p).
  apply Z.div_le_upper_bound; [lia|]. nia.
Qed.

Lemma checked_mul_quantity_scaled_eq (p : Price) q s :
  scale_exact p q s →
  checked_mul_quantity_scaled p q s =
    Done (if p * qval q <? 2 ^ 256 then Some (q_of_Z (scaledZ p q s)) else None).
Proof.
  unfold scale_exact, checked_mul_quantity_scaled. intros E.
  pose proof (nonzero_pos s). pose proof (qval_range q). pose proof (u128_range p).
  pose proof (u64_range s).
  rewrite checked_mul_u128_eq, (Z.mul_comm (qval q)).
  destruct (Z.ltb_spec (p * qval q) (2 ^ 256)) as [Hlt|Hge].
  - rewrite q_checked_in by nia. rewrite checked_div_rem_u64_eq.
    destruct (Z.eqb_spec (uval (nzval s)) 0); [lia|].
    rewrite q_of_Z_val, E by nia. change (uval (mk_uint 64 0) =? 0) with true. done.
  - by rewrite (proj2 (q_checked_None _)) by lia.
Qed.

(** ** Reductions *)

Lemma order_reduce_quantity_Done o a o' :
  order_reduce_quantity o a = Done o' ↔
    qval (o_remaining o) = qval (o_remaining o') + qval a ∧
    o' = MkOrder (o_id o) (o_side o) (o_price o) (o_remaining o') (o_tif o).
Proof.
  unfold order_reduce_quantity. rewrite bind_Done. setoid_rewrite expect_Done.
  setoid_rewrite checked_sub_Some. destruct o'; simpl. split.
  - intros (q & Hq & [= <- <- <- <- <-]). done.
  - intros [Hq [= -> -> -> ->]]. eauto.
Qed.

Lemma resting_reduce_quantity_Done r a r' :
  resting_reduce_quantity r a = Done r' ↔
    qval (r_remaining r) = qval (r_remaining r') + qval a ∧
    r' = MkRestingOrder (r_id r) (r_remaining r') (r_tif r).
Proof.
  unfold resting_reduce_quantity. rewrite bind_Done. setoid_rewrite expect_Done.
  setoid_rewrite checked_sub_Some. destruct r'; simpl. split.
  - intros (q & Hq & [= <- <- <-]). done.
  - intros [Hq [= -> ->]]. eauto.
Qed.
