(* ===== verification/OrderQueue.v ===== *)
(** * One side of the book (src/canister/src/order/queue/mod.rs)

    [OrderQueue], a [BTreeMap] of price levels that each hold a FIFO queue, its
    operations and its iterator. [queue_list] is the abstract view the book is
    verified against: the orders with their keys, in priority order. *)

From stdpp Require Import prelude gmap sorting.
From Stdlib Require Import ZArith Lia.
From S2P Require Import Prelude BTree.

Section queue.
Context {K : Type} `{Countable K, !Ord K} {V : Type}.

(** The struct has the single field [levels]. *)
Record OrderQueue : Type := MkOrderQueue { levels : gmap K (list V) }.

Definition queue_new : OrderQueue := MkOrderQueue ∅.

(** [OrderQueue::from_levels]: [BTreeMap::retain] of the non-empty levels. *)
Definition from_levels (ls : gmap K (list V)) : OrderQueue :=
  MkOrderQueue (filter (λ kv, kv.2 ≠ []) ls).

(** [OrderQueue::levels], [is_empty] and [len]. *)
Definition queue_levels (self : OrderQueue) : list (K * list V) := btree_iter (levels self).
Definition queue_is_empty (self : OrderQueue) : bool := bool_decide (levels self = ∅).
Definition queue_len (self : OrderQueue) : nat := size (levels self).

Definition pop_front (self : OrderQueue) : exec (option (K * V) * OrderQueue) :=
  match btree_iter (levels self) with
  | [] => Done (None, self)
  | (key, queue) :: _ =>
      match queue with
      | [] => Trap
      | value :: rest =>
          Done (Some (key, value),
                MkOrderQueue (if bool_decide (rest = []) then delete key (levels self)
                              else <[key := rest]> (levels self)))
      end
  end.

(** [OrderQueue::front_mut]: the key, the value under the mutable reference, and
    the queue that results from writing a value through it. *)
Definition front_mut (self : OrderQueue) : exec (option (K * V * (V → OrderQueue))) :=
  match btree_iter (levels self) with
  | [] => Done None
  | (key, queue) :: _ =>
      match queue with
      | [] => Trap
      | value :: rest =>
          Done (Some (key, value,
                      λ value', MkOrderQueue (<[key := value' :: rest]> (levels self))))
      end
  end.

Definition push_back (self : OrderQueue) (key : K) (value : V) : OrderQueue :=
  MkOrderQueue (<[key := default [] (levels self !! key) ++ [value]]> (levels self)).

(** [Iterator::position] followed by [VecDeque::remove]. *)
Fixpoint remove_first (predicate : V → bool) (queue : list V) : option (V * list V) :=
  match queue with
  | [] => None
  | v :: queue =>
      if predicate v then Some (v, queue)
      else let? (removed, rest) := remove_first predicate queue in Some (removed, v :: rest)
  end.

Definition queue_remove (self : OrderQueue) (key : K) (predicate : V → bool) :
    option V * OrderQueue :=
  match levels self !! key with
  | None => (None, self)
  | Some queue =>
      match remove_first predicate queue with
      | None => (None, self)
      | Some (removed, rest) =>
          (Some removed,
           MkOrderQueue (if bool_decide (rest = []) then delete key (levels self)
                         else <[key := rest]> (levels self)))
      end
  end.

(** [OrderQueueIter]: the levels still to visit and the level being visited. *)
Record OrderQueueIter : Type := MkIter {
  outer : list (K * list V);
  inner : option (K * list V)
}.

Definition iter_new (map : gmap K (list V)) : OrderQueueIter := MkIter (btree_iter map) None.

(** The [loop] of [Iterator::next] once the inner iterator is exhausted. *)
Fixpoint iter_advance (out : list (K * list V)) (inn : option (K * list V)) :
    option ((K * V) * OrderQueueIter) :=
  match out with
  | [] => None
  | (k, q) :: out' =>
      match q with
      | v :: q' => Some ((k, v), MkIter out' (Some (k, q')))
      | [] => iter_advance out' (Some (k, []))
      end
  end.

Definition iter_next (self : OrderQueueIter) : option ((K * V) * OrderQueueIter) :=
  match inner self with
  | Some (k, v :: it) => Some ((k, v), MkIter (outer self) (Some (k, it)))
  | inn => iter_advance (outer self) inn
  end.

Definition queue_iter (self : OrderQueue) : OrderQueueIter := iter_new (levels self).

(** ** The abstract view *)

Definition tag_level (kq : K * list V) : list (K * V) := (λ v, (kq.1, v)) <$> kq.2.

(** Every order with its key, best level first, oldest first within a level. *)
Definition queue_list (self : OrderQueue) : list (K * V) :=
  concat (tag_level <$> btree_iter (levels self)).

(** What an iterator has left to yield. *)
Definition iter_list (it : OrderQueueIter) : list (K * V) :=
  from_option tag_level [] (inner it) ++ concat (tag_level <$> outer it).

(** The invariant the type's documentation states: no level is empty. *)
Definition queue_wf (self : OrderQueue) : Prop := ∀ k, levels self !! k ≠ Some [].
End queue.
Arguments OrderQueue K {_ _} V : assert.
Arguments OrderQueueIter : clear implicits.

Section queue_lemmas.
Context {K : Type} `{Countable K, !Ord K, !OrdLaws K} {V : Type}.
Implicit Types (q : OrderQueue K V) (k : K) (v : V).

(** The iterator yields the abstract view, one element at a time. *)
Lemma iter_advance_list (out : list (K * list V)) inn :
  match iter_advance out inn with
  | None => concat (tag_level <$> out) = []
  | Some (x, it) => concat (tag_level <$> out) = x :: iter_list it
  end.
Proof.
  revert inn. induction out as [|[k [|v vs]] out IH]; intros inn; [done| |done].
  simpl. apply IH.
Qed.

Lemma iter_next_list (it : OrderQueueIter K V) :
  match iter_next it with
  | None => iter_list it = []
  | Some (x, it') => iter_list it = x :: iter_list it'
  end.
Proof.
  destruct it as [out [[k [|v vs]]|]]; unfold iter_next, iter_list; simpl;
    try apply iter_advance_list. done.
Qed.

Lemma queue_iter_list q : iter_list (queue_iter q) = queue_list q.
Proof. done. Qed.

Lemma elem_of_tag k v (kq : K * list V) : (k, v) ∈ tag_level kq ↔ k = kq.1 ∧ v ∈ kq.2.
Proof. unfold tag_level. rewrite list_elem_of_fmap. naive_solver. Qed.

Lemma elem_of_queue_list q k v :
  (k, v) ∈ queue_list q ↔ ∃ vs, levels q !! k = Some vs ∧ v ∈ vs.
Proof.
  unfold queue_list. rewrite elem_of_concat. setoid_rewrite list_elem_of_fmap. split.
  - intros (l & Hv & [k' vs] & -> & Hin). apply elem_of_tag in Hv as [-> Hv].
    exists vs. split; [by apply btree_iter_elem|done].
  - intros (vs & Hk & Hv). exists (tag_level (k, vs)). split; [by apply elem_of_tag|].
    exists (k, vs). split; [done|by apply btree_iter_elem].
Qed.

Lemma queue_list_new : queue_list (queue_new : OrderQueue K V) = [].
Proof. unfold queue_list; simpl. by rewrite btree_iter_empty. Qed.

Lemma queue_wf_new : queue_wf (queue_new : OrderQueue K V).
Proof. intros k. simpl. by rewrite lookup_empty. Qed.

Lemma from_levels_wf (ls : gmap K (list V)) : queue_wf (from_levels ls).
Proof. intros k Hk. apply map_lookup_filter_Some in Hk as [_ Hk]. done. Qed.

Lemma from_levels_id q : queue_wf q → from_levels (levels q) = q.
Proof.
  intros Hq. destruct q as [ls]. unfold from_levels; simpl. f_equal.
  apply map_filter_id. intros k vs Hk. simpl. intros ->. by apply (Hq k).
Qed.

(** Keys of the view never decrease. *)
Definition key_sorted (l : list (K * V)) : Prop := StronglySorted (λ x y, key_le x.1 y.1) l.

Lemma queue_list_key_sorted q : key_sorted (queue_list q).
Proof.
  unfold queue_list, key_sorted. pose proof (btree_iter_sorted (levels q)) as Hs.
  induction Hs as [|[k vs] l Hl IH Hp]; simpl; [constructor|].
  apply StronglySorted_app_iff. split_and!; [|done|].
  - clear -OrdLaws0. unfold tag_level; simpl. induction vs as [|v vs IH]; simpl; constructor; [done|].
    apply Forall_forall. intros x Hx. apply list_elem_of_fmap in Hx as (w & -> & _). simpl.
    apply key_le_lt. by left.
  - intros [k1 v1] [k2 v2] H1 H2. apply elem_of_tag in H1 as [-> _]; simpl.
    apply elem_of_concat in H2 as (lv & H2 & Hlv).
    apply list_elem_of_fmap in Hlv as ([k3 vs3] & -> & Hlv). apply elem_of_tag in H2 as [-> _].
    rewrite Forall_forall in Hp. apply key_le_lt. right. apply (Hp _ Hlv).
Qed.

Lemma queue_list_nil q : queue_wf q → queue_list q = [] → q = queue_new.
Proof.
  destruct q as [ls]. intros Hwf E. unfold queue_new. f_equal. apply map_eq. intros k.
  rewrite lookup_empty. destruct (ls !! k) as [[|v vs]|] eqn:Ek; [by destruct (Hwf k)| |done].
  assert (Hin : (k, v) ∈ queue_list (MkOrderQueue ls)).
  { apply elem_of_queue_list. exists (v :: vs). split; [done|left]. }
  rewrite E in Hin. by apply not_elem_of_nil in Hin.
Qed.

Lemma queue_is_empty_iff q : queue_wf q → queue_is_empty q = true ↔ queue_list q = [].
Proof.
  intros Hwf. unfold queue_is_empty. rewrite bool_decide_eq_true. split.
  - intros E. destruct q as [ls]; simpl in E; subst ls. apply queue_list_new.
  - intros E. by rewrite (queue_list_nil q Hwf E).
Qed.

(** The level at the front of the view. *)
Lemma queue_list_first q k vs l :
  btree_iter (levels q) = (k, vs) :: l → levels q !! k = Some vs.
Proof. intros E. apply btree_iter_elem. rewrite E. left. Qed.

Lemma queue_list_cons q k v l :
  queue_wf q → queue_list q = (k, v) :: l →
  ∃ vs ls, btree_iter (levels q) = (k, v :: vs) :: ls ∧
    l = tag_level (k, vs) ++ concat (tag_level <$> ls).
Proof.
  intros Hwf. unfold queue_list.
  destruct (btree_iter (levels q)) as [|[k' [|v' vs]] ls] eqn:E; [done| |].
  - by destruct (Hwf k'), (queue_list_first q k' [] ls).
  - simpl. intros [= -> -> <-]. eauto.
Qed.

(** Both [pop_front] and [remove] drop a level they empty. *)
Definition set_level (ls : gmap K (list V)) (k : K) (vs : list V) : gmap K (list V) :=
  if bool_decide (vs = []) then delete k ls else <[k := vs]> ls.

Lemma set_level_wf (ls : gmap K (list V)) k vs :
  queue_wf (MkOrderQueue ls) → queue_wf (MkOrderQueue (set_level ls k vs)).
Proof.
  intros Hwf k'. specialize (Hwf k'). unfold set_level; simpl in *.
  case_bool_decide; rewrite ?lookup_delete, ?lookup_insert; case_decide; naive_solver.
Qed.

Lemma pop_front_nil q : queue_wf q → queue_list q = [] → pop_front q = Done (None, q).
Proof.
  intros Hwf E. rewrite (queue_list_nil q Hwf E). unfold pop_front; simpl.
  by rewrite btree_iter_empty.
Qed.

Lemma pop_front_cons q k v l :
  queue_wf q → queue_list q = (k, v) :: l →
  ∃ q', pop_front q = Done (Some (k, v), q') ∧ queue_wf q' ∧ queue_list q' = l.
Proof.
  intros Hwf E. destruct (queue_list_cons q k v l Hwf E) as (vs & ls & Eb & ->).
  unfold pop_front. rewrite Eb. eexists. split; [done|].
  split; [apply (set_level_wf (levels q) k vs); by destruct q|].
  unfold queue_list; simpl. case_bool_decide as Evs.
  - subst vs. by rewrite (btree_iter_delete_first _ _ _ _ Eb).
  - by rewrite (btree_iter_replace_first _ _ _ _ _ Eb).
Qed.

Lemma front_mut_cons q k v l :
  queue_wf q → queue_list q = (k, v) :: l →
  ∃ wr, front_mut q = Done (Some (k, v, wr)) ∧
    ∀ v', queue_wf (wr v') ∧ queue_list (wr v') = (k, v') :: l.
Proof.
  intros Hwf E. destruct (queue_list_cons q k v l Hwf E) as (vs & ls & Eb & ->).
  unfold front_mut. rewrite Eb. eexists. split; [done|]. intros v'. split.
  - intros k'. simpl. rewrite lookup_insert. specialize (Hwf k'). case_decide; naive_solver.
  - unfold queue_list; simpl. by rewrite (btree_iter_replace_first _ _ _ _ _ Eb).
Qed.

Lemma concat_tag_app (l1 l2 : list (K * list V)) :
  concat (tag_level <$> (l1 ++ l2)) = concat (tag_level <$> l1) ++ concat (tag_level <$> l2).
Proof. by rewrite fmap_app, concat_app. Qed.

Lemma tag_level_app k (vs ws : list V) :
  tag_level (k, vs ++ ws) = tag_level (k, vs) ++ tag_level (k, ws).
Proof. apply fmap_app. Qed.

Lemma Forall_concat_tag (P : K → Prop) (l : list (K * list V)) :
  Forall (λ p, P p.1) l → Forall (λ x, P x.1) (concat (tag_level <$> l)).
Proof.
  rewrite !Forall_forall. intros HP [k v] Hin. apply elem_of_concat in Hin as (vs & Hv & Hin).
  apply list_elem_of_fmap in Hin as ([k' ws] & -> & Hin). apply elem_of_tag in Hv as [-> _].
  apply (HP _ Hin).
Qed.

(** The view around one level. *)
Lemma queue_list_level q k ws :
  ∃ l1 l2,
    queue_list q = l1 ++ tag_level (k, default [] (levels q !! k)) ++ l2 ∧
    queue_list (MkOrderQueue (<[k := ws]> (levels q))) = l1 ++ tag_level (k, ws) ++ l2 ∧
    queue_list (MkOrderQueue (delete k (levels q))) = l1 ++ l2 ∧
    Forall (λ x, key_lt x.1 k) l1 ∧ Forall (λ x, key_lt k x.1) l2.
Proof.
  destruct (btree_iter_insert_split (levels q) k ws) as (l1 & l2 & E & Ei & Ed & H1 & H2).
  exists (concat (tag_level <$> l1)), (concat (tag_level <$> l2)).
  unfold queue_list; simpl. rewrite E, Ei, Ed, !concat_tag_app.
  split_and!; [|done|done|by apply (Forall_concat_tag (λ k', key_lt k' k))|
                by apply (Forall_concat_tag (key_lt k))].
  destruct (levels q !! k); simpl; [by rewrite app_nil_r|done].
Qed.

Lemma tag_level_keys k (vs : list V) : Forall (λ x, x.1 = k) (tag_level (k, vs)).
Proof. apply Forall_forall. intros [k' v] Hin. by apply elem_of_tag in Hin as [-> _]. Qed.

(** [push_back] puts the order behind every order of its own or a better level. *)
Lemma push_back_spec q k v :
  queue_wf q →
  queue_wf (push_back q k v) ∧
  ∃ l1 l2, queue_list q = l1 ++ l2 ∧ queue_list (push_back q k v) = l1 ++ (k, v) :: l2 ∧
    Forall (λ x, key_le x.1 k) l1 ∧ Forall (λ x, key_lt k x.1) l2.
Proof.
  intros Hwf. split.
  { intros k'. simpl. rewrite lookup_insert. specialize (Hwf k'). case_decide; [|done].
    by destruct (default [] (levels q !! k)). }
  destruct (queue_list_level q k (default [] (levels q !! k) ++ [v]))
    as (l1 & l2 & E & Ei & _ & H1 & H2).
  exists (l1 ++ tag_level (k, default [] (levels q !! k))), l2.
  unfold push_back. rewrite E, Ei, tag_level_app, <-!app_assoc. split_and!; [done..| |done].
  apply Forall_app. split; (eapply Forall_impl; [eassumption || apply tag_level_keys|]);
    intros x Hx; apply key_le_lt; [by right|by left].
Qed.

Lemma remove_first_spec (p : V → bool) vs :
  match remove_first p vs with
  | None => Forall (λ v, p v = false) vs
  | Some (v, rest) => ∃ (v1 v2 : list V), vs = v1 ++ v :: v2 ∧ rest = v1 ++ v2 ∧ p v = true ∧
      Forall (λ v, p v = false) v1
  end.
Proof.
  induction vs as [|v vs IH]; simpl; [constructor|]. destruct (p v) eqn:Ep.
  - exists [], vs. split_and!; [done..|constructor].
  - destruct (remove_first p vs) as [[w rest]|]; simpl; [|by constructor].
    destruct IH as (v1 & v2 & -> & -> & Hp & Hv1). exists (v :: v1), v2.
    split_and!; [done..|by constructor].
Qed.

(** [remove] takes out the first order of the level that satisfies the predicate. *)
Lemma queue_remove_Some q k (p : V → bool) v q' :
  queue_wf q → queue_remove q k p = (Some v, q') →
  queue_wf q' ∧ p v = true ∧
  ∃ l1 l2, queue_list q = l1 ++ (k, v) :: l2 ∧ queue_list q' = l1 ++ l2 ∧
    Forall (λ x, x.1 = k → p x.2 = false) l1.
Proof.
  intros Hwf. unfold queue_remove. destruct (levels q !! k) as [vs|] eqn:Ek; [|done].
  pose proof (remove_first_spec p vs) as Hr. destruct (remove_first p vs) as [[w rest]|]; [|done].
  destruct Hr as (v1 & v2 & -> & -> & Hp & Hv1). intros [= <- <-].
  split; [apply (set_level_wf (levels q)); by destruct q|]. split; [done|].
  destruct (queue_list_level q k (v1 ++ v2)) as (l1 & l2 & E & Ei & Ed & H1 & H2).
  rewrite Ek in E; simpl in E.
  exists (l1 ++ tag_level (k, v1)), (tag_level (k, v2) ++ l2).
  rewrite E. split; [by rewrite tag_level_app, <-!app_assoc|]. split.
  - case_bool_decide as Ev.
    + apply app_nil in Ev as [-> ->]. by rewrite Ed, app_nil_r.
    + by rewrite Ei, tag_level_app, <-!app_assoc.
  - apply Forall_app. split.
    + eapply Forall_impl; [exact H1|]. intros x Hx Ex. simpl in Hx. rewrite Ex in Hx.
      by apply key_lt_irrefl in Hx.
    + apply Forall_forall. intros [k' x] Hx. apply elem_of_tag in Hx as [-> Hx]. simpl.
      rewrite Forall_forall in Hv1. auto.
Qed.

Lemma queue_remove_None q k (p : V → bool) q' :
  queue_remove q k p = (None, q') → q' = q ∧ ∀ v, (k, v) ∈ queue_list q → p v = false.
Proof.
  unfold queue_remove. setoid_rewrite elem_of_queue_list.
  destruct (levels q !! k) as [vs|] eqn:Ek; [|naive_solver].
  pose proof (remove_first_spec p vs) as Hr. destruct (remove_first p vs) as [[w rest]|]; [done|].
  intros [= <-]. split; [done|]. intros v (ws & [= <-] & Hv). rewrite Forall_forall in Hr. auto.
Qed.
(** A level is the part of the view with its key, so the view determines the queue. *)
Lemma queue_list_at q k :
  filter (λ x : K * V, x.1 = k) (queue_list q) = tag_level (k, default [] (levels q !! k)).
Proof.
  destruct (queue_list_level q k []) as (l1 & l2 & -> & _ & _ & H1 & H2).
  assert (Hno : ∀ l : list (K * V), Forall (λ x, x.1 ≠ k) l → filter (λ x : K * V, x.1 = k) l = []).
  { induction 1 as [|x l Hx _ IH]; [done|]. by rewrite filter_cons_False. }
  rewrite !filter_app, (Hno l1), (Hno l2), app_nil_r; cbn [app].
  - pose proof (tag_level_keys k (default [] (levels q !! k))) as Hk.
    induction Hk as [|x l Hx _ IH]; [done|]. by rewrite filter_cons_True, IH.
  - eapply Forall_impl; [exact H2|]. intros x Hx E. cbv beta in Hx, E. rewrite E in Hx. by apply key_lt_irrefl in Hx.
  - eapply Forall_impl; [exact H1|]. intros x Hx E. cbv beta in Hx, E. rewrite E in Hx. by apply key_lt_irrefl in Hx.
Qed.

Lemma tag_level_inj k (vs ws : list V) : tag_level (k, vs) = tag_level (k, ws) → vs = ws.
Proof. intros E. apply (f_equal (fmap snd)) in E. unfold tag_level in E. by rewrite <- !list_fmap_compose, !list_fmap_id in E. Qed.

Lemma queue_list_inj q q' : queue_wf q → queue_wf q' → queue_list q = queue_list q' → q = q'.
Proof.
  intros Hq Hq' E. destruct q as [ls], q' as [ls']. f_equal. apply map_eq. intros k.
  specialize (Hq k). specialize (Hq' k). cbn [levels] in *.
  pose proof (queue_list_at (MkOrderQueue ls) k) as E1. rewrite E, queue_list_at in E1.
  apply tag_level_inj in E1. cbn [levels] in E1.
  destruct (ls !! k) as [[|]|], (ls' !! k) as [[|]|]; naive_solver.
Qed.
End queue_lemmas.
