(* ===== verification/FillPlan.v ===== *)
(** * Fill plans (src/canister/src/order/plan.rs)

    The read-only plan of the fills an incoming order makes, and the greedy
    reference matcher it is proved equal to. *)

From stdpp Require Import prelude gmap.
From Stdlib Require Import ZArith Lia.
From S2P Require Import Prelude Word BTree Quantity Ids OrderTypes.

Record FillPlan : Type := MkFillPlan {
  taker_order : OrderSeq;
  filled_makers : list OrderSeq;
  last_partial : option (OrderSeq * Quantity);
  taker_remaining : Quantity
}.

Record FillPlanBuilder : Type := MkBuilder {
  b_order : Order;
  b_filled_makers : list OrderSeq;
  b_last_partial : option (OrderSeq * Quantity);
  b_taker_remaining : Quantity
}.

Inductive PlanOutcome : Type :=
| Execute (plan : FillPlan)
| Kill.

(** [FillPlan::builder]. *)
Definition builder (order : Order) : FillPlanBuilder := MkBuilder order [] None (o_remaining order).

Definition add_fill (self : FillPlanBuilder) (resting : RestingOrder) : exec FillPlanBuilder :=
  let! _ := assert (bool_decide (b_last_partial self = None)) in
  let maker_seq := r_id resting in
  let! _ := assert (bool_decide (maker_seq ≠ o_id (b_order self))) in
  let maker_qty := r_remaining resting in
  let fill_qty := q_min (b_taker_remaining self) maker_qty in
  let! taker_remaining := expect (checked_sub (b_taker_remaining self) fill_qty) in
  if bool_decide (fill_qty = maker_qty) then
    Done (MkBuilder (b_order self) (b_filled_makers self ++ [maker_seq])
            (b_last_partial self) taker_remaining)
  else
    let! _ := assert (bool_decide (taker_remaining = Quantity_ZERO)) in
    Done (MkBuilder (b_order self) (b_filled_makers self) (Some (maker_seq, fill_qty))
            taker_remaining).

Definition into_plan (self : FillPlanBuilder) : FillPlan :=
  MkFillPlan (o_id (b_order self)) (b_filled_makers self) (b_last_partial self)
    (b_taker_remaining self).

Definition build (self : FillPlanBuilder) : PlanOutcome :=
  match o_tif (b_order self) with
  | GoodTilCanceled => Execute (into_plan self)
  | FillOrKill =>
      if negb (is_zero (b_taker_remaining self)) then Kill else Execute (into_plan self)
  end.

(** The body shared by the two [for] loops of [OrderBook::plan_fills], over the
    makers an iterator yields: [stop] is the side's price test of the [break]. *)
Fixpoint plan_loop (stop : Price → bool) (plan : FillPlanBuilder)
    (makers : list (Price * RestingOrder)) : exec FillPlanBuilder :=
  match makers with
  | [] => Done plan
  | (maker_price, resting) :: makers =>
      if stop maker_price || is_zero (b_taker_remaining plan) then Done plan
      else let! plan := add_fill plan resting in plan_loop stop plan makers
  end.

(** ** The reference matcher

    The greedy walk of a maker list in priority order: the makers consumed
    entirely, the maker filled in part, the taker's remainder and the makers that
    are left. *)

Record match_spec : Type := MkMatchSpec {
  ms_full : list (Price * RestingOrder);
  ms_partial : option (Price * RestingOrder * Z);
  ms_remaining : Z;
  ms_rest : list (Price * RestingOrder)
}.

Fixpoint greedy (stop : Price → bool) (rem : Z) (makers : list (Price * RestingOrder)) :
    match_spec :=
  match makers with
  | [] => MkMatchSpec [] None rem []
  | (p, r) :: rest =>
      if stop p || (rem =? 0) then MkMatchSpec [] None rem makers
      else if qval (r_remaining r) <=? rem then
        let s := greedy stop (rem - qval (r_remaining r)) rest in
        MkMatchSpec ((p, r) :: ms_full s) (ms_partial s) (ms_remaining s) (ms_rest s)
      else MkMatchSpec [] (Some (p, r, rem)) 0 rest
  end.

Definition r_qty (x : Price * RestingOrder) : Z := qval (r_remaining x.2).
Definition x_id (x : Price * RestingOrder) : OrderSeq := r_id x.2.
Definition partial_list (s : match_spec) : list (Price * RestingOrder) :=
  from_option (λ x, [x.1]) [] (ms_partial s).
Definition partial_qty (s : match_spec) : Z := from_option snd 0 (ms_partial s).

(** The makers split into the consumed, the partially filled and the untouched. *)
Lemma greedy_split stop rem makers :
  let s := greedy stop rem makers in makers = ms_full s ++ partial_list s ++ ms_rest s.
Proof.
  revert rem. induction makers as [|[p r] makers IH]; intros rem; simpl; [done|].
  destruct (stop p || (rem =? 0)); [done|].
  destruct (qval (r_remaining r) <=? rem); simpl; [|done]. f_equal. apply IH.
Qed.

(** Quantity conservation: what the taker loses is what the makers lose. *)
Lemma greedy_conserve stop rem makers :
  let s := greedy stop rem makers in
  rem = ms_remaining s + sum_over r_qty (ms_full s) + partial_qty s.
Proof.
  revert rem. induction makers as [|[p r] makers IH]; intros rem; simpl.
  { autorewrite with oisy_sums. unfold partial_qty; simpl. lia. }
  destruct (stop p || (rem =? 0)).
  { simpl. autorewrite with oisy_sums. unfold partial_qty; simpl. lia. }
  destruct (qval (r_remaining r) <=? rem); simpl.
  - specialize (IH (rem - qval (r_remaining r))). autorewrite with oisy_sums.
    unfold partial_qty, r_qty in *; simpl in *. lia.
  - autorewrite with oisy_sums. unfold partial_qty; simpl. lia.
Qed.

Lemma greedy_remaining_range stop rem makers :
  0 ≤ rem → 0 ≤ ms_remaining (greedy stop rem makers) ≤ rem.
Proof.
  revert rem. induction makers as [|[p r] makers IH]; intros rem Hrem; simpl; [lia|].
  destruct (stop p || (rem =? 0)); [simpl; lia|].
  destruct (Z.leb_spec (qval (r_remaining r)) rem); simpl; [|lia].
  pose proof (qval_range (r_remaining r)). specialize (IH (rem - qval (r_remaining r))). lia.
Qed.

(** A partial fill leaves the maker a positive remainder and the taker nothing. *)
Lemma greedy_partial stop rem makers p r q :
  0 ≤ rem → ms_partial (greedy stop rem makers) = Some (p, r, q) →
  0 < q < qval (r_remaining r) ∧ q ≤ rem ∧ stop p = false ∧
  ms_remaining (greedy stop rem makers) = 0.
Proof.
  revert rem. induction makers as [|[p' r'] makers IH]; intros rem Hrem; simpl; [done|].
  destruct (stop p') eqn:Es; simpl; [done|]. destruct (Z.eqb_spec rem 0); simpl; [done|].
  destruct (Z.leb_spec (qval (r_remaining r')) rem); simpl.
  - intros Hp. pose proof (qval_range (r_remaining r')).
    apply IH in Hp as (? & ? & ? & ->); [|lia]. split_and!; lia || done.
  - intros [= -> -> ->]. split_and!; lia || done.
Qed.

(** Only crossing makers are touched. *)
Lemma greedy_crosses stop rem makers x :
  x ∈ ms_full (greedy stop rem makers) → stop x.1 = false.
Proof.
  revert rem. induction makers as [|[p r] makers IH]; intros rem; simpl; [set_solver|].
  destruct (stop p) eqn:Es; simpl; [set_solver|]. destruct (rem =? 0); simpl; [set_solver|].
  destruct (qval (r_remaining r) <=? rem); simpl; [|set_solver].
  rewrite elem_of_cons. intros [->|Hx]; [done|eauto].
Qed.

(** The walk stops early only at a maker that does not cross. *)
Lemma greedy_stops stop rem makers :
  0 ≤ rem → ms_remaining (greedy stop rem makers) ≠ 0 →
  ms_partial (greedy stop rem makers) = None ∧
  match ms_rest (greedy stop rem makers) with [] => True | x :: _ => stop x.1 = true end.
Proof.
  revert rem. induction makers as [|[p r] makers IH]; intros rem Hrem; simpl; [done|].
  destruct (stop p) eqn:Es; simpl; [done|]. destruct (Z.eqb_spec rem 0); simpl; [done|].
  destruct (Z.leb_spec (qval (r_remaining r)) rem); simpl; [|done]. apply IH. lia.
Qed.

(** What the plan records of a walk. *)
Definition plan_of (b : FillPlanBuilder) (s : match_spec) : FillPlanBuilder :=
  MkBuilder (b_order b) (b_filled_makers b ++ (x_id <$> ms_full s))
    ((λ x, (x_id x.1, q_of_Z x.2)) <$> ms_partial s) (q_of_Z (ms_remaining s)).

Lemma q_min_eq_r p q : q_min p q = q ↔ qval q ≤ qval p.
Proof. rewrite qval_eq_iff, qval_min. lia. Qed.

(** Once a partial fill is recorded the taker is exhausted and the loop stops. *)
Lemma plan_loop_stop stop b makers :
  is_zero (b_taker_remaining b) = true → plan_loop stop b makers = Done b.
Proof. intros Hz. destruct makers as [|[p r] makers]; simpl; [done|]. by rewrite Hz, orb_true_r. Qed.

Lemma add_fill_full b r :
  b_last_partial b = None → r_id r ≠ o_id (b_order b) →
  qval (r_remaining r) ≤ qval (b_taker_remaining b) →
  add_fill b r = Done (MkBuilder (b_order b) (b_filled_makers b ++ [r_id r]) None
    (q_of_Z (qval (b_taker_remaining b) - qval (r_remaining r)))).
Proof.
  intros Hp Hid Hq. unfold add_fill. rewrite Hp, !bool_decide_eq_true_2 by done.
  cbn [ebind assert]. rewrite (proj2 (q_min_eq_r _ _) Hq).
  pose proof (qval_range (r_remaining r)). pose proof (qval_range (b_taker_remaining b)).
  rewrite checked_sub_eq, q_checked_in by lia. cbn [ebind expect].
  by rewrite bool_decide_eq_true_2.
Qed.

Lemma add_fill_partial b r :
  b_last_partial b = None → r_id r ≠ o_id (b_order b) →
  qval (b_taker_remaining b) < qval (r_remaining r) →
  add_fill b r = Done (MkBuilder (b_order b) (b_filled_makers b)
    (Some (r_id r, b_taker_remaining b)) Quantity_ZERO).
Proof.
  intros Hp Hid Hq. unfold add_fill. rewrite Hp, !bool_decide_eq_true_2 by done.
  cbn [ebind assert].
  assert (Em : q_min (b_taker_remaining b) (r_remaining r) = b_taker_remaining b)
    by (rewrite qval_eq_iff, qval_min; lia).
  rewrite Em, checked_sub_eq, Z.sub_diag, q_checked_in by lia. cbn [ebind expect].
  rewrite bool_decide_eq_false_2 by (intros E; rewrite E in Hq; lia).
  by rewrite bool_decide_eq_true_2.
Qed.

(** The planning loop never panics and computes the greedy walk. *)
Lemma plan_loop_greedy stop b makers :
  b_last_partial b = None →
  Forall (λ x, x_id x ≠ o_id (b_order b)) makers →
  plan_loop stop b makers = Done (plan_of b (greedy stop (qval (b_taker_remaining b)) makers)).
Proof.
  revert b. induction makers as [|[p r] makers IH]; intros b Hp Hids; simpl.
  { unfold plan_of; simpl. rewrite app_nil_r, q_of_Z_qval. destruct b; simpl in *. by subst. }
  apply Forall_cons in Hids as [Hid Hids]. rewrite is_zero_spec.
  destruct (stop p || (qval (b_taker_remaining b) =? 0)) eqn:Es.
  { unfold plan_of; simpl. rewrite app_nil_r, q_of_Z_qval. destruct b; simpl in *. by subst. }
  pose proof (qval_range (r_remaining r)). pose proof (qval_range (b_taker_remaining b)).
  destruct (Z.leb_spec (qval (r_remaining r)) (qval (b_taker_remaining b))) as [Hle|Hlt].
  - rewrite add_fill_full by done. cbn [ebind]. rewrite IH by done. cbn [b_taker_remaining].
    rewrite q_of_Z_val by lia. unfold plan_of; simpl. by rewrite <-app_assoc.
  - rewrite add_fill_partial by done. cbn [ebind].
    rewrite plan_loop_stop by done. unfold plan_of; simpl.
    by rewrite app_nil_r, q_of_Z_qval.
Qed.
