(* ===== verification/OrderBook.v ===== *)
(** * The order book (src/canister/src/order/book.rs)

    The state of one book and all its operations, in state-passing style: an
    operation that takes [&mut self] returns the book it leaves, and [exec]
    carries its panics. The book's invariant and the theorems are in
    BookMatching.v, BookPending.v and BookSnapshot.v. *)

From stdpp Require Import prelude gmap.
From Stdlib Require Import ZArith Lia.
From S2P Require Import Prelude Word BTree Quantity Ids Fees OrderTypes OrderQueue FillPlan.

Record OrderBook : Type := MkOrderBook {
  ob_id : OrderBookId;
  ob_next_seq : OrderSeq;
  ob_next_fill : FillSeq;
  ob_tick_size : TickSize;
  ob_lot_size : LotSize;
  ob_min_notional : Quantity;
  ob_max_notional : option Quantity;
  ob_fee_rates : FeeRates;
  ob_pending_orders : list Order;
  ob_bids : OrderQueue (Reverse Price) RestingOrder;
  ob_asks : OrderQueue Price RestingOrder;
  ob_resting_orders : gmap OrderSeq (Side * Price);
  ob_filled_orders : gset OrderSeq
}.

(** Field assignments. *)
Definition with_next_seq (s : OrderSeq) (b : OrderBook) : OrderBook :=
  MkOrderBook (ob_id b) s (ob_next_fill b) (ob_tick_size b) (ob_lot_size b)
    (ob_min_notional b) (ob_max_notional b) (ob_fee_rates b) (ob_pending_orders b)
    (ob_bids b) (ob_asks b) (ob_resting_orders b) (ob_filled_orders b).
Definition with_next_fill (s : FillSeq) (b : OrderBook) : OrderBook :=
  MkOrderBook (ob_id b) (ob_next_seq b) s (ob_tick_size b) (ob_lot_size b)
    (ob_min_notional b) (ob_max_notional b) (ob_fee_rates b) (ob_pending_orders b)
    (ob_bids b) (ob_asks b) (ob_resting_orders b) (ob_filled_orders b).
Definition with_pending (l : list Order) (b : OrderBook) : OrderBook :=
  MkOrderBook (ob_id b) (ob_next_seq b) (ob_next_fill b) (ob_tick_size b) (ob_lot_size b)
    (ob_min_notional b) (ob_max_notional b) (ob_fee_rates b) l
    (ob_bids b) (ob_asks b) (ob_resting_orders b) (ob_filled_orders b).
Definition with_bids (q : OrderQueue (Reverse Price) RestingOrder) (b : OrderBook) : OrderBook :=
  MkOrderBook (ob_id b) (ob_next_seq b) (ob_next_fill b) (ob_tick_size b) (ob_lot_size b)
    (ob_min_notional b) (ob_max_notional b) (ob_fee_rates b) (ob_pending_orders b)
    q (ob_asks b) (ob_resting_orders b) (ob_filled_orders b).
Definition with_asks (q : OrderQueue Price RestingOrder) (b : OrderBook) : OrderBook :=
  MkOrderBook (ob_id b) (ob_next_seq b) (ob_next_fill b) (ob_tick_size b) (ob_lot_size b)
    (ob_min_notional b) (ob_max_notional b) (ob_fee_rates b) (ob_pending_orders b)
    (ob_bids b) q (ob_resting_orders b) (ob_filled_orders b).
Definition with_resting (m : gmap OrderSeq (Side * Price)) (b : OrderBook) : OrderBook :=
  MkOrderBook (ob_id b) (ob_next_seq b) (ob_next_fill b) (ob_tick_size b) (ob_lot_size b)
    (ob_min_notional b) (ob_max_notional b) (ob_fee_rates b) (ob_pending_orders b)
    (ob_bids b) (ob_asks b) m (ob_filled_orders b).
Definition with_filled (s : gset OrderSeq) (b : OrderBook) : OrderBook :=
  MkOrderBook (ob_id b) (ob_next_seq b) (ob_next_fill b) (ob_tick_size b) (ob_lot_size b)
    (ob_min_notional b) (ob_max_notional b) (ob_fee_rates b) (ob_pending_orders b)
    (ob_bids b) (ob_asks b) (ob_resting_orders b) s.

Record RemovedOrder : Type := MkRemovedOrder {
  ro_side : Side; ro_price : Price; ro_remaining : Quantity
}.

Record MatchingOutput : Type := MkMatchingOutput {
  mo_fills : list Fill;
  mo_resting_orders : gset OrderSeq;
  mo_filled_orders : gset OrderSeq;
  mo_expired_orders : gmap OrderSeq RemovedOrder
}.

Inductive MatchResult : Type :=
| MFilled (fills : list Fill)
| MPartiallyFilled (fills : list Fill) (resting_order_seq : OrderSeq)
| MResting (resting_order_seq : OrderSeq)
| MKilled (killed_order_seq : OrderSeq) (killed : RemovedOrder).

Inductive MatchOrderError : Type :=
| InvalidTickSize (price : Price) (tick_size : TickSize)
| InvalidLotSize (quantity : Quantity) (lot_size : LotSize).

Record NotionalError : Type := MkNotionalError {
  ne_notional : Quantity; ne_min : Quantity; ne_max : option Quantity
}.

#[export] Instance RemovedOrder_eq_dec : EqDecision RemovedOrder.
Proof. solve_decision. Defined.

(** [OrderBook::new]. *)
Definition book_new (id : OrderBookId) (tick_size : TickSize) (lot_size : LotSize)
    (min_notional : Quantity) (max_notional : option Quantity) (fee_rates : FeeRates) : OrderBook :=
  MkOrderBook id Seq_ZERO Seq_ZERO tick_size lot_size min_notional max_notional fee_rates
    [] queue_new queue_new ∅ ∅.

Definition book_is_empty (self : OrderBook) : exec bool :=
  let! _ := assert (Bool.eqb (queue_is_empty (ob_bids self) && queue_is_empty (ob_asks self))
                      (bool_decide (ob_resting_orders self = ∅))) in
  Done (bool_decide (ob_resting_orders self = ∅) && bool_decide (ob_pending_orders self = [])).

(** ** The two sides *)

Definition unrev (x : Reverse Price * RestingOrder) : Price * RestingOrder :=
  (unreverse x.1, x.2).

(** What [asks_iter] and [bids_iter] yield. *)
Definition asks_list (self : OrderBook) : list (Price * RestingOrder) := queue_list (ob_asks self).
Definition bids_list (self : OrderBook) : list (Price * RestingOrder) :=
  unrev <$> queue_list (ob_bids self).

Definition asks_pop_front (self : OrderBook) : exec (option (Price * RestingOrder) * OrderBook) :=
  let! (popped, q) := pop_front (ob_asks self) in
  match popped with
  | None => Done (None, with_asks q self)
  | Some (price, resting) =>
      let! _ := expect (ob_resting_orders self !! r_id resting) in
      Done (Some (price, resting),
            with_resting (delete (r_id resting) (ob_resting_orders self)) (with_asks q self))
  end.

Definition bids_pop_front (self : OrderBook) : exec (option (Price * RestingOrder) * OrderBook) :=
  let! (popped, q) := pop_front (ob_bids self) in
  match popped with
  | None => Done (None, with_bids q self)
  | Some (price, resting) =>
      let! _ := expect (ob_resting_orders self !! r_id resting) in
      Done (Some (unreverse price, resting),
            with_resting (delete (r_id resting) (ob_resting_orders self)) (with_bids q self))
  end.

Definition asks_front_mut (self : OrderBook) :
    exec (option (Price * RestingOrder * (RestingOrder → OrderBook))) :=
  let! front := front_mut (ob_asks self) in
  Done (match front with
        | None => None
        | Some (price, resting, write) => Some (price, resting, λ r, with_asks (write r) self)
        end).

Definition bids_front_mut (self : OrderBook) :
    exec (option (Price * RestingOrder * (RestingOrder → OrderBook))) :=
  let! front := front_mut (ob_bids self) in
  Done (match front with
        | None => None
        | Some (price, resting, write) =>
            Some (unreverse price, resting, λ r, with_bids (write r) self)
        end).

Definition best_bid (self : OrderBook) : option Order :=
  match iter_next (queue_iter (ob_bids self)) with
  | None => None
  | Some ((price, resting), _) => Some (to_order resting Buy (unreverse price))
  end.

Definition best_ask (self : OrderBook) : option Order :=
  match iter_next (queue_iter (ob_asks self)) with
  | None => None
  | Some ((price, resting), _) => Some (to_order resting Sell price)
  end.

(** ** Validation *)

Definition validate_order (self : OrderBook) (price : Price) (quantity : Quantity) :
    exec (result unit MatchOrderError) :=
  if price_is_zero price || negb (price_is_multiple_of price (ob_tick_size self)) then
    Done (Err (InvalidTickSize price (ob_tick_size self)))
  else
    if is_zero quantity then Done (Err (InvalidLotSize quantity (ob_lot_size self))) else
    let! multiple := is_multiple_of quantity (ob_lot_size self) in
    if negb multiple then Done (Err (InvalidLotSize quantity (ob_lot_size self)))
    else Done (Ok ()).

Definition check_notional (self : OrderBook) (notional : Quantity) : result unit NotionalError :=
  if q_ltb notional (ob_min_notional self) ||
     match ob_max_notional self with Some max => q_ltb max notional | None => false end
  then Err (MkNotionalError notional (ob_min_notional self) (ob_max_notional self))
  else Ok ().

(** ** Matching *)

Definition mint_fill_seq (self : OrderBook) : exec (FillSeq * OrderBook) :=
  let seq := ob_next_fill self in
  let! next := increment seq in
  Done (seq, with_next_fill next self).

Definition insert_order (self : OrderBook) (order : Order) : exec OrderBook :=
  let side := o_side order in
  let price := o_price order in
  let! _ := assert (bool_decide (ob_resting_orders self !! o_id order = None)) in
  let self := with_resting (<[o_id order := (side, price)]> (ob_resting_orders self)) self in
  let resting := resting_from order in
  Done (match side with
        | Buy => with_bids (push_back (ob_bids self) (MkReverse price) resting) self
        | Sell => with_asks (push_back (ob_asks self) price resting) self
        end).

Definition plan_fills (self : OrderBook) (order : Order) : exec FillPlanBuilder :=
  let taker_price := o_price order in
  match o_side order with
  | Buy => plan_loop (λ maker_price, taker_price <? maker_price) (builder order) (asks_list self)
  | Sell => plan_loop (λ maker_price, maker_price <? taker_price) (builder order) (bids_list self)
  end.

(** One iteration of the loop over [plan.filled_makers()]. *)
Definition apply_filled (st : OrderBook * Order * list Fill) (maker_seq : OrderSeq) :
    exec (OrderBook * Order * list Fill) :=
  let '(self, order, fills) := st in
  let side := o_side order in
  let! (popped, self) :=
    match side with Buy => asks_pop_front self | Sell => bids_pop_front self end in
  let! (maker_price, filled) := expect popped in
  let! _ := assert (bool_decide (r_id filled = maker_seq)) in
  let full_qty := r_remaining filled in
  let! order := order_reduce_quantity order full_qty in
  let! (seq, self) := mint_fill_seq self in
  let fill := MkFill seq (o_id order) side (o_price order) maker_seq maker_price full_qty in
  Done (with_filled ({[r_id filled]} ∪ ob_filled_orders self) self, order, fills ++ [fill]).

(** The [if let Some(..) = plan.last_partial()] of [apply_plan]. *)
Definition apply_partial (st : OrderBook * Order * list Fill)
    (partial : option (OrderSeq * Quantity)) : exec (OrderBook * Order * list Fill) :=
  let '(self, order, fills) := st in
  match partial with
  | None => Done st
  | Some (maker_seq, fill_qty) =>
      let side := o_side order in
      let! front := match side with Buy => asks_front_mut self | Sell => bids_front_mut self end in
      let! (maker_price, resting, write) := expect front in
      let! _ := assert (bool_decide (r_id resting = maker_seq)) in
      let! resting := resting_reduce_quantity resting fill_qty in
      let self := write resting in
      let! _ := assert (bool_decide (r_remaining resting ≠ Quantity_ZERO)) in
      let! order := order_reduce_quantity order fill_qty in
      let! (seq, self) := mint_fill_seq self in
      let fill := MkFill seq (o_id order) side (o_price order) maker_seq maker_price fill_qty in
      Done (self, order, fills ++ [fill])
  end.

Definition apply_plan (self : OrderBook) (plan : FillPlan) (order : Order) :
    exec (MatchResult * OrderBook) :=
  let! _ := assert (bool_decide (o_id order = taker_order plan)) in
  let! st := exec_fold apply_filled (self, order, []) (filled_makers plan) in
  let! (self, order, fills) := apply_partial st (last_partial plan) in
  let! _ := assert (bool_decide (o_remaining order = taker_remaining plan)) in
  if is_zero (o_remaining order) then
    Done (MFilled fills, with_filled ({[o_id order]} ∪ ob_filled_orders self) self)
  else
    let resting_order_seq := o_id order in
    let! self := insert_order self order in
    if bool_decide (fills = []) then Done (MResting resting_order_seq, self)
    else Done (MPartiallyFilled fills resting_order_seq, self).

Definition match_order (self : OrderBook) (order : Order) :
    exec (result MatchResult MatchOrderError * OrderBook) :=
  let! valid := validate_order self (o_price order) (o_remaining order) in
  match valid with
  | Err e => Done (Err e, self)
  | Ok _ =>
      let! plan := plan_fills self order in
      match build plan with
      | Kill =>
          Done (Ok (MKilled (o_id order)
                     (MkRemovedOrder (o_side order) (o_price order) (o_remaining order))), self)
      | Execute plan =>
          let! (r, self) := apply_plan self plan order in
          Done (Ok r, self)
      end
  end.

(** [MatchResult::fills] (and [into_fills]) and [MatchResult::resting_order_seq]. *)
Definition mr_fills (self : MatchResult) : list Fill :=
  match self with
  | MFilled fills | MPartiallyFilled fills _ => fills
  | MResting _ | MKilled _ _ => []
  end.

Definition mr_resting_order_seq (self : MatchResult) : option OrderSeq :=
  match self with
  | MPartiallyFilled _ seq | MResting seq => Some seq
  | MFilled _ | MKilled _ _ => None
  end.

(** ** Pending orders *)

Definition add_pending_order (self : OrderBook) (order : Order) : exec OrderBook :=
  let! valid := validate_order self (o_price order) (o_remaining order) in
  let! _ := assert (is_ok valid) in
  let! _ := assert (bool_decide (o_id order = ob_next_seq self)) in
  let self := with_pending (ob_pending_orders self ++ [order]) self in
  let! next := increment (ob_next_seq self) in
  Done (with_next_seq next self).

(** The variables of the loop of [process_pending_orders]. *)
Record ProcessState : Type := MkProcessState {
  ps_book : OrderBook;
  ps_fills : list Fill;
  ps_resting : gset OrderSeq;
  ps_expired : gmap OrderSeq RemovedOrder
}.

Definition process_one (st : ProcessState) (expected_seq : OrderSeq) : exec ProcessState :=
  match ob_pending_orders (ps_book st) with
  | [] => Trap
  | order :: rest =>
      let self := with_pending rest (ps_book st) in
      let! _ := assert (bool_decide (o_id order = expected_seq)) in
      let! (r, self) := match_order self order in
      match r with
      | Err _ => Trap
      | Ok (MKilled seq killed) =>
          Done (MkProcessState self (ps_fills st) (ps_resting st) (<[seq := killed]> (ps_expired st)))
      | Ok r =>
          Done (MkProcessState self (ps_fills st ++ mr_fills r)
                  (match mr_resting_order_seq r with
                   | Some seq => {[seq]} ∪ ps_resting st
                   | None => ps_resting st
                   end) (ps_expired st))
      end
  end.

(** [debug_assert!] is compiled out of the canister. *)
Definition process_pending_orders (self : OrderBook) (expected_seqs : list OrderSeq) :
    exec (MatchingOutput * OrderBook) :=
  let! st := exec_fold process_one (MkProcessState self [] ∅ ∅) expected_seqs in
  let self := ps_book st in
  let resting_orders := ps_resting st ∖ ob_filled_orders self in
  let filled_orders := ob_filled_orders self in
  Done (MkMatchingOutput (ps_fills st) resting_orders filled_orders (ps_expired st),
        with_filled ∅ self).

(** ** Cancellation *)

(** [Iterator::position] and [VecDeque::remove] on the pending orders. *)
Definition remove_order (self : OrderBook) (seq : OrderSeq) :
    exec (option RemovedOrder * OrderBook) :=
  match ob_resting_orders self !! seq with
  | Some (side, price) =>
      let self := with_resting (delete seq (ob_resting_orders self)) self in
      let is_seq := λ o : RestingOrder, bool_decide (r_id o = seq) in
      let '(removed, self) :=
        match side with
        | Buy => let '(r, q) := queue_remove (ob_bids self) (MkReverse price) is_seq in
                 (r, with_bids q self)
        | Sell => let '(r, q) := queue_remove (ob_asks self) price is_seq in
                  (r, with_asks q self)
        end in
      let! removed := expect removed in
      Done (Some (MkRemovedOrder side price (r_remaining removed)), self)
  | None =>
      match remove_first (λ o : Order, bool_decide (o_id o = seq)) (ob_pending_orders self) with
      | None => Done (None, self)
      | Some (order, rest) =>
          Done (Some (MkRemovedOrder (o_side order) (o_price order) (o_remaining order)),
                with_pending rest self)
      end
  end.

(** ** Queries *)

Definition pending_orders_len (self : OrderBook) : nat := length (ob_pending_orders self).
Definition pending_order_seqs (self : OrderBook) : list OrderSeq :=
  o_id <$> ob_pending_orders self.
Definition bids_len (self : OrderBook) : nat := queue_len (ob_bids self).
Definition asks_len (self : OrderBook) : nat := queue_len (ob_asks self).
Definition resting_orders_len (self : OrderBook) : nat := size (ob_resting_orders self).

Definition sum_remaining (queue : list RestingOrder) : Quantity :=
  foldl (λ acc order, default Quantity_MAX (checked_add acc (r_remaining order)))
    Quantity_ZERO queue.

Definition bid_levels (self : OrderBook) (limit : nat) : list (Price * Quantity) :=
  (λ kq, (unreverse kq.1, sum_remaining kq.2)) <$> take limit (queue_levels (ob_bids self)).
Definition ask_levels (self : OrderBook) (limit : nat) : list (Price * Quantity) :=
  (λ kq, (kq.1, sum_remaining kq.2)) <$> take limit (queue_levels (ob_asks self)).

Arguments apply_filled : simpl never.
Arguments apply_partial : simpl never.
Arguments process_one : simpl never.
Arguments match_order : simpl never.
