(* ===== verification/BookInv.v ===== *)
(** * The order book's invariant and the effect of its primitive operations

    [book_inv] is what every reachable book satisfies. The lemmas describe each
    primitive of OrderBook.v on the two priority-ordered lists of the book, once
    for both sides. *)

From stdpp Require Import prelude gmap sorting.
From Stdlib Require Import ZArith Lia.
From S2P Require Import Prelude Word BTree Quantity Ids Fees OrderTypes OrderQueue FillPlan OrderBook.

Definition opp (s : Side) : Side := match s with Buy => Sell | Sell => Buy end.

(** The resting orders of a side, best first. *)
Definition side_list (b : OrderBook) (s : Side) : list (Price * RestingOrder) :=
  match s with Buy => bids_list b | Sell => asks_list b end.

(** The price at which a taker of side [s] stops walking the makers. *)
Definition stop_at (s : Side) (taker_price maker_price : Price) : bool :=
  match s with Buy => taker_price <? maker_price | Sell => maker_price <? taker_price end.

(** Price and time priority among the resting orders of side [s]. *)
Definition better (s : Side) (p p' : Price) : Prop :=
  match s with Buy => p' < p | Sell => p < p' end.
Definition prio_lt (s : Side) (x y : Price * RestingOrder) : Prop :=
  better s x.1 y.1 ∨ x.1 = y.1 ∧ seqZ (x_id x) < seqZ (x_id y).

(** A price and a quantity the book accepts. *)
Definition valid_order (b : OrderBook) (p : Price) (q : Quantity) : Prop :=
  uval p ≠ 0 ∧ p mod ob_tick_size b = 0 ∧ qval q ≠ 0 ∧ qval q mod ob_lot_size b = 0.

Definition sides_wf (b : OrderBook) : Prop := queue_wf (ob_bids b) ∧ queue_wf (ob_asks b).

Record book_inv (b : OrderBook) : Prop := {
  inv_wf : sides_wf b;
  inv_prio s : StronglySorted (prio_lt s) (side_list b s);
  inv_index seq s p : ob_resting_orders b !! seq = Some (s, p) ↔
    ∃ r, (p, r) ∈ side_list b s ∧ r_id r = seq;
  inv_valid s p r : (p, r) ∈ side_list b s →
    valid_order b p (r_remaining r) ∧ r_tif r = GoodTilCanceled;
  inv_uncrossed (x y : Price * RestingOrder) : x ∈ bids_list b → y ∈ asks_list b → x.1 < y.1;
  inv_resting_seq s (x : Price * RestingOrder) : x ∈ side_list b s → seqZ (x_id x) < seqZ (ob_next_seq b);
  inv_resting_pending s (x : Price * RestingOrder) o : x ∈ side_list b s → o ∈ ob_pending_orders b →
    seqZ (x_id x) < seqZ (o_id o);
  inv_pending_sorted :
    StronglySorted (λ o o', seqZ (o_id o) < seqZ (o_id o')) (ob_pending_orders b);
  inv_pending_valid o : o ∈ ob_pending_orders b →
    valid_order b (o_price o) (o_remaining o) ∧ seqZ (o_id o) < seqZ (ob_next_seq b);
  inv_filled seq : seq ∈ ob_filled_orders b →
    seqZ seq < seqZ (ob_next_seq b) ∧ ob_resting_orders b !! seq = None ∧
    ∀ o, o ∈ ob_pending_orders b → seqZ seq < seqZ (o_id o)
}.

(** An order taken off the head of the pending queue: younger than everything on
    the book, older than everything pending. *)
Record fresh (b : OrderBook) (o : Order) : Prop := {
  fresh_resting s x : x ∈ side_list b s → seqZ (x_id x) < seqZ (o_id o);
  fresh_filled seq : seq ∈ ob_filled_orders b → seqZ seq < seqZ (o_id o);
  fresh_pending o' : o' ∈ ob_pending_orders b → seqZ (o_id o) < seqZ (o_id o');
  fresh_next : seqZ (o_id o) < seqZ (ob_next_seq b)
}.

(** The fields matching never touches. *)
Record frame (b b' : OrderBook) : Prop := {
  fr_id : ob_id b' = ob_id b;
  fr_next_seq : ob_next_seq b' = ob_next_seq b;
  fr_tick : ob_tick_size b' = ob_tick_size b;
  fr_lot : ob_lot_size b' = ob_lot_size b;
  fr_min : ob_min_notional b' = ob_min_notional b;
  fr_max : ob_max_notional b' = ob_max_notional b;
  fr_fees : ob_fee_rates b' = ob_fee_rates b;
  fr_pending : ob_pending_orders b' = ob_pending_orders b
}.

#[export] Instance frame_preorder : PreOrder frame.
Proof.
  split; [by intros b; split|]. intros b1 b2 b3 H12 H23.
  destruct H12, H23; split; congruence.
Qed.

Lemma valid_order_frame b b' p q : frame b b' → valid_order b' p q ↔ valid_order b p q.
Proof. intros Hf. unfold valid_order. by rewrite (fr_tick _ _ Hf), (fr_lot _ _ Hf). Qed.

Lemma opp_involutive s : opp (opp s) = s.
Proof. by destruct s. Qed.

Lemma side_cases s s' : s' = s ∨ s' = opp s.
Proof. destruct s, s'; auto. Qed.

(** The parameters of the pair, which no operation on the book changes. *)
Record same_rules (b b' : OrderBook) : Prop := {
  sr_id : ob_id b' = ob_id b;
  sr_tick : ob_tick_size b' = ob_tick_size b;
  sr_lot : ob_lot_size b' = ob_lot_size b;
  sr_min : ob_min_notional b' = ob_min_notional b;
  sr_max : ob_max_notional b' = ob_max_notional b;
  sr_fees : ob_fee_rates b' = ob_fee_rates b
}.

#[export] Instance same_rules_preorder : PreOrder same_rules.
Proof.
  split; [by split|]. intros b1 b2 b3 [] []. split; congruence.
Qed.

Lemma frame_rules b b' : frame b b' → same_rules b b'.
Proof. by intros []. Qed.

Lemma valid_order_rules b b' p q : same_rules b b' → valid_order b' p q ↔ valid_order b p q.
Proof. intros []. unfold valid_order. by rewrite sr_tick0, sr_lot0. Qed.

(** ** Validation *)

Lemma validate_order_spec b p q :
  (valid_order b p q ∧ validate_order b p q = Done (Ok ())) ∨
  (¬ valid_order b p q ∧
   validate_order b p q = Done (Err (if price_is_zero p ||
     negb (price_is_multiple_of p (ob_tick_size b))
     then InvalidTickSize p (ob_tick_size b) else InvalidLotSize q (ob_lot_size b)))).
Proof.
  unfold validate_order, valid_order, price_is_zero, price_is_multiple_of.
  destruct (Z.eqb_spec (uval p) 0); simpl; [right; split; [naive_solver|done]|].
  destruct (Z.eqb_spec (p mod ob_tick_size b) 0); simpl; [|right; split; [naive_solver|done]].
  rewrite is_zero_spec, is_multiple_of_eq.
  destruct (Z.eqb_spec (qval q) 0); simpl; [right; split; [naive_solver|done]|].
  destruct (Z.eqb_spec (qval q mod ob_lot_size b) 0); simpl; [left|right]; naive_solver.
Qed.

Lemma validate_order_ok b p q : valid_order b p q → validate_order b p q = Done (Ok ()).
Proof. destruct (validate_order_spec b p q) as [[_ E]|[Hn E]]; [done|tauto]. Qed.

(** ** The effect of the primitives *)

(** [b'] is [b] with the makers facing side [s] replaced by [l], the orders [ids]
    consumed and [n] fill sequences spent. *)
Record consumed (b b' : OrderBook) (s : Side) (l : list (Price * RestingOrder))
    (ids : gset OrderSeq) (n : Z) : Prop := {
  co_frame : frame b b';
  co_wf : sides_wf b';
  co_makers : side_list b' (opp s) = l;
  co_own : side_list b' s = side_list b s;
  co_resting seq : ob_resting_orders b' !! seq =
    if decide (seq ∈ ids) then None else ob_resting_orders b !! seq;
  co_filled : ob_filled_orders b' = ob_filled_orders b ∪ ids;
  co_fill : seqZ (ob_next_fill b') = seqZ (ob_next_fill b) + n
}.

Lemma consumed_trans b1 b2 b3 s l2 l3 ids1 ids2 n1 n2 :
  consumed b1 b2 s l2 ids1 n1 → consumed b2 b3 s l3 ids2 n2 →
  consumed b1 b3 s l3 (ids1 ∪ ids2) (n1 + n2).
Proof.
  intros [F1 W1 M1 O1 R1 S1 N1] [F2 W2 M2 O2 R2 S2 N2]. split; try done.
  - by etrans.
  - congruence.
  - intros seq. rewrite R2, R1. repeat case_decide; set_solver.
  - rewrite S2, S1. set_solver.
  - lia.
Qed.

Lemma consumed_refl b s : sides_wf b → consumed b b s (side_list b (opp s)) ∅ 0.
Proof. intros. split; try done; [set_solver..|lia]. Qed.

Lemma unrev_cons b p r l :
  bids_list b = (p, r) :: l →
  ∃ l', queue_list (ob_bids b) = (MkReverse p, r) :: l' ∧ l = unrev <$> l'.
Proof.
  unfold bids_list. destruct (queue_list (ob_bids b)) as [|[[p'] r'] l']; [done|].
  intros [= -> -> <-]. eauto.
Qed.

(** Popping the best maker facing side [s]. *)
Lemma pop_maker b s p r l :
  sides_wf b → side_list b (opp s) = (p, r) :: l → ob_resting_orders b !! r_id r ≠ None →
  ∃ b', match s with Buy => asks_pop_front b | Sell => bids_pop_front b end
          = Done (Some (p, r), b') ∧
    frame b b' ∧ sides_wf b' ∧ side_list b' (opp s) = l ∧ side_list b' s = side_list b s ∧
    ob_resting_orders b' = delete (r_id r) (ob_resting_orders b) ∧
    ob_filled_orders b' = ob_filled_orders b ∧ ob_next_fill b' = ob_next_fill b.
Proof.
  intros [Wb Wa] Hl Hr. destruct (ob_resting_orders b !! r_id r) as [sp|] eqn:Ei; [|done].
  destruct s; simpl in Hl.
  - destruct (pop_front_cons (ob_asks b) p r l Wa Hl) as (q' & E & Wq & Eq).
    eexists. unfold asks_pop_front. rewrite E; cbn [ebind]. rewrite Ei; cbn [ebind expect].
    split; [done|]. by repeat split.
  - apply unrev_cons in Hl as (l' & Hl & ->).
    destruct (pop_front_cons (ob_bids b) (MkReverse p) r l' Wb Hl) as (q' & E & Wq & Eq).
    eexists. unfold bids_pop_front. rewrite E; cbn [ebind]. rewrite Ei; cbn [ebind expect].
    split; [done|]. repeat split; try done. unfold side_list, bids_list; simpl. by rewrite Eq.
Qed.

(** The mutable reference to the best maker facing side [s]. *)
Lemma front_maker b s p r l :
  sides_wf b → side_list b (opp s) = (p, r) :: l →
  ∃ wr, match s with Buy => asks_front_mut b | Sell => bids_front_mut b end
          = Done (Some (p, r, wr)) ∧
    ∀ r', consumed b (wr r') s ((p, r') :: l) ∅ 0.
Proof.
  intros [Wb Wa] Hl. destruct s; simpl in Hl.
  - destruct (front_mut_cons (ob_asks b) p r l Wa Hl) as (wr & E & Hwr).
    eexists. unfold asks_front_mut. rewrite E; cbn [ebind]. split; [done|].
    intros r'. destruct (Hwr r') as [??]. split; try done; simpl; [set_solver|lia].
  - apply unrev_cons in Hl as (l' & Hl & ->).
    destruct (front_mut_cons (ob_bids b) (MkReverse p) r l' Wb Hl) as (wr & E & Hwr).
    eexists. unfold bids_front_mut. rewrite E; cbn [ebind]. split; [done|].
    intros r'. destruct (Hwr r') as [? Eq]. split; try done; simpl; [|set_solver|lia].
    unfold bids_list; simpl. by rewrite Eq.
Qed.

Lemma mint_fill_seq_spec b :
  seqZ (ob_next_fill b) < uint_max 64 →
  ∃ b', mint_fill_seq b = Done (ob_next_fill b, b') ∧ b' = with_next_fill (ob_next_fill b') b ∧
    seqZ (ob_next_fill b') = seqZ (ob_next_fill b) + 1.
Proof.
  intros Hn. destruct (increment_total _ Hn) as (t & E & Et).
  exists (with_next_fill t b). unfold mint_fill_seq. by rewrite E.
Qed.

(** Inserting an order: behind every order of an equal or better price. *)
Lemma insert_order_spec b o :
  sides_wf b → ob_resting_orders b !! o_id o = None →
  ∃ b', insert_order b o = Done b' ∧
    frame b b' ∧ sides_wf b' ∧ side_list b' (opp (o_side o)) = side_list b (opp (o_side o)) ∧
    ob_resting_orders b' = <[o_id o := (o_side o, o_price o)]> (ob_resting_orders b) ∧
    ob_filled_orders b' = ob_filled_orders b ∧ ob_next_fill b' = ob_next_fill b ∧
    ∃ l1 l2, side_list b (o_side o) = l1 ++ l2 ∧
      side_list b' (o_side o) = l1 ++ (o_price o, resting_from o) :: l2 ∧
      Forall (λ x, x.1 = o_price o ∨ better (o_side o) x.1 (o_price o)) l1 ∧
      Forall (λ x, better (o_side o) (o_price o) x.1) l2.
Proof.
  intros [Wb Wa] Hi. unfold insert_order. rewrite Hi, bool_decide_eq_true_2 by done.
  cbn [ebind assert]. eexists. split; [done|]. destruct (o_side o).
  - destruct (push_back_spec (ob_bids b) (MkReverse (o_price o)) (resting_from o) Wb)
      as (W & l1 & l2 & E & E' & H1 & H2).
    split_and!; try done. exists (unrev <$> l1), (unrev <$> l2).
    unfold side_list, bids_list; simpl. rewrite E, E', !fmap_app. split_and!; [done..| |].
    + apply Forall_fmap. eapply Forall_impl; [exact H1|]. intros [[p] r]; simpl.
      unfold key_le, ord_cmp, Reverse_Ord, uint_Ord, ord_cmp, uint_Ord; simpl.
      rewrite Z.compare_le_iff, uint_eq_iff. lia.
    + apply Forall_fmap. eapply Forall_impl; [exact H2|]. intros [[p] r]; simpl.
      unfold key_lt, ord_cmp, Reverse_Ord, ord_cmp, uint_Ord; simpl.
      rewrite Z.compare_lt_iff. lia.
  - destruct (push_back_spec (ob_asks b) (o_price o) (resting_from o) Wa)
      as (W & l1 & l2 & E & E' & H1 & H2).
    split_and!; try done. exists l1, l2.
    unfold side_list, asks_list; simpl. split_and!; [done..| |].
    + eapply Forall_impl; [exact H1|]. intros [p r]; simpl.
      unfold key_le, ord_cmp, uint_Ord; simpl. rewrite Z.compare_le_iff, uint_eq_iff. lia.
    + eapply Forall_impl; [exact H2|]. intros [p r]; simpl.
      unfold key_lt, ord_cmp, uint_Ord; simpl. rewrite Z.compare_lt_iff. lia.
Qed.

(** ** Consequences of the invariant *)

Lemma better_irrefl s p : ¬ better s p p.
Proof. destruct s; simpl; lia. Qed.

Lemma inv_ids_NoDup b s : book_inv b → NoDup (x_id <$> side_list b s).
Proof.
  intros Hb. apply (StronglySorted_NoDup_fmap (prio_lt s)); [by apply inv_prio|].
  intros [p r] [p' r'] Hx Hy Hlt E. unfold x_id in E; simpl in E.
  assert (H1 : ob_resting_orders b !! r_id r = Some (s, p)) by (apply inv_index; eauto).
  assert (H2 : ob_resting_orders b !! r_id r = Some (s, p')) by (apply inv_index; eauto).
  rewrite H1 in H2. injection H2 as <-. unfold prio_lt, x_id in Hlt; simpl in Hlt.
  rewrite E in Hlt. destruct Hlt as [Hlt|[_ Hlt]]; [by apply better_irrefl in Hlt|lia].
Qed.

Lemma inv_lookup b s x : book_inv b → x ∈ side_list b s →
  ob_resting_orders b !! x_id x = Some (s, x.1).
Proof. destruct x as [p r]. intros Hb Hx. apply inv_index; [done|]. eauto. Qed.

Lemma fresh_not_resting b o : book_inv b → fresh b o → ob_resting_orders b !! o_id o = None.
Proof.
  intros Hb Hf. destruct (ob_resting_orders b !! o_id o) as [[s p]|] eqn:E; [|done].
  apply inv_index in E as (r & Hr & E); [|done].
  pose proof (fresh_resting b o Hf s (p, r) Hr) as Hlt. unfold x_id in Hlt; simpl in Hlt.
  rewrite E in Hlt. lia.
Qed.
