(* ===== verification/BookMatching.v ===== *)
(** * Matching one order (OrderBook::match_order of src/canister/src/order/book.rs)

    [match_order] is total on a book that satisfies its invariant, it computes the
    greedy price-time walk, and it keeps the invariant. *)

From stdpp Require Import prelude gmap sorting.
From Stdlib Require Import ZArith Lia.
From S2P Require Import Prelude Word BTree Quantity Ids Fees OrderTypes.
From S2P Require Import OrderQueue FillPlan OrderBook BookInv.

(** ** What a walk looks like as fills *)

Definition matched (s : match_spec) : list (Price * RestingOrder * Z) :=
  ((λ x, (x, r_qty x)) <$> ms_full s) ++ option_list (ms_partial s).

Definition fill_of (seq : Z) (o : Order) (m : Price * RestingOrder * Z) : Fill :=
  MkFill (seq_lit seq) (o_id o) (o_side o) (o_price o) (x_id m.1) m.1.1 (q_of_Z m.2).

(** Fills numbered consecutively from [seq]. *)
Fixpoint fills_of (seq : Z) (o : Order) (ms : list (Price * RestingOrder * Z)) : list Fill :=
  match ms with
  | [] => []
  | m :: ms => fill_of seq o m :: fills_of (seq + 1) o ms
  end.

Lemma fills_of_app seq o ms ms' :
  fills_of seq o (ms ++ ms') = fills_of seq o ms ++ fills_of (seq + Z.of_nat (length ms)) o ms'.
Proof.
  revert seq. induction ms as [|m ms IH]; intros seq; simpl; [f_equal; lia|].
  f_equal. rewrite IH. do 2 f_equal. lia.
Qed.

Lemma fills_of_length seq o ms : length (fills_of seq o ms) = length ms.
Proof. revert seq. induction ms; intros; simpl; [done|]. f_equal. auto. Qed.

Definition set_remaining (o : Order) (q : Z) : Order :=
  MkOrder (o_id o) (o_side o) (o_price o) (q_of_Z q) (o_tif o).

Lemma fills_of_set_remaining seq o q ms : fills_of seq (set_remaining o q) ms = fills_of seq o ms.
Proof. revert seq. induction ms; intros; simpl; [done|]. by rewrite IHms. Qed.

(** ** Applying the plan *)

Lemma seq_lit_seqZ' {M} (s : Seq M) : seq_lit (seqZ s) = s.
Proof. destruct s. unfold seq_lit, seqZ; simpl. by rewrite mk_uint_uval. Qed.

Lemma order_reduce_total o q :
  qval q ≤ qval (o_remaining o) →
  order_reduce_quantity o q = Done (set_remaining o (qval (o_remaining o) - qval q)).
Proof.
  intros Hq. pose proof (qval_range q). pose proof (qval_range (o_remaining o)).
  apply order_reduce_quantity_Done. unfold set_remaining; simpl.
  rewrite q_of_Z_val by lia. split; [lia|done].
Qed.

Lemma apply_filled_step b o fs p r l :
  sides_wf b → side_list b (opp (o_side o)) = (p, r) :: l →
  ob_resting_orders b !! r_id r ≠ None →
  qval (r_remaining r) ≤ qval (o_remaining o) → seqZ (ob_next_fill b) < uint_max 64 →
  ∃ b', apply_filled (b, o, fs) (r_id r) =
      Done (b', set_remaining o (qval (o_remaining o) - qval (r_remaining r)),
            fs ++ [fill_of (seqZ (ob_next_fill b)) o (p, r, qval (r_remaining r))]) ∧
    consumed b b' (o_side o) l {[r_id r]} 1.
Proof.
  intros W Hl Hi Hq Hn.
  destruct (pop_maker b (o_side o) p r l W Hl Hi) as (b1 & E1 & F1 & W1 & M1 & O1 & R1 & S1 & N1).
  unfold apply_filled. rewrite E1; cbn [ebind expect].
  rewrite bool_decide_eq_true_2 by done; cbn [ebind assert].
  rewrite order_reduce_total by done; cbn [ebind]. rewrite <-N1 in Hn.
  destruct (mint_fill_seq_spec b1 Hn) as (b2 & E2 & Eb2 & N2).
  rewrite E2; cbn [ebind]. eexists. split.
  - unfold fill_of, set_remaining; simpl. by rewrite N1, seq_lit_seqZ', q_of_Z_qval.
  - rewrite Eb2. split; simpl.
    + etrans; [exact F1|]. by split.
    + done.
    + by destruct (o_side o).
    + by rewrite <-O1; destruct (o_side o).
    + intros seq. rewrite R1, lookup_delete. repeat case_decide; set_solver.
    + rewrite S1. set_solver.
    + by rewrite N2, N1.
Qed.

(** What is known of the makers before they are consumed. *)
Definition makers_ready (b : OrderBook) (l : list (Price * RestingOrder)) : Prop :=
  NoDup (x_id <$> l) ∧ ∀ x, x ∈ l → ob_resting_orders b !! x_id x ≠ None.

Lemma makers_ready_tail b b' x l :
  (∀ seq, ob_resting_orders b' !! seq =
     if decide (seq ∈ ({[x_id x]} : gset OrderSeq)) then None else ob_resting_orders b !! seq) →
  makers_ready b (x :: l) → makers_ready b' l.
Proof.
  intros Hb' [Hnd Hi]. apply NoDup_cons in Hnd as [Hx Hnd]. split; [done|].
  intros y Hy. rewrite Hb'. case_decide as Ey; [|apply Hi; by right].
  apply elem_of_singleton in Ey. destruct Hx. rewrite <-Ey. by apply list_elem_of_fmap_2.
Qed.

Lemma apply_filled_loop full b o fs l :
  sides_wf b → side_list b (opp (o_side o)) = full ++ l → makers_ready b full →
  sum_over r_qty full ≤ qval (o_remaining o) →
  seqZ (ob_next_fill b) + Z.of_nat (length full) ≤ uint_max 64 →
  ∃ b', exec_fold apply_filled (b, o, fs) (x_id <$> full) =
      Done (b', set_remaining o (qval (o_remaining o) - sum_over r_qty full),
            fs ++ fills_of (seqZ (ob_next_fill b)) o ((λ x, (x, r_qty x)) <$> full)) ∧
    consumed b b' (o_side o) l (list_to_set (x_id <$> full)) (Z.of_nat (length full)).
Proof.
  revert b o fs. induction full as [|[p r] full IH]; intros b o fs W Hl Hr Hq Hn; simpl in *.
  { exists b. rewrite app_nil_r, sum_over_nil, Z.sub_0_r. unfold set_remaining.
    rewrite q_of_Z_qval. split; [by destruct o|]. rewrite <-Hl. by apply consumed_refl. }
  rewrite sum_over_cons in Hq.
  assert (Hnn : 0 ≤ sum_over r_qty full).
  { apply sum_over_nonneg. intros. apply qval_range. }
  assert (Hp : qval (r_remaining r) ≤ qval (o_remaining o)) by (unfold r_qty at 1 in Hq; simpl in Hq; lia).
  destruct (apply_filled_step b o fs p r (full ++ l)) as (b1 & E1 & C1);
    [done|done|apply (proj2 Hr (p, r)); left|done|lia|].
  change (x_id (p, r)) with (r_id r). rewrite E1; cbn [ebind].
  pose proof (qval_range (o_remaining o)). pose proof (qval_range (r_remaining r)).
  assert (Hsr : qval (o_remaining (set_remaining o (qval (o_remaining o) - qval (r_remaining r))))
                = qval (o_remaining o) - qval (r_remaining r)) by (apply q_of_Z_val; lia).
  edestruct (IH b1 (set_remaining o (qval (o_remaining o) - qval (r_remaining r))))
    as (b2 & E2 & C2).
  - apply C1.
  - apply C1.
  - eapply (makers_ready_tail b b1 (p, r)); [apply C1|done].
  - rewrite Hsr. unfold r_qty at 1 in Hq; simpl in Hq. lia.
  - rewrite (co_fill _ _ _ _ _ _ C1). lia.
  - exists b2. split.
    + rewrite E2, Hsr, (co_fill _ _ _ _ _ _ C1), fills_of_set_remaining, sum_over_cons, <-app_assoc.
      change (r_qty (p, r)) with (qval (r_remaining r)).
      unfold set_remaining at 1; simpl. by rewrite Z.sub_add_distr.
    + replace (Z.of_nat (S (length full))) with (1 + Z.of_nat (length full)) by lia.
      apply (consumed_trans _ _ _ _ _ _ _ _ _ _ C1 C2).
Qed.

(** The maker a partial fill leaves behind, and the makers left by a walk. *)
Definition reduced (r : RestingOrder) (q : Z) : RestingOrder :=
  MkRestingOrder (r_id r) (q_of_Z (qval (r_remaining r) - q)) (r_tif r).

Definition left_makers (s : match_spec) : list (Price * RestingOrder) :=
  from_option (λ m, [(m.1.1, reduced m.1.2 m.2)]) [] (ms_partial s) ++ ms_rest s.

Lemma apply_partial_step b o fs p r q l :
  sides_wf b → side_list b (opp (o_side o)) = (p, r) :: l →
  0 < q < qval (r_remaining r) → q ≤ qval (o_remaining o) →
  seqZ (ob_next_fill b) < uint_max 64 →
  ∃ b', apply_partial (b, o, fs) (Some (r_id r, q_of_Z q)) =
      Done (b', set_remaining o (qval (o_remaining o) - q),
            fs ++ [fill_of (seqZ (ob_next_fill b)) o (p, r, q)]) ∧
    consumed b b' (o_side o) ((p, reduced r q) :: l) ∅ 1.
Proof.
  intros W Hl Hq Ho Hn. pose proof (qval_range (r_remaining r)). pose proof (qval_range (o_remaining o)).
  destruct (front_maker b (o_side o) p r l W Hl) as (wr & E & Hwr).
  unfold apply_partial. rewrite E; cbn [ebind expect].
  rewrite bool_decide_eq_true_2 by done; cbn [ebind assert].
  assert (Er : resting_reduce_quantity r (q_of_Z q) = Done (reduced r q)).
  { apply resting_reduce_quantity_Done. simpl. rewrite !q_of_Z_val by lia. split; [lia|done]. }
  rewrite Er; cbn [ebind]. rewrite bool_decide_eq_true_2.
  2: { rewrite qval_eq_iff, qval_zero. simpl. rewrite q_of_Z_val by lia. lia. }
  cbn [ebind assert]. rewrite order_reduce_total by (rewrite q_of_Z_val; lia). cbn [ebind].
  specialize (Hwr (reduced r q)). pose proof (co_fill _ _ _ _ _ _ Hwr) as Hf.
  destruct (mint_fill_seq_spec (wr (reduced r q))) as (b2 & E2 & Eb2 & N2); [lia|].
  rewrite E2; cbn [ebind]. exists b2. split.
  - rewrite q_of_Z_val by lia. unfold fill_of, set_remaining; simpl. do 5 f_equal.
    apply seqZ_inj. rewrite Hf, Z.add_0_r. by rewrite seq_lit_seqZ'.
  - rewrite Eb2. destruct Hwr as [F M L O R S N]. split; simpl; try done.
    + etrans; [exact F|by split].
    + by rewrite N2, Hf, Z.add_0_r.
Qed.

(** Replaying the plan of a greedy walk performs the walk. *)
Lemma apply_walk b o s :
  sides_wf b → s = greedy (stop_at (o_side o) (o_price o)) (qval (o_remaining o))
                     (side_list b (opp (o_side o))) →
  makers_ready b (side_list b (opp (o_side o))) →
  seqZ (ob_next_fill b) + Z.of_nat (length (matched s)) ≤ uint_max 64 →
  ∃ b', (let! st := exec_fold apply_filled (b, o, []) (x_id <$> ms_full s) in
         apply_partial st ((λ x, (x_id x.1, q_of_Z x.2)) <$> ms_partial s)) =
      Done (b', set_remaining o (ms_remaining s), fills_of (seqZ (ob_next_fill b)) o (matched s)) ∧
    consumed b b' (o_side o) (left_makers s) (list_to_set (x_id <$> ms_full s))
      (Z.of_nat (length (matched s))).
Proof.
  intros W Es Hr Hn. set (makers := side_list b (opp (o_side o))) in *.
  pose proof (greedy_split (stop_at (o_side o) (o_price o)) (qval (o_remaining o)) makers) as Hs.
  pose proof (greedy_conserve (stop_at (o_side o) (o_price o)) (qval (o_remaining o)) makers) as Hc.
  pose proof (qval_range (o_remaining o)) as Ho.
  pose proof (greedy_remaining_range (stop_at (o_side o) (o_price o)) _ makers (proj1 Ho)) as Hm.
  pose proof (λ p r q, greedy_partial (stop_at (o_side o) (o_price o)) _ makers p r q (proj1 Ho)) as Hp.
  rewrite <-Es in *. simpl in Hs, Hc. rewrite Hs in Hr.
  assert (Hr' : makers_ready b (ms_full s)).
  { destruct Hr as [Hnd Hi]. rewrite fmap_app in Hnd. apply NoDup_app in Hnd as [Hnd _].
    split; [done|]. intros x Hx. apply Hi. set_solver. }
  unfold matched, partial_qty in *. rewrite length_app, length_fmap in Hn.
  destruct (apply_filled_loop (ms_full s) b o [] (partial_list s ++ ms_rest s))
    as (b1 & E1 & C1); [done|done|done| |lia|].
  { destruct (ms_partial s) as [[[p r] q]|] eqn:E; simpl in *; [|lia].
    destruct (Hp p r q) as (? & ? & _); [done|]. lia. }
  rewrite E1; cbn [ebind]. unfold partial_list, left_makers in *.
  destruct (ms_partial s) as [[[p r] q]|] eqn:E; simpl in *.
  - destruct (Hp p r q) as (Hq & Hqo & _ & Hrem); [done|].
    set (o1 := set_remaining o (qval (o_remaining o) - sum_over r_qty (ms_full s))) in *.
    assert (Ho1 : qval (o_remaining o1) = q) by (simpl; rewrite q_of_Z_val; lia).
    destruct (apply_partial_step b1 o1 (fills_of (seqZ (ob_next_fill b)) o
      ((λ x, (x, r_qty x)) <$> ms_full s)) p r q (ms_rest s)) as (b2 & E2 & C2).
    + apply C1.
    + apply C1.
    + done.
    + lia.
    + rewrite (co_fill _ _ _ _ _ _ C1). lia.
    + exists b2. rewrite length_app, length_fmap, Nat2Z.inj_add. split.
      * change (x_id (p, r)) with (r_id r). rewrite E2, Ho1, Z.sub_diag, Hrem. do 2 f_equal.
        rewrite fills_of_app, length_fmap, <-(co_fill _ _ _ _ _ _ C1). done.
      * rewrite <-(union_empty_r_L (list_to_set (x_id <$> ms_full s))).
        apply (consumed_trans _ _ _ _ _ _ _ _ _ _ C1 C2).
  - exists b1. rewrite app_nil_r, length_fmap. split; [|done].
    unfold apply_partial. repeat f_equal. lia.
Qed.

Lemma makers_ready_inv b s : book_inv b → makers_ready b (side_list b s).
Proof.
  intros Hb. split; [by apply inv_ids_NoDup|]. intros x Hx. by rewrite (inv_lookup b s x Hb Hx).
Qed.

(** ** The outcome of an executed order *)

Definition walk (b : OrderBook) (o : Order) : match_spec :=
  greedy (stop_at (o_side o) (o_price o)) (qval (o_remaining o)) (side_list b (opp (o_side o))).

Definition walk_fills (b : OrderBook) (o : Order) : list Fill :=
  fills_of (seqZ (ob_next_fill b)) o (matched (walk b o)).

Definition walk_ids (b : OrderBook) (o : Order) : gset OrderSeq :=
  list_to_set (x_id <$> ms_full (walk b o)).

(** The result reported for a walk. *)
Definition walk_result (b : OrderBook) (o : Order) : MatchResult :=
  if ms_remaining (walk b o) =? 0 then MFilled (walk_fills b o)
  else if bool_decide (walk_fills b o = []) then MResting (o_id o)
  else MPartiallyFilled (walk_fills b o) (o_id o).

(** The order the taker leaves on the book. *)
Definition rest_of (b : OrderBook) (o : Order) : RestingOrder :=
  MkRestingOrder (o_id o) (q_of_Z (ms_remaining (walk b o))) (o_tif o).

Record executed (b : OrderBook) (o : Order) (b' : OrderBook) : Prop := {
  ex_frame : frame b b';
  ex_wf : sides_wf b';
  ex_makers : side_list b' (opp (o_side o)) = left_makers (walk b o);
  ex_next_fill : seqZ (ob_next_fill b') = seqZ (ob_next_fill b) + Z.of_nat (length (walk_fills b o));
  ex_own : if ms_remaining (walk b o) =? 0 then side_list b' (o_side o) = side_list b (o_side o)
    else ∃ l1 l2, side_list b (o_side o) = l1 ++ l2 ∧
      side_list b' (o_side o) = l1 ++ (o_price o, rest_of b o) :: l2 ∧
      Forall (λ x, x.1 = o_price o ∨ better (o_side o) x.1 (o_price o)) l1 ∧
      Forall (λ x, better (o_side o) (o_price o) x.1) l2;
  ex_resting seq : ob_resting_orders b' !! seq =
    if decide (seq ∈ walk_ids b o) then None
    else if decide (seq = o_id o ∧ ms_remaining (walk b o) ≠ 0) then Some (o_side o, o_price o)
    else ob_resting_orders b !! seq;
  ex_filled : ob_filled_orders b' = ob_filled_orders b ∪ walk_ids b o ∪
    (if ms_remaining (walk b o) =? 0 then {[o_id o]} else ∅)
}.

Lemma plan_fills_walk b o :
  book_inv b → fresh b o → plan_fills b o = Done (plan_of (builder o) (walk b o)).
Proof.
  intros Hb Hf. unfold plan_fills, walk.
  assert (Hne : ∀ s, Forall (λ x, x_id x ≠ o_id o) (side_list b s)).
  { intros s. apply Forall_forall. intros x Hx E. pose proof (fresh_resting b o Hf s x Hx) as Hlt.
    rewrite E in Hlt. lia. }
  destruct (o_side o); (rewrite plan_loop_greedy; [done|done|]); [apply (Hne Sell)|apply (Hne Buy)].
Qed.

(** A fill-or-kill order is killed exactly when the walk leaves a remainder. *)
Definition killed (b : OrderBook) (o : Order) : Prop :=
  o_tif o = FillOrKill ∧ ms_remaining (walk b o) ≠ 0.

Lemma walk_remaining_range b o : 0 ≤ ms_remaining (walk b o) < 2 ^ 256.
Proof.
  pose proof (qval_range (o_remaining o)) as Ho.
  pose proof (greedy_remaining_range (stop_at (o_side o) (o_price o)) (qval (o_remaining o))
    (side_list b (opp (o_side o)))) as Hr. unfold walk. lia.
Qed.

Lemma walk_ids_resting b o seq :
  book_inv b → seq ∈ walk_ids b o → ∃ x, x ∈ side_list b (opp (o_side o)) ∧ x_id x = seq.
Proof.
  intros Hb Hin. apply elem_of_list_to_set, list_elem_of_fmap in Hin as (x & -> & Hx).
  exists x. split; [|done].
  pose proof (greedy_split (stop_at (o_side o) (o_price o)) (qval (o_remaining o))
    (side_list b (opp (o_side o)))) as Hs. simpl in Hs. fold (walk b o) in Hs.
  rewrite Hs. set_solver.
Qed.

Lemma fresh_not_walked b o : book_inv b → fresh b o → o_id o ∉ walk_ids b o.
Proof.
  intros Hb Hf Hin. apply walk_ids_resting in Hin as (x & Hx & E); [|done].
  apply (fresh_resting b o Hf) in Hx. rewrite E in Hx. lia.
Qed.

Lemma apply_plan_walk b o :
  book_inv b → fresh b o →
  seqZ (ob_next_fill b) + Z.of_nat (length (walk_fills b o)) ≤ uint_max 64 →
  ∃ b', apply_plan b (into_plan (plan_of (builder o) (walk b o))) o =
      Done (walk_result b o, b') ∧ executed b o b'.
Proof.
  intros Hb Hf Hn. pose proof (walk_remaining_range b o) as Hrem.
  destruct (apply_walk b o (walk b o)) as (b1 & E1 & C1); [apply Hb|done|by apply makers_ready_inv|
    by unfold walk_fills in Hn; rewrite fills_of_length in Hn|].
  unfold apply_plan. simpl. rewrite bool_decide_eq_true_2 by done. cbn [ebind assert].
  destruct (exec_fold _ _ _) as [st|] eqn:Est; [|done]. cbn [ebind] in E1 |- *.
  rewrite E1. cbn [ebind]. rewrite bool_decide_eq_true_2 by done. cbn [ebind assert].
  rewrite is_zero_spec. simpl. rewrite q_of_Z_val by done.
  unfold walk_result. fold (walk_fills b o). destruct C1 as [F W M O R S N].
  rewrite <-(fills_of_length (seqZ (ob_next_fill b)) o (matched (walk b o))) in N.
  destruct (Z.eqb_spec (ms_remaining (walk b o)) 0) as [Ez|Ez].
  - eexists. split; [done|]. split; simpl; rewrite ?Ez; simpl; try done.
    + etrans; [exact F|by split].
    + intros seq. rewrite R. unfold walk_ids. repeat case_decide; naive_solver.
    + rewrite S. unfold walk_ids. set_solver.
  - destruct (insert_order_spec b1 (set_remaining o (ms_remaining (walk b o))))
      as (b2 & E2 & F2 & W2 & M2 & R2 & S2 & N2 & l1 & l2 & L1 & L2 & P1 & P2); [done| |].
    { simpl. rewrite R. case_decide; [done|]. by apply fresh_not_resting. }
    simpl in *. rewrite E2. cbn [ebind]. exists b2.
    split; [by case_bool_decide|]. split; rewrite ?(proj2 (Z.eqb_neq _ _) Ez); try done.
    + by etrans.
    + by rewrite M2.
    + by rewrite N2.
    + exists l1, l2. rewrite <-O. done.
    + intros seq. rewrite R2, lookup_insert, R. unfold walk_ids.
      pose proof (fresh_not_walked b o Hb Hf) as Hni. unfold walk_ids in Hni.
      repeat case_decide; naive_solver.
    + rewrite S2, S. unfold walk_ids. set_solver.
Qed.
