(* ===== verification/BookInvMatch.v ===== *)
(** * Matching keeps the book's invariant

    The invariant of BookInv.v holds of the book an executed order leaves, and the
    quantity of every order is accounted for. *)

From stdpp Require Import prelude gmap sorting.
From Stdlib Require Import ZArith Lia.
From S2P Require Import Prelude Word BTree Quantity Ids Fees OrderTypes OrderQueue.
From S2P Require Import FillPlan OrderBook BookInv BookMatching.

(** ** [match_order] by cases *)

Lemma match_order_invalid b o :
  ¬ valid_order b (o_price o) (o_remaining o) → ∃ e, match_order b o = Done (Err e, b).
Proof.
  intros Hv. unfold match_order.
  destruct (validate_order_spec b (o_price o) (o_remaining o)) as [[? _]|[_ ->]]; [done|].
  cbn [ebind]. eauto.
Qed.

Lemma match_order_killed b o :
  book_inv b → fresh b o → valid_order b (o_price o) (o_remaining o) → killed b o →
  match_order b o = Done (Ok (MKilled (o_id o)
    (MkRemovedOrder (o_side o) (o_price o) (o_remaining o))), b).
Proof.
  intros Hb Hf Hv [Ht Hr]. unfold match_order.
  rewrite validate_order_ok by done; cbn [ebind].
  rewrite plan_fills_walk by done; cbn [ebind].
  unfold build. simpl. rewrite Ht, is_zero_spec, q_of_Z_val by apply walk_remaining_range.
  by rewrite (proj2 (Z.eqb_neq _ _) Hr).
Qed.

Lemma match_order_executed b o :
  book_inv b → fresh b o → valid_order b (o_price o) (o_remaining o) → ¬ killed b o →
  seqZ (ob_next_fill b) + Z.of_nat (length (walk_fills b o)) ≤ uint_max 64 →
  ∃ b', match_order b o = Done (Ok (walk_result b o), b') ∧ executed b o b'.
Proof.
  intros Hb Hf Hv Hk Hn. unfold match_order.
  rewrite validate_order_ok by done; cbn [ebind].
  rewrite plan_fills_walk by done; cbn [ebind].
  assert (Hbuild : build (plan_of (builder o) (walk b o)) =
                   Execute (into_plan (plan_of (builder o) (walk b o)))).
  { unfold build. simpl. destruct (o_tif o) eqn:Et; [done|].
    rewrite is_zero_spec, q_of_Z_val by apply walk_remaining_range.
    destruct (Z.eqb_spec (ms_remaining (walk b o)) 0); [done|]. by destruct Hk. }
  rewrite Hbuild. destruct (apply_plan_walk b o Hb Hf Hn) as (b' & E & Hex).
  rewrite E; cbn [ebind]. eauto.
Qed.

(** ** Facts on the makers a walk leaves *)

Definition x_key (x : Price * RestingOrder) : Price * OrderSeq := (x.1, x_id x).

Lemma left_makers_keys s : x_key <$> left_makers s = x_key <$> partial_list s ++ ms_rest s.
Proof. unfold left_makers, partial_list. by destruct (ms_partial s) as [[[p r] q]|]. Qed.

Lemma elem_of_keys (l : list (Price * RestingOrder)) p seq :
  (∃ r, (p, r) ∈ l ∧ r_id r = seq) ↔ (p, seq) ∈ x_key <$> l.
Proof.
  rewrite list_elem_of_fmap. unfold x_key, x_id. split.
  - intros (r & Hr & <-). by exists (p, r).
  - intros ([p' r] & [= -> ->] & Hr). eauto.
Qed.

Lemma prio_sorted_keys s (l l' : list (Price * RestingOrder)) :
  x_key <$> l = x_key <$> l' → StronglySorted (prio_lt s) l → StronglySorted (prio_lt s) l'.
Proof.
  set (R := λ a b : Price * OrderSeq, better s a.1 b.1 ∨ a.1 = b.1 ∧ seqZ a.2 < seqZ b.2).
  intros E Hl. apply (StronglySorted_fmap R x_key). rewrite <-E. by apply StronglySorted_fmap.
Qed.

Section walk_facts.
Context (b : OrderBook) (o : Order).

Lemma walk_split : side_list b (opp (o_side o)) =
  ms_full (walk b o) ++ partial_list (walk b o) ++ ms_rest (walk b o).
Proof. apply greedy_split. Qed.

Lemma left_maker_origin x :
  x ∈ left_makers (walk b o) → ∃ y, y ∈ side_list b (opp (o_side o)) ∧ x_key x = x_key y.
Proof.
  intros Hx. apply (list_elem_of_fmap_2 x_key) in Hx. rewrite left_makers_keys in Hx.
  apply list_elem_of_fmap in Hx as (y & E & Hy). exists y. split; [|done].
  rewrite walk_split. set_solver.
Qed.

Context (Hb : book_inv b) (Hf : fresh b o).
Context (Hv : valid_order b (o_price o) (o_remaining o)).

Lemma left_makers_sorted : StronglySorted (prio_lt (opp (o_side o))) (left_makers (walk b o)).
Proof.
  eapply prio_sorted_keys; [symmetry; apply left_makers_keys|].
  pose proof (inv_prio b Hb (opp (o_side o))) as Hs. rewrite walk_split in Hs.
  by apply StronglySorted_app_iff in Hs as (_ & Hs & _).
Qed.

Lemma left_makers_index p seq :
  (p, seq) ∈ x_key <$> left_makers (walk b o) ↔
    (p, seq) ∈ x_key <$> side_list b (opp (o_side o)) ∧ seq ∉ walk_ids b o.
Proof.
  rewrite left_makers_keys, walk_split, (fmap_app _ (ms_full _)), elem_of_app.
  pose proof (inv_ids_NoDup b (opp (o_side o)) Hb) as Hnd.
  rewrite walk_split, fmap_app in Hnd. apply NoDup_app in Hnd as (_ & Hdis & _).
  unfold walk_ids. rewrite elem_of_list_to_set. split.
  - intros Hin. split; [by right|]. intros Hfull. apply (Hdis seq Hfull).
    apply list_elem_of_fmap in Hin as (x & [= _ ->] & Hx). by apply list_elem_of_fmap_2.
  - intros [[Hin|Hin] Hni]; [|done]. destruct Hni.
    apply list_elem_of_fmap in Hin as (x & [= _ ->] & Hx). by apply list_elem_of_fmap_2.
Qed.

(** Everything a walk fills is a whole number of lots. *)
Lemma full_lots : (sum_over r_qty (ms_full (walk b o))) mod ob_lot_size b = 0.
Proof.
  assert (Hall : ∀ x, x ∈ ms_full (walk b o) → r_qty x mod ob_lot_size b = 0).
  { intros [p r] Hx. destruct (inv_valid b Hb (opp (o_side o)) p r) as [(_ & _ & _ & ?) _]; [|done].
    rewrite walk_split. set_solver. }
  induction (ms_full (walk b o)) as [|x l IH]; [done|]. pose proof (nonzero_pos (ob_lot_size b)).
  rewrite sum_over_cons, Z.add_mod, (Hall x), IH by (lia || set_solver). done.
Qed.

Lemma walk_conserve : qval (o_remaining o) =
  ms_remaining (walk b o) + sum_over r_qty (ms_full (walk b o)) + partial_qty (walk b o).
Proof. apply greedy_conserve. Qed.

Lemma walk_stops : ms_remaining (walk b o) ≠ 0 →
  ms_partial (walk b o) = None ∧
  match ms_rest (walk b o) with [] => True | x :: _ => stop_at (o_side o) (o_price o) x.1 = true end.
Proof. apply greedy_stops, qval_range. Qed.

Lemma walk_partial p r q : ms_partial (walk b o) = Some (p, r, q) →
  0 < q < qval (r_remaining r) ∧ q ≤ qval (o_remaining o) ∧
  stop_at (o_side o) (o_price o) p = false ∧ ms_remaining (walk b o) = 0.
Proof. apply greedy_partial, qval_range. Qed.

Lemma partial_lots : partial_qty (walk b o) mod ob_lot_size b = 0.
Proof.
  unfold partial_qty. destruct (ms_partial (walk b o)) as [[[p r] q]|] eqn:E; simpl; [|done].
  destruct (walk_partial p r q E) as (_ & _ & _ & Hr). pose proof walk_conserve as Hc.
  unfold partial_qty in Hc. rewrite E, Hr in Hc; simpl in Hc.
  destruct Hv as (_ & _ & _ & Ho). pose proof full_lots as Hfl.
  pose proof (nonzero_pos (ob_lot_size b)).
  replace q with (qval (o_remaining o) - sum_over r_qty (ms_full (walk b o))) by lia.
  by rewrite Zminus_mod, Ho, Hfl.
Qed.

Lemma remaining_lots : ms_remaining (walk b o) mod ob_lot_size b = 0.
Proof.
  destruct Hv as (_ & _ & _ & Ho). pose proof full_lots as Hfl. pose proof partial_lots as Hp.
  pose proof walk_conserve as Hc.
  replace (ms_remaining (walk b o)) with (qval (o_remaining o)
    - sum_over r_qty (ms_full (walk b o)) - partial_qty (walk b o)) by lia.
  by rewrite Zminus_mod, (Zminus_mod (qval _)), Ho, Hfl, Hp.
Qed.

Lemma left_maker_valid p r : (p, r) ∈ left_makers (walk b o) →
  valid_order b p (r_remaining r) ∧ r_tif r = GoodTilCanceled.
Proof.
  intros Hin. pose proof walk_split as Hs. pose proof partial_lots as Hpl.
  unfold left_makers, partial_list, partial_qty in *.
  apply elem_of_app in Hin as [Hin|Hin].
  - destruct (ms_partial (walk b o)) as [[[p' r'] q]|] eqn:E; simpl in *; [|set_solver].
    apply list_elem_of_singleton in Hin. injection Hin as -> ->. simpl.
    destruct (inv_valid b Hb (opp (o_side o)) p' r') as [(? & ? & ? & Hl) ?];
      [rewrite Hs; set_solver|].
    destruct (walk_partial p' r' q E) as (Hq & _). pose proof (qval_range (r_remaining r')).
    unfold valid_order. rewrite q_of_Z_val by lia.
    split_and!; [done..|lia| |done]. by rewrite Zminus_mod, Hl, Hpl.
  - apply (inv_valid b Hb (opp (o_side o))). rewrite Hs. set_solver.
Qed.

(** A remainder does not cross any maker that is left. *)
Lemma left_makers_uncrossed x :
  ms_remaining (walk b o) ≠ 0 → x ∈ left_makers (walk b o) →
  stop_at (o_side o) (o_price o) x.1 = true.
Proof.
  intros Hr. destruct (walk_stops Hr) as [Hp Hrest]. pose proof left_makers_sorted as Hs.
  unfold left_makers in *. rewrite Hp in *. simpl in *.
  destruct (ms_rest (walk b o)) as [|y l]; [set_solver|].
  apply StronglySorted_inv in Hs as [_ Hs]. rewrite Forall_forall in Hs.
  rewrite elem_of_cons. intros [->|Hx]; [done|]. specialize (Hs x Hx).
  unfold prio_lt in Hs. rewrite uint_eq_iff in Hs.
  destruct (o_side o); simpl in *; rewrite Z.ltb_lt in *; lia.
Qed.
End walk_facts.

(** ** Preservation of the invariant *)

Lemma uncrossed_sides b s :
  (∀ x y : Price * RestingOrder, x ∈ bids_list b → y ∈ asks_list b → x.1 < y.1) ↔
  (∀ x y : Price * RestingOrder, x ∈ side_list b s → y ∈ side_list b (opp s) →
     stop_at s x.1 y.1 = true).
Proof. destruct s; simpl; setoid_rewrite Z.ltb_lt; naive_solver. Qed.

Section executed.
Context (b b' : OrderBook) (o : Order).
Context (Hb : book_inv b) (Hf : fresh b o).
Context (Hv : valid_order b (o_price o) (o_remaining o)).
Context (Hk : ¬ killed b o) (Hex : executed b o b').

(** The own side of the taker: what was there, and the remainder if there is one. *)
Lemma executed_own x :
  x ∈ side_list b' (o_side o) ↔ x ∈ side_list b (o_side o) ∨
    ms_remaining (walk b o) ≠ 0 ∧ x = (o_price o, rest_of b o).
Proof.
  pose proof (ex_own b o b' Hex) as Hown.
  destruct (Z.eqb_spec (ms_remaining (walk b o)) 0) as [E|E]; [rewrite Hown; naive_solver|].
  destruct Hown as (l1 & l2 & -> & -> & _). set_solver.
Qed.

Lemma executed_own_sorted : StronglySorted (prio_lt (o_side o)) (side_list b' (o_side o)).
Proof.
  pose proof (ex_own b o b' Hex) as Hown. pose proof (inv_prio b Hb (o_side o)) as Hs.
  destruct (Z.eqb_spec (ms_remaining (walk b o)) 0) as [E|E]; [by rewrite Hown|].
  destruct Hown as (l1 & l2 & El & -> & H1 & H2). rewrite Forall_forall in H1, H2.
  assert (Hfr : ∀ x, x ∈ l1 → seqZ (x_id x) < seqZ (o_id o)).
  { intros x Hx. apply (fresh_resting b o Hf (o_side o)). rewrite El. set_solver. }
  rewrite El in Hs. apply StronglySorted_app_iff in Hs as (S1 & S2 & S12).
  apply StronglySorted_app_iff. split_and!; [done| |].
  - constructor; [done|]. apply Forall_forall. intros x Hx. left. by apply H2.
  - intros x y Hx. rewrite elem_of_cons. intros [->|Hy]; [|by apply S12].
    destruct (H1 x Hx) as [Ex|Hx']; [right|by left]. split; [done|]. by apply Hfr.
Qed.

Lemma executed_index seq s p :
  ob_resting_orders b' !! seq = Some (s, p) ↔
    ∃ r, (p, r) ∈ side_list b' s ∧ r_id r = seq.
Proof.
  rewrite (ex_resting b o b' Hex). pose proof (inv_index b Hb seq s p) as Hi.
  pose proof (fresh_not_resting b o Hb Hf) as Hfn. pose proof (fresh_not_walked b o Hb Hf) as Hfw.
  destruct (side_cases (o_side o) s) as [->| ->].
  - setoid_rewrite executed_own. case_decide as D1.
    { split; [done|]. intros (r & [Hr|[_ [= -> ->]]] & <-); [|done].
      apply (walk_ids_resting b o _ Hb) in D1 as (y & Hy & E).
      apply inv_lookup in Hy, Hr; [|done..]. unfold x_id in *; simpl in *. rewrite E, Hr in Hy.
      destruct (o_side o); naive_solver. }
    case_decide as D2.
    { destruct D2 as [-> Hr]. split; [intros [= <-]; exists (rest_of b o); naive_solver|].
      intros (r & [Hx|[_ [= -> _]]] & E); [|done].
      apply inv_lookup in Hx; [|done]. unfold x_id in Hx; simpl in Hx. congruence. }
    rewrite Hi. split; [naive_solver|]. intros (r & [Hx|[Hr [= -> ->]]] & <-); [eauto|naive_solver].
  - rewrite (ex_makers b o b' Hex), elem_of_keys, left_makers_index, <-elem_of_keys, <-Hi by done.
    case_decide as D1; [naive_solver|]. case_decide as D2; [|naive_solver].
    destruct D2 as [-> _]. rewrite Hfn. destruct (o_side o); naive_solver.
Qed.

Lemma executed_valid s p r : (p, r) ∈ side_list b' s →
  valid_order b' p (r_remaining r) ∧ r_tif r = GoodTilCanceled.
Proof.
  rewrite (valid_order_frame b b') by apply Hex.
  destruct (side_cases (o_side o) s) as [->| ->].
  - rewrite executed_own. intros [Hx|[Hr [= -> ->]]]; [by apply (inv_valid b Hb (o_side o))|].
    simpl. pose proof (walk_remaining_range b o). unfold valid_order in *.
    rewrite q_of_Z_val by done. split; [split_and!; [naive_solver..|done|by apply remaining_lots]|].
    destruct (o_tif o) eqn:E; [done|]. by destruct Hk.
  - rewrite (ex_makers b o b' Hex). by apply left_maker_valid.
Qed.

Lemma executed_uncrossed : ∀ x y : Price * RestingOrder,
  x ∈ bids_list b' → y ∈ asks_list b' → x.1 < y.1.
Proof.
  apply (uncrossed_sides b' (o_side o)). intros x y.
  rewrite executed_own, (ex_makers b o b' Hex). intros [Hx|[Hr ->]] Hy.
  - apply left_maker_origin in Hy as (z & Hz & [= -> _]).
    by apply (proj1 (uncrossed_sides b (o_side o)) (inv_uncrossed b Hb)).
  - by apply (left_makers_uncrossed b).
Qed.

(** Every order on the book is an old one or the taker. *)
Lemma executed_origin s x : x ∈ side_list b' s →
  (∃ y, y ∈ side_list b s ∧ x_id x = x_id y) ∨ x_id x = o_id o.
Proof.
  destruct (side_cases (o_side o) s) as [->| ->].
  - rewrite executed_own. intros [Hx|[_ ->]]; [left; eauto|by right].
  - rewrite (ex_makers b o b' Hex). intros Hx. left.
    apply left_maker_origin in Hx as (y & Hy & [= _ E]). eauto.
Qed.

Lemma executed_filled seq : seq ∈ ob_filled_orders b' →
  seqZ seq ≤ seqZ (o_id o) ∧ ob_resting_orders b' !! seq = None.
Proof.
  rewrite (ex_filled b o b' Hex), (ex_resting b o b' Hex), !elem_of_union.
  pose proof (fresh_not_resting b o Hb Hf) as Hfn.
  intros [[Hs|Hs]|Hs].
  - pose proof (fresh_filled b o Hf seq Hs) as Hlt.
    destruct (inv_filled b Hb seq Hs) as (_ & Hn & _). split; [lia|].
    repeat case_decide; [done| |done]. destruct H0 as [-> _]. lia.
  - rewrite decide_True by done. split; [|done].
    apply walk_ids_resting in Hs as (x & Hx & <-); [|done].
    apply (fresh_resting b o Hf) in Hx. lia.
  - destruct (Z.eqb_spec (ms_remaining (walk b o)) 0) as [E|E]; [|set_solver].
    apply elem_of_singleton in Hs as ->. split; [lia|].
    repeat case_decide; naive_solver.
Qed.

Lemma executed_inv : book_inv b'.
Proof.
  destruct Hex as [F W M _ _ _ _]. split.
  - done.
  - intros s. destruct (side_cases (o_side o) s) as [->| ->]; [apply executed_own_sorted|].
    rewrite M. by apply left_makers_sorted.
  - apply executed_index.
  - apply executed_valid.
  - apply executed_uncrossed.
  - intros s x Hx. rewrite (fr_next_seq _ _ F).
    apply executed_origin in Hx as [(y & Hy & ->)| ->].
    + by apply (inv_resting_seq b Hb s).
    + apply (fresh_next b o Hf).
  - intros s x o' Hx. rewrite (fr_pending _ _ F). intros Ho'.
    apply executed_origin in Hx as [(y & Hy & ->)| ->].
    + by apply (inv_resting_pending b Hb s).
    + by apply (fresh_pending b o Hf).
  - rewrite (fr_pending _ _ F). apply Hb.
  - intros o'. rewrite (fr_pending _ _ F), (valid_order_frame b b'), (fr_next_seq _ _ F) by done.
    apply Hb.
  - intros seq Hs. apply executed_filled in Hs as [Hle Hn].
    rewrite (fr_pending _ _ F), (fr_next_seq _ _ F).
    pose proof (fresh_next b o Hf). split_and!; [lia|done|].
    intros o' Ho'. pose proof (fresh_pending b o Hf o' Ho'). lia.
Qed.
End executed.

(** ** Quantity accounting of matching

    Every unit of quantity of every order is accounted for: it is still open on
    the book, or it is in a fill the order took part in. *)

(** The quantity an order with sequence [seq] has resting on the book. *)
Definition qty_if (seq id : OrderSeq) (q : Z) : Z := if decide (id = seq) then q else 0.
Definition list_qty (seq : OrderSeq) (l : list (Price * RestingOrder)) : Z :=
  sum_over (λ x, qty_if seq (x_id x) (r_qty x)) l.
Definition resting_qty (b : OrderBook) (seq : OrderSeq) : Z :=
  list_qty seq (side_list b Buy) + list_qty seq (side_list b Sell).

(** The quantity of [seq]'s fills, as taker and as maker. *)
Definition taker_qty (seq : OrderSeq) (f : Fill) : Z :=
  qty_if seq (taker_order_seq f) (qval (fill_quantity f)).
Definition maker_qty (seq : OrderSeq) (f : Fill) : Z :=
  qty_if seq (maker_order_seq f) (qval (fill_quantity f)).
Definition fills_qty (seq : OrderSeq) (fs : list Fill) : Z :=
  sum_over (λ f, taker_qty seq f + maker_qty seq f) fs.

(** Total quantity traded. *)
Definition traded (fs : list Fill) : Z := sum_over (λ f, qval (fill_quantity f)) fs.

Definition m_qty_ok (m : Price * RestingOrder * Z) : Prop := 0 ≤ m.2 < 2 ^ 256.

Lemma matched_qty_ok b o : Forall m_qty_ok (matched (walk b o)).
Proof.
  apply Forall_app. split.
  - apply Forall_fmap, Forall_forall. intros [p r] _. apply qval_range.
  - destruct (ms_partial (walk b o)) as [[[p r] q]|] eqn:E; simpl; [|constructor].
    constructor; [|constructor]. destruct (walk_partial b o p r q E) as (Hq & _).
    pose proof (qval_range (r_remaining r)). unfold m_qty_ok; simpl. lia.
Qed.

Lemma fills_of_traded seq o ms :
  Forall m_qty_ok ms → traded (fills_of seq o ms) = sum_over snd ms.
Proof.
  intros Hms. revert seq. induction Hms as [|m ms Hm _ IH]; intros seq; [done|].
  unfold traded in *. simpl. autorewrite with oisy_sums. rewrite IH. simpl.
  by rewrite q_of_Z_val.
Qed.

Lemma fills_of_qty seq k o ms :
  Forall m_qty_ok ms →
  fills_qty seq (fills_of k o ms) =
    qty_if seq (o_id o) (sum_over snd ms) + sum_over (λ m, qty_if seq (x_id m.1) m.2) ms.
Proof.
  intros Hms. revert k. induction Hms as [|m ms Hm _ IH]; intros k.
  { unfold fills_qty, qty_if. simpl. autorewrite with oisy_sums. by case_decide. }
  unfold fills_qty in *. simpl. autorewrite with oisy_sums. rewrite IH.
  unfold taker_qty, maker_qty; simpl. rewrite q_of_Z_val by done.
  unfold qty_if. repeat case_decide; lia.
Qed.

Lemma matched_sum b o :
  sum_over snd (matched (walk b o)) = qval (o_remaining o) - ms_remaining (walk b o).
Proof.
  rewrite (walk_conserve b o). unfold matched, partial_qty.
  rewrite sum_over_app, sum_over_fmap.
  rewrite (sum_over_ext _ r_qty) by done.
  destruct (ms_partial (walk b o)) as [[[p r] q]|]; simpl; autorewrite with oisy_sums; simpl; lia.
Qed.

(** The makers' side: what they had is what is left plus what was matched. *)
Lemma makers_conserve b o seq :
  list_qty seq (side_list b (opp (o_side o))) =
    list_qty seq (left_makers (walk b o)) +
    sum_over (λ m, qty_if seq (x_id m.1) m.2) (matched (walk b o)).
Proof.
  rewrite (walk_split b o). unfold list_qty, matched, left_makers, partial_list.
  autorewrite with oisy_sums. rewrite sum_over_fmap.
  rewrite (sum_over_ext (_ ∘ _) (λ x, qty_if seq (x_id x) (r_qty x))) by done.
  destruct (ms_partial (walk b o)) as [[[p r] q]|] eqn:E; simpl;
    autorewrite with oisy_sums; simpl; [|lia].
  destruct (walk_partial b o p r q E) as (Hq & _). pose proof (qval_range (r_remaining r)).
  unfold r_qty, x_id; simpl. rewrite q_of_Z_val by lia. unfold qty_if. case_decide; lia.
Qed.

(** Matching conserves the quantity of every order. *)
Lemma executed_conserve b o b' seq :
  executed b o b' →
  resting_qty b seq + qty_if seq (o_id o) (qval (o_remaining o)) =
    resting_qty b' seq + fills_qty seq (walk_fills b o).
Proof.
  intros Hex. unfold walk_fills. rewrite fills_of_qty by apply matched_qty_ok.
  rewrite matched_sum. pose proof (makers_conserve b o seq) as Hm.
  rewrite <-(ex_makers b o b' Hex) in Hm. pose proof (ex_own b o b' Hex) as Hown.
  assert (Ho : list_qty seq (side_list b' (o_side o)) =
    list_qty seq (side_list b (o_side o)) + qty_if seq (o_id o) (ms_remaining (walk b o))).
  { destruct (Z.eqb_spec (ms_remaining (walk b o)) 0) as [->|_].
    { rewrite Hown. unfold qty_if. case_decide; lia. }
    destruct Hown as (l1 & l2 & -> & -> & _). unfold list_qty. autorewrite with oisy_sums.
    unfold r_qty at 2, x_id at 2; simpl. rewrite q_of_Z_val by apply walk_remaining_range. lia. }
  unfold resting_qty, qty_if in *. destruct (o_side o); simpl in *; repeat case_decide; lia.
Qed.

(** How many orders rest on the book. *)
Definition resting_count (b : OrderBook) : nat :=
  (length (bids_list b) + length (asks_list b))%nat.

Lemma walk_fills_count b o b' :
  executed b o b' →
  (length (walk_fills b o) + resting_count b' ≤ resting_count b + 1)%nat.
Proof.
  intros Hex. unfold walk_fills. rewrite fills_of_length.
  assert (Hmk : (length (matched (walk b o)) + length (side_list b' (opp (o_side o))) =
    length (side_list b (opp (o_side o))) + from_option (λ _, 1%nat) 0%nat (ms_partial (walk b o)))%nat).
  { rewrite (ex_makers b o b' Hex), (walk_split b o). unfold matched, left_makers, partial_list.
    rewrite !length_app, length_fmap. destruct (ms_partial (walk b o)) as [[]|]; simpl; lia. }
  pose proof (ex_own b o b' Hex) as Hown.
  assert (Ho : (length (side_list b' (o_side o)) + from_option (λ _, 1%nat) 0%nat (ms_partial (walk b o))
    ≤ length (side_list b (o_side o)) + 1)%nat).
  { destruct (Z.eqb_spec (ms_remaining (walk b o)) 0) as [_|E].
    - rewrite Hown. destruct (ms_partial _); simpl; lia.
    - destruct (walk_stops b o E) as [-> _]. destruct Hown as (l1 & l2 & -> & -> & _).
      rewrite !length_app. simpl. lia. }
  unfold resting_count. destruct (o_side o); simpl in *; lia.
Qed.

Lemma walk_fills_le_makers b o :
  (length (walk_fills b o) ≤ length (side_list b (opp (o_side o))))%nat.
Proof.
  unfold walk_fills. rewrite fills_of_length, (walk_split b o). unfold matched, partial_list.
  rewrite !length_app, length_fmap. destruct (ms_partial (walk b o)) as [[]|]; simpl; lia.
Qed.
