(* ===== verification/BookPending.v ===== *)
(** * Queueing orders and the steps of a matching round

    [add_pending_order] and the loop of [process_pending_orders] of
    src/canister/src/order/book.rs: totality, preservation of the invariant, the
    classification of the orders of a round and the accounting of their
    quantities. *)

From stdpp Require Import prelude gmap sorting.
From Stdlib Require Import ZArith Lia.
From S2P Require Import Prelude Word BTree Quantity Ids Fees OrderTypes.
From S2P Require Import OrderQueue FillPlan OrderBook BookInv BookMatching.
From S2P Require Import BookInvMatch.

(** ** The empty book *)

Lemma book_new_inv id tick lot mn mx fees : book_inv (book_new id tick lot mn mx fees).
Proof.
  assert (Hs : ∀ s, side_list (book_new id tick lot mn mx fees) s = []).
  { intros []; unfold side_list, bids_list, asks_list; simpl; by rewrite queue_list_new. }
  split.
  - split; apply queue_wf_new.
  - intros s. rewrite Hs. constructor.
  - intros seq s p. simpl. rewrite lookup_empty, Hs. set_solver.
  - intros s p r. rewrite Hs. set_solver.
  - intros x y Hx. specialize (Hs Buy). simpl in Hs. rewrite Hs in Hx. set_solver.
  - intros s x. rewrite Hs. set_solver.
  - intros s x o. rewrite Hs. set_solver.
  - constructor.
  - simpl. set_solver.
  - simpl. set_solver.
Qed.

(** ** [add_pending_order] *)

Lemma add_pending_order_spec b o :
  book_inv b → valid_order b (o_price o) (o_remaining o) → o_id o = ob_next_seq b →
  seqZ (ob_next_seq b) < uint_max 64 →
  ∃ next, add_pending_order b o =
      Done (with_next_seq next (with_pending (ob_pending_orders b ++ [o]) b)) ∧
    seqZ next = seqZ (ob_next_seq b) + 1 ∧
    book_inv (with_next_seq next (with_pending (ob_pending_orders b ++ [o]) b)).
Proof.
  intros Hb Hv Hid Hn. destruct (increment_total _ Hn) as (next & E & En). exists next.
  unfold add_pending_order. rewrite validate_order_ok by done. cbn [ebind assert is_ok].
  rewrite bool_decide_eq_true_2 by done. cbn [ebind assert]. simpl. rewrite E. cbn [ebind].
  split; [done|]. split; [done|].
  destruct Hb as [W P I V U RS RP PS PV FI]. split; try done; simpl.
  - intros s x Hx. specialize (RS s x Hx). lia.
  - intros s x o'. rewrite elem_of_app, list_elem_of_singleton. intros Hx [Ho| ->]; [by apply (RP s)|].
    rewrite Hid. by apply (RS s).
  - apply StronglySorted_app_iff. split_and!; [done|by repeat constructor|].
    intros x y Hx ->%list_elem_of_singleton. rewrite Hid. by apply PV.
  - intros o'. rewrite elem_of_app, list_elem_of_singleton. intros [Ho| ->].
    + destruct (PV o' Ho). split; [done|lia].
    + split; [done|]. rewrite Hid. lia.
  - intros seq Hs. destruct (FI seq Hs) as (? & ? & ?). split_and!; [lia|done|].
    intros o'. rewrite elem_of_app, list_elem_of_singleton. intros [Ho| ->]; [auto|]. by rewrite Hid.
Qed.

(** ** Taking the head of the pending queue *)

Lemma pop_pending_inv b o rest :
  book_inv b → ob_pending_orders b = o :: rest →
  book_inv (with_pending rest b) ∧ fresh (with_pending rest b) o ∧
  valid_order (with_pending rest b) (o_price o) (o_remaining o).
Proof.
  intros [W P I V U RS RP PS PV FI] E. rewrite E in *.
  apply StronglySorted_inv in PS as [PS Po]. rewrite Forall_forall in Po.
  assert (Ho : o ∈ o :: rest) by left.
  split_and!.
  - split; try done; simpl.
    + intros s x o' Hx Ho'. apply (RP s); [done|by right].
    + intros o' Ho'. apply PV. by right.
    + intros seq Hs. destruct (FI seq Hs) as (? & ? & Hp). split_and!; [done..|].
      intros o' Ho'. apply Hp. by right.
  - split; simpl.
    + intros s x Hx. by apply (RP s).
    + intros seq Hs. by apply (FI seq Hs).
    + done.
    + by apply PV.
  - by apply (PV o).
Qed.

(** ** One order of a round *)

Record processed (st : ProcessState) (o : Order) (st' : ProcessState) : Prop := {
  pr_inv : book_inv (ps_book st');
  pr_rules : same_rules (ps_book st) (ps_book st');
  pr_next : ob_next_seq (ps_book st') = ob_next_seq (ps_book st);
  pr_pending : ob_pending_orders (ps_book st) = o :: ob_pending_orders (ps_book st');
  pr_count : (resting_count (ps_book st') + length (ps_fills st') ≤
              resting_count (ps_book st) + length (ps_fills st) + 1)%nat;
  pr_fill : seqZ (ob_next_fill (ps_book st')) - Z.of_nat (length (ps_fills st')) =
            seqZ (ob_next_fill (ps_book st)) - Z.of_nat (length (ps_fills st));
  pr_case :
    (* killed *)
    (ob_resting_orders (ps_book st') = ob_resting_orders (ps_book st) ∧
     ob_filled_orders (ps_book st') = ob_filled_orders (ps_book st) ∧
     (∀ s, side_list (ps_book st') s = side_list (ps_book st) s) ∧
     ps_fills st' = ps_fills st ∧ ps_resting st' = ps_resting st ∧
     o_tif o = FillOrKill ∧
     ps_expired st' = <[o_id o := MkRemovedOrder (o_side o) (o_price o) (o_remaining o)]>
                        (ps_expired st)) ∨
    (* executed *)
    (∃ b1, b1 = with_pending (ob_pending_orders (ps_book st')) (ps_book st) ∧
     executed b1 o (ps_book st') ∧
     ps_fills st' = ps_fills st ++ walk_fills b1 o ∧
     ps_resting st' = (if ms_remaining (walk b1 o) =? 0 then ∅ else {[o_id o]}) ∪ ps_resting st ∧
     ps_expired st' = ps_expired st)
}.

Lemma walk_result_parts b o :
  mr_fills (walk_result b o) = walk_fills b o ∧
  mr_resting_order_seq (walk_result b o) =
    (if ms_remaining (walk b o) =? 0 then None else Some (o_id o)) ∧
  ∀ s k, walk_result b o ≠ MKilled s k.
Proof.
  unfold walk_result. destruct (_ =? 0); [done|]. case_bool_decide as E; simpl; [|done].
  by rewrite E.
Qed.

Lemma process_one_spec st o rest :
  book_inv (ps_book st) → ob_pending_orders (ps_book st) = o :: rest →
  seqZ (ob_next_fill (ps_book st)) + Z.of_nat (resting_count (ps_book st)) ≤ uint_max 64 →
  ∃ st', process_one st (o_id o) = Done st' ∧ processed st o st' ∧
    ob_pending_orders (ps_book st') = rest.
Proof.
  intros Hb E Hn. destruct (pop_pending_inv _ _ _ Hb E) as (Hb1 & Hf & Hv).
  set (b1 := with_pending rest (ps_book st)) in *.
  unfold process_one. rewrite E. fold b1. rewrite bool_decide_eq_true_2 by done.
  cbn [ebind assert].
  destruct (decide (o_tif o = FillOrKill ∧ ms_remaining (walk b1 o) ≠ 0)) as [Hk|Hk].
  - rewrite (match_order_killed b1 o) by done. cbn [ebind]. eexists. split; [done|].
    split; [|done]. destruct Hk as [Ht _]. split; simpl; [done|done|done|done| |done|].
    { change (resting_count b1) with (resting_count (ps_book st)). lia. }
    left. split_and!; done.
  - assert (Hfc : (length (walk_fills b1 o) ≤ resting_count (ps_book st))%nat).
    { pose proof (walk_fills_le_makers b1 o). unfold resting_count.
      destruct (o_side o); simpl in *; unfold b1, bids_list, asks_list in *; simpl in *; lia. }
    destruct (match_order_executed b1 o) as (b' & Em & Hex); [done..|simpl; lia|].
    rewrite Em. cbn [ebind]. destruct (walk_result_parts b1 o) as (Ef & Er & Enk).
    exists (MkProcessState b' (ps_fills st ++ mr_fills (walk_result b1 o))
      (match mr_resting_order_seq (walk_result b1 o) with
       | Some seq => {[seq]} ∪ ps_resting st | None => ps_resting st end) (ps_expired st)).
    split.
    { destruct (walk_result b1 o) eqn:Ew; [done..|]. by destruct (Enk killed_order_seq killed). }
    pose proof (fr_pending _ _ (ex_frame _ _ _ Hex)) as Ep. split; [|done].
    pose proof (walk_fills_count b1 o b' Hex) as Hc.
    assert (Hc1 : resting_count b1 = resting_count (ps_book st)) by done.
    split; simpl; rewrite ?Ef, ?Er, ?length_app.
    + by eapply executed_inv.
    + trans b1; [by split|]. apply frame_rules, Hex.
    + apply (fr_next_seq _ _ (ex_frame _ _ _ Hex)).
    + by rewrite Ep.
    + lia.
    + rewrite (ex_next_fill _ _ _ Hex). simpl. lia.
    + right. exists b1. rewrite Ep. split_and!; [done..| |done].
      by destruct (ms_remaining (walk b1 o) =? 0); rewrite ?(left_id_L ∅ (∪)).
Qed.

(** ** A round: one [processed] step per expected sequence *)

Inductive round : ProcessState → list Order → ProcessState → Prop :=
| round_nil st : round st [] st
| round_cons st1 st2 st3 o os : processed st1 o st2 → round st2 os st3 → round st1 (o :: os) st3.

Lemma process_loop os : ∀ st rest,
  book_inv (ps_book st) → ob_pending_orders (ps_book st) = os ++ rest →
  seqZ (ob_next_fill (ps_book st)) + Z.of_nat (resting_count (ps_book st) + length os) ≤ uint_max 64 →
  ∃ st', exec_fold process_one st (o_id <$> os) = Done st' ∧ round st os st' ∧
    book_inv (ps_book st') ∧ ob_pending_orders (ps_book st') = rest.
Proof.
  induction os as [|o os IH]; intros st rest Hb Hp Hn; simpl.
  { exists st. split_and!; [done|constructor|done..]. }
  destruct (process_one_spec st o (os ++ rest) Hb Hp) as (st1 & E1 & P1 & Hp1); [lia|].
  rewrite E1. cbn [ebind]. destruct (IH st1 rest) as (st2 & E2 & R2 & Hb2 & Hp2).
  - apply P1.
  - done.
  - pose proof (pr_count _ _ _ P1). pose proof (pr_fill _ _ _ P1). simpl in Hn. lia.
  - exists st2. split_and!; [done|by econstructor|done..].
Qed.

(** What became of the orders [done] of a round that started on the book [b0]. *)
Record classified (b0 : OrderBook) (ids : gset OrderSeq) (st : ProcessState) : Prop := {
  cl_inv : book_inv (ps_book st);
  cl_older seq o : seq ∈ ids → o ∈ ob_pending_orders (ps_book st) → seqZ seq < seqZ (o_id o);
  cl_resting seq : seq ∈ ps_resting st → seq ∈ ids ∧
    (ob_resting_orders (ps_book st) !! seq ≠ None ∨ seq ∈ ob_filled_orders (ps_book st));
  cl_expired seq : seq ∈ dom (ps_expired st) →
    seq ∈ ids ∧ ob_resting_orders (ps_book st) !! seq = None ∧
    seq ∉ ob_filled_orders (ps_book st);
  cl_done seq : seq ∈ ids → seq ∈ ob_filled_orders (ps_book st) ∨ seq ∈ ps_resting st ∨
    seq ∈ dom (ps_expired st);
  cl_filled seq : seq ∈ ob_filled_orders (ps_book st) →
    seq ∈ ob_filled_orders b0 ∨ seq ∈ ids ∨ ob_resting_orders b0 !! seq ≠ None;
  cl_book seq : ob_resting_orders (ps_book st) !! seq ≠ None →
    seq ∈ ps_resting st ∨ ob_resting_orders b0 !! seq ≠ None
}.

Lemma classified_init b : book_inv b → classified b ∅ (MkProcessState b [] ∅ ∅).
Proof. intros Hb. split; simpl; try set_solver. Qed.

(** Facts of an order taken from the head of the queue. *)
Lemma processed_fresh st o st' :
  book_inv (ps_book st) → processed st o st' →
  book_inv (with_pending (ob_pending_orders (ps_book st')) (ps_book st)) ∧
  fresh (with_pending (ob_pending_orders (ps_book st')) (ps_book st)) o ∧
  ob_resting_orders (ps_book st) !! o_id o = None ∧ o_id o ∉ ob_filled_orders (ps_book st).
Proof.
  intros Hb HP. destruct (pop_pending_inv _ _ _ Hb (pr_pending _ _ _ HP)) as (Hb1 & Hf & _).
  split_and!; [done..|by apply (fresh_not_resting _ o Hb1)|].
  intros Hin. pose proof (fresh_filled _ _ Hf _ Hin). lia.
Qed.

Lemma processed_older b0 ids st o st' :
  classified b0 ids st → processed st o st' →
  ∀ seq o', seq ∈ ids ∪ {[o_id o]} → o' ∈ ob_pending_orders (ps_book st') →
    seqZ seq < seqZ (o_id o').
Proof.
  intros Hc HP seq o' Hs Ho'. pose proof (pr_pending _ _ _ HP) as Ep.
  apply elem_of_union in Hs as [Hs|Hs].
  - apply (cl_older _ _ _ Hc); [done|]. rewrite Ep. by right.
  - apply elem_of_singleton in Hs as ->. pose proof (inv_pending_sorted _ (cl_inv _ _ _ Hc)) as Hs.
    rewrite Ep in Hs. apply StronglySorted_inv in Hs as [_ Hs]. rewrite Forall_forall in Hs. auto.
Qed.

Lemma processed_not_done b0 ids st o st' :
  classified b0 ids st → processed st o st' → o_id o ∉ ids.
Proof.
  intros Hc HP Hin. assert (Ho : o ∈ ob_pending_orders (ps_book st))
    by (rewrite (pr_pending _ _ _ HP); left).
  pose proof (cl_older _ _ _ Hc _ _ Hin Ho). lia.
Qed.

Lemma classified_executed b0 ids st o st' b1 :
  classified b0 ids st → processed st o st' →
  b1 = with_pending (ob_pending_orders (ps_book st')) (ps_book st) →
  executed b1 o (ps_book st') →
  ps_resting st' = (if ms_remaining (walk b1 o) =? 0 then ∅ else {[o_id o]}) ∪ ps_resting st →
  ps_expired st' = ps_expired st →
  classified b0 (ids ∪ {[o_id o]}) st'.
Proof.
  intros Hc HP -> Hex Er Ee. destruct (processed_fresh _ _ _ (cl_inv _ _ _ Hc) HP) as (Hb1 & Hf & Hnr & Hnf).
  pose proof (processed_not_done _ _ _ _ _ Hc HP) as Hnd.
  set (b1 := with_pending _ _) in *.
  pose proof (fresh_not_walked b1 o Hb1 Hf) as Hnw.
  assert (Hw : ∀ seq, seq ∈ walk_ids b1 o → ob_resting_orders (ps_book st) !! seq ≠ None).
  { intros seq (x & Hx & <-)%walk_ids_resting; [|done]. by rewrite (inv_lookup b1 _ x Hb1 Hx : ob_resting_orders (ps_book st) !! _ = _). }
  split; try apply HP; try (by eapply processed_older); intros seq;
    rewrite ?Er, ?Ee, ?(ex_resting _ _ _ Hex), ?(ex_filled _ _ _ Hex);
    change (ob_resting_orders b1) with (ob_resting_orders (ps_book st));
    change (ob_filled_orders b1) with (ob_filled_orders (ps_book st));
    destruct (Z.eqb_spec (ms_remaining (walk b1 o)) 0) as [Ez|Ez];
    rewrite ?elem_of_union, ?elem_of_singleton, ?elem_of_empty;
    pose proof (Hw seq); pose proof (cl_resting _ _ _ Hc seq); pose proof (cl_expired _ _ _ Hc seq);
    pose proof (cl_done _ _ _ Hc seq); pose proof (cl_filled _ _ _ Hc seq);
    pose proof (cl_book _ _ _ Hc seq);
    destruct (decide (seq = o_id o)) as [->|Hne]; repeat case_decide;
    naive_solver.
Qed.

Lemma classified_killed b0 ids st o st' k :
  classified b0 ids st → processed st o st' →
  ob_resting_orders (ps_book st') = ob_resting_orders (ps_book st) →
  ob_filled_orders (ps_book st') = ob_filled_orders (ps_book st) →
  ps_resting st' = ps_resting st → ps_expired st' = <[o_id o := k]> (ps_expired st) →
  classified b0 (ids ∪ {[o_id o]}) st'.
Proof.
  intros Hc HP Er Ef Es Ee.
  destruct (processed_fresh _ _ _ (cl_inv _ _ _ Hc) HP) as (_ & _ & Hnr & Hnf).
  split; try apply HP; try (by eapply processed_older); intros seq;
    rewrite ?Er, ?Ef, ?Es, ?Ee, ?dom_insert_L, ?elem_of_union, ?elem_of_singleton;
    pose proof (cl_resting _ _ _ Hc seq); pose proof (cl_expired _ _ _ Hc seq);
    pose proof (cl_done _ _ _ Hc seq); pose proof (cl_filled _ _ _ Hc seq);
    pose proof (cl_book _ _ _ Hc seq); naive_solver.
Qed.

Lemma round_classified b0 ids st os st' :
  round st os st' → classified b0 ids st → classified b0 (ids ∪ list_to_set (o_id <$> os)) st'.
Proof.
  intros HR. revert ids. induction HR as [|st1 st2 st3 o os HP _ IH]; intros ids Hc; simpl.
  { by rewrite (right_id_L ∅ (∪)). }
  rewrite (assoc_L (∪)). apply IH. destruct (pr_case _ _ _ HP)
    as [(E1 & E2 & _ & _ & E3 & _ & E4)|(b1 & E1 & Hex & _ & E3 & E4)].
  - by eapply classified_killed.
  - by eapply classified_executed.
Qed.

(** ** Accounting over a round *)

Definition pending_qty (os : list Order) (seq : OrderSeq) : Z :=
  sum_over (λ o, qty_if seq (o_id o) (qval (o_remaining o))) os.

(** The quantity of [seq] that is on the book or waiting to be matched. *)
Definition open_qty (b : OrderBook) (seq : OrderSeq) : Z :=
  resting_qty b seq + pending_qty (ob_pending_orders b) seq.

Definition expired_qty (expired : gmap OrderSeq RemovedOrder) (seq : OrderSeq) : Z :=
  from_option (λ k, qval (ro_remaining k)) 0 (expired !! seq).

Definition accounted (st : ProcessState) (seq : OrderSeq) : Z :=
  open_qty (ps_book st) seq + fills_qty seq (ps_fills st) + expired_qty (ps_expired st) seq.

Lemma processed_accounted b0 ids st o st' seq :
  classified b0 ids st → processed st o st' → accounted st' seq = accounted st seq.
Proof.
  intros Hc HP. unfold accounted, open_qty. rewrite (pr_pending _ _ _ HP).
  unfold pending_qty. rewrite sum_over_cons.
  destruct (pr_case _ _ _ HP) as [(_ & _ & Es & -> & _ & _ & ->)|(b1 & -> & Hex & -> & _ & ->)].
  - unfold resting_qty. rewrite !Es. unfold expired_qty, qty_if. rewrite lookup_insert.
    pose proof (processed_not_done _ _ _ _ _ Hc HP) as Hnd. case_decide; [|lia].
    assert (Hn : ps_expired st !! seq = None).
    { apply not_elem_of_dom. intros Hin. apply (cl_expired _ _ _ Hc) in Hin as [Hin _]. congruence. }
    rewrite Hn. simpl. lia.
  - pose proof (executed_conserve _ _ _ seq Hex) as Hq. unfold fills_qty in *.
    rewrite sum_over_app.
    assert (Hr : resting_qty (with_pending (ob_pending_orders (ps_book st')) (ps_book st)) seq =
                 resting_qty (ps_book st) seq) by done.
    lia.
Qed.

Lemma round_accounted b0 ids st os st' seq :
  round st os st' → classified b0 ids st → accounted st' seq = accounted st seq.
Proof.
  intros HR. revert ids. induction HR as [|st1 st2 st3 o os HP HR IH]; intros ids Hc; [done|].
  rewrite (IH (ids ∪ {[o_id o]})); [by eapply processed_accounted|].
  replace (ids ∪ {[o_id o]}) with (ids ∪ list_to_set (o_id <$> [o])) by (simpl; set_solver).
  eapply round_classified; [|done]. econstructor; [done|constructor].
Qed.

(** Fill sequences of a round are consecutive. *)
Definition numbered (start : Z) (fs : list Fill) : Prop :=
  ∀ i f, fs !! i = Some f → seqZ (fill_seq f) = start + Z.of_nat i.

Lemma fills_of_numbered k o ms :
  0 ≤ k → k + Z.of_nat (length ms) ≤ uint_max 64 + 1 → numbered k (fills_of k o ms).
Proof.
  intros Hk. revert k Hk. induction ms as [|m ms IH]; intros k Hk Hn [|i] f Hf;
    simpl in *; try done.
  - injection Hf as <-. simpl. unfold seqZ, seq_lit; simpl.
    rewrite mk_uint_small by (unfold uint_max in Hn; lia). lia.
  - rewrite (IH (k + 1) ltac:(lia) ltac:(lia) i f Hf). lia.
Qed.

Lemma numbered_app k fs fs' :
  numbered k fs → numbered (k + Z.of_nat (length fs)) fs' → numbered k (fs ++ fs').
Proof.
  intros H1 H2 i f Hf. apply lookup_app_Some in Hf as [Hf|[Hi Hf]]; [by apply H1|].
  rewrite (H2 _ _ Hf). lia.
Qed.

Lemma round_numbered st os st' start :
  round st os st' →
  seqZ (ob_next_fill (ps_book st)) = start + Z.of_nat (length (ps_fills st)) → 0 ≤ start →
  numbered start (ps_fills st) →
  numbered start (ps_fills st') ∧
  seqZ (ob_next_fill (ps_book st')) = start + Z.of_nat (length (ps_fills st')).
Proof.
  intros HR. induction HR as [|st1 st2 st3 o os HP _ IH]; intros Hs H0 Hn; [done|].
  pose proof (pr_fill _ _ _ HP) as Hf. apply IH; [lia|done|].
  destruct (pr_case _ _ _ HP) as [(_ & _ & _ & -> & _)|(b1 & -> & Hex & E & _)]; [done|].
  rewrite E in *. apply numbered_app; [done|]. rewrite <-Hs.
  apply fills_of_numbered; [apply seqZ_range|].
  pose proof (seqZ_range (ob_next_fill (ps_book st2))) as Hr.
  rewrite (ex_next_fill _ _ _ Hex) in Hr. unfold walk_fills in Hr. rewrite fills_of_length in Hr.
  unfold uint_max.
  change (2 ^ Z.of_N 64) with (2 ^ 64). lia.
Qed.
