(* ===== verification/BookRound.v ===== *)
(** * A matching round ([process_pending_orders] of src/canister/src/order/book.rs)

    The terms of the orders through a round, and its postcondition. An order keeps its side and price from submission until it leaves the book,
    and every fill of a round quotes the terms of its two orders. *)

From stdpp Require Import prelude gmap sorting.
From Stdlib Require Import ZArith Lia.
From S2P Require Import Prelude Word BTree Quantity Ids Fees OrderTypes OrderQueue.
From S2P Require Import FillPlan OrderBook BookInv BookMatching BookInvMatch.
From S2P Require Import BookPending.

(** The side and price of an order that rests on the book or waits in the queue. *)
Definition has_terms (b : OrderBook) (seq : OrderSeq) (s : Side) (p : Price) : Prop :=
  ob_resting_orders b !! seq = Some (s, p) ∨
  ∃ o, o ∈ ob_pending_orders b ∧ o_id o = seq ∧ o_side o = s ∧ o_price o = p.

(** A fill of orders that were on the book [b]: their terms, the side's price
    limit and a positive whole number of lots. *)
Record fill_terms (b : OrderBook) (f : Fill) : Prop := {
  ft_taker : has_terms b (taker_order_seq f) (taker_side f) (taker_price f);
  ft_maker : has_terms b (maker_order_seq f) (opp (taker_side f)) (maker_price f);
  ft_distinct : taker_order_seq f ≠ maker_order_seq f;
  ft_cross : stop_at (taker_side f) (taker_price f) (maker_price f) = false;
  ft_taker_valid : valid_order b (taker_price f) (fill_quantity f);
  ft_maker_valid : valid_order b (maker_price f) (fill_quantity f)
}.

(** A killed order is returned with its own terms. *)
Definition expired_terms (b : OrderBook) (seq : OrderSeq) (k : RemovedOrder) : Prop :=
  has_terms b seq (ro_side k) (ro_price k) ∧ valid_order b (ro_price k) (ro_remaining k).

(** ** One order *)

Lemma elem_of_fills_of k o ms f :
  f ∈ fills_of k o ms → ∃ i m, m ∈ ms ∧ f = fill_of i o m.
Proof.
  revert k. induction ms as [|m ms IH]; intros k Hf; simpl in Hf; [set_solver|].
  apply elem_of_cons in Hf as [->|Hf]; [exists k, m; split; [left|done]|].
  destruct (IH _ Hf) as (i & m' & Hm & ->). exists i, m'. split; [by right|done].
Qed.

Lemma elem_of_option_list {A} (o : option A) x : x ∈ option_list o → o = Some x.
Proof. destruct o; simpl; set_solver. Qed.

Lemma elem_of_matched b o p r q :
  (p, r, q) ∈ matched (walk b o) →
  (p, r) ∈ side_list b (opp (o_side o)) ∧ stop_at (o_side o) (o_price o) p = false ∧
  ((p, r) ∈ ms_full (walk b o) ∧ q = qval (r_remaining r) ∨
   ms_partial (walk b o) = Some (p, r, q)).
Proof.
  unfold matched. rewrite elem_of_app, list_elem_of_fmap.
  rewrite (walk_split b o), !elem_of_app. intros [([p' r'] & [= -> -> ->] & Hin)|Hp%elem_of_option_list].
  - split_and!; [by left| |by left].
    apply (greedy_crosses (stop_at (o_side o) (o_price o)) (qval (o_remaining o)) _ _ Hin).
  - split_and!; [|by apply (walk_partial b o p r q)|by right].
    right. left. unfold partial_list. rewrite Hp. left.
Qed.

Lemma walk_fill_terms b o f :
  book_inv b → fresh b o → valid_order b (o_price o) (o_remaining o) → f ∈ walk_fills b o →
  taker_order_seq f = o_id o ∧ taker_side f = o_side o ∧ taker_price f = o_price o ∧
  ob_resting_orders b !! maker_order_seq f = Some (opp (o_side o), maker_price f) ∧
  taker_order_seq f ≠ maker_order_seq f ∧
  stop_at (o_side o) (o_price o) (maker_price f) = false ∧
  valid_order b (o_price o) (fill_quantity f) ∧ valid_order b (maker_price f) (fill_quantity f).
Proof.
  intros Hb Hf Hv (i & [[p r] q] & Hm & ->)%elem_of_fills_of; simpl.
  pose proof (matched_qty_ok b o) as Hok. rewrite Forall_forall in Hok.
  specialize (Hok _ Hm). unfold m_qty_ok in Hok; simpl in Hok.
  apply elem_of_matched in Hm as (Hin & Hst & Hq).
  pose proof (inv_lookup b _ _ Hb Hin) as Hl. pose proof (fresh_resting _ _ Hf _ _ Hin) as Hlt.
  destruct (inv_valid b Hb _ _ _ Hin) as [(Hp0 & Hpt & Hr0 & Hrl) _].
  pose proof Hv as (Ho0 & Hot & _ & _).
  assert (Hq' : q ≠ 0 ∧ q mod ob_lot_size b = 0).
  { destruct Hq as [[_ ->]|Hp]; [done|].
    pose proof (partial_lots b o Hb Hf Hv) as Hl'.
    destruct (walk_partial b o _ _ _ Hp) as (? & _). unfold partial_qty in Hl'. rewrite Hp in Hl'.
    split; [lia|done]. }
  split_and!; try done; unfold valid_order; rewrite ?q_of_Z_val by done; try tauto.
  intros E. rewrite E in Hlt. unfold x_id in Hlt; simpl in Hlt. lia.
Qed.

(** The terms of the orders of a book an executed order leaves. *)
Lemma executed_terms b o b' seq s p :
  executed b o b' → has_terms b' seq s p →
  has_terms b seq s p ∨ seq = o_id o ∧ s = o_side o ∧ p = o_price o.
Proof.
  intros Hex. unfold has_terms. rewrite (ex_resting _ _ _ Hex), (fr_pending _ _ (ex_frame _ _ _ Hex)).
  intros [H|H]; [|by left; right]. repeat case_decide; naive_solver.
Qed.

(** ** A round *)

Record step_terms (b0 : OrderBook) (st : ProcessState) : Prop := {
  st_rules : same_rules b0 (ps_book st);
  st_next : ob_next_seq (ps_book st) = ob_next_seq b0;
  st_terms seq s p : has_terms (ps_book st) seq s p → has_terms b0 seq s p;
  st_fills f : f ∈ ps_fills st → fill_terms b0 f;
  st_expired seq k : ps_expired st !! seq = Some k → expired_terms b0 seq k;
  st_gone seq : ob_resting_orders b0 !! seq ≠ None →
    ob_resting_orders (ps_book st) !! seq ≠ None ∨ seq ∈ ob_filled_orders (ps_book st)
}.

Lemma step_terms_init b : step_terms b (MkProcessState b [] ∅ ∅).
Proof. split; simpl; try done; [|tauto]. intros f Hf. set_solver. Qed.

Lemma walk_ids_filled b o b' seq :
  executed b o b' → ob_resting_orders b !! seq ≠ None →
  ob_resting_orders b' !! seq ≠ None ∨ seq ∈ ob_filled_orders b'.
Proof.
  intros Hex Hs. rewrite (ex_resting _ _ _ Hex), (ex_filled _ _ _ Hex).
  repeat case_decide; set_solver.
Qed.

Lemma processed_terms b0 st o st' :
  book_inv (ps_book st) → processed st o st' → step_terms b0 st → step_terms b0 st'.
Proof.
  intros Hb HP [R N T F X G]. pose proof (pr_pending _ _ _ HP) as Ep.
  destruct (pop_pending_inv _ _ _ Hb Ep) as (Hb1 & Hf & Hv).
  assert (Ho : has_terms (ps_book st) (o_id o) (o_side o) (o_price o)).
  { right. exists o. rewrite Ep. split_and!; [left|done..]. }
  assert (Ht1 : ∀ seq s p, has_terms (with_pending (ob_pending_orders (ps_book st')) (ps_book st))
    seq s p → has_terms (ps_book st) seq s p).
  { intros seq s p [H|(o' & Hin & H)]; [by left|right; exists o']. rewrite Ep.
    split; [by right|done]. }
  assert (Hv0 : ∀ p q, valid_order (ps_book st) p q → valid_order b0 p q)
    by (intros p q; by rewrite (valid_order_rules b0 (ps_book st))).
  pose proof (pr_rules _ _ _ HP) as R'. pose proof (pr_next _ _ _ HP) as N'.
  destruct (pr_case _ _ _ HP) as [(Er & Efo & _ & Ef & _ & _ & Ex)|(b1 & -> & Hex & Ef & _ & Ex)].
  - split; [by trans (ps_book st)|congruence|..].
    + intros seq s p Hs. apply T, Ht1. unfold has_terms in *; simpl. by rewrite <-Er.
    + by rewrite Ef.
    + intros seq k. rewrite Ex, lookup_insert_Some. intros [[<- <-]|[_ Hk]]; [|auto].
      split; [by apply T|by apply Hv0].
    + by rewrite Er, Efo.
  - split; [by trans (ps_book st)|congruence|..].
    + intros seq s p Hs. apply T. destruct (executed_terms _ _ _ _ _ _ Hex Hs) as [?|(-> & -> & ->)];
        [by apply Ht1|done].
    + intros f. rewrite Ef, elem_of_app. intros [?|Hin]; [auto|].
      destruct (walk_fill_terms _ _ _ Hb1 Hf Hv Hin) as (E1 & E2 & E3 & Hm & Hd & Hc & V1 & V2).
      split; rewrite ?E1, ?E2, ?E3; try done; try (by apply Hv0); [by apply T|..].
      * apply T. by left.
      * by rewrite <-E1.
    + by rewrite Ex.
    + intros seq Hs. destruct (G seq Hs) as [Hr|Hr].
      * by apply (walk_ids_filled _ _ _ seq Hex).
      * right. rewrite (ex_filled _ _ _ Hex). set_solver.
Qed.

Lemma round_terms b0 st os st' :
  round st os st' → book_inv (ps_book st) → step_terms b0 st → step_terms b0 st'.
Proof.
  induction 1 as [|st1 st2 st3 o os HP HR IH]; [done|]. intros Hb Ht.
  apply IH; [apply HP|by eapply processed_terms].
Qed.

(** The taker of a fill is one of the orders of the round. *)
Lemma round_takers st os st' :
  round st os st' →
  ∀ f, f ∈ ps_fills st' → f ∈ ps_fills st ∨ taker_order_seq f ∈ o_id <$> os.
Proof.
  induction 1 as [|st1 st2 st3 o os HP HR IH]; [by left|]. intros f Hf.
  destruct (IH f Hf) as [Hin|Hin]; [|right; by right].
  destruct (pr_case _ _ _ HP) as [(_ & _ & _ & Ef & _)|(b1 & _ & _ & Ef & _)];
    rewrite Ef in Hin; [by left|]. apply elem_of_app in Hin as [?|Hw]; [by left|].
  right. apply elem_of_fills_of in Hw as (i & m & _ & ->). left.
Qed.

(** A round spends at most one fill sequence or resting place per order. *)
Lemma round_count st os st' :
  round st os st' →
  (resting_count (ps_book st') + length (ps_fills st') ≤
   resting_count (ps_book st) + length (ps_fills st) + length os)%nat.
Proof.
  induction 1 as [|st1 st2 st3 o os HP HR IH]; simpl; [lia|].
  pose proof (pr_count _ _ _ HP). lia.
Qed.

(** ** The postcondition of a round

    The postcondition of a round on a book that satisfies the invariant: the round
    is total, it classifies each of its orders, and it accounts for every unit of
    quantity. *)

Definition exactly_one (P Q R : Prop) : Prop :=
  (P ∧ ¬ Q ∧ ¬ R) ∨ (¬ P ∧ Q ∧ ¬ R) ∨ (¬ P ∧ ¬ Q ∧ R).

Record round_post (b : OrderBook) (ids : gset OrderSeq) (out : MatchingOutput) (b' : OrderBook) :
    Prop := {
  rp_inv : book_inv b';
  rp_drained : ob_filled_orders b' = ∅;
  rp_once seq : seq ∈ ids → exactly_one (seq ∈ mo_resting_orders out)
    (seq ∈ mo_filled_orders out) (seq ∈ dom (mo_expired_orders out));
  rp_resting seq : seq ∈ mo_resting_orders out ↔
    seq ∈ ids ∧ ob_resting_orders b' !! seq ≠ None;
  rp_filled seq : seq ∈ mo_filled_orders out →
    ob_resting_orders b' !! seq = None ∧ (seq ∈ ids ∨ ob_resting_orders b !! seq ≠ None);
  rp_expired seq : seq ∈ dom (mo_expired_orders out) →
    seq ∈ ids ∧ ob_resting_orders b' !! seq = None;
  rp_numbered : numbered (seqZ (ob_next_fill b)) (mo_fills out);
  rp_account seq : open_qty b seq = open_qty b' seq + fills_qty seq (mo_fills out) +
    expired_qty (mo_expired_orders out) seq;
  rp_rules : same_rules b b';
  rp_next : ob_next_seq b' = ob_next_seq b;
  rp_next_fill : seqZ (ob_next_fill b') =
    seqZ (ob_next_fill b) + Z.of_nat (length (mo_fills out));
  rp_count : (resting_count b' + length (mo_fills out) ≤ resting_count b + size ids)%nat;
  rp_terms seq s p : has_terms b' seq s p → has_terms b seq s p;
  rp_fills f : f ∈ mo_fills out → fill_terms b f;
  rp_takers f : f ∈ mo_fills out → taker_order_seq f ∈ ids;
  rp_killed seq k : mo_expired_orders out !! seq = Some k → expired_terms b seq k;
  rp_gone seq : ob_resting_orders b !! seq ≠ None →
    ob_resting_orders b' !! seq ≠ None ∨ seq ∈ mo_filled_orders out
}.

Lemma drained_inv b : book_inv b → book_inv (with_filled ∅ b).
Proof. intros [W P I V U RS RP PS PV FI]. split; try done. Qed.

Lemma round_post_intro b os st :
  book_inv b → ob_filled_orders b = ∅ → round (MkProcessState b [] ∅ ∅) os st →
  NoDup (o_id <$> os) →
  round_post b (list_to_set (o_id <$> os))
    (MkMatchingOutput (ps_fills st) (ps_resting st ∖ ob_filled_orders (ps_book st))
       (ob_filled_orders (ps_book st)) (ps_expired st))
    (with_filled ∅ (ps_book st)).
Proof.
  intros Hb Hfe HR Hnd. pose proof (classified_init b Hb) as Hc0.
  pose proof (round_classified _ _ _ _ _ HR Hc0) as Hc. rewrite (left_id_L ∅ (∪)) in Hc.
  destruct (round_numbered _ _ _ (seqZ (ob_next_fill b)) HR) as [Hnum Hnf];
    [simpl; lia|apply seqZ_range|by intros i f|].
  assert (Hacc : ∀ seq, accounted st seq = accounted (MkProcessState b [] ∅ ∅) seq)
    by (intros; by eapply round_accounted).
  unfold accounted, fills_qty, expired_qty in Hacc; simpl in Hacc.
  pose proof (cl_inv _ _ _ Hc) as Hb'.
  assert (Hfil : ∀ seq, seq ∈ ob_filled_orders (ps_book st) →
    ob_resting_orders (ps_book st) !! seq = None) by (intros; by apply (inv_filled _ Hb')).
  pose proof (round_terms b _ _ _ HR Hb (step_terms_init b)) as [R N T F X G].
  pose proof (round_count _ _ _ HR) as Hcnt.
  assert (Htk : ∀ f, f ∈ ps_fills st → taker_order_seq f ∈ o_id <$> os).
  { intros f Hf. destruct (round_takers _ _ _ HR f Hf) as [H0|?]; [|done]. by apply not_elem_of_nil in H0. }
  split; cbn [mo_fills mo_resting_orders mo_filled_orders mo_expired_orders];
    [by apply drained_inv|done|..|done| |by destruct R|done|done| |by apply T|done|
     intros f Hf; apply elem_of_list_to_set, Htk, Hf|done|done];
    [intros seq; rewrite ?elem_of_difference..|].
  - intros Hi. unfold exactly_one. rewrite elem_of_difference. destruct (cl_done _ _ _ Hc seq Hi) as [Hs|[Hs|Hs]].
    + right; left. split_and!; [tauto|done|]. intros Hx%(cl_expired _ _ _ Hc). tauto.
    + assert (Hx : seq ∉ dom (ps_expired st)).
      { intros Hx%(cl_expired _ _ _ Hc). destruct (cl_resting _ _ _ Hc seq Hs) as [_ [?|?]]; tauto. }
      destruct (decide (seq ∈ ob_filled_orders (ps_book st))); tauto.
    + right; right. destruct (cl_expired _ _ _ Hc seq Hs) as (_ & Hn & Hf). split_and!; [|done..].
      intros [Hr _]. destruct (cl_resting _ _ _ Hc seq Hr) as [_ [?|?]]; tauto.
  - split.
    + intros [Hr Hf]. destruct (cl_resting _ _ _ Hc seq Hr) as [? [?|?]]; tauto.
    + intros [Hi Hr]. destruct (cl_done _ _ _ Hc seq Hi) as [Hs|[Hs|Hs]].
      * destruct (Hr (Hfil seq Hs)).
      * split; [done|]. intros Hf. destruct (Hr (Hfil seq Hf)).
      * destruct (cl_expired _ _ _ Hc seq Hs) as (_ & Hn & _). tauto.
  - intros Hs. split; [by apply Hfil|]. destruct (cl_filled _ _ _ Hc seq Hs) as [Hf|?]; [|done].
    rewrite Hfe in Hf. set_solver.
  - intros Hs. destruct (cl_expired _ _ _ Hc seq Hs) as (? & ? & _). done.
  - specialize (Hacc seq). rewrite sum_over_nil, lookup_empty in Hacc; simpl in Hacc.
    unfold fills_qty, expired_qty.
    change (open_qty (with_filled ∅ (ps_book st)) seq) with (open_qty (ps_book st) seq). lia.
  - rewrite size_list_to_set, length_fmap by done. simpl in Hcnt.
    change (resting_count (with_filled ∅ (ps_book st))) with (resting_count (ps_book st)). lia.
Qed.

Lemma pending_seqs_NoDup b : book_inv b → NoDup (pending_order_seqs b).
Proof.
  intros Hb. pose proof (inv_pending_sorted b Hb) as Hs. unfold pending_order_seqs.
  induction Hs as [|o os Hs IH Ho]; simpl; constructor; [|done].
  intros (o' & Eo & Hin)%list_elem_of_fmap. rewrite Forall_forall in Ho.
  specialize (Ho o' Hin). rewrite Eo in Ho. lia.
Qed.

Lemma process_pending_orders_spec b n :
  book_inv b → ob_filled_orders b = ∅ → (n ≤ length (ob_pending_orders b))%nat →
  seqZ (ob_next_fill b) + Z.of_nat (resting_count b + n) ≤ uint_max 64 →
  ∃ out b', process_pending_orders b (take n (pending_order_seqs b)) = Done (out, b') ∧
    ob_pending_orders b' = drop n (ob_pending_orders b) ∧
    round_post b (list_to_set (take n (pending_order_seqs b))) out b'.
Proof.
  intros Hb Hfe Hlen Hn. unfold process_pending_orders, pending_order_seqs.
  rewrite <-fmap_take.
  destruct (process_loop (take n (ob_pending_orders b)) (MkProcessState b [] ∅ ∅)
    (drop n (ob_pending_orders b))) as (st & E & HR & Hb' & Hp).
  - done.
  - by rewrite take_drop.
  - simpl. rewrite length_take_le by done. done.
  - rewrite E. cbn [ebind]. eexists _, _. split_and!; [done|done|]. apply round_post_intro; [done..|].
    rewrite fmap_take. eapply sublist_NoDup; [by apply (pending_seqs_NoDup b)|apply sublist_take].
Qed.

(** ** Rounds in which nothing crosses *)

Lemma greedy_halts stop rem makers :
  (∀ x, x ∈ makers → stop x.1 = true) → greedy stop rem makers = MkMatchSpec [] None rem makers.
Proof.
  destruct makers as [|[p r] makers]; [done|]. intros Hs. cbn [greedy].
  pose proof (Hs (p, r) ltac:(left)) as E. cbn [fst] in E. by rewrite E.
Qed.

Definition as_resting (o : Order) : Price * RestingOrder := (o_price o, resting_from o).
Definition orders_of (s : Side) (os : list Order) : list (Price * RestingOrder) :=
  as_resting <$> filter (λ o, o_side o = s) os.

(** Orders that stay clear of the book and of each other. *)
Record no_cross (b : OrderBook) (os : list Order) : Prop := {
  nc_tif o : o ∈ os → o_tif o = GoodTilCanceled;
  nc_book o x : o ∈ os → x ∈ side_list b (opp (o_side o)) →
    stop_at (o_side o) (o_price o) x.1 = true;
  nc_orders o o' : o ∈ os → o' ∈ os → o_side o' = opp (o_side o) →
    stop_at (o_side o) (o_price o) (o_price o') = true
}.

(** All of them rest. *)
Record rested (os : list Order) (st st' : ProcessState) : Prop := {
  re_fills : ps_fills st' = ps_fills st;
  re_expired : ps_expired st' = ps_expired st;
  re_filled : ob_filled_orders (ps_book st') = ob_filled_orders (ps_book st);
  re_sides s : side_list (ps_book st') s ≡ₚ orders_of s os ++ side_list (ps_book st) s;
  re_resting : ps_resting st' = list_to_set (o_id <$> os) ∪ ps_resting st
}.

Lemma opp_ne s : opp s ≠ s.
Proof. by destruct s. Qed.

Lemma processed_rests st o st' :
  book_inv (ps_book st) → processed st o st' → no_cross (ps_book st) [o] → rested [o] st st'.
Proof.
  intros Hb HP [Ht Hx _]. specialize (Ht o ltac:(left)). specialize (Hx o).
  assert (Hq : qval (o_remaining o) ≠ 0).
  { apply (inv_pending_valid _ Hb o). rewrite (pr_pending _ _ _ HP). left. }
  destruct (pr_case _ _ _ HP) as [(_ & _ & _ & _ & _ & Hk & _)|(b1 & Eb & Hex & Ef & Er & Ee)]; [congruence|].
  assert (Hs : ∀ s, side_list b1 s = side_list (ps_book st) s) by (rewrite Eb; by intros []).
  assert (Hw : walk b1 o = MkMatchSpec [] None (qval (o_remaining o)) (side_list b1 (opp (o_side o)))).
  { apply greedy_halts. intros x. rewrite Hs. apply Hx. left. }
  assert (Hrest : (o_price o, rest_of b1 o) = as_resting o).
  { unfold as_resting, rest_of, resting_from. rewrite Hw. cbn [ms_remaining]. by rewrite q_of_Z_qval. }
  pose proof (ex_own _ _ _ Hex) as Hown. pose proof (ex_makers _ _ _ Hex) as Hmk.
  pose proof (ex_filled _ _ _ Hex) as Hfl. unfold walk_ids in Hfl.
  rewrite Hrest in Hown. rewrite Hw in *. cbn [ms_remaining ms_full ms_partial ms_rest] in *.
  rewrite (proj2 (Z.eqb_neq _ _) Hq) in *.
  assert (Hfills : walk_fills b1 o = []) by (unfold walk_fills; by rewrite Hw).
  split.
  - by rewrite Ef, Hfills, app_nil_r.
  - done.
  - rewrite Hfl, Eb. cbn. set_solver.
  - intros s. unfold orders_of. destruct (side_cases (o_side o) s) as [->| ->].
    + rewrite filter_cons_True by done. destruct Hown as (l1 & l2 & E1 & -> & _).
      rewrite <- Hs, E1. cbn. by rewrite Permutation_middle.
    + rewrite filter_cons_False by (intros E; by destruct (opp_ne (o_side o))). rewrite Hmk, <- Hs. done.
  - rewrite Er. cbn. set_solver.
Qed.

Lemma no_cross_head b o os : no_cross b (o :: os) → no_cross b [o].
Proof.
  intros [Ht Hx Ho]. split; intros o' *; rewrite ?list_elem_of_singleton; intros ->.
  - apply Ht. left. - apply Hx. left. - intros ->. apply Ho; left.
Qed.

Lemma round_rests st os st' :
  round st os st' → book_inv (ps_book st) → no_cross (ps_book st) os → rested os st st'.
Proof.
  induction 1 as [|st1 st2 st3 o os HP HR IH]; intros Hb Hnc.
  { split; try done. cbn. set_solver. }
  destruct (processed_rests st1 o st2 Hb HP (no_cross_head _ _ _ Hnc)) as [F X L S R].
  destruct Hnc as [Ht Hx Ho].
  destruct IH as [F2 X2 L2 S2 R2]; [apply HP| |].
  - split.
    + intros o' Ho'. apply Ht. by right.
    + intros o' x Ho'. rewrite S. unfold orders_of. intros [Hin|Hin]%elem_of_app; [|apply Hx; [by right|done]].
      apply list_elem_of_fmap in Hin as (o2 & -> & [Hs Hin]%list_elem_of_filter).
      apply list_elem_of_singleton in Hin as ->. apply Ho; [by right|left|done].
    + intros o1 o2 H1 H2. apply Ho; by right.
  - split; [congruence..| |].
    + intros s. rewrite S2, S. unfold orders_of. rewrite (filter_cons _ o os).
      case_decide as Hs.
      * rewrite filter_cons_True by done. cbn. by rewrite Permutation_middle.
      * rewrite filter_cons_False by done. done.
    + rewrite R2, R. cbn. set_solver.
Qed.

(** The whole round, on the book. *)
Record rested_book (b b' : OrderBook) (out : MatchingOutput) : Prop := {
  rb_inv : book_inv b';
  rb_pending : ob_pending_orders b' = [];
  rb_rules : same_rules b b';
  rb_next : ob_next_seq b' = ob_next_seq b;
  rb_filled : ob_filled_orders b' = ∅;
  rb_fills : mo_fills out = [];
  rb_sides s : side_list b' s ≡ₚ orders_of s (ob_pending_orders b) ++ side_list b s
}.

Lemma quiet_round b :
  book_inv b → ob_filled_orders b = ∅ → no_cross b (ob_pending_orders b) →
  seqZ (ob_next_fill b) + Z.of_nat (resting_count b + length (ob_pending_orders b)) ≤ uint_max 64 →
  ∃ out b', process_pending_orders b (pending_order_seqs b) = Done (out, b') ∧ rested_book b b' out.
Proof.
  intros Hb Hf Hnc Hn. unfold process_pending_orders, pending_order_seqs.
  destruct (process_loop (ob_pending_orders b) (MkProcessState b [] ∅ ∅) []) as (st & E & HR & Hb' & Hp);
    [done|by rewrite app_nil_r|done|].
  rewrite E. cbn [ebind]. eexists _, _. split; [done|].
  destruct (round_rests _ _ _ HR Hb Hnc) as [F X L S R].
  destruct (round_terms b _ _ _ HR Hb (step_terms_init b)) as [Hru Hns _ _ _ _].
  split; [by apply drained_inv|exact Hp|by destruct Hru|exact Hns|done|exact F|].
  intros s. etrans; [|exact (S s)]. by destruct s.
Qed.

(** ** A taker that crosses every maker *)

Lemma greedy_sweeps stop makers : ∀ rem,
  (∀ x, x ∈ makers → stop x.1 = false ∧ r_qty x ≠ 0) → sum_over r_qty makers ≤ rem →
  greedy stop rem makers = MkMatchSpec makers None (rem - sum_over r_qty makers) [].
Proof.
  induction makers as [|[p r] makers IH]; intros rem Hx Hle; cbn [greedy].
  { rewrite sum_over_nil. by rewrite Z.sub_0_r. }
  rewrite sum_over_cons in *. destruct (Hx (p, r) ltac:(left)) as [Hs Hq]. cbn [fst] in Hs.
  unfold r_qty in Hq, Hle at 1. cbn [snd] in Hq, Hle.
  assert (Hpos : 0 ≤ sum_over r_qty makers)
    by (apply sum_over_nonneg; intros; apply qval_range).
  pose proof (qval_range (r_remaining r)).
  rewrite Hs, (proj2 (Z.eqb_neq rem 0)) by lia. cbn [orb].
  rewrite (proj2 (Z.leb_le _ _)) by lia. rewrite IH; [|intros x Hin; apply Hx; by right|lia].
  cbn [ms_full ms_partial ms_remaining ms_rest]. f_equal. change (r_qty (p, r)) with (qval (r_remaining r)). lia.
Qed.

Section sweep.
Context (b : OrderBook) (o : Order).
Let makers := side_list b (opp (o_side o)).
Context (Hb : book_inv b) (Hfe : ob_filled_orders b = ∅) (Hp : ob_pending_orders b = [o]).
Context (Hcross : ∀ x, x ∈ makers → stop_at (o_side o) (o_price o) x.1 = false).
Let b1 := with_pending [] b.

Lemma makers_positive x : x ∈ makers → r_qty x ≠ 0.
Proof. destruct x as [p r]. intros Hx. by destruct (inv_valid b Hb _ _ _ Hx) as [(_ & _ & ? & _) _]. Qed.

Lemma sweep_walk : sum_over r_qty makers ≤ qval (o_remaining o) →
  walk b1 o = MkMatchSpec makers None (qval (o_remaining o) - sum_over r_qty makers) [].
Proof.
  intros Hle. assert (Hs : side_list b1 (opp (o_side o)) = makers) by (unfold b1, makers; by destruct (o_side o)).
  unfold walk. rewrite Hs. apply greedy_sweeps; [|done]. intros x Hx. split; [by apply Hcross|by apply makers_positive].
Qed.

(** It takes exactly what is there. *)
Lemma sweep_round :
  sum_over r_qty makers = qval (o_remaining o) →
  seqZ (ob_next_fill b) + Z.of_nat (length makers) ≤ uint_max 64 →
  ∃ out b', process_pending_orders b [o_id o] = Done (out, b') ∧ book_inv b' ∧
    ob_pending_orders b' = [] ∧ side_list b' (opp (o_side o)) = [] ∧
    side_list b' (o_side o) = side_list b (o_side o) ∧ o_id o ∈ mo_filled_orders out ∧
    mo_expired_orders out = ∅.
Proof.
  intros Ht Hn. destruct (pop_pending_inv b o [] Hb Hp) as (Hb1 & Hf & Hv). fold b1 in Hb1, Hf, Hv.
  pose proof (sweep_walk ltac:(lia)) as Hw. rewrite Ht, Z.sub_diag in Hw.
  destruct (match_order_executed b1 o Hb1 Hf Hv) as (b' & Em & Hex).
  { intros [_ Hr]. by rewrite Hw in Hr. }
  { unfold walk_fills. rewrite fills_of_length, Hw. unfold matched. cbn [ms_full ms_partial].
    rewrite length_app, length_fmap. cbn. unfold b1. cbn. lia. }
  assert (Hr : walk_result b1 o = MFilled (walk_fills b1 o)) by (unfold walk_result; by rewrite Hw).
  unfold process_pending_orders. cbn [exec_fold]. unfold process_one at 1. cbn [ps_book].
  rewrite Hp. fold b1. rewrite bool_decide_eq_true_2 by done. cbn [assert ebind].
  rewrite Em, Hr. cbn [ebind mr_fills mr_resting_order_seq ps_book]. eexists _, _. split; [done|].
  pose proof (executed_inv b1 b' o Hb1 Hf Hv ltac:(intros [_ Hk]; by rewrite Hw in Hk) Hex) as Hinv.
  destruct Hex as [Hfr _ Hm _ Hown _ Hfl]. rewrite Hw in *. cbn in Hown, Hfl.
  split; [by apply drained_inv|]. split; [exact (fr_pending _ _ Hfr)|].
  split; [|split; [|split; [|done]]].
  - etrans; [|exact Hm]. by destruct (o_side o).
  - etrans; [|etrans; [exact Hown|]]; by destruct (o_side o).
  - cbn [mo_filled_orders]. rewrite Hfl. set_solver.
Qed.

(** It wants more than is there, or nothing. *)
Lemma kill_round :
  sum_over r_qty makers < qval (o_remaining o) → o_tif o = FillOrKill →
  ∃ out, process_pending_orders b [o_id o] = Done (out, with_filled ∅ b1) ∧
    mo_expired_orders out = {[o_id o := MkRemovedOrder (o_side o) (o_price o) (o_remaining o)]} ∧
    mo_filled_orders out = ∅.
Proof.
  intros Ht Htif. destruct (pop_pending_inv b o [] Hb Hp) as (Hb1 & Hf & Hv). fold b1 in Hb1, Hf, Hv.
  pose proof (sweep_walk ltac:(lia)) as Hw.
  unfold process_pending_orders. cbn [exec_fold]. unfold process_one at 1. cbn [ps_book].
  rewrite Hp. fold b1. rewrite bool_decide_eq_true_2 by done. cbn [assert ebind].
  rewrite match_order_killed; [|done..|split; [done|rewrite Hw; cbn; lia]].
  cbn [ebind ps_book]. eexists. split; [done|]. by split.
Qed.
End sweep.
