(* ===== verification/BookCancel.v ===== *)
(** * Cancelling an order (OrderBook::remove_order of src/canister/src/order/book.rs) *)

From stdpp Require Import prelude gmap sorting.
From Stdlib Require Import ZArith Lia.
From S2P Require Import Prelude Word BTree Quantity Ids Fees OrderTypes.
From S2P Require Import OrderQueue FillPlan OrderBook BookInv BookMatching.
From S2P Require Import BookInvMatch BookPending BookRound.

Lemma StronglySorted_remove {A} (R : relation A) l1 x l2 :
  StronglySorted R (l1 ++ x :: l2) → StronglySorted R (l1 ++ l2).
Proof.
  rewrite !StronglySorted_app_iff. intros (H1 & H2 & H12).
  apply StronglySorted_inv in H2 as [H2 _]. split_and!; [done..|].
  intros a c Ha Hc. apply H12; [done|by right].
Qed.

(** [b'] is [b] without the resting order [x] of side [s]. *)
Record unrested (b b' : OrderBook) (s : Side) (x : Price * RestingOrder) : Prop := {
  un_frame : frame b b';
  un_wf : sides_wf b';
  un_side : ∃ l1 l2, side_list b s = l1 ++ x :: l2 ∧ side_list b' s = l1 ++ l2;
  un_opp : side_list b' (opp s) = side_list b (opp s);
  un_resting : ob_resting_orders b' = delete (x_id x) (ob_resting_orders b);
  un_filled : ob_filled_orders b' = ob_filled_orders b;
  un_next_fill : ob_next_fill b' = ob_next_fill b
}.

Lemma unrested_sub b b' s x s' y : unrested b b' s x → y ∈ side_list b' s' → y ∈ side_list b s'.
Proof.
  intros Hu. destruct (side_cases s s') as [->| ->].
  - destruct (un_side _ _ _ _ Hu) as (l1 & l2 & -> & ->). set_solver.
  - by rewrite (un_opp _ _ _ _ Hu).
Qed.

Lemma unrested_elem b b' s x s' y :
  book_inv b → unrested b b' s x → y ∈ side_list b' s' ↔ y ∈ side_list b s' ∧ x_id y ≠ x_id x.
Proof.
  intros Hb Hu. pose proof (inv_ids_NoDup b s Hb) as Hnd.
  destruct (un_side _ _ _ _ Hu) as (l1 & l2 & E & E').
  assert (Hx : x ∈ side_list b s) by (rewrite E; set_solver).
  destruct (side_cases s s') as [->| ->].
  - rewrite E, fmap_app in Hnd. simpl in Hnd.
    rewrite NoDup_app, NoDup_cons in Hnd. destruct Hnd as (_ & H12 & Hx2 & _).
    rewrite E, E'. split.
    + intros Hy. split; [set_solver|]. intros Eid.
      apply elem_of_app in Hy as [Hy|Hy]; apply (list_elem_of_fmap_2 x_id) in Hy;
        rewrite Eid in Hy; [by apply (H12 _ Hy); left|done].
    + intros [Hy Hne]. set_solver.
  - rewrite (un_opp _ _ _ _ Hu). split; [|naive_solver]. intros Hy. split; [done|].
    intros Eid. pose proof (inv_lookup b _ _ Hb Hx) as H1. pose proof (inv_lookup b _ _ Hb Hy) as H2.
    rewrite Eid, H1 in H2. destruct s; naive_solver.
Qed.

Lemma unrested_inv b b' s x : book_inv b → unrested b b' s x → book_inv b'.
Proof.
  intros Hb Hu. pose proof (un_frame _ _ _ _ Hu) as F.
  assert (Hsub := λ s' y, unrested_sub b b' s x s' y Hu). split.
  - apply Hu.
  - intros s'. destruct (side_cases s s') as [->| ->].
    + destruct (un_side _ _ _ _ Hu) as (l1 & l2 & E & ->).
      eapply StronglySorted_remove. rewrite <-E. by apply inv_prio.
    + rewrite (un_opp _ _ _ _ Hu). by apply inv_prio.
  - intros seq s' p. rewrite (un_resting _ _ _ _ Hu), lookup_delete_Some, (inv_index b Hb).
    setoid_rewrite (unrested_elem b b' s x s' _ Hb Hu). unfold x_id; simpl. naive_solver.
  - intros s' p r Hin. rewrite (valid_order_frame b b') by done.
    by apply (inv_valid b Hb s' p r), Hsub.
  - intros y z Hy Hz. apply (inv_uncrossed b Hb); [by apply (Hsub Buy)|by apply (Hsub Sell)].
  - intros s' y Hy. rewrite (fr_next_seq _ _ F). by apply (inv_resting_seq b Hb s'), Hsub.
  - intros s' y o Hy. rewrite (fr_pending _ _ F). by apply (inv_resting_pending b Hb s'), Hsub.
  - rewrite (fr_pending _ _ F). apply Hb.
  - intros o. rewrite (fr_pending _ _ F), (fr_next_seq _ _ F), (valid_order_frame b b') by done.
    apply Hb.
  - intros seq. rewrite (un_filled _ _ _ _ Hu), (fr_pending _ _ F), (fr_next_seq _ _ F).
    intros Hs. destruct (inv_filled b Hb seq Hs) as (? & ? & ?).
    split_and!; [done| |done]. rewrite (un_resting _ _ _ _ Hu), lookup_delete_None. by right.
Qed.

(** Removing a pending order. *)
Lemma unpended_inv b p1 o p2 :
  book_inv b → ob_pending_orders b = p1 ++ o :: p2 → book_inv (with_pending (p1 ++ p2) b).
Proof.
  intros [W P I V U RS RP PS PV FI] E. rewrite E in *. split; try done; simpl.
  - intros s x o' Hx Ho'. apply (RP s); [done|set_solver].
  - by eapply StronglySorted_remove.
  - intros o' Ho'. apply PV. set_solver.
  - intros seq Hs. destruct (FI seq Hs) as (? & ? & Hp). split_and!; [done..|].
    intros o' Ho'. apply Hp. set_solver.
Qed.

Lemma remove_resting_spec b seq s p :
  book_inv b → ob_resting_orders b !! seq = Some (s, p) →
  ∃ r b', remove_order b seq = Done (Some (MkRemovedOrder s p (r_remaining r)), b') ∧
    r_id r = seq ∧ unrested b b' s (p, r).
Proof.
  intros Hb Hi. pose proof (inv_wf b Hb) as [Wb Wa].
  pose proof (proj1 (inv_index b Hb seq s p) Hi) as (r0 & Hr0 & Eid).
  unfold remove_order. rewrite Hi. destruct s; simpl in *.
  - destruct (queue_remove (ob_bids b) (MkReverse p) _) as [[r|] q'] eqn:Eq.
    + apply queue_remove_Some in Eq as (Wq & Ep & l1 & l2 & E & E' & _); [|done].
      apply bool_decide_eq_true in Ep. exists r. eexists. split_and!; [done|done|].
      split; try done; [|by rewrite <-Ep]. exists (unrev <$> l1), (unrev <$> l2).
      simpl. unfold bids_list; simpl. by rewrite E, E', !fmap_app.
    + apply queue_remove_None in Eq as [-> Hn]. apply list_elem_of_fmap in Hr0 as ([[p'] r'] & [= -> ->] & Hr0).
      apply Hn in Hr0. apply bool_decide_eq_false in Hr0. done.
  - destruct (queue_remove (ob_asks b) p _) as [[r|] q'] eqn:Eq.
    + apply queue_remove_Some in Eq as (Wq & Ep & l1 & l2 & E & E' & _); [|done].
      apply bool_decide_eq_true in Ep. exists r. eexists. split_and!; [done|done|].
      split; try done; [|by rewrite <-Ep]. by exists l1, l2.
    + apply queue_remove_None in Eq as [-> Hn]. apply Hn in Hr0.
      apply bool_decide_eq_false in Hr0. done.
Qed.

(** ** The open quantities after a cancellation *)

Lemma list_qty_notin seq l : (∀ x, x ∈ l → x_id x ≠ seq) → list_qty seq l = 0.
Proof.
  intros Hl. unfold list_qty. rewrite (sum_over_ext _ (λ _, 0)).
  - induction l as [|x l IH]; [done|]. rewrite sum_over_cons, IH; [done|].
    intros y Hy. apply Hl. by right.
  - intros x Hx. unfold qty_if. rewrite decide_False; [done|by apply Hl].
Qed.

Lemma resting_qty_notin b seq :
  book_inv b → ob_resting_orders b !! seq = None → resting_qty b seq = 0.
Proof.
  intros Hb Hn. unfold resting_qty. rewrite !list_qty_notin; [done|..];
    intros x Hx Ex; apply (inv_lookup b _ x Hb) in Hx; congruence.
Qed.

Lemma pending_qty_notin os seq : (∀ o, o ∈ os → o_id o ≠ seq) → pending_qty os seq = 0.
Proof.
  intros Ho. induction os as [|o os IH]; [done|]. unfold pending_qty in *.
  rewrite sum_over_cons, IH by (intros; apply Ho; by right).
  unfold qty_if. rewrite decide_False; [done|apply Ho; left].
Qed.

Lemma unrested_qty b b' s x seq :
  unrested b b' s x → resting_qty b seq = resting_qty b' seq + qty_if seq (x_id x) (r_qty x).
Proof.
  intros Hu. destruct (un_side _ _ _ _ Hu) as (l1 & l2 & E & E'). pose proof (un_opp _ _ _ _ Hu) as Eo.
  unfold resting_qty, list_qty. destruct s; simpl opp in Eo; rewrite E, E', Eo;
    autorewrite with oisy_sums; lia.
Qed.

Lemma unrested_count b b' s x :
  unrested b b' s x → (resting_count b' + 1 = resting_count b)%nat.
Proof.
  intros Hu. destruct (un_side _ _ _ _ Hu) as (l1 & l2 & E & E'). pose proof (un_opp _ _ _ _ Hu) as Eo.
  apply (f_equal length) in E, E', Eo. rewrite length_app in E, E'. simpl in E.
  unfold resting_count. destruct s; simpl in *; lia.
Qed.

(** What cancellation does: the order's whole open quantity is returned and the
    order is gone; nothing else changes. An unknown sequence changes nothing. *)
Record removal (b : OrderBook) (seq : OrderSeq) (ro : RemovedOrder) (b' : OrderBook) : Prop := {
  rm_qty : qval (ro_remaining ro) = open_qty b seq;
  rm_valid : valid_order b (ro_price ro) (ro_remaining ro);
  rm_others seq' : open_qty b' seq' = if decide (seq' = seq) then 0 else open_qty b seq';
  rm_resting : ob_resting_orders b' = delete seq (ob_resting_orders b);
  rm_pending o : o ∈ ob_pending_orders b' ↔ o ∈ ob_pending_orders b ∧ o_id o ≠ seq;
  rm_terms : has_terms b seq (ro_side ro) (ro_price ro);
  rm_rules : same_rules b b';
  rm_next : ob_next_seq b' = ob_next_seq b;
  rm_next_fill : ob_next_fill b' = ob_next_fill b;
  rm_filled : ob_filled_orders b' = ob_filled_orders b;
  rm_count : (resting_count b' + length (ob_pending_orders b') + 1 =
              resting_count b + length (ob_pending_orders b))%nat
}.

Lemma pending_not_resting b o :
  book_inv b → o ∈ ob_pending_orders b → ob_resting_orders b !! o_id o = None.
Proof.
  intros Hb Ho. destruct (ob_resting_orders b !! o_id o) as [[s p]|] eqn:E; [|done].
  apply (inv_index b Hb) in E as (r & Hr & E).
  pose proof (inv_resting_pending b Hb s (p, r) o Hr Ho) as Hlt. unfold x_id in Hlt; simpl in Hlt.
  rewrite E in Hlt. lia.
Qed.

Lemma removal_resting b b' s p r :
  book_inv b → unrested b b' s (p, r) →
  removal b (r_id r) (MkRemovedOrder s p (r_remaining r)) b'.
Proof.
  intros Hb Hu. pose proof (unrested_inv _ _ _ _ Hb Hu) as Hb'.
  assert (Hin : (p, r) ∈ side_list b s).
  { destruct (un_side _ _ _ _ Hu) as (l1 & l2 & -> & _). set_solver. }
  assert (Hp : ∀ o, o ∈ ob_pending_orders b → o_id o ≠ r_id r).
  { intros o Ho E. apply (pending_not_resting b) in Ho; [|done].
    pose proof (inv_lookup b s (p, r) Hb Hin) as Hl. unfold x_id in Hl; simpl in Hl. congruence. }
  assert (Hz : resting_qty b' (r_id r) = 0).
  { apply resting_qty_notin; [done|]. rewrite (un_resting _ _ _ _ Hu). apply lookup_delete_eq. }
  pose proof (λ seq, unrested_qty b b' s (p, r) seq Hu) as Hq. unfold x_id, r_qty in Hq; simpl in Hq.
  pose proof (fr_pending _ _ (un_frame _ _ _ _ Hu)) as Ep.
  split; simpl.
  - unfold open_qty. rewrite (pending_qty_notin _ _ Hp), (Hq (r_id r)), Hz.
    unfold qty_if. rewrite decide_True by done. lia.
  - by apply (inv_valid b Hb s).
  - intros seq. unfold open_qty. rewrite Ep, (Hq seq). case_decide as E; [subst seq|].
    + rewrite Hz, (pending_qty_notin _ _ Hp). lia.
    + unfold qty_if. rewrite decide_False by done. lia.
  - apply Hu.
  - intros o. rewrite Ep. split; [|naive_solver]. intros Ho. split; [done|by apply Hp].
  - left. apply (inv_lookup b s (p, r) Hb Hin).
  - apply frame_rules, Hu.
  - apply (fr_next_seq _ _ (un_frame _ _ _ _ Hu)).
  - apply Hu.
  - apply Hu.
  - rewrite Ep. pose proof (unrested_count _ _ _ _ Hu). lia.
Qed.

Lemma removal_pending b p1 o p2 :
  book_inv b → ob_pending_orders b = p1 ++ o :: p2 →
  removal b (o_id o) (MkRemovedOrder (o_side o) (o_price o) (o_remaining o))
    (with_pending (p1 ++ p2) b).
Proof.
  intros Hb E. assert (Ho : o ∈ ob_pending_orders b) by (rewrite E; set_solver).
  assert (Hne : ∀ o', o' ∈ p1 ++ p2 → o_id o' ≠ o_id o).
  { pose proof (inv_pending_sorted b Hb) as Hs. rewrite E in Hs.
    apply StronglySorted_app_iff in Hs as (_ & H2 & H12).
    apply StronglySorted_inv in H2 as [_ H2]. rewrite Forall_forall in H2.
    intros o' [Hin|Hin]%elem_of_app Eo.
    - specialize (H12 o' o Hin ltac:(left)). rewrite Eo in H12. lia.
    - specialize (H2 o' Hin). rewrite Eo in H2. lia. }
  pose proof (pending_not_resting b o Hb Ho) as Hn.
  assert (Hq : ∀ seq, pending_qty (ob_pending_orders b) seq =
    pending_qty (p1 ++ p2) seq + qty_if seq (o_id o) (qval (o_remaining o))).
  { intros seq. rewrite E. unfold pending_qty. autorewrite with oisy_sums. lia. }
  split; simpl.
  - unfold open_qty. rewrite (resting_qty_notin b), Hq, (pending_qty_notin _ _ Hne) by done.
    unfold qty_if. rewrite decide_True by done. lia.
  - by apply (inv_pending_valid b Hb).
  - intros seq. unfold open_qty. rewrite Hq.
    change (resting_qty (with_pending (p1 ++ p2) b) seq) with (resting_qty b seq). simpl.
    unfold qty_if. case_decide as Es; [subst seq|].
    + rewrite (resting_qty_notin b), (pending_qty_notin _ _ Hne) by done. lia.
    + rewrite decide_False by done. lia.
  - symmetry. by apply delete_id.
  - intros o'. rewrite E. split; [intros Hin; split; [set_solver|by apply Hne]|]. set_solver.
  - right. by exists o.
  - done.
  - done.
  - done.
  - done.
  - change (resting_count (with_pending (p1 ++ p2) b)) with (resting_count b).
    rewrite E, !length_app. simpl. lia.
Qed.

Lemma remove_order_spec b seq :
  book_inv b →
  ∃ r b', remove_order b seq = Done (r, b') ∧ book_inv b' ∧
    match r with
    | Some ro => removal b seq ro b'
    | None => b' = b ∧ ob_resting_orders b !! seq = None ∧
        ∀ o, o ∈ ob_pending_orders b → o_id o ≠ seq
    end.
Proof.
  intros Hb. destruct (ob_resting_orders b !! seq) as [[s p]|] eqn:Ei.
  - destruct (remove_resting_spec b seq s p Hb Ei) as (r & b' & E & <- & Hu).
    eexists _, b'. split_and!; [done|by eapply unrested_inv|by apply removal_resting].
  - unfold remove_order. rewrite Ei.
    pose proof (remove_first_spec (λ o : Order, bool_decide (o_id o = seq)) (ob_pending_orders b)) as Hr.
    destruct (remove_first _ _) as [[o rest]|].
    + destruct Hr as (p1 & p2 & E & -> & Ho & _). apply bool_decide_eq_true in Ho as <-.
      eexists _, _. split_and!; [done|by eapply unpended_inv|by apply removal_pending].
    + exists None, b. split; [done|]. split; [done|]. split; [done|]. split; [done|].
      rewrite Forall_forall in Hr. intros o Ho E. apply Hr, bool_decide_eq_false in Ho. done.
Qed.

(** ** Runs of a book

    The operations the canister performs on one book, as a step function, and the
    invariant of every run: starting from a new book no operation traps. *)

Inductive BookCall : Type :=
| Submit (order : PendingOrder)
| MatchRound (count : nat)
| CancelOrder (seq : OrderSeq).

(** One call, as [State] makes it: an order is validated, numbered with
    [next_seq] and queued; a round takes the oldest pending orders; a cancellation
    may name any sequence. *)
Definition book_call (b : OrderBook) (c : BookCall) : exec OrderBook :=
  match c with
  | Submit po =>
      let! valid := validate_order b (po_price po) (po_quantity po) in
      if is_ok valid then add_pending_order b (into_order po (ob_next_seq b)) else Done b
  | MatchRound n =>
      let! (_, b) := process_pending_orders b (take n (pending_order_seqs b)) in Done b
  | CancelOrder seq => let! (_, b) := remove_order b seq in Done b
  end.

Definition book_run (b : OrderBook) (cs : list BookCall) : exec OrderBook :=
  exec_fold book_call b cs.

(** The book between calls: its invariant, no undrained fill, and the counters
    bounded by the number of orders submitted. *)
Record book_ready (n : Z) (b : OrderBook) : Prop := {
  br_inv : book_inv b;
  br_drained : ob_filled_orders b = ∅;
  br_next : seqZ (ob_next_seq b) ≤ n;
  br_load : seqZ (ob_next_fill b) +
    Z.of_nat (resting_count b + length (ob_pending_orders b)) ≤ seqZ (ob_next_seq b)
}.

Lemma book_new_ready id tick lot mn mx fees : book_ready 0 (book_new id tick lot mn mx fees).
Proof. split; [apply book_new_inv|done..]. Qed.

Lemma book_ready_mono n n' b : book_ready n b → n ≤ n' → book_ready n' b.
Proof. intros [I D X L] Hn. split; [done..|lia|done]. Qed.

Lemma submit_ready n b po :
  book_ready n b → n < uint_max 64 → valid_order b (po_price po) (po_quantity po) →
  ∃ b', add_pending_order b (into_order po (ob_next_seq b)) = Done b' ∧ book_ready (n + 1) b'.
Proof.
  intros [I D X L] Hn Hv.
  destruct (add_pending_order_spec b (into_order po (ob_next_seq b))) as (nx & E & En & Hb');
    [done..|lia|].
  eexists. split; [done|]. split; [done..|simpl; lia|]. simpl. rewrite length_app. simpl.
  change (resting_count (with_next_seq nx (with_pending
    (ob_pending_orders b ++ [into_order po (ob_next_seq b)]) b))) with (resting_count b). lia.
Qed.

Lemma round_ready n b k :
  book_ready n b → n ≤ uint_max 64 →
  ∃ out b', process_pending_orders b (take k (pending_order_seqs b)) = Done (out, b') ∧
    round_post b (list_to_set (take k (pending_order_seqs b))) out b' ∧
    ob_pending_orders b' = drop k (ob_pending_orders b) ∧ book_ready n b'.
Proof.
  intros [I D X L] Hn. set (k' := (k `min` length (ob_pending_orders b))%nat).
  assert (Ek : take k (pending_order_seqs b) = take k' (pending_order_seqs b)).
  { unfold k', pending_order_seqs. destruct (Nat.le_ge_cases k (length (ob_pending_orders b))).
    - by rewrite Nat.min_l by lia.
    - rewrite Nat.min_r by lia. rewrite !take_ge by (rewrite length_fmap; lia). done. }
  assert (Ed : drop k (ob_pending_orders b) = drop k' (ob_pending_orders b)).
  { unfold k'. destruct (Nat.le_ge_cases k (length (ob_pending_orders b))).
    - by rewrite Nat.min_l by lia.
    - rewrite Nat.min_r by lia. rewrite !drop_ge by lia. done. }
  rewrite Ek, Ed.
  destruct (process_pending_orders_spec b k') as (out & b' & E & Ep & HP); [done|done|lia|lia|].
  exists out, b'. split_and!; [done..|].
  pose proof (rp_count _ _ _ _ HP) as Hc. pose proof (rp_next_fill _ _ _ _ HP) as Hf.
  pose proof (size_list_le (take k' (pending_order_seqs b))) as Hs.
  unfold pending_order_seqs in Hs. rewrite length_take, length_fmap in Hs.
  split; [apply HP|apply HP|by rewrite (rp_next _ _ _ _ HP)|].
  rewrite (rp_next _ _ _ _ HP), Ep, length_drop. unfold pending_order_seqs in Hc. lia.
Qed.

Lemma cancel_ready n b seq :
  book_ready n b → ∃ r b', remove_order b seq = Done (r, b') ∧ book_ready n b' ∧
    match r with
    | Some ro => removal b seq ro b'
    | None => b' = b ∧ ob_resting_orders b !! seq = None ∧
        ∀ o, o ∈ ob_pending_orders b → o_id o ≠ seq
    end.
Proof.
  intros [I D X L]. destruct (remove_order_spec b seq I) as (r & b' & E & I' & Hr).
  exists r, b'. split_and!; [done| |done]. destruct r as [ro|]; [|by destruct Hr as (-> & _)].
  pose proof (rm_next _ _ _ _ Hr) as Hn. pose proof (rm_next_fill _ _ _ _ Hr) as Hf.
  pose proof Hr as []. split; [done|congruence|by rewrite Hn|]. rewrite Hn, Hf. lia.
Qed.

Lemma book_call_ready n b c :
  book_ready n b → n < uint_max 64 → ∃ b', book_call b c = Done b' ∧ book_ready (n + 1) b'.
Proof.
  intros R Hn. destruct c as [po|k|seq]; cbn [book_call].
  - destruct (validate_order_spec b (po_price po) (po_quantity po)) as [[Hv ->]|[_ ->]];
      cbn [ebind is_ok]; [by apply submit_ready|]. exists b. split; [done|].
    apply (book_ready_mono n); [done|lia].
  - destruct (round_ready n b k R) as (out & b' & -> & _ & _ & R'); [lia|].
    exists b'. split; [done|]. apply (book_ready_mono n); [done|lia].
  - destruct (cancel_ready n b seq R) as (r & b' & -> & R' & _).
    exists b'. split; [done|]. apply (book_ready_mono n); [done|lia].
Qed.

Lemma book_run_ready cs : ∀ n b,
  book_ready n b → n + Z.of_nat (length cs) ≤ uint_max 64 →
  ∃ b', book_run b cs = Done b' ∧ book_ready (n + Z.of_nat (length cs)) b'.
Proof.
  induction cs as [|c cs IH]; intros n b R Hn; cbn [length] in *.
  { exists b. split; [done|]. by rewrite Z.add_0_r. }
  destruct (book_call_ready n b c R) as (b1 & E1 & R1); [lia|].
  destruct (IH (n + 1) b1 R1) as (b2 & E2 & R2); [lia|].
  exists b2. unfold book_run in *. cbn [exec_fold]. rewrite E1. cbn [ebind]. rewrite E2.
  split; [done|]. apply (book_ready_mono (n + 1 + Z.of_nat (length cs))); [done|lia].
Qed.
