(* ===== verification/BookSnapshot.v ===== *)
(** * Book snapshots and level queries (src/canister/src/order/book.rs)

    [OrderBookSnapshot], the form in which a book survives an upgrade, the two
    conversions and their round trip, and the aggregated price levels. *)

From stdpp Require Import prelude gmap sorting.
From Stdlib Require Import ZArith Lia.
From S2P Require Import Prelude Word BTree Quantity Ids Fees OrderTypes.
From S2P Require Import OrderQueue FillPlan OrderBook BookInv.

Record PriceLevel : Type := MkPriceLevel { pl_price : Price; pl_orders : list RestingOrder }.

Record OrderBookSnapshot : Type := MkOrderBookSnapshot {
  bs_id : OrderBookId;
  bs_next_seq : OrderSeq;
  bs_tick_size : TickSize;
  bs_lot_size : LotSize;
  bs_pending_orders : list Order;
  bs_bids : list PriceLevel;
  bs_asks : list PriceLevel;
  bs_filled_orders : list OrderSeq;
  bs_fee_rates : FeeRates;
  bs_min_notional : Quantity;
  bs_max_notional : option Quantity;
  bs_next_fill : FillSeq
}.

(** [From<&OrderBook> for OrderBookSnapshot]. *)
Definition to_snapshot (book : OrderBook) : OrderBookSnapshot :=
  MkOrderBookSnapshot (ob_id book) (ob_next_seq book) (ob_tick_size book) (ob_lot_size book)
    (ob_pending_orders book)
    ((λ kq, MkPriceLevel (unreverse kq.1) kq.2) <$> queue_levels (ob_bids book))
    ((λ kq, MkPriceLevel kq.1 kq.2) <$> queue_levels (ob_asks book))
    (bset_iter (ob_filled_orders book)) (ob_fee_rates book) (ob_min_notional book)
    (ob_max_notional book) (ob_next_fill book).

(** The loops over a side's levels, [key] being the map's key for a price. *)
Definition restore_order (side : Side) (price : Price)
    (resting_orders : gmap OrderSeq (Side * Price)) (order : RestingOrder) :
    exec (gmap OrderSeq (Side * Price)) :=
  let! _ := assert (bool_decide (resting_orders !! r_id order = None)) in
  Done (<[r_id order := (side, price)]> resting_orders).

Definition restore_level {K} `{Countable K} (side : Side) (key : Price → K)
    (st : gmap K (list RestingOrder) * gmap OrderSeq (Side * Price)) (level : PriceLevel) :
    exec (gmap K (list RestingOrder) * gmap OrderSeq (Side * Price)) :=
  let '(levels, resting_orders) := st in
  let! resting_orders :=
    exec_fold (restore_order side (pl_price level)) resting_orders (pl_orders level) in
  let! _ := assert (bool_decide (levels !! key (pl_price level) = None)) in
  Done (<[key (pl_price level) := pl_orders level]> levels, resting_orders).

(** [From<OrderBookSnapshot> for OrderBook]. *)
Definition from_snapshot (snapshot : OrderBookSnapshot) : exec OrderBook :=
  let! (bids, resting_orders) :=
    exec_fold (restore_level Buy MkReverse) (∅, ∅) (bs_bids snapshot) in
  let! (asks, resting_orders) :=
    exec_fold (restore_level Sell id) (∅, resting_orders) (bs_asks snapshot) in
  Done (MkOrderBook (bs_id snapshot) (bs_next_seq snapshot) (bs_next_fill snapshot)
    (bs_tick_size snapshot) (bs_lot_size snapshot) (bs_min_notional snapshot)
    (bs_max_notional snapshot) (bs_fee_rates snapshot) (bs_pending_orders snapshot)
    (from_levels bids) (from_levels asks) resting_orders
    (list_to_set (bs_filled_orders snapshot))).

(** ** Restoring one side *)

Lemma restore_orders side price orders idx :
  NoDup (r_id <$> orders) → (∀ r, r ∈ orders → idx !! r_id r = None) →
  ∃ idx', exec_fold (restore_order side price) idx orders = Done idx' ∧
    ∀ seq v, idx' !! seq = Some v ↔
      (∃ r, r ∈ orders ∧ r_id r = seq ∧ v = (side, price)) ∨ idx !! seq = Some v.
Proof.
  revert idx. induction orders as [|r orders IH]; intros idx Hnd Hi; simpl.
  { exists idx. split; [done|]. set_solver. }
  apply NoDup_cons in Hnd as [Hr Hnd]. unfold restore_order at 1.
  rewrite Hi, bool_decide_eq_true_2 by (done || left). cbn [ebind assert].
  destruct (IH (<[r_id r := (side, price)]> idx)) as (idx' & E & Hidx'); [done| |].
  { intros r' Hr'. rewrite lookup_insert_ne; [apply Hi; by right|].
    intros Ee. apply Hr. rewrite Ee. by apply list_elem_of_fmap_2. }
  exists idx'. split; [done|]. intros seq v. rewrite Hidx', lookup_insert.
  assert (idx !! r_id r = None) by (apply Hi; left). setoid_rewrite elem_of_cons.
  case_decide; naive_solver.
Qed.

Section side.
Context {K : Type} `{Countable K, !Ord K, !OrdLaws K}.
Context (side : Side) (key : Price → K) (price : K → Price).
Context (Hkp : ∀ k, key (price k) = k).

Definition to_level (kq : K * list RestingOrder) : PriceLevel := MkPriceLevel (price kq.1) kq.2.
Definition flat (kqs : list (K * list RestingOrder)) : list (Price * RestingOrder) :=
  (λ x, (price x.1, x.2)) <$> concat (tag_level <$> kqs).

Lemma flat_cons k q kqs : flat ((k, q) :: kqs) = ((λ r, (price k, r)) <$> q) ++ flat kqs.
Proof. unfold flat. simpl. rewrite fmap_app. f_equal. unfold tag_level. by rewrite <-list_fmap_compose. Qed.

Lemma restore_side kqs : ∀ (m : gmap K (list RestingOrder)) idx,
  NoDup kqs.*1 → (∀ k, k ∈ kqs.*1 → m !! k = None) →
  NoDup (x_id <$> flat kqs) → (∀ x, x ∈ flat kqs → idx !! x_id x = None) →
  ∃ idx', exec_fold (restore_level side key) (m, idx) (to_level <$> kqs) =
      Done (list_to_map kqs ∪ m, idx') ∧
    ∀ seq v, idx' !! seq = Some v ↔
      (∃ x, x ∈ flat kqs ∧ x_id x = seq ∧ v = (side, x.1)) ∨ idx !! seq = Some v.
Proof.
  induction kqs as [|[k q] kqs IH]; intros m idx Hk Hm Hn Hi; simpl.
  { exists idx. rewrite (left_id_L ∅ (∪)). split; [done|]. set_solver. }
  rewrite flat_cons in *. rewrite fmap_app in Hn. apply NoDup_app in Hn as (Hn1 & Hn12 & Hn2).
  apply NoDup_cons in Hk as [Hk1 Hk2].
  destruct (restore_orders side (price k) q idx) as (idx1 & E1 & H1).
  { by rewrite <-list_fmap_compose in Hn1. }
  { intros r Hr. apply (Hi (price k, r)). apply elem_of_app. left. by apply list_elem_of_fmap_2. }
  unfold restore_level at 1. simpl. rewrite E1. cbn [ebind].
  rewrite Hkp, Hm, bool_decide_eq_true_2 by (done || left). cbn [ebind assert].
  destruct (IH (<[k := q]> m) idx1) as (idx2 & E2 & H2).
  - done.
  - intros k' Hk'. rewrite lookup_insert_ne; [apply Hm; by right|]. intros ->. done.
  - done.
  - intros x Hx. apply eq_None_not_Some. intros [v Hv]. apply H1 in Hv as [(r & Hr & Er & _)|Hv].
    + apply (Hn12 (x_id x)); [|by apply list_elem_of_fmap_2]. rewrite <-list_fmap_compose, <-Er.
      by apply (list_elem_of_fmap_2 (x_id ∘ λ r0, (price k, r0))).
    + rewrite Hi in Hv; [done|]. apply elem_of_app. by right.
  - exists idx2. split.
    + etrans; [exact E2|]. do 2 f_equal. simpl. rewrite <-insert_union_l, <-insert_union_r; [done|].
      by apply not_elem_of_list_to_map.
    + intros seq v. rewrite H2, H1. setoid_rewrite elem_of_app. setoid_rewrite list_elem_of_fmap.
      unfold x_id. naive_solver.
Qed.
End side.

Lemma option_ext {A} (o o' : option A) : (∀ v, o = Some v ↔ o' = Some v) → o = o'.
Proof. intros E. destruct o as [v|]; [symmetry; by apply E|]. destruct o' as [v|]; naive_solver. Qed.

(** ** The round trip *)

Lemma flat_bids b : flat unreverse (queue_levels (ob_bids b)) = bids_list b.
Proof. done. Qed.

Lemma flat_asks b : flat id (queue_levels (ob_asks b)) = asks_list b.
Proof.
  unfold flat. rewrite <-(list_fmap_id (asks_list b)). apply list_fmap_ext. by intros ? [].
Qed.

(** The entries of the rebuilt index. *)
Lemma restored_index b (idx1 idx2 : gmap OrderSeq (Side * Price)) :
  book_inv b →
  (∀ seq v, idx1 !! seq = Some v ↔
    (∃ x, x ∈ bids_list b ∧ x_id x = seq ∧ v = (Buy, x.1)) ∨
    (∅ : gmap OrderSeq (Side * Price)) !! seq = Some v) →
  (∀ seq v, idx2 !! seq = Some v ↔
    (∃ x, x ∈ asks_list b ∧ x_id x = seq ∧ v = (Sell, x.1)) ∨ idx1 !! seq = Some v) →
  idx2 = ob_resting_orders b.
Proof.
  intros Hb H1 H2. apply map_eq. intros seq. apply option_ext. intros [s p].
  rewrite H2, H1, lookup_empty, (inv_index b Hb). split.
  - intros [([p' r] & Hx & <- & [= -> ->])|[([p' r] & Hx & <- & [= -> ->])|?]]; [| |done]; by exists r.
  - intros (r & Hr & <-). destruct s; [right; left|left]; by exists (p, r).
Qed.

Lemma from_to_snapshot b : book_inv b → from_snapshot (to_snapshot b) = Done b.
Proof.
  intros Hb. unfold from_snapshot. cbn [bs_bids bs_asks to_snapshot].
  destruct (restore_side Buy MkReverse unreverse ltac:(by intros [])
    (queue_levels (ob_bids b)) ∅ ∅) as (idx1 & E1 & H1);
    [apply btree_iter_keys_NoDup|done|apply (inv_ids_NoDup b Buy Hb)|done|].
  unfold to_level in E1. rewrite E1. cbn [ebind].
  destruct (restore_side Sell id id ltac:(done) (queue_levels (ob_asks b)) ∅ idx1)
    as (idx2 & E2 & H2); rewrite ?flat_asks; [apply btree_iter_keys_NoDup|done|
    apply (inv_ids_NoDup b Sell Hb)| |].
  { intros x Hx. apply eq_None_not_Some. intros [v Hv].
    apply H1 in Hv as [(y & Hy & Ey & _)|Hv]; [|by rewrite lookup_empty in Hv].
    pose proof (inv_lookup b Sell x Hb Hx) as L1. pose proof (inv_lookup b Buy y Hb Hy) as L2.
    rewrite Ey, L1 in L2. done. }
  rewrite flat_asks in H2. rewrite flat_bids in H1.
  unfold to_level in E2. unfold id in E2 at 2. rewrite E2. cbn [ebind].
  rewrite (restored_index b idx1 idx2 Hb H1 H2).
  unfold queue_levels. rewrite !list_to_map_btree_iter, !(right_id_L ∅ (∪)).
  pose proof (inv_wf b Hb) as [Wb Wa]. rewrite !from_levels_id by done. simpl.
  rewrite list_to_set_bset_iter. by destruct b.
Qed.

(** ** Aggregated levels *)

Lemma sum_remaining_from acc queue :
  foldl (λ acc order, default Quantity_MAX (checked_add acc (r_remaining order))) acc queue =
    q_of_Z (Z.min (2 ^ 256 - 1) (qval acc + sum_over (λ r, qval (r_remaining r)) queue)).
Proof.
  revert acc. induction queue as [|r queue IH]; intros acc; simpl.
  { pose proof (qval_range acc). rewrite sum_over_nil, Z.min_r, Z.add_0_r by lia.
    by rewrite q_of_Z_qval. }
  rewrite IH, sum_over_cons, checked_add_eq.
  pose proof (qval_range acc). pose proof (qval_range (r_remaining r)).
  assert (0 ≤ sum_over (λ r, qval (r_remaining r)) queue)
    by (apply sum_over_nonneg; intros; apply qval_range).
  destruct (decide (qval acc + qval (r_remaining r) < 2 ^ 256)).
  - rewrite q_checked_in by lia. simpl. rewrite q_of_Z_val by lia. do 2 f_equal. lia.
  - rewrite (proj2 (q_checked_None _)) by lia. cbn [default]. rewrite qval_max. f_equal. lia.
Qed.

(** A level's total is the exact sum, saturated at the largest quantity. *)
Lemma sum_remaining_eq queue :
  sum_remaining queue =
    q_of_Z (Z.min (2 ^ 256 - 1) (sum_over (λ r, qval (r_remaining r)) queue)).
Proof. unfold sum_remaining. rewrite sum_remaining_from, qval_zero. done. Qed.

(** The assertion in [is_empty] holds of every book. *)
Lemma book_is_empty_eq b :
  book_inv b →
  book_is_empty b = Done (bool_decide (bids_list b = [] ∧ asks_list b = [] ∧
                                       ob_pending_orders b = [])).
Proof.
  intros Hb. pose proof (inv_wf b Hb) as [Wb Wa].
  assert (Eb : queue_is_empty (ob_bids b) = bool_decide (bids_list b = [])).
  { apply Bool.eq_iff_eq_true. rewrite queue_is_empty_iff, bool_decide_eq_true by done.
    unfold bids_list. split; [by intros ->|apply fmap_nil_inv]. }
  assert (Ea : queue_is_empty (ob_asks b) = bool_decide (asks_list b = [])).
  { apply Bool.eq_iff_eq_true. by rewrite queue_is_empty_iff, bool_decide_eq_true by done. }
  assert (Er : bool_decide (ob_resting_orders b = ∅) =
               bool_decide (bids_list b = []) && bool_decide (asks_list b = [])).
  { rewrite <-bool_decide_and. apply bool_decide_ext. split.
    - intros E. split; apply elem_of_nil_inv; intros x Hx.
      + apply (inv_lookup b Buy) in Hx; [|done]. by rewrite E, lookup_empty in Hx.
      + apply (inv_lookup b Sell) in Hx; [|done]. by rewrite E, lookup_empty in Hx.
    - intros [E1 E2]. apply map_eq. intros seq. rewrite lookup_empty.
      apply eq_None_not_Some. intros [[[] p] (r & Hr & _)%(inv_index b Hb)]; simpl in Hr;
        [rewrite E1 in Hr|rewrite E2 in Hr]; by apply not_elem_of_nil in Hr. }
  unfold book_is_empty. rewrite Eb, Ea, Er, eqb_reflx. cbn [ebind assert].
  by rewrite !bool_decide_and, andb_assoc.
Qed.
