(* ===== verification/Tokens.v ===== *)
(** * Principals, tokens and trading pairs (src/canister/src/order/mod.rs)

    [Principal] comes from the [candid] crate: the development is parametric in
    it. What the code uses of the type is its equality, its total order and the
    two distinguished principals. *)

From stdpp Require Import prelude gmap.
From Stdlib Require Import ZArith Lia.
From S2P Require Import Prelude Word BTree Quantity Ids OrderTypes.

Class PrincipalType : Type := {
  Principal : Type;
  #[global] Principal_eq_dec :: EqDecision Principal;
  #[global] Principal_countable :: Countable Principal;
  #[global] Principal_Ord :: Ord Principal;
  #[global] Principal_OrdLaws :: OrdLaws Principal;
  anonymous : Principal;
  management_canister : Principal
}.

Section tokens.
Context `{PrincipalType}.

Record TokenId : Type := MkTokenId { ledger_id : Principal }.
Record TokenMetadata : Type := MkTokenMetadata { symbol : list u8; decimals : u8 }.
Record TradingPair : Type := MkTradingPair { base : TokenId; quote : TokenId }.

#[export] Instance TokenId_eq_dec : EqDecision TokenId.
Proof. solve_decision. Defined.
#[export] Instance TokenId_countable : Countable TokenId.
Proof. apply (inj_countable' ledger_id MkTokenId). by intros []. Defined.
#[export] Instance TokenId_Ord : Ord TokenId := λ a b, ord_cmp (ledger_id a) (ledger_id b).
#[export] Instance TokenId_OrdLaws : OrdLaws TokenId.
Proof. apply (ord_laws_via ledger_id); [|done]. intros [] [] E. simpl in E. by rewrite E. Qed.

#[export] Instance TokenMetadata_eq_dec : EqDecision TokenMetadata.
Proof. solve_decision. Defined.

Definition pair_parts (p : TradingPair) : TokenId * TokenId := (base p, quote p).
#[export] Instance TradingPair_eq_dec : EqDecision TradingPair.
Proof. solve_decision. Defined.
#[export] Instance TradingPair_countable : Countable TradingPair.
Proof. apply (inj_countable' pair_parts (λ p, MkTradingPair p.1 p.2)). by intros []. Defined.
#[export] Instance TradingPair_Ord : Ord TradingPair :=
  λ a b, cmp_lex (ord_cmp (base a) (base b)) (ord_cmp (quote a) (quote b)).
#[export] Instance TradingPair_OrdLaws : OrdLaws TradingPair.
Proof. apply (ord_laws_via pair_parts); [|done]. by intros [] [] [= -> ->]. Qed.

(** [TradingPair::token]. *)
Definition pair_token (self : TradingPair) (side : PairToken) : TokenId :=
  match side with Base => base self | Quote => quote self end.
End tokens.

(** A concrete principal type, for evaluating the definitions on examples: the
    number a principal's bytes spell. *)
#[export] Instance N_Ord : Ord N := N.compare.
#[export] Instance N_OrdLaws : OrdLaws N.
Proof.
  split; unfold ord_cmp, N_Ord; intros.
  - apply N.compare_eq_iff.
  - apply N.compare_antisym.
  - rewrite N.compare_lt_iff in *. lia.
Qed.

Definition principal_N : PrincipalType := {|
  Principal := N;
  anonymous := 4%N;
  management_canister := 0%N
|}.
