(* ===== verification/Balance.v ===== *)
(** * Balances and the fee pool (src/canister/src/balance/{mod,fee_pool,row}.rs) *)

From stdpp Require Import prelude gmap sorting.
From Stdlib Require Import ZArith Lia.
From S2P Require Import Prelude Word BTree Quantity Ids OrderTypes Tokens.

(** ** [Balance] *)

Record Balance : Type := MkBalance { free : Quantity; reserved : Quantity }.

#[export] Instance Balance_eq_dec : EqDecision Balance.
Proof. solve_decision. Defined.

Record InsufficientBalanceError : Type := MkInsufficient {
  available : Quantity; required : Quantity
}.

Definition balance_zero : Balance := MkBalance Quantity_ZERO Quantity_ZERO.

Definition bal_deposit (self : Balance) (amount : Quantity) : exec Balance :=
  let! f := expect (checked_add (free self) amount) in
  Done (MkBalance f (reserved self)).

Definition bal_debit_reserved (self : Balance) (amount : Quantity) : exec Balance :=
  let! r := expect (checked_sub (reserved self) amount) in
  Done (MkBalance (free self) r).

Definition bal_unreserve (self : Balance) (amount : Quantity) : exec Balance :=
  let! r := expect (checked_sub (reserved self) amount) in
  let! f := expect (checked_add (free self) amount) in
  Done (MkBalance f r).

Definition bal_withdraw (self : Balance) (amount : Quantity) :
    exec (result Balance InsufficientBalanceError) :=
  let?! f := ok_or (checked_sub (free self) amount) (MkInsufficient (free self) amount) in
  Done (Ok (MkBalance f (reserved self))).

Definition bal_reserve (self : Balance) (required : Quantity) :
    exec (result Balance InsufficientBalanceError) :=
  let?! f := ok_or (checked_sub (free self) required) (MkInsufficient (free self) required) in
  let! r := expect (checked_add (reserved self) required) in
  Done (Ok (MkBalance f r)).

Definition bal_is_zero (self : Balance) : bool := is_zero (free self) && is_zero (reserved self).

(** The user's whole holding. *)
Definition bal_total (b : Balance) : Z := qval (free b) + qval (reserved b).

Lemma bal_deposit_Done b a b' :
  bal_deposit b a = Done b' ↔ qval (free b') = qval (free b) + qval a ∧ reserved b' = reserved b.
Proof.
  unfold bal_deposit. rewrite bind_Done. setoid_rewrite expect_Done.
  setoid_rewrite checked_add_Some. destruct b'; simpl. naive_solver.
Qed.

Lemma bal_debit_reserved_Done b a b' :
  bal_debit_reserved b a = Done b' ↔
    qval (reserved b) = qval (reserved b') + qval a ∧ free b' = free b.
Proof.
  unfold bal_debit_reserved. rewrite bind_Done. setoid_rewrite expect_Done.
  setoid_rewrite checked_sub_Some. destruct b'; simpl. naive_solver.
Qed.

Lemma bal_unreserve_Done b a b' :
  bal_unreserve b a = Done b' ↔
    qval (reserved b) = qval (reserved b') + qval a ∧ qval (free b') = qval (free b) + qval a.
Proof.
  unfold bal_unreserve. rewrite bind_Done. setoid_rewrite bind_Done. setoid_rewrite expect_Done.
  setoid_rewrite checked_sub_Some. setoid_rewrite checked_add_Some.
  destruct b'; simpl. naive_solver.
Qed.

Lemma bal_withdraw_eq b a :
  bal_withdraw b a = Done (if qval a <=? qval (free b)
    then Ok (MkBalance (q_of_Z (qval (free b) - qval a)) (reserved b))
    else Err (MkInsufficient (free b) a)).
Proof.
  unfold bal_withdraw. rewrite checked_sub_eq. pose proof (qval_range a).
  pose proof (qval_range (free b)). destruct (Z.leb_spec (qval a) (qval (free b))).
  - by rewrite q_checked_in by lia.
  - by rewrite (proj2 (q_checked_None _)) by lia.
Qed.

(** Reserving panics only when the reserved side would exceed 256 bits. *)
Lemma bal_reserve_eq b a :
  qval (reserved b) + qval a < 2 ^ 256 →
  bal_reserve b a = Done (if qval a <=? qval (free b)
    then Ok (MkBalance (q_of_Z (qval (free b) - qval a)) (q_of_Z (qval (reserved b) + qval a)))
    else Err (MkInsufficient (free b) a)).
Proof.
  intros Hr. unfold bal_reserve. rewrite checked_sub_eq, checked_add_eq. pose proof (qval_range a).
  pose proof (qval_range (free b)). pose proof (qval_range (reserved b)).
  destruct (Z.leb_spec (qval a) (qval (free b))).
  - by rewrite !q_checked_in by lia.
  - by rewrite (proj2 (q_checked_None _)) by lia.
Qed.

Lemma bal_is_zero_iff b : bal_is_zero b = true ↔ b = balance_zero.
Proof.
  unfold bal_is_zero. rewrite !is_zero_spec, andb_true_iff, !Z.eqb_eq. destruct b as [f r]; simpl.
  split; [|by intros [= -> ->]]. intros [Ef Er]. unfold balance_zero.
  f_equal; by apply qval_eq_iff.
Qed.

Lemma bal_total_nonneg b : 0 ≤ bal_total b.
Proof. unfold bal_total. pose proof (qval_range (free b)). pose proof (qval_range (reserved b)). lia. Qed.

(** ** Sums over maps *)

Section map_sum.
Context {K V : Type} `{Countable K}.
Implicit Types (m : gmap K V) (f : K → V → Z).

Definition map_sum (f : K → V → Z) (m : gmap K V) : Z :=
  sum_over (λ kv, f kv.1 kv.2) (map_to_list m).

Lemma map_sum_empty f : map_sum f ∅ = 0.
Proof. unfold map_sum. by rewrite map_to_list_empty. Qed.

Lemma map_sum_insert_new f m k v : m !! k = None → map_sum f (<[k := v]> m) = f k v + map_sum f m.
Proof.
  intros Hk. unfold map_sum. by rewrite (sum_over_perm _ _ _ (map_to_list_insert m k v Hk)).
Qed.

Lemma map_sum_delete f m k v : m !! k = Some v → map_sum f m = f k v + map_sum f (delete k m).
Proof.
  intros Hk. rewrite <-(insert_delete_id m k v) at 1 by done.
  apply map_sum_insert_new, lookup_delete_eq.
Qed.

Lemma map_sum_insert f m k v :
  map_sum f (<[k := v]> m) = map_sum f m - from_option (f k) 0 (m !! k) + f k v.
Proof.
  rewrite (map_sum_delete f (<[k := v]> m) k v) by apply lookup_insert_eq.
  rewrite delete_insert_eq. destruct (m !! k) as [v'|] eqn:E; simpl.
  - rewrite (map_sum_delete f m k v' E). lia.
  - rewrite delete_id by done. lia.
Qed.

(** Entries that weigh nothing do not matter. *)
Lemma map_sum_ext f m m' :
  (∀ k, from_option (f k) 0 (m !! k) = from_option (f k) 0 (m' !! k)) →
  map_sum f m = map_sum f m'.
Proof.
  revert m'. induction m as [|k v m Hk IH] using map_ind; intros m' E.
  - assert (Hz : ∀ k v, m' !! k = Some v → f k v = 0).
    { intros k v Hkv. specialize (E k). rewrite lookup_empty, Hkv in E. simpl in E. done. }
    clear E. induction m' as [|k v m' Hk IH] using map_ind; [done|].
    rewrite map_sum_insert_new by done. rewrite (Hz k v) by apply lookup_insert_eq.
    rewrite <-IH; [done|]. intros k' v' Hk'. apply Hz. rewrite lookup_insert_ne; [done|]. intros ->. congruence.
  - rewrite map_sum_insert_new by done. rewrite (IH (delete k m')).
    + specialize (E k). rewrite lookup_insert_eq in E. simpl in E.
      destruct (m' !! k) as [v'|] eqn:E'; simpl in E.
      * rewrite (map_sum_delete f m' k v' E'). lia.
      * rewrite delete_id by done. lia.
    + intros k'. specialize (E k'). destruct (decide (k' = k)) as [->|Hne].
      * by rewrite Hk, lookup_delete_eq.
      * by rewrite lookup_insert_ne, lookup_delete_ne in * by done.
Qed.
End map_sum.

(** ** [FeePool] *)

Section fee_pool.
Context `{PrincipalType}.

Record FeePool : Type := MkFeePool { per_token : gmap TokenId Quantity }.
Record FeeEntry : Type := MkFeeEntry { fe_token : TokenId; fe_amount : Quantity }.

Definition fee_pool_default : FeePool := MkFeePool ∅.

(** [FeePool::withhold]: the net amount and the pool. *)
Definition withhold (self : FeePool) (token : TokenId) (gross fee : Quantity) :
    exec (Quantity * FeePool) :=
  let! net := expect (checked_sub gross fee) in
  if negb (is_zero fee) then
    let accrued := default Quantity_ZERO (per_token self !! token) in
    let! accrued := expect (checked_add accrued fee) in
    Done (net, MkFeePool (<[token := accrued]> (per_token self)))
  else Done (net, self).

Definition accrued (self : FeePool) (token : TokenId) : option Quantity := per_token self !! token.
Definition fee_pool_iter (self : FeePool) : list (TokenId * Quantity) := btree_iter (per_token self).
Definition fee_pool_snapshot (self : FeePool) : list FeeEntry :=
  (λ kv, MkFeeEntry kv.1 kv.2) <$> fee_pool_iter self.

Definition restore_fee_entry (self : FeePool) (entry : FeeEntry) : exec FeePool :=
  let! _ := assert (bool_decide (per_token self !! fe_token entry = None)) in
  Done (MkFeePool (<[fe_token entry := fe_amount entry]> (per_token self))).

(** [FeePool::restore]: clears the pool first. *)
Definition fee_pool_restore (self : FeePool) (snapshot : list FeeEntry) : exec FeePool :=
  exec_fold restore_fee_entry (MkFeePool ∅) snapshot.

#[local] Arguments restore_fee_entry : simpl never.

(** The fees accrued for a token, as a number. *)
Definition fees_at (p : FeePool) (t : TokenId) : Z := from_option qval 0 (per_token p !! t).

Lemma withhold_Done p t gross fee net p' :
  withhold p t gross fee = Done (net, p') →
  qval gross = qval net + qval fee ∧
  ∀ t', fees_at p' t' = fees_at p t' + if decide (t' = t) then qval fee else 0.
Proof.
  unfold withhold. intros Hw. exec_inv. rewrite is_zero_spec in Hw. apply checked_sub_Some in H0.
  destruct (Z.eqb_spec (qval fee) 0) as [E|E]; simpl in Hw.
  - injection Hw as <- <-. split; [done|]. intros t'. case_decide; lia.
  - exec_inv. apply checked_add_Some in H1. split; [done|]. intros t'. unfold fees_at; simpl.
    rewrite lookup_insert. repeat case_decide; simplify_eq; try lia. simpl. rewrite H1.
    destruct (per_token p !! t); simpl; [done|]. rewrite qval_zero. lia.
Qed.

Lemma fee_pool_restore_snapshot p q : fee_pool_restore q (fee_pool_snapshot p) = Done p.
Proof.
  unfold fee_pool_restore, fee_pool_snapshot, fee_pool_iter.
  assert (Hl : ∀ l (m : gmap TokenId Quantity), NoDup l.*1 → (∀ k, k ∈ l.*1 → m !! k = None) →
    exec_fold restore_fee_entry (MkFeePool m) ((λ kv, MkFeeEntry kv.1 kv.2) <$> l) =
      Done (MkFeePool (list_to_map l ∪ m))).
  { induction l as [|[t a] l IH]; intros m Hnd Hm; simpl; [by rewrite (left_id_L ∅ (∪))|].
    apply NoDup_cons in Hnd as [Ht Hnd].
    unfold restore_fee_entry at 1. cbn [per_token fe_token fe_amount fst snd].
    rewrite bool_decide_eq_true_2 by (apply Hm; left). cbn [ebind assert]. rewrite IH; [|done|].
    - do 2 f_equal. rewrite <-insert_union_l, <-insert_union_r; [done|].
      by apply not_elem_of_list_to_map.
    - intros k Hk. rewrite lookup_insert_ne; [apply Hm; by right|]. intros ->. done. }
  rewrite Hl by (apply btree_iter_keys_NoDup || done).
  rewrite list_to_map_btree_iter, (right_id_L ∅ (∪)). by destruct p.
Qed.
End fee_pool.
