(* ===== verification/WriteBack.v ===== *)
(** * The balance write-back buffer (src/canister/src/balance/{row,write_back,token}.rs)

    [BalanceWriteBack] buffers the balance rows a batch of operations touches,
    [TokenBalance::with_write_back] flushes it. [view] is what the buffer stands
    for: the balance every row would have if each operation were applied to the
    stable map directly. *)

From stdpp Require Import prelude gmap sorting.
From Stdlib Require Import ZArith Lia.
From S2P Require Import Prelude Word BTree Quantity Ids OrderTypes Tokens Balance.

Section write_back.
Context `{PrincipalType}.

Abbreviation BalanceKey := (TokenId * UserId)%type.
Abbreviation Balances := (gmap (TokenId * UserId) Balance).

(** ** [BalanceRow] *)

Record BalanceRow : Type := MkRow { row_balance : Balance; existed : bool }.

Definition row_load (balances : Balances) (key : BalanceKey) : BalanceRow :=
  MkRow (default balance_zero (balances !! key)) (bool_decide (is_Some (balances !! key))).

Definition worth_persisting (self : BalanceRow) : bool :=
  existed self || negb (bal_is_zero (row_balance self)).

(** ** [BalanceWriteBack] *)

Record BalanceWriteBack : Type := MkWriteBack {
  wb_balances : Balances;
  wb_fee_pool : FeePool;
  wb_buffer : gmap BalanceKey BalanceRow
}.

Definition wb_new (balances : Balances) (fee_pool : FeePool) : BalanceWriteBack :=
  MkWriteBack balances fee_pool ∅.

(** [buffer.entry(key).or_insert_with(|| BalanceRow::load(..))]. *)
Definition buffered_row (self : BalanceWriteBack) (key : BalanceKey) : BalanceRow :=
  match wb_buffer self !! key with Some row => row | None => row_load (wb_balances self) key end.

Definition write_row (self : BalanceWriteBack) (key : BalanceKey) (row : BalanceRow) :
    BalanceWriteBack :=
  MkWriteBack (wb_balances self) (wb_fee_pool self) (<[key := row]> (wb_buffer self)).

(** The two loads return the balance behind the mutable reference and the buffer
    after a write through it. *)
Definition load_existing (self : BalanceWriteBack) (key : BalanceKey) :
    exec (Balance * (Balance → BalanceWriteBack)) :=
  let row := buffered_row self key in
  let! _ := assert (existed row) in
  Done (row_balance row, λ b, write_row self key (MkRow b (existed row))).

Definition load_or_create (self : BalanceWriteBack) (key : BalanceKey) :
    Balance * (Balance → BalanceWriteBack) :=
  let row := buffered_row self key in
  (row_balance row, λ b, write_row self key (MkRow b (existed row))).

Definition transfer (self : BalanceWriteBack) (debtor creditor : UserId) (token : TokenId)
    (gross fee : Quantity) : exec BalanceWriteBack :=
  let! (net, pool) := withhold (wb_fee_pool self) token gross fee in
  let self := MkWriteBack (wb_balances self) pool (wb_buffer self) in
  let! (balance, write) := load_existing self (token, debtor) in
  let! balance := bal_debit_reserved balance gross in
  let self := write balance in
  let (balance, write) := load_or_create self (token, creditor) in
  let! balance := bal_deposit balance net in
  Done (write balance).

Definition wb_unreserve (self : BalanceWriteBack) (user : UserId) (token : TokenId)
    (amount : Quantity) : exec BalanceWriteBack :=
  let! (balance, write) := load_existing self (token, user) in
  let! balance := bal_unreserve balance amount in
  Done (write balance).

Definition wb_deposit (self : BalanceWriteBack) (user : UserId) (token : TokenId)
    (amount : Quantity) : exec BalanceWriteBack :=
  let (balance, write) := load_or_create self (token, user) in
  let! balance := bal_deposit balance amount in
  Done (write balance).

(** [try_mutate]: the mutated copy is committed only on success. *)
Definition try_mutate {E} (self : BalanceWriteBack) (key : BalanceKey)
    (mutate : Balance → exec (result Balance E)) : exec (result unit E * BalanceWriteBack) :=
  match wb_buffer self !! key with
  | Some row =>
      let! outcome := mutate (row_balance row) in
      match outcome with
      | Err e => Done (Err e, self)
      | Ok candidate => Done (Ok (), write_row self key (MkRow candidate (existed row)))
      end
  | None =>
      let row := row_load (wb_balances self) key in
      let! outcome := mutate (row_balance row) in
      match outcome with
      | Err e => Done (Err e, self)
      | Ok balance => Done (Ok (), write_row self key (MkRow balance (existed row)))
      end
  end.

Definition wb_withdraw (self : BalanceWriteBack) (user : UserId) (token : TokenId)
    (amount : Quantity) : exec (result unit InsufficientBalanceError * BalanceWriteBack) :=
  try_mutate self (token, user) (λ balance, bal_withdraw balance amount).

Definition wb_reserve (self : BalanceWriteBack) (user : UserId) (token : TokenId)
    (amount : Quantity) : exec (result unit InsufficientBalanceError * BalanceWriteBack) :=
  try_mutate self (token, user) (λ balance, bal_reserve balance amount).

Definition flush_row (balances : Balances) (kr : BalanceKey * BalanceRow) : Balances :=
  if worth_persisting kr.2 then <[kr.1 := row_balance kr.2]> balances else balances.

(** The rows are distinct, so the order in which the loop writes them is immaterial. *)
Definition flush (self : BalanceWriteBack) : Balances :=
  foldl flush_row (wb_balances self) (btree_iter (wb_buffer self)).

(** ** [TokenBalance] *)

Record TokenBalance : Type := MkTokenBalance { tb_balances : Balances; tb_fee_pool : FeePool }.

Definition tb_get_balance (self : TokenBalance) (user : UserId) (token : TokenId) : option Balance :=
  tb_balances self !! (token, user).

Definition with_write_back {R} (self : TokenBalance)
    (operations : BalanceWriteBack → exec (R * BalanceWriteBack)) : exec (R * TokenBalance) :=
  let write_back := wb_new (tb_balances self) (tb_fee_pool self) in
  let! (result, write_back) := operations write_back in
  Done (result, MkTokenBalance (flush write_back) (wb_fee_pool write_back)).

Definition tb_deposit (self : TokenBalance) (user : UserId) (token : TokenId) (amount : Quantity) :
    exec TokenBalance :=
  let! (_, self) := with_write_back self (λ wb, let! wb := wb_deposit wb user token amount in
                                                Done ((), wb)) in
  Done self.

Definition tb_withdraw (self : TokenBalance) (user : UserId) (token : TokenId)
    (amount : Quantity) : exec (result unit InsufficientBalanceError * TokenBalance) :=
  with_write_back self (λ wb, wb_withdraw wb user token amount).

Definition tb_reserve (self : TokenBalance) (user : UserId) (token : TokenId)
    (amount : Quantity) : exec (result unit InsufficientBalanceError * TokenBalance) :=
  with_write_back self (λ wb, wb_reserve wb user token amount).

Definition fee_balance (self : TokenBalance) (token : TokenId) : option Quantity :=
  accrued (tb_fee_pool self) token.
Definition restore_fee_pool (self : TokenBalance) (snapshot : list FeeEntry) : exec TokenBalance :=
  let! pool := fee_pool_restore (tb_fee_pool self) snapshot in
  Done (MkTokenBalance (tb_balances self) pool).

(** ** What the buffer stands for *)

(** A missing row is an empty balance. *)
Definition amount_of (m : Balances) (k : BalanceKey) : Balance := default balance_zero (m !! k).

Definition view (wb : BalanceWriteBack) (k : BalanceKey) : Balance := row_balance (buffered_row wb k).

(** A buffered row remembers whether the stable map holds it. *)
Definition wb_ok (wb : BalanceWriteBack) : Prop :=
  ∀ k row, wb_buffer wb !! k = Some row →
    existed row = bool_decide (is_Some (wb_balances wb !! k)).

Lemma wb_new_ok m p : wb_ok (wb_new m p).
Proof. intros k row. simpl. by rewrite lookup_empty. Qed.

Lemma view_new m p k : view (wb_new m p) k = amount_of m k.
Proof. unfold view, buffered_row. simpl. by rewrite lookup_empty. Qed.

Lemma buffered_row_existed wb k :
  wb_ok wb → existed (buffered_row wb k) = bool_decide (is_Some (wb_balances wb !! k)).
Proof. intros Hok. unfold buffered_row. destruct (wb_buffer wb !! k) eqn:E; [by apply Hok|done]. Qed.

Lemma write_row_ok wb k b :
  wb_ok wb → wb_ok (write_row wb k (MkRow b (existed (buffered_row wb k)))).
Proof.
  intros Hok k' row. simpl. rewrite lookup_insert. case_decide as E; [|apply Hok].
  subst k'. intros [= <-]. simpl. by apply buffered_row_existed.
Qed.

Lemma view_write_row wb k row k' :
  view (write_row wb k row) k' = if decide (k' = k) then row_balance row else view wb k'.
Proof.
  unfold view, buffered_row. simpl. rewrite lookup_insert.
  repeat case_decide; simplify_eq; done.
Qed.

(** Flushing gives every row the balance of the view. *)
Lemma flush_lookup wb k :
  flush wb !! k = match wb_buffer wb !! k with
                  | Some row => if worth_persisting row then Some (row_balance row)
                                else wb_balances wb !! k
                  | None => wb_balances wb !! k
                  end.
Proof.
  unfold flush. pose proof (btree_iter_keys_NoDup (wb_buffer wb)) as Hnd.
  assert (Hl : ∀ l (m : Balances), NoDup l.*1 → foldl flush_row m l !! k =
    match (list_to_map l : gmap BalanceKey BalanceRow) !! k with
    | Some row => if worth_persisting row then Some (row_balance row) else m !! k
    | None => m !! k end).
  { clear. induction l as [|[k' row] l IH]; intros m Hnd; simpl; [by rewrite lookup_empty|].
    apply NoDup_cons in Hnd as [Hk' Hnd]. rewrite IH by done.
    destruct (decide (k = k')) as [->|Hne].
    - rewrite not_elem_of_list_to_map_1, lookup_insert_eq by done. unfold flush_row; simpl.
      destruct (worth_persisting row); [by rewrite lookup_insert_eq|done].
    - rewrite lookup_insert_ne by done. unfold flush_row; simpl.
      destruct (worth_persisting row); [by rewrite lookup_insert_ne|done]. }
  rewrite Hl by done. by rewrite list_to_map_btree_iter.
Qed.

Lemma flush_view wb k : wb_ok wb → amount_of (flush wb) k = view wb k.
Proof.
  intros Hok. unfold amount_of, view, buffered_row. rewrite flush_lookup.
  destruct (wb_buffer wb !! k) as [row|] eqn:E; [|done]. unfold worth_persisting.
  destruct (existed row) eqn:Ex; simpl; [done|].
  destruct (bal_is_zero (row_balance row)) eqn:Ez; simpl; [|done].
  apply bal_is_zero_iff in Ez as ->. rewrite (Hok _ _ E) in Ex.
  apply bool_decide_eq_false, eq_None_not_Some in Ex. by rewrite Ex.
Qed.

(** Rows that the stable map holds are never dropped. *)
Lemma flush_keeps wb k : is_Some (wb_balances wb !! k) → is_Some (flush wb !! k).
Proof. rewrite flush_lookup. destruct (wb_buffer wb !! k); [|done]. by destruct (worth_persisting _). Qed.

(** ** The operations on the view *)

(** [wb'] is [wb] after operations on the buffer only. *)
Record steps_to (wb wb' : BalanceWriteBack) : Prop := {
  st_ok : wb_ok wb';
  st_balances : wb_balances wb' = wb_balances wb
}.

#[export] Instance steps_to_trans : Transitive steps_to.
Proof. intros a b c [? E1] [? E2]. split; [done|congruence]. Qed.

Definition at_key (k' k : BalanceKey) (z : Z) : Z := if decide (k' = k) then z else 0.

Lemma transfer_Done wb d c t gross fee wb' :
  wb_ok wb → transfer wb d c t gross fee = Done wb' →
  steps_to wb wb' ∧
  is_Some (wb_balances wb !! (t, d)) ∧ qval fee ≤ qval gross ∧
  (∀ k, qval (reserved (view wb k)) = qval (reserved (view wb' k)) + at_key k (t, d) (qval gross)) ∧
  (∀ k, qval (free (view wb' k)) =
     qval (free (view wb k)) + at_key k (t, c) (qval gross - qval fee)) ∧
  (∀ t', fees_at (wb_fee_pool wb') t' =
     fees_at (wb_fee_pool wb) t' + if decide (t' = t) then qval fee else 0).
Proof.
  intros Hok. unfold transfer. intros HT. apply bind_Done in HT as ([net pool] & Hw & HT).
  apply withhold_Done in Hw as [Hnet Hfees].
  set (wb1 := MkWriteBack (wb_balances wb) pool (wb_buffer wb)) in *.
  assert (Hok1 : wb_ok wb1) by done.
  assert (Hv1 : ∀ k, view wb1 k = view wb k) by done.
  unfold load_existing in HT. apply bind_Done in HT as ([bal wr] & HL & HT).
  apply bind_Done in HL as ([] & Hex & [= <- <-]). apply assert_Done in Hex.
  pose proof Hex as Hex'. rewrite buffered_row_existed in Hex' by done.
  apply bool_decide_eq_true in Hex'.
  apply bind_Done in HT as (bal1 & Hd & HT). apply bal_debit_reserved_Done in Hd as [Hd1 Hd2].
  unfold load_or_create in HT. apply bind_Done in HT as (bal2 & Hc & HT).
  apply bal_deposit_Done in Hc as [Hc1 Hc2]. injection HT as <-.
  pose proof (write_row_ok wb1 (t, d) bal1 Hok1) as Hok2.
  set (wb2 := write_row wb1 (t, d) _) in *.
  pose proof (write_row_ok wb2 (t, c) bal2 Hok2) as Hok3.
  fold (view wb1 (t, d)) in Hd1, Hd2. fold (view wb2 (t, c)) in Hc1, Hc2.
  assert (Hv2 : ∀ k, view wb2 k = if decide (k = (t, d)) then bal1 else view wb k).
  { intros k. unfold wb2. by rewrite view_write_row. }
  rewrite Hv2 in Hc1, Hc2. rewrite Hv1 in Hd1, Hd2.
  pose proof (qval_range net). split_and!; [by split|done|lia|..|done]; intros k;
    rewrite view_write_row, Hv2; unfold at_key; cbn [row_balance];
    repeat case_decide; simplify_eq; rewrite ?Hc2, ?Hc1, ?Hd2 in *; lia.
Qed.

Lemma wb_unreserve_Done wb u t a wb' :
  wb_ok wb → wb_unreserve wb u t a = Done wb' →
  steps_to wb wb' ∧ is_Some (wb_balances wb !! (t, u)) ∧
  (∀ k, qval (reserved (view wb k)) = qval (reserved (view wb' k)) + at_key k (t, u) (qval a)) ∧
  (∀ k, qval (free (view wb' k)) = qval (free (view wb k)) + at_key k (t, u) (qval a)) ∧
  wb_fee_pool wb' = wb_fee_pool wb.
Proof.
  intros Hok. unfold wb_unreserve, load_existing. intros HT.
  apply bind_Done in HT as ([bal wr] & HL & HT).
  apply bind_Done in HL as ([] & Hex & [= <- <-]). apply assert_Done in Hex.
  pose proof Hex as Hex'. rewrite buffered_row_existed in Hex' by done.
  apply bool_decide_eq_true in Hex'.
  apply bind_Done in HT as (bal1 & Hu & [= <-]). apply bal_unreserve_Done in Hu as [Hu1 Hu2].
  split_and!; [split; [by apply write_row_ok|done]|done|..|done]; intros k;
    rewrite view_write_row; unfold at_key; cbn [row_balance]; case_decide; simplify_eq;
    unfold view in *; lia.
Qed.

Lemma wb_deposit_Done wb u t a wb' :
  wb_ok wb → wb_deposit wb u t a = Done wb' →
  steps_to wb wb' ∧
  (∀ k, reserved (view wb' k) = reserved (view wb k)) ∧
  (∀ k, qval (free (view wb' k)) = qval (free (view wb k)) + at_key k (t, u) (qval a)) ∧
  wb_fee_pool wb' = wb_fee_pool wb.
Proof.
  intros Hok. unfold wb_deposit, load_or_create. intros HT.
  apply bind_Done in HT as (bal1 & Hu & [= <-]). apply bal_deposit_Done in Hu as [Hu1 Hu2].
  split_and!; [split; [by apply write_row_ok|done]|..|done]; intros k;
    rewrite view_write_row; unfold at_key; cbn [row_balance]; case_decide; simplify_eq;
    unfold view in *; done || lia.
Qed.

(** [try_mutate] reads the view, and an error leaves the buffer alone. *)
Lemma try_mutate_eq {E} wb k (f : Balance → exec (result Balance E)) :
  try_mutate wb k f =
    let! outcome := f (view wb k) in
    Done (match outcome with
          | Err e => (Err e, wb)
          | Ok b => (Ok (), write_row wb k (MkRow b (existed (buffered_row wb k))))
          end).
Proof.
  unfold try_mutate, view, buffered_row.
  destruct (wb_buffer wb !! k); simpl; by destruct (f _) as [[]|].
Qed.
End write_back.

(** ** The buffer refines direct updates

    The reference below knows nothing of rows, buffers or flushing: every operation
    reads the balances it needs from the map and writes them back to it at once. A
    batch run through one buffer that is flushed once has exactly its outcome,
    provided the rows the batch debits are there when it starts; when one of them is
    not, the batch traps. *)

Section refine.
Context `{PrincipalType}.

Abbreviation BalanceKey := (TokenId * UserId)%type.
Abbreviation Balances := (gmap (TokenId * UserId) Balance).

(** The operations settlement and deposits run on a buffer. *)
Inductive BalanceCall : Type :=
| CallTransfer (debtor creditor : UserId) (token : TokenId) (gross fee : Quantity)
| CallUnreserve (user : UserId) (token : TokenId) (amount : Quantity)
| CallDeposit (user : UserId) (token : TokenId) (amount : Quantity).

Definition wb_call (wb : BalanceWriteBack) (c : BalanceCall) : exec BalanceWriteBack :=
  match c with
  | CallTransfer d c t gross fee => transfer wb d c t gross fee
  | CallUnreserve u t a => wb_unreserve wb u t a
  | CallDeposit u t a => wb_deposit wb u t a
  end.

(** One buffer for the whole batch. *)
Definition batched (tb : TokenBalance) (cs : list BalanceCall) : exec TokenBalance :=
  let! (_, tb) := with_write_back tb (λ wb, let! wb := exec_fold wb_call wb cs in Done ((), wb)) in
  Done tb.

(** The reference: credit a balance of the map in place, an empty balance that has no
    entry staying without one; debit an entry of the map in place. *)
Definition credit_in_place (m : Balances) (k : BalanceKey) (a : Quantity) : exec Balances :=
  match m !! k with
  | Some b => let! b := bal_deposit b a in Done (<[k := b]> m)
  | None => if is_zero a then Done m else Done (<[k := MkBalance a Quantity_ZERO]> m)
  end.
Definition debit_in_place (m : Balances) (k : BalanceKey) (debit : Balance → exec Balance) :
    exec Balances :=
  let! b := expect (m !! k) in
  let! b := debit b in
  Done (<[k := b]> m).

Definition direct_call (tb : TokenBalance) (c : BalanceCall) : exec TokenBalance :=
  match c with
  | CallTransfer d c t gross fee =>
      let! (net, pool) := withhold (tb_fee_pool tb) t gross fee in
      let! m := debit_in_place (tb_balances tb) (t, d) (λ b, bal_debit_reserved b gross) in
      let! m := credit_in_place m (t, c) net in
      Done (MkTokenBalance m pool)
  | CallUnreserve u t a =>
      let! m := debit_in_place (tb_balances tb) (t, u) (λ b, bal_unreserve b a) in
      Done (MkTokenBalance m (tb_fee_pool tb))
  | CallDeposit u t a =>
      let! m := credit_in_place (tb_balances tb) (t, u) a in
      Done (MkTokenBalance m (tb_fee_pool tb))
  end.
Definition direct (tb : TokenBalance) (cs : list BalanceCall) : exec TokenBalance :=
  exec_fold direct_call tb cs.

(** The row an operation debits, which the buffer requires to exist already. *)
Definition debits_row (m : Balances) (c : BalanceCall) : Prop :=
  match c with
  | CallTransfer d _ t _ _ => is_Some (m !! (t, d))
  | CallUnreserve u t _ => is_Some (m !! (t, u))
  | CallDeposit _ _ _ => True
  end.
#[export] Instance debits_row_dec m c : Decision (debits_row m c).
Proof. destruct c; simpl; apply _. Defined.

(** ** The simulation *)

(** A buffer stands for the balances and the pool it would leave if flushed now. *)
Record stands_for (wb : BalanceWriteBack) (tb : TokenBalance) : Prop := {
  sf_ok : wb_ok wb;
  sf_flush : flush wb = tb_balances tb;
  sf_pool : wb_fee_pool wb = tb_fee_pool tb
}.

Lemma stands_for_new tb : stands_for (wb_new (tb_balances tb) (tb_fee_pool tb)) tb.
Proof. split; [apply wb_new_ok| |done]. by apply map_eq. Qed.

Lemma flush_write wb k b :
  wb_ok wb →
  flush (write_row wb k (MkRow b (existed (buffered_row wb k)))) =
    if bool_decide (is_Some (wb_balances wb !! k)) || negb (bal_is_zero b)
    then <[k := b]> (flush wb) else delete k (flush wb).
Proof.
  intros O. apply map_eq. intros k'. rewrite flush_lookup. unfold write_row; simpl.
  rewrite buffered_row_existed by done. destruct (decide (k' = k)) as [->|Hn].
  - rewrite lookup_insert_eq. unfold worth_persisting; simpl.
    case_bool_decide as Es; simpl; [by rewrite lookup_insert_eq|].
    destruct (bal_is_zero b); simpl; [|by rewrite lookup_insert_eq].
    rewrite lookup_delete_eq. by apply eq_None_not_Some.
  - rewrite lookup_insert_ne by done.
    destruct (_ || _); [rewrite lookup_insert_ne by done|rewrite lookup_delete_ne by done];
      by rewrite flush_lookup.
Qed.

(** A balance that flushing leaves out is empty. *)
Lemma view_unflushed wb k : wb_ok wb → flush wb !! k = None → view wb k = balance_zero.
Proof. intros O E. rewrite <-flush_view by done. unfold amount_of. by rewrite E. Qed.
Lemma view_flushed wb k b : wb_ok wb → flush wb !! k = Some b → view wb k = b.
Proof. intros O E. rewrite <-flush_view by done. unfold amount_of. by rewrite E. Qed.

(** A row the batch creates is never empty. *)
Lemma flushed_nonzero wb k b :
  wb_ok wb → flush wb !! k = Some b → ¬ is_Some (wb_balances wb !! k) → bal_is_zero b = false.
Proof.
  intros O. rewrite flush_lookup. destruct (wb_buffer wb !! k) as [row|] eqn:E; [|by intros -> []].
  pose proof (O _ _ E) as Ex. intros Hf Hn. rewrite bool_decide_eq_false_2 in Ex by done.
  unfold worth_persisting in Hf. rewrite Ex in Hf. simpl in Hf.
  destruct (bal_is_zero (row_balance row)) eqn:Ez; [|naive_solver]. simpl in Hf. by destruct Hn.
Qed.

Lemma deposit_nonzero b a b' : bal_deposit b a = Done b' → bal_is_zero b' = true → bal_is_zero b = true.
Proof.
  rewrite bal_deposit_Done. intros [Hf Hr]. unfold bal_is_zero. rewrite !andb_true_iff, !is_zero_spec,
    !Z.eqb_eq, Hr. pose proof (qval_range (free b)). pose proof (qval_range a). lia.
Qed.

Lemma deposit_to_zero a : bal_deposit balance_zero a = Done (MkBalance a Quantity_ZERO).
Proof. apply bal_deposit_Done. simpl. rewrite qval_zero. split; [lia|done]. Qed.

(** The two accesses of a buffer, against the same accesses of the map. *)
Lemma credit_simulates wb m k a :
  wb_ok wb → flush wb = m →
  exec_rel (λ wb' m', wb_ok wb' ∧ flush wb' = m' ∧ wb_balances wb' = wb_balances wb ∧
      wb_fee_pool wb' = wb_fee_pool wb)
    (let! b := bal_deposit (view wb k) a in
     Done (write_row wb k (MkRow b (existed (buffered_row wb k)))))
    (credit_in_place m k a).
Proof.
  intros O <-. unfold credit_in_place. destruct (flush wb !! k) as [b|] eqn:E.
  - rewrite (view_flushed _ _ _ O E). destruct (bal_deposit b a) as [b'|] eqn:Eb; [|done]. simpl.
    split_and!; [by apply write_row_ok| |done..]. rewrite flush_write by done.
    case_bool_decide as Es; [done|]. pose proof (flushed_nonzero _ _ _ O E Es) as Hz.
    destruct (bal_is_zero b') eqn:Ez; [|done]. rewrite (deposit_nonzero _ _ _ Eb Ez) in Hz. done.
  - rewrite (view_unflushed _ _ O E), deposit_to_zero. cbn [ebind].
    assert (Hs : ¬ is_Some (wb_balances wb !! k)).
    { intros [y Hy]%(flush_keeps wb k). congruence. }
    pose proof (flush_write wb k (MkBalance a Quantity_ZERO) O) as F.
    rewrite bool_decide_eq_false_2 in F by done. unfold bal_is_zero in F. simpl in F.
    rewrite (is_zero_spec Quantity_ZERO), qval_zero, Z.eqb_refl, andb_true_r in F.
    destruct (is_zero a); simpl in *; rewrite F;
      (split_and!; [by apply write_row_ok| |done..]); [by rewrite delete_id|done].
Qed.

Lemma debit_simulates wb m k debit :
  wb_ok wb → flush wb = m → is_Some (wb_balances wb !! k) →
  exec_rel (λ wb' m', wb_ok wb' ∧ flush wb' = m' ∧ wb_balances wb' = wb_balances wb ∧
      wb_fee_pool wb' = wb_fee_pool wb)
    (let! (b, write) := load_existing wb k in let! b := debit b in Done (write b))
    (debit_in_place m k debit).
Proof.
  intros O <- Hs. unfold debit_in_place, load_existing.
  destruct (flush_keeps wb k Hs) as [b E]. rewrite E. cbn [expect ebind].
  pose proof (view_flushed _ _ _ O E) as Hv. unfold view in Hv.
  rewrite buffered_row_existed, bool_decide_eq_true_2 by done. cbn [assert ebind]. rewrite Hv.
  destruct (debit b) as [b'|]; [|done]. simpl.
  pose proof (write_row_ok wb k b' O) as O'. pose proof (flush_write wb k b' O) as F.
  rewrite buffered_row_existed, bool_decide_eq_true_2 in O', F by done. done.
Qed.

(** A transfer is a debit of the buffer followed by a deposit into it. *)
Definition wb_debit (wb : BalanceWriteBack) (k : BalanceKey) (debit : Balance → exec Balance) :
    exec BalanceWriteBack :=
  let! (b, write) := load_existing wb k in let! b := debit b in Done (write b).

Lemma transfer_split wb d c t gross fee :
  transfer wb d c t gross fee =
    let! (net, pool) := withhold (wb_fee_pool wb) t gross fee in
    let! wb := wb_debit (MkWriteBack (wb_balances wb) pool (wb_buffer wb)) (t, d)
                 (λ b, bal_debit_reserved b gross) in
    wb_deposit wb c t net.
Proof.
  unfold transfer, wb_debit. destruct (withhold _ _ _ _) as [[net pool]|]; [|done]. cbn [ebind].
  destruct (load_existing _ _) as [[b w]|]; [|done]. cbn [ebind].
  by destruct (bal_debit_reserved b gross).
Qed.

Lemma call_simulates wb tb c :
  stands_for wb tb → debits_row (wb_balances wb) c →
  exec_rel (λ wb' tb', stands_for wb' tb' ∧ wb_balances wb' = wb_balances wb)
    (wb_call wb c) (direct_call tb c).
Proof.
  intros [O F P]. destruct c as [d c t gross fee|u t a|u t a]; cbn [wb_call direct_call debits_row];
    intros Hd.
  - rewrite transfer_split, P. destruct (withhold _ t gross fee) as [[net pool]|]; [|done].
    cbn [ebind]. eapply exec_rel_bind; [by apply debit_simulates|].
    intros wb1 m1 (O1 & F1 & B1 & P1). cbn [wb_balances wb_fee_pool] in B1, P1.
    pose proof (credit_simulates wb1 m1 (t, c) net O1 F1) as C.
    change (let! b := _ in _) with (wb_deposit wb1 c t net) in C.
    destruct (wb_deposit wb1 c t net), (credit_in_place m1 (t, c) net); try done.
    destruct C as (O2 & F2 & B2 & P2). split; [split|]; simpl; done || congruence.
  - pose proof (debit_simulates wb _ (t, u) (λ b, bal_unreserve b a) O F Hd) as C.
    change (let! pat := _ in _) with (wb_unreserve wb u t a) in C.
    destruct (wb_unreserve wb u t a), (debit_in_place _ _ _); try done.
    destruct C as (O2 & F2 & B2 & P2). split; [split|]; simpl; done || congruence.
  - pose proof (credit_simulates wb _ (t, u) a O F) as C.
    change (let! b := _ in _) with (wb_deposit wb u t a) in C.
    destruct (wb_deposit wb u t a), (credit_in_place _ _ _); try done.
    destruct C as (O2 & F2 & B2 & P2). split; [split|]; simpl; done || congruence.
Qed.

(** A call on a buffer needs the row it debits. *)
Lemma call_needs_row wb c wb' :
  wb_ok wb → wb_call wb c = Done wb' →
  debits_row (wb_balances wb) c ∧ wb_ok wb' ∧ wb_balances wb' = wb_balances wb.
Proof.
  intros O. destruct c as [d c t gross fee|u t a|u t a]; simpl; intros E.
  - by apply transfer_Done in E as ([O' B'] & Hs & _).
  - by apply wb_unreserve_Done in E as ([O' B'] & Hs & _).
  - by apply wb_deposit_Done in E as ([O' B'] & _).
Qed.

Lemma calls_need_rows cs : ∀ wb wb',
  wb_ok wb → exec_fold wb_call wb cs = Done wb' → Forall (debits_row (wb_balances wb)) cs.
Proof.
  induction cs as [|c cs IH]; intros wb wb' O E; [done|]. cbn [exec_fold] in E.
  apply bind_Done in E as (wb1 & E1 & E). apply call_needs_row in E1 as (Hd & O1 & B1); [|done].
  constructor; [done|]. rewrite <-B1. by apply (IH wb1 wb').
Qed.

(** The outcome of a batch, trap or not, is that of the reference. *)
Lemma batched_direct tb cs :
  batched tb cs =
    if decide (Forall (debits_row (tb_balances tb)) cs) then direct tb cs else Trap.
Proof.
  unfold batched, with_write_back, direct. set (wb := wb_new _ _).
  case_decide as Hd.
  - assert (S : exec_rel (λ wb' tb', stands_for wb' tb' ∧ wb_balances wb' = tb_balances tb)
      (exec_fold wb_call wb cs) (exec_fold direct_call tb cs)).
    { apply exec_rel_fold; [split; [apply stands_for_new|done]|].
      intros c wb1 tb1 Hc [S1 B1]. rewrite Forall_forall in Hd. rewrite <-B1.
      apply call_simulates; [done|]. rewrite B1. by apply Hd. }
    destruct (exec_fold wb_call wb cs) as [wb'|], (exec_fold direct_call tb cs) as [[m p]|]; try done.
    destruct S as [[_ F P] _]. simpl in *. by rewrite F, P.
  - destruct (exec_fold wb_call wb cs) as [wb'|] eqn:E; [|done].
    destruct Hd. by apply (calls_need_rows cs wb wb' (wb_new_ok _ _)).
Qed.

(** ** Exact amounts *)

(** What an operation adds to a free balance, takes from a reserved one and adds to
    the fees of a token. *)
Definition call_freed (k : BalanceKey) (c : BalanceCall) : Z :=
  match c with
  | CallTransfer _ c t gross fee => at_key k (t, c) (qval gross - qval fee)
  | CallUnreserve u t a | CallDeposit u t a => at_key k (t, u) (qval a)
  end.
Definition call_taken (k : BalanceKey) (c : BalanceCall) : Z :=
  match c with
  | CallTransfer d _ t gross _ => at_key k (t, d) (qval gross)
  | CallUnreserve u t a => at_key k (t, u) (qval a)
  | CallDeposit _ _ _ => 0
  end.
Definition call_fee (t : TokenId) (c : BalanceCall) : Z :=
  match c with
  | CallTransfer _ _ t' _ fee => if decide (t = t') then qval fee else 0
  | _ => 0
  end.

Lemma wb_call_amounts wb c wb' :
  wb_ok wb → wb_call wb c = Done wb' →
  wb_ok wb' ∧
  (∀ k, qval (free (view wb' k)) = qval (free (view wb k)) + call_freed k c ∧
    qval (reserved (view wb k)) = qval (reserved (view wb' k)) + call_taken k c) ∧
  (∀ t, fees_at (wb_fee_pool wb') t = fees_at (wb_fee_pool wb) t + call_fee t c).
Proof.
  intros O. destruct c as [d c t gross fee|u t a|u t a]; simpl; intros E.
  - by apply transfer_Done in E as ([? _] & _ & _ & ? & ? & ?).
  - apply wb_unreserve_Done in E as ([? _] & _ & ? & ? & ->); [|done].
    split_and!; [done..|]. intros t'. lia.
  - apply wb_deposit_Done in E as ([? _] & Hr & ? & ->); [|done].
    split_and!; [done|intros k; by rewrite Hr, Z.add_0_r|]. intros t'. lia.
Qed.

Lemma wb_calls_amounts cs : ∀ wb wb',
  wb_ok wb → exec_fold wb_call wb cs = Done wb' →
  wb_ok wb' ∧
  (∀ k, qval (free (view wb' k)) = qval (free (view wb k)) + sum_over (call_freed k) cs ∧
    qval (reserved (view wb k)) = qval (reserved (view wb' k)) + sum_over (call_taken k) cs) ∧
  (∀ t, fees_at (wb_fee_pool wb') t = fees_at (wb_fee_pool wb) t + sum_over (call_fee t) cs).
Proof.
  induction cs as [|c cs IH]; intros wb wb' O E; cbn [exec_fold] in E.
  - injection E as ->. split_and!; [done|intros k; split|intros t]; rewrite sum_over_nil; lia.
  - apply bind_Done in E as (wb1 & E1 & E). apply wb_call_amounts in E1 as (O1 & K1 & P1); [|done].
    destruct (IH wb1 wb' O1 E) as (O2 & K2 & P2). split_and!; [done| |].
    + intros k. specialize (K1 k). specialize (K2 k). rewrite !sum_over_cons. lia.
    + intros t. specialize (P1 t). specialize (P2 t). rewrite sum_over_cons. lia.
Qed.

(** The balances and fees a batch leaves, as amounts. *)
Lemma batched_amounts tb cs tb' :
  batched tb cs = Done tb' →
  (∀ k, qval (free (amount_of (tb_balances tb') k)) =
      qval (free (amount_of (tb_balances tb) k)) + sum_over (call_freed k) cs ∧
    qval (reserved (amount_of (tb_balances tb) k)) =
      qval (reserved (amount_of (tb_balances tb') k)) + sum_over (call_taken k) cs) ∧
  (∀ t, fees_at (tb_fee_pool tb') t = fees_at (tb_fee_pool tb) t + sum_over (call_fee t) cs).
Proof.
  unfold batched, with_write_back.
  destruct (exec_fold wb_call _ cs) as [wb'|] eqn:E; [|done]. cbn [ebind]. intros [= <-].
  apply wb_calls_amounts in E as (O & K & P); [|apply wb_new_ok]. split; [|exact P].
  intros k. specialize (K k). rewrite view_new in K. cbn [tb_balances].
  by rewrite flush_view by done.
Qed.
End refine.
