(* ===== verification/BalanceTotals.v ===== *)
(** * Token conservation

    The canister-wide invariant stated by TokenBalance: per token, the users'
    holdings plus the fee pool change only by deposits and withdrawals. *)

From stdpp Require Import prelude gmap sorting.
From Stdlib Require Import ZArith Lia.
From S2P Require Import Prelude Word BTree Quantity Ids OrderTypes Tokens Balance WriteBack.

Section totals.
Context `{PrincipalType}.
Implicit Types (m : gmap (TokenId * UserId) Balance) (k : TokenId * UserId) (t : TokenId).

Definition weight (t : TokenId) (k : TokenId * UserId) (b : Balance) : Z :=
  if decide (k.1 = t) then bal_total b else 0.

(** The holdings of all users in token [t]. *)
Definition users_total (t : TokenId) (m : gmap (TokenId * UserId) Balance) : Z := map_sum (weight t) m.

(** The holdings plus the fees. *)
Definition supply (t : TokenId) (tb : TokenBalance) : Z :=
  users_total t (tb_balances tb) + fees_at (tb_fee_pool tb) t.

Definition wb_supply (t : TokenId) (wb : BalanceWriteBack) : Z :=
  users_total t (flush wb) + fees_at (wb_fee_pool wb) t.

Lemma weight_amount t m k :
  from_option (weight t k) 0 (m !! k) = weight t k (amount_of m k).
Proof. unfold amount_of. destruct (m !! k); simpl; [done|]. unfold weight. by case_decide. Qed.

Lemma users_total_insert t m k b :
  users_total t (<[k := b]> m) = users_total t m - weight t k (amount_of m k) + weight t k b.
Proof. unfold users_total. by rewrite map_sum_insert, weight_amount. Qed.

Lemma users_total_ext t m m' :
  (∀ k, bal_total (amount_of m k) = bal_total (amount_of m' k)) → users_total t m = users_total t m'.
Proof.
  intros E. apply map_sum_ext. intros k. rewrite !weight_amount. unfold weight.
  case_decide; [apply E|done].
Qed.

Lemma amount_insert m k b k' :
  amount_of (<[k := b]> m) k' = if decide (k' = k) then b else amount_of m k'.
Proof. unfold amount_of. rewrite lookup_insert. repeat case_decide; simplify_eq; done. Qed.

(** Two rows of one token changed. *)
Lemma users_total_change t m m' k1 k2 z1 z2 :
  (∀ k, bal_total (amount_of m' k) = bal_total (amount_of m k) + at_key k k1 z1 + at_key k k2 z2) →
  users_total t m' = users_total t m + (if decide (k1.1 = t) then z1 else 0)
                                     + (if decide (k2.1 = t) then z2 else 0).
Proof.
  intros E. set (m1 := <[k1 := amount_of m' k1]> m).
  rewrite (users_total_ext t m' (<[k2 := amount_of m' k2]> m1)).
  - rewrite users_total_insert. unfold m1. rewrite users_total_insert, amount_insert.
    pose proof (E k1) as E1. pose proof (E k2) as E2. unfold weight, at_key in *.
    repeat case_decide; simplify_eq; lia.
  - intros k. unfold m1. rewrite !amount_insert. pose proof (E k) as Ek. unfold at_key in Ek.
    repeat case_decide; simplify_eq; lia.
Qed.

Lemma wb_supply_change t wb wb' k1 k2 z1 z2 :
  wb_ok wb → wb_ok wb' →
  (∀ k, bal_total (view wb' k) = bal_total (view wb k) + at_key k k1 z1 + at_key k k2 z2) →
  wb_supply t wb' = wb_supply t wb + (if decide (k1.1 = t) then z1 else 0)
    + (if decide (k2.1 = t) then z2 else 0)
    + (fees_at (wb_fee_pool wb') t - fees_at (wb_fee_pool wb) t).
Proof.
  intros Hok Hok' E. unfold wb_supply.
  rewrite (users_total_change t (flush wb) (flush wb') k1 k2 z1 z2); [lia|].
  intros k. by rewrite !flush_view.
Qed.

(** ** Each operation *)

Lemma transfer_supply wb d c t gross fee wb' t' :
  wb_ok wb → transfer wb d c t gross fee = Done wb' → wb_supply t' wb' = wb_supply t' wb.
Proof.
  intros Hok HT. destruct (transfer_Done _ _ _ _ _ _ _ Hok HT) as (Hs & _ & _ & Hr & Hf & Hfe).
  rewrite (wb_supply_change t' wb wb' (t, d) (t, c) (- qval gross) (qval gross - qval fee)).
  - rewrite Hfe. simpl. repeat case_decide; simplify_eq; lia.
  - done.
  - apply Hs.
  - intros k. unfold bal_total. rewrite Hf, Hr. unfold at_key. repeat case_decide; lia.
Qed.

Lemma wb_unreserve_supply wb u t a wb' t' :
  wb_ok wb → wb_unreserve wb u t a = Done wb' → wb_supply t' wb' = wb_supply t' wb.
Proof.
  intros Hok HT. destruct (wb_unreserve_Done _ _ _ _ _ Hok HT) as (Hs & _ & Hr & Hf & Hfe).
  rewrite (wb_supply_change t' wb wb' (t, u) (t, u) (- qval a) (qval a)).
  - rewrite Hfe. simpl. repeat case_decide; lia.
  - done.
  - apply Hs.
  - intros k. unfold bal_total. rewrite Hf, Hr. unfold at_key. repeat case_decide; lia.
Qed.

Lemma wb_deposit_supply wb u t a wb' t' :
  wb_ok wb → wb_deposit wb u t a = Done wb' →
  wb_supply t' wb' = wb_supply t' wb + if decide (t = t') then qval a else 0.
Proof.
  intros Hok HT. destruct (wb_deposit_Done _ _ _ _ _ Hok HT) as (Hs & Hr & Hf & Hfe).
  rewrite (wb_supply_change t' wb wb' (t, u) (t, u) (qval a) 0).
  - rewrite Hfe. simpl. repeat case_decide; lia.
  - done.
  - apply Hs.
  - intros k. unfold bal_total. rewrite Hf, Hr. unfold at_key. repeat case_decide; lia.
Qed.

(** ** [TokenBalance] *)

Lemma with_write_back_Done {R} tb (ops : BalanceWriteBack → exec (R * BalanceWriteBack)) r tb' :
  with_write_back tb ops = Done (r, tb') →
  ∃ wb', ops (wb_new (tb_balances tb) (tb_fee_pool tb)) = Done (r, wb') ∧
    tb' = MkTokenBalance (flush wb') (wb_fee_pool wb').
Proof.
  unfold with_write_back. intros HT. apply bind_Done in HT as ([r' wb'] & E & [= <- <-]). eauto.
Qed.

Lemma wb_supply_new t tb : wb_supply t (wb_new (tb_balances tb) (tb_fee_pool tb)) = supply t tb.
Proof. unfold wb_supply, supply, flush. simpl. by rewrite btree_iter_empty. Qed.

Lemma tb_deposit_Done tb u t a tb' :
  tb_deposit tb u t a = Done tb' →
  (∀ k, reserved (amount_of (tb_balances tb') k) = reserved (amount_of (tb_balances tb) k)) ∧
  (∀ k, qval (free (amount_of (tb_balances tb') k)) =
     qval (free (amount_of (tb_balances tb) k)) + at_key k (t, u) (qval a)) ∧
  (∀ t', supply t' tb' = supply t' tb + if decide (t = t') then qval a else 0) ∧
  tb_fee_pool tb' = tb_fee_pool tb ∧
  (∀ k, is_Some (tb_balances tb !! k) → is_Some (tb_balances tb' !! k)).
Proof.
  unfold tb_deposit. intros HT. apply bind_Done in HT as ([[] tb1] & HT & [= <-]).
  apply with_write_back_Done in HT as (wb' & E & ->). apply bind_Done in E as (wb1 & E & [= <-]).
  pose proof (wb_new_ok (tb_balances tb) (tb_fee_pool tb)) as Hok.
  pose proof (λ t', wb_deposit_supply _ _ _ _ _ t' Hok E) as Hsup.
  apply wb_deposit_Done in E as ([Hok1 Hb1] & Hr & Hf & Hfe); [|done].
  split_and!; simpl.
  - intros k. by rewrite flush_view, Hr, view_new.
  - intros k. by rewrite flush_view, Hf, view_new.
  - intros t'. rewrite <-wb_supply_new. apply Hsup.
  - done.
  - intros k Hk. apply flush_keeps. by rewrite Hb1.
Qed.

(** A single fallible operation on one row. *)
Lemma try_mutate_tb {E} tb k (f : Balance → exec (result Balance E)) r tb' :
  with_write_back tb (λ wb, try_mutate wb k f) = Done (r, tb') →
  match r with
  | Err e => f (amount_of (tb_balances tb) k) = Done (Err e) ∧ tb' = tb
  | Ok _ => ∃ b', f (amount_of (tb_balances tb) k) = Done (Ok b') ∧
      tb_fee_pool tb' = tb_fee_pool tb ∧
      (∀ k', amount_of (tb_balances tb') k' =
         if decide (k' = k) then b' else amount_of (tb_balances tb) k') ∧
      (∀ k', is_Some (tb_balances tb !! k') → is_Some (tb_balances tb' !! k'))
  end.
Proof.
  intros HT. apply with_write_back_Done in HT as (wb' & HT & ->).
  pose proof (wb_new_ok (tb_balances tb) (tb_fee_pool tb)) as Hok.
  rewrite try_mutate_eq, view_new in HT. apply bind_Done in HT as ([b'|e] & Hf & HT).
  - injection HT as <- <-. exists b'. split_and!; [done|done| |]; simpl.
    + intros k'. rewrite flush_view by (by apply write_row_ok).
      rewrite view_write_row, view_new. done.
    + intros k' Hk'. by apply flush_keeps.
  - injection HT as <- <-. split; [done|]. unfold flush. simpl. rewrite btree_iter_empty. by destruct tb.
Qed.

Lemma users_total_single t m m' k b' :
  (∀ k', amount_of m' k' = if decide (k' = k) then b' else amount_of m k') →
  users_total t m' = users_total t m +
    (if decide (k.1 = t) then bal_total b' - bal_total (amount_of m k) else 0).
Proof.
  intros E. rewrite (users_total_change t m m' k k (bal_total b' - bal_total (amount_of m k)) 0).
  - repeat case_decide; lia.
  - intros k'. rewrite E. unfold at_key. repeat case_decide; simplify_eq; lia.
Qed.

Lemma tb_withdraw_Done tb u t a r tb' :
  tb_withdraw tb u t a = Done (r, tb') →
  match r with
  | Ok _ => qval a ≤ qval (free (amount_of (tb_balances tb) (t, u))) ∧
      (∀ k, reserved (amount_of (tb_balances tb') k) = reserved (amount_of (tb_balances tb) k)) ∧
      (∀ k, qval (free (amount_of (tb_balances tb) k)) =
         qval (free (amount_of (tb_balances tb') k)) + at_key k (t, u) (qval a)) ∧
      (∀ t', supply t' tb' = supply t' tb - if decide (t = t') then qval a else 0)
  | Err e => tb' = tb ∧ qval (free (amount_of (tb_balances tb) (t, u))) < qval a ∧
      e = MkInsufficient (free (amount_of (tb_balances tb) (t, u))) a
  end.
Proof.
  unfold tb_withdraw, wb_withdraw. intros HT. apply try_mutate_tb in HT. destruct r as [[]|e].
  - destruct HT as (b' & Hf & Hfe & Ha & _). rewrite bal_withdraw_eq in Hf.
    destruct (Z.leb_spec (qval a) (qval (free (amount_of (tb_balances tb) (t, u))))); [|done].
    injection Hf as <-. pose proof (qval_range a).
    pose proof (qval_range (free (amount_of (tb_balances tb) (t, u)))). split_and!; [done|..].
    + intros k. rewrite Ha. case_decide; simplify_eq; done.
    + intros k. rewrite Ha. unfold at_key. case_decide; simplify_eq; simpl; [|lia].
      rewrite q_of_Z_val; lia.
    + intros t'. unfold supply. rewrite (users_total_single _ _ _ _ _ Ha), Hfe.
      unfold bal_total; simpl. rewrite q_of_Z_val by lia. case_decide; lia.
  - destruct HT as [Hf ->]. rewrite bal_withdraw_eq in Hf.
    destruct (Z.leb_spec (qval a) (qval (free (amount_of (tb_balances tb) (t, u))))); [done|].
    injection Hf as <-. done.
Qed.

Lemma tb_reserve_Done tb u t a r tb' :
  tb_reserve tb u t a = Done (r, tb') →
  match r with
  | Ok _ => qval a ≤ qval (free (amount_of (tb_balances tb) (t, u))) ∧
      tb_fee_pool tb' = tb_fee_pool tb ∧
      (∀ k, qval (reserved (amount_of (tb_balances tb') k)) =
         qval (reserved (amount_of (tb_balances tb) k)) + at_key k (t, u) (qval a)) ∧
      (∀ k, qval (free (amount_of (tb_balances tb) k)) =
         qval (free (amount_of (tb_balances tb') k)) + at_key k (t, u) (qval a)) ∧
      (∀ t', supply t' tb' = supply t' tb) ∧
      (∀ k, is_Some (tb_balances tb !! k) → is_Some (tb_balances tb' !! k))
  | Err e => tb' = tb ∧ qval (free (amount_of (tb_balances tb) (t, u))) < qval a ∧
      e = MkInsufficient (free (amount_of (tb_balances tb) (t, u))) a
  end.
Proof.
  unfold tb_reserve, wb_reserve. intros HT. apply try_mutate_tb in HT.
  unfold bal_reserve, try_bind in HT. rewrite checked_sub_eq in HT.
  set (b := amount_of (tb_balances tb) (t, u)) in *.
  pose proof (qval_range a). pose proof (qval_range (free b)).
  destruct (decide (qval a ≤ qval (free b))) as [Hle|Hgt].
  - rewrite q_checked_in in HT by lia. cbn [ok_or] in HT.
    destruct r as [[]|e]; [|by destruct HT as [HT _]; destruct (checked_add _ _)].
    destruct HT as (b' & Hf & Hfe & Ha & Hk).
    apply bind_Done in Hf as (rs & Hrs & [= <-]). apply expect_Done, checked_add_Some in Hrs.
    split_and!; [done|done|..|done].
    + intros k. rewrite Ha. unfold at_key. case_decide; simplify_eq; simpl; [done|lia].
    + intros k. rewrite Ha. unfold at_key. case_decide; simplify_eq; simpl; [|lia].
      rewrite q_of_Z_val by lia. fold b. lia.
    + intros t'. unfold supply. rewrite (users_total_single _ _ _ _ _ Ha), Hfe. fold b.
      unfold bal_total; simpl. rewrite q_of_Z_val, Hrs by lia. case_decide; lia.
  - rewrite (proj2 (q_checked_None _)) in HT by lia. cbn [ok_or] in HT.
    destruct r as [[]|e]; [by destruct HT as (? & ? & _)|].
    destruct HT as [[= <-] ->]. split_and!; [done|lia|done].
Qed.

(** Neither traps, a reservation while the reserved balance has room. *)
Lemma tb_withdraw_total tb u t a : ∃ r tb', tb_withdraw tb u t a = Done (r, tb').
Proof.
  unfold tb_withdraw, with_write_back, wb_withdraw. rewrite try_mutate_eq, bal_withdraw_eq.
  cbn [ebind]. destruct (_ <=? _); cbn [ebind]; eauto.
Qed.

Lemma tb_reserve_total tb u t a :
  qval (reserved (amount_of (tb_balances tb) (t, u))) + qval a < 2 ^ 256 →
  ∃ r tb', tb_reserve tb u t a = Done (r, tb').
Proof.
  intros Hr. unfold tb_reserve, with_write_back, wb_reserve. rewrite try_mutate_eq, view_new,
    bal_reserve_eq by done.
  cbn [ebind]. destruct (_ <=? _); cbn [ebind]; eauto.
Qed.
End totals.
