(* ===== verification/History.v ===== *)
(** * The append-and-index record store (src/canister/src/history/mod.rs)

    [History]: a primary map of sequence-stamped records and a per-user index in
    lockstep with it. The abstract view is the log of insertions; the lockstep
    invariant ties both maps to it, and pagination is proved to page through the
    user's part of the log, newest first. *)

From stdpp Require Import prelude gmap sorting.
From Stdlib Require Import ZArith Lia.
From S2P Require Import Prelude Word BTree Ids.

(** [std::ops::Bound] of a range's upper end; every range in the source has an
    inclusive lower end. *)
Inductive RangeBound (K : Type) : Type :=
| Included (k : K)
| Excluded (k : K).
Arguments Included {K} k.
Arguments Excluded {K} k.

Definition below {K} `{Ord K} (b : RangeBound K) (k : K) : bool :=
  match b with
  | Included u => negb (bool_decide (ord_cmp k u = Gt))
  | Excluded u => bool_decide (ord_cmp k u = Lt)
  end.

(** [StableBTreeMap::range]. *)
Definition btree_range {K V} `{Countable K, !Ord K} (m : gmap K V) (lower : K)
    (upper : RangeBound K) : list (K * V) :=
  filter (λ kv, negb (bool_decide (ord_cmp kv.1 lower = Lt)) && below upper kv.1) (btree_iter m).

Inductive CursorNotFound : Type := MkCursorNotFound.

Abbreviation ByUserKey := (CompositeId UserId InsertionSeq).
Definition by_user_first_of (user : UserId) : ByUserKey := MkCompositeId user Seq_ZERO.
Definition by_user_last_of (user : UserId) : ByUserKey := MkCompositeId user Seq_MAX.

Section history.
Context {K V : Type} `{Countable K, !Ord K, !OrdLaws K}.

Record SeqRecord : Type := MkSeqRecord { sr_seq : InsertionSeq; sr_record : V }.

Record History : Type := MkHistory {
  primary : gmap K SeqRecord;
  by_user : gmap ByUserKey K
}.

Definition history_new : History := MkHistory ∅ ∅.

Definition history_len (self : History) : u64 := mk_uint 64 (Z.of_nat (size (primary self))).

Definition history_get (self : History) (key : K) : option V := sr_record <$> primary self !! key.

Definition history_contains_key (self : History) (key : K) : bool :=
  bool_decide (is_Some (primary self !! key)).

Definition history_insert_once (self : History) (user : UserId) (key : K) (record : V) :
    exec History :=
  let seq := MkSeq (history_len self) in
  let! _ := assert (bool_decide (primary self !! key = None)) in
  let self := MkHistory (<[key := MkSeqRecord seq record]> (primary self)) (by_user self) in
  let! _ := assert (bool_decide (by_user self !! MkCompositeId user seq = None)) in
  Done (MkHistory (primary self) (<[MkCompositeId user seq := key]> (by_user self))).

(** [f] returns whether the record changed and the record. *)
Definition history_modify (self : History) (key : K) (f : V → exec (bool * V)) : exec History :=
  let! entry := expect (primary self !! key) in
  let! (changed, record) := f (sr_record entry) in
  Done (if changed : bool then
          MkHistory (<[key := MkSeqRecord (sr_seq entry) record]> (primary self)) (by_user self)
        else self).

Definition page_by_user (self : History) (user : UserId) (after : option K) (length : nat) :
    result (list K) CursorNotFound :=
  let page upper :=
    Ok (take length (reverse (btree_range (by_user self) (by_user_first_of user) upper)).*2) in
  match after with
  | None => page (Included (by_user_last_of user))
  | Some cursor =>
      match primary self !! cursor with
      | None => Err MkCursorNotFound
      | Some entry =>
          let key := MkCompositeId user (sr_seq entry) in
          if bool_decide (by_user self !! key = Some cursor) then page (Excluded key)
          else Err MkCursorNotFound
      end
  end.

Definition range_primary (self : History) (lower : K) (upper : RangeBound K) (length : nat) :
    list (K * V) :=
  (λ kv, (kv.1, sr_record kv.2)) <$> take length (reverse (btree_range (primary self) lower upper)).

Definition iter_primary (self : History) : list (K * V) :=
  (λ kv, (kv.1, sr_record kv.2)) <$> btree_iter (primary self).

(** ** The log of insertions *)

Abbreviation log_entry := (UserId * K * V)%type.

Record lockstep (h : History) (log : list log_entry) : Prop := {
  ls_bound : Z.of_nat (length log) ≤ 2 ^ 64;
  ls_size : size (primary h) = length log;
  ls_primary k s v : primary h !! k = Some (MkSeqRecord s v) ↔
    ∃ u, log !! Z.to_nat (seqZ s) = Some (u, k, v);
  ls_by_user u s k : by_user h !! MkCompositeId u s = Some k ↔
    ∃ v, log !! Z.to_nat (seqZ s) = Some (u, k, v)
}.

Lemma history_new_lockstep : lockstep history_new [].
Proof. split; simpl; [lia|by rewrite map_size_empty|..]; intros; rewrite lookup_empty; naive_solver. Qed.

Lemma seq_lit_val {M} z : 0 ≤ z < 2 ^ 64 → seqZ (seq_lit z : Seq M) = z.
Proof. intros Hz. unfold seqZ, seq_lit; simpl. by apply mk_uint_small. Qed.

(** Positions of the log, and where the next entry goes. *)
Lemma lockstep_position h log (s : InsertionSeq) e :
  lockstep h log → (log ++ [e]) !! Z.to_nat (seqZ s) =
    if decide (seqZ s = Z.of_nat (length log)) then Some e else log !! Z.to_nat (seqZ s).
Proof.
  intros Hl. pose proof (seqZ_range s). case_decide as E.
  - rewrite E, Nat2Z.id, lookup_app_r, Nat.sub_diag by lia. done.
  - destruct (decide (Z.to_nat (seqZ s) < length log)%nat).
    + by rewrite lookup_app_l.
    + etrans; [apply lookup_ge_None_2; rewrite length_app; cbn [length]; lia|].
      symmetry. apply lookup_ge_None_2. lia.
Qed.

Lemma insert_once_spec h log u k v :
  lockstep h log → Z.of_nat (length log) < 2 ^ 64 → primary h !! k = None →
  ∃ h', history_insert_once h u k v = Done h' ∧ lockstep h' (log ++ [(u, k, v)]) ∧
    (∀ k', history_get h' k' = if decide (k' = k) then Some v else history_get h k').
Proof.
  intros Hl Hb Hk. unfold history_insert_once. rewrite Hk, bool_decide_eq_true_2 by done.
  cbn [ebind assert primary by_user].
  set (seq := MkSeq (history_len h)).
  assert (Es : seqZ seq = Z.of_nat (length log)).
  { unfold seq, seqZ, history_len; simpl. rewrite (ls_size _ _ Hl). apply mk_uint_small.
    change (Z.of_N 64) with 64. lia. }
  assert (Hn : by_user h !! MkCompositeId u seq = None).
  { apply eq_None_not_Some. intros [k' (v' & Hv)%(ls_by_user _ _ Hl)].
    rewrite Es, Nat2Z.id in Hv. apply lookup_lt_Some in Hv. lia. }
  rewrite Hn, bool_decide_eq_true_2 by done. cbn [ebind assert]. eexists. split; [done|].
  split; [split; simpl|].
  - rewrite length_app. simpl. lia.
  - rewrite map_size_insert_None, (ls_size _ _ Hl), length_app by done. simpl. lia.
  - intros k' s v'. rewrite (lockstep_position h) by done. rewrite lookup_insert. split.
    + case_decide as Ek; [subst k'; intros [= <- <-]; rewrite decide_True by done; eauto|].
      intros Hp. pose proof Hp as (u' & Hu')%(ls_primary _ _ Hl). case_decide as E2; [|eauto].
      apply lookup_lt_Some in Hu'. lia.
    + intros (u' & Hu'). case_decide as E2.
      * injection Hu' as <- <- <-. rewrite decide_True by done. do 2 f_equal.
        apply seqZ_inj. congruence.
      * assert (Hp : primary h !! k' = Some (MkSeqRecord s v')) by (apply (ls_primary _ _ Hl); eauto).
        rewrite decide_False; [done|]. intros <-. congruence.
  - intros u' s k'. rewrite (lockstep_position h) by done. rewrite lookup_insert. split.
    + case_decide as Ek.
      * injection Ek as <- <-. intros [= <-]. rewrite decide_True by done. eauto.
      * intros Hp. pose proof Hp as (v' & Hv')%(ls_by_user _ _ Hl). case_decide as E2; [|eauto].
        apply lookup_lt_Some in Hv'. lia.
    + intros (v' & Hv'). case_decide as E2.
      * injection Hv' as <- <- <-. rewrite decide_True; [done|]. f_equal. apply seqZ_inj. congruence.
      * rewrite decide_False; [apply (ls_by_user _ _ Hl); eauto|]. intros [= <- <-]. done.
  - intros k'. unfold history_get; simpl. rewrite lookup_insert.
    repeat case_decide; simplify_eq; done.
Qed.

Lemma insert_once_duplicate h u k v :
  primary h !! k ≠ None → history_insert_once h u k v = Trap.
Proof. intros Hk. unfold history_insert_once. by rewrite bool_decide_eq_false_2. Qed.

Lemma history_get_log h log k v :
  lockstep h log → history_get h k = Some v ↔ ∃ i u, log !! i = Some (u, k, v).
Proof.
  intros Hl. unfold history_get. rewrite fmap_Some. split.
  - intros ([s v'] & Hp & ->). apply (ls_primary _ _ Hl) in Hp as (u & Hu). eauto.
  - intros (i & u & Hi). exists (MkSeqRecord (seq_lit (Z.of_nat i)) v). split; [|done].
    apply (ls_primary _ _ Hl). exists u. rewrite seq_lit_val, Nat2Z.id; [done|].
    apply lookup_lt_Some in Hi. pose proof (ls_bound _ _ Hl). lia.
Qed.

(** Modifying a record keeps its place in the log. *)
Lemma modify_spec h log k f v c v' :
  lockstep h log → history_get h k = Some v → f v = Done (c, v') →
  ∃ h' log', history_modify h k f = Done h' ∧ lockstep h' log' ∧
    ((λ e : log_entry, (e.1.1, e.1.2)) <$> log' = (λ e : log_entry, (e.1.1, e.1.2)) <$> log) ∧
    (∀ k', history_get h' k' =
       if decide (k' = k) then Some (if c then v' else v) else history_get h k').
Proof.
  intros Hl Hg Hf. unfold history_modify, history_get in *.
  destruct (primary h !! k) as [[s v0]|] eqn:Hp; [|done]. simpl in Hg. injection Hg as ->.
  cbn [ebind expect sr_record sr_seq]. rewrite Hf. cbn [ebind]. destruct c.
  - pose proof (proj1 (ls_primary _ _ Hl k s v) Hp) as (u & Hu).
    eexists _, (<[Z.to_nat (seqZ s) := (u, k, v')]> log). split; [done|]. split_and!.
    + destruct Hl as [B S P U].
      assert (Hi : ∀ s' e, <[Z.to_nat (seqZ s) := (u, k, v')]> log !! Z.to_nat (seqZ s') = Some e ↔
        (s' = s ∧ e = (u, k, v')) ∨ (s' ≠ s ∧ log !! Z.to_nat (seqZ s') = Some e)).
      { intros s' e. destruct (decide (s' = s)) as [->|Hne].
        - rewrite list_lookup_insert_eq by (by eapply lookup_lt_Some). naive_solver.
        - rewrite list_lookup_insert_ne; [naive_solver|]. intros E. apply Hne, seqZ_inj.
          pose proof (seqZ_range s). pose proof (seqZ_range s'). lia. }
      split; simpl.
      * by rewrite length_insert.
      * rewrite map_size_insert_Some, length_insert by done. done.
      * intros k' s' w. setoid_rewrite Hi. rewrite lookup_insert. case_decide as Ek.
        { subst k'. split.
          - intros [= <- <-]. exists u. by left.
          - intros (u' & [[-> [= <- <-]]|[Hne Hu']]); [done|]. exfalso. apply Hne.
            assert (Hp' : primary h !! k = Some (MkSeqRecord s' w)) by (apply P; eauto). congruence. }
        rewrite P. split.
        { intros (u' & Hu'). exists u'. right. split; [|done]. intros ->. congruence. }
        intros (u' & [[-> [= <- <- <-]]|[Hne Hu']]); [done|eauto].
      * intros u' s' k'. setoid_rewrite Hi. rewrite U. split.
        { intros (w & Hw). destruct (decide (s' = s)) as [->|Hne]; [|exists w; by right].
          rewrite Hu in Hw. injection Hw as <- <- <-. exists v'. by left. }
        intros (w & [[-> [= <- <- <-]]|[Hne Hw]]); eauto.
    + rewrite list_fmap_insert. apply list_insert_id. by rewrite list_lookup_fmap, Hu.
    + intros k'. simpl. rewrite lookup_insert. repeat case_decide; simplify_eq; done.
  - exists h, log. split_and!; [done..|]. intros k'. case_decide; [|done]. subst k'. by rewrite Hp.
Qed.

(** ** Pagination *)

(** The user's keys in insertion order. *)
Definition user_keys (u : UserId) (log : list log_entry) : list K :=
  (λ e : log_entry, e.1.2) <$> filter (λ e : log_entry, e.1.1 = u) log.

(** The user's index entries, from position [i] on. *)
Fixpoint index_entries (u : UserId) (i : Z) (log : list log_entry) : list (ByUserKey * K) :=
  match log with
  | [] => []
  | (u', k, _) :: log =>
      if decide (u' = u) then (MkCompositeId u (seq_lit i), k) :: index_entries u (i + 1) log
      else index_entries u (i + 1) log
  end.

Lemma index_entries_keys u i log : (index_entries u i log).*2 = user_keys u log.
Proof.
  revert i. induction log as [|[[u' k] v] log IH]; intros i; simpl; [done|].
  unfold user_keys in *. rewrite filter_cons. simpl. case_decide; simpl; [f_equal|]; apply IH.
Qed.

Lemma index_entries_elem u i log e :
  e ∈ index_entries u i log ↔ ∃ j k v, log !! j = Some (u, k, v) ∧
    e = (MkCompositeId u (seq_lit (i + Z.of_nat j)), k).
Proof.
  revert i. induction log as [|[[u' k] v] log IH]; intros i; simpl; [set_solver|].
  assert (Htail : (∃ j k' v', log !! j = Some (u, k', v') ∧
      e = (MkCompositeId u (seq_lit (i + 1 + Z.of_nat j)), k')) ↔
    ∃ j k' v', ((u', k, v) :: log) !! S j = Some (u, k', v') ∧
      e = (MkCompositeId u (seq_lit (i + Z.of_nat (S j))), k')).
  { split; intros (j & k' & v' & Hj & ->); exists j, k', v'; (split; [done|]); do 3 f_equal; lia. }
  case_decide as E; rewrite ?elem_of_cons, IH, Htail; split.
  - intros [->|(j & k' & v' & Hj & ->)]; [|eauto 6].
    exists 0%nat, k, v. subst u'. split; [done|]. do 3 f_equal. lia.
  - intros ([|j] & k' & v' & Hj & ->); [left|right; eauto 6].
    simpl in Hj. injection Hj as <- <- <-. do 3 f_equal. lia.
  - intros (j & k' & v' & Hj & ->). eauto 6.
  - intros ([|j] & k' & v' & Hj & ->); [|eauto 6]. simpl in Hj. congruence.
Qed.

Lemma by_user_cmp (u : UserId) (s s' : InsertionSeq) :
  ord_cmp (MkCompositeId u s) (MkCompositeId u s') = Z.compare (seqZ s) (seqZ s').
Proof.
  unfold ord_cmp at 1, CompositeId_Ord; simpl. by rewrite (proj2 (ord_eq u u) eq_refl).
Qed.

Lemma index_entries_sorted u i log :
  0 ≤ i → i + Z.of_nat (length log) ≤ 2 ^ 64 → keys_sorted (index_entries u i log).
Proof.
  revert i. induction log as [|[[u' k] v] log IH]; intros i Hi Hn; simpl in *; [constructor|].
  case_decide; [|apply IH; lia]. constructor; [apply IH; lia|]. apply Forall_forall.
  intros e He. apply index_entries_elem in He as (j & k' & v' & Hj & ->).
  unfold entry_lt, key_lt; simpl. rewrite by_user_cmp, Z.compare_lt_iff.
  apply lookup_lt_Some in Hj. rewrite !seq_lit_val; lia.
Qed.

(** The index range of one user, cut at an upper bound. *)
Lemma filter_sorted {A} (R : relation A) (P : A → bool) l :
  StronglySorted R l → StronglySorted R (filter P l).
Proof.
  induction 1 as [|x l Hl IH Hx]; [constructor|]. rewrite filter_cons. case_decide; [|done].
  constructor; [done|]. apply Forall_forall. intros y [_ Hy]%list_elem_of_filter.
  rewrite Forall_forall in Hx. auto.
Qed.

Lemma first_cmp_iff (u u' : UserId) (s : InsertionSeq) :
  ord_cmp (MkCompositeId u' s) (by_user_first_of u) ≠ Lt ∧
  ord_cmp (MkCompositeId u' s) (by_user_last_of u) ≠ Gt ↔ u' = u.
Proof.
  unfold ord_cmp, CompositeId_Ord, by_user_first_of, by_user_last_of; simpl.
  destruct (ord_cmp u' u) eqn:E; simpl.
  - apply ord_eq in E as ->. split; [done|]. intros _.
    unfold ord_cmp, Seq_Ord. change (seqZ Seq_ZERO) with 0. change (seqZ Seq_MAX) with (2 ^ 64 - 1).
    pose proof (seqZ_range s). split; [rewrite Z.compare_ge_iff|rewrite Z.compare_le_iff]; lia.
  - split; [naive_solver|]. intros ->. by rewrite (proj2 (ord_eq u u) eq_refl) in E.
  - split; [naive_solver|]. intros ->. by rewrite (proj2 (ord_eq u u) eq_refl) in E.
Qed.

Lemma user_range h log u upper :
  lockstep h log → (∀ u' s, below upper (MkCompositeId u' s) = true →
    ord_cmp (MkCompositeId u' s) (by_user_last_of u) ≠ Gt) →
  btree_range (by_user h) (by_user_first_of u) upper =
    filter (λ e, below upper e.1) (index_entries u 0 log).
Proof.
  intros Hl Hup. unfold btree_range.
  apply (StronglySorted_unique entry_lt); [apply filter_sorted, btree_iter_sorted| |].
  { apply filter_sorted, index_entries_sorted; [lia|apply (ls_bound _ _ Hl)]. }
  apply NoDup_Permutation.
  - apply NoDup_filter, keys_sorted_NoDup, btree_iter_sorted.
  - apply NoDup_filter, keys_sorted_NoDup, index_entries_sorted; [lia|apply (ls_bound _ _ Hl)].
  - intros [[u' s] k]. rewrite !list_elem_of_filter, btree_iter_elem, index_entries_elem.
    rewrite (ls_by_user _ _ Hl). simpl. rewrite !Is_true_true, andb_true_iff.
    rewrite negb_true_iff, bool_decide_eq_false. split.
    + intros ([Hlo Hb] & v & Hv).
      assert (u' = u) as -> by (apply (first_cmp_iff u u' s); split; [done|by apply (Hup u' s)]).
      split; [done|]. exists (Z.to_nat (seqZ s)), k, v. split; [done|].
      pose proof (seqZ_range s). rewrite Z2Nat.id by lia. do 2 f_equal.
      apply seqZ_inj. by rewrite seq_lit_val by lia.
    + intros (Hb & j & k' & v & Hj & [= -> -> ->]). pose proof (ls_bound _ _ Hl).
      pose proof (lookup_lt_Some _ _ _ Hj).
      split; [split; [by apply (first_cmp_iff u u)|done]|].
      exists v. by rewrite seq_lit_val, Z.add_0_l, Nat2Z.id by lia.
Qed.

Lemma index_entries_app u i l1 l2 :
  index_entries u i (l1 ++ l2) =
    index_entries u i l1 ++ index_entries u (i + Z.of_nat (length l1)) l2.
Proof.
  revert i. induction l1 as [|[[u' k] v] l1 IH]; intros i; simpl; [by rewrite Z.add_0_r|].
  replace (i + Z.of_nat (S (length l1))) with (i + 1 + Z.of_nat (length l1)) by lia.
  case_decide; simpl; [f_equal|]; apply IH.
Qed.

Lemma filter_all {A} (P : A → bool) (l : list A) : (∀ x, x ∈ l → P x = true) → filter P l = l.
Proof.
  intros HP. induction l as [|x l IH]; [done|]. rewrite filter_cons_True.
  - f_equal. apply IH. intros. apply HP. by right.
  - apply Is_true_true, HP. left.
Qed.

Lemma filter_none {A} (P : A → bool) (l : list A) : (∀ x, x ∈ l → P x = false) → filter P l = [].
Proof.
  intros HP. induction l as [|x l IH]; [done|]. rewrite filter_cons_False.
  - apply IH. intros. apply HP. by right.
  - rewrite (HP x); [by intros []|left].
Qed.

Lemma page_newest h log u n :
  lockstep h log → page_by_user h u None n = Ok (take n (reverse (user_keys u log))).
Proof.
  intros Hl. unfold page_by_user. rewrite (user_range h log u) by (done || intros u' s; simpl;
    rewrite negb_true_iff, bool_decide_eq_false; done).
  rewrite filter_all.
  - by rewrite fmap_reverse, index_entries_keys.
  - intros e He. apply index_entries_elem in He as (j & k & v & _ & ->). simpl.
    rewrite negb_true_iff, bool_decide_eq_false. by apply (first_cmp_iff u u).
Qed.

(** The records older than position [i]. *)
Lemma page_older h log u c n i v :
  lockstep h log → log !! i = Some (u, c, v) →
  page_by_user h u (Some c) n = Ok (take n (reverse (user_keys u (take i log)))).
Proof.
  intros Hl Hi. pose proof (ls_bound _ _ Hl) as Hb. pose proof (lookup_lt_Some _ _ _ Hi) as Hlt.
  assert (Hs : seqZ (seq_lit (Z.of_nat i) : InsertionSeq) = Z.of_nat i) by (apply seq_lit_val; lia).
  assert (Hp : primary h !! c = Some (MkSeqRecord (seq_lit (Z.of_nat i)) v)).
  { apply (ls_primary _ _ Hl). exists u. by rewrite Hs, Nat2Z.id. }
  assert (Hu : by_user h !! MkCompositeId u (seq_lit (Z.of_nat i)) = Some c).
  { apply (ls_by_user _ _ Hl). exists v. by rewrite Hs, Nat2Z.id. }
  unfold page_by_user. rewrite Hp. cbn [sr_seq]. rewrite Hu, bool_decide_eq_true_2 by done.
  rewrite (user_range h log u); [|done|].
  - rewrite <-(take_drop i log) at 1. rewrite index_entries_app, filter_app.
    rewrite filter_all, filter_none, app_nil_r.
    + by rewrite fmap_reverse, index_entries_keys.
    + intros e He. apply index_entries_elem in He as (j & k & w & Hj & ->). simpl.
      rewrite bool_decide_eq_false, by_user_cmp, Z.compare_lt_iff.
      rewrite lookup_drop in Hj. apply lookup_lt_Some in Hj.
      rewrite length_take_le by lia. rewrite !seq_lit_val; lia.
    + intros e He. apply index_entries_elem in He as (j & k & w & Hj & ->). simpl.
      rewrite bool_decide_eq_true, by_user_cmp, Z.compare_lt_iff.
      apply lookup_lt_Some in Hj. rewrite length_take_le in Hj by lia. rewrite !seq_lit_val; lia.
  - intros u' s. simpl. rewrite bool_decide_eq_true. intros Hc Hg.
    pose proof (proj2 (first_cmp_iff u u (seq_lit (Z.of_nat i))) eq_refl) as [_ Hle].
    apply Hle. rewrite (ord_opp (by_user_last_of u)).
    rewrite (ord_lt_trans (by_user_last_of u) (MkCompositeId u' s)); [done| |done].
    by rewrite (ord_opp (MkCompositeId u' s)), Hg.
Qed.

Lemma page_bad_cursor h log u c n :
  lockstep h log → (∀ i v, log !! i ≠ Some (u, c, v)) →
  page_by_user h u (Some c) n = Err MkCursorNotFound.
Proof.
  intros Hl Hc. unfold page_by_user. destruct (primary h !! c) as [[s v]|] eqn:Hp; [|done].
  rewrite bool_decide_eq_false_2; [done|]. intros (w & Hw)%(ls_by_user _ _ Hl).
  by apply Hc in Hw.
Qed.

Lemma lockstep_unique h log i j u u' k v v' :
  lockstep h log → log !! i = Some (u, k, v) → log !! j = Some (u', k, v') → i = j.
Proof.
  intros Hl Hi Hj. pose proof (ls_bound _ _ Hl).
  pose proof (lookup_lt_Some _ _ _ Hi). pose proof (lookup_lt_Some _ _ _ Hj).
  assert (P1 : primary h !! k = Some (MkSeqRecord (seq_lit (Z.of_nat i)) v)).
  { apply (ls_primary _ _ Hl). exists u. by rewrite seq_lit_val, Nat2Z.id by lia. }
  assert (P2 : primary h !! k = Some (MkSeqRecord (seq_lit (Z.of_nat j)) v')).
  { apply (ls_primary _ _ Hl). exists u'. by rewrite seq_lit_val, Nat2Z.id by lia. }
  rewrite P1 in P2. injection P2 as E _. rewrite !Z.mod_small in E by lia. lia.
Qed.

Lemma user_keys_elem u log c :
  c ∈ user_keys u log ↔ ∃ i v, log !! i = Some (u, c, v).
Proof.
  unfold user_keys. rewrite list_elem_of_fmap. split.
  - intros ([[u' c'] v] & -> & [Hu Hin]%list_elem_of_filter). simpl in *. subst u'.
    apply list_elem_of_lookup in Hin as [i Hi]. eauto.
  - intros (i & v & Hi). exists (u, c, v). split; [done|]. apply list_elem_of_filter.
    split; [done|]. by apply list_elem_of_lookup_2 in Hi.
Qed.

Lemma user_keys_NoDup h log u : lockstep h log → NoDup (user_keys u log).
Proof.
  intros Hl. apply (sublist_NoDup _ ((λ e : log_entry, e.1.2) <$> log)).
  2: apply fmap_sublist, sublist_filter.
  apply NoDup_alt. intros i j k. rewrite !list_lookup_fmap, !fmap_Some.
  intros ([[u1 k1] v1] & Hi & ->) ([[u2 k2] v2] & Hj & Ek). simpl in Ek. subst k2.
  by eapply lockstep_unique.
Qed.

(** A cursor continues exactly where the page that ended with it stopped. *)
Lemma page_continues h log u p c rest n :
  lockstep h log → reverse (user_keys u log) = p ++ c :: rest →
  page_by_user h u (Some c) n = Ok (take n rest).
Proof.
  intros Hl E. pose proof (user_keys_NoDup h log u Hl) as Hnd.
  assert (Ek : user_keys u log = reverse rest ++ c :: reverse p).
  { rewrite <-(reverse_involutive (user_keys u log)), E, reverse_app, reverse_cons, <-app_assoc. done. }
  assert (Hc : c ∈ user_keys u log) by (rewrite Ek; set_solver).
  apply user_keys_elem in Hc as (i & v & Hi).
  rewrite (page_older h log u c n i v Hl Hi). do 2 f_equal.
  assert (Hsplit : user_keys u log = user_keys u (take i log) ++ c :: user_keys u (drop (S i) log)).
  { rewrite <-(take_drop_middle log i _ Hi) at 1. unfold user_keys.
    rewrite filter_app, filter_cons_True, fmap_app by done. done. }
  rewrite Hsplit in Ek, Hnd.
  assert (Er : user_keys u (take i log) = reverse rest); [|by rewrite Er, reverse_involutive].
  apply NoDup_app in Hnd as (_ & Hni & _).
  assert (Hni' : c ∉ user_keys u (take i log)) by (intros Hin; by apply (Hni c Hin); left).
  assert (Hnr : c ∉ reverse rest).
  { pose proof (user_keys_NoDup h log u Hl) as Hnd. rewrite Hsplit, Ek in Hnd.
    apply NoDup_app in Hnd as (_ & Hd & _). intros Hin. by apply (Hd c Hin); left. }
  clear -Ek Hni' Hnr. revert Ek Hnr. generalize (reverse rest). revert Hni'.
  generalize (user_keys u (take i log)). intros l. induction l as [|x l IH]; intros Hl [|y r] E Hr;
    simpl in *; simplify_eq; [done|set_solver|set_solver|]. f_equal. apply IH; set_solver.
Qed.

(** Every key of a page has its record. *)
Lemma page_members h log u after n ids k :
  lockstep h log → page_by_user h u after n = Ok ids → k ∈ ids → is_Some (history_get h k).
Proof.
  intros Hl Ep Hk. assert (Hu : k ∈ user_keys u log).
  { destruct after as [c|].
    - destruct (decide (c ∈ user_keys u log)) as [(i & v & Hi)%user_keys_elem|Hni].
      + rewrite (page_older h log u c n i v Hl Hi) in Ep. injection Ep as <-.
        apply elem_of_take in Hk as (j & Hj & _). apply list_elem_of_lookup_2 in Hj.
        rewrite elem_of_reverse in Hj. apply user_keys_elem in Hj as (j' & w & Hj').
        apply lookup_take_Some in Hj' as [Hj' _]. apply user_keys_elem. eauto.
      + rewrite (page_bad_cursor h log) in Ep; [done|done|].
        intros i v Hi. apply Hni, user_keys_elem. eauto.
    - rewrite (page_newest h log) in Ep by done. injection Ep as <-.
      apply elem_of_take in Hk as (j & Hj & _). apply list_elem_of_lookup_2 in Hj.
      by rewrite elem_of_reverse in Hj. }
  apply user_keys_elem in Hu as (i & v & Hi). exists v. apply (history_get_log h log); eauto.
Qed.
End history.
Arguments History K V {_ _}.
Arguments SeqRecord : clear implicits.
