(* ===== verification/OrderHistory.v ===== *)
(** * Order and trade records (src/canister/src/order/history/mod.rs, order/trades/mod.rs) *)

From stdpp Require Import prelude gmap sorting.
From Stdlib Require Import ZArith Lia.
From S2P Require Import Prelude Word BTree Quantity Ids OrderTypes Tokens History.

(** [Timestamp]: nanoseconds since the epoch. *)
Abbreviation Timestamp := u64.

Section order_history.
Context `{PrincipalType}.

(** ** [OrderRecord] and [OrderUpdate] *)

Record OrderRecord : Type := MkOrderRecord {
  or_owner : Principal;
  or_side : Side;
  or_price : Price;
  or_quantity : Quantity;
  or_status : OrderStatus;
  or_created_at : Timestamp;
  or_filled_quantity : Quantity;
  or_last_updated_at : option Timestamp;
  or_time_in_force : TimeInForce;
  or_filled_quote : Quantity;
  or_filled_fee : Quantity;
  or_placed_by : option Principal;
  or_canceled_by : option Principal
}.

Record OrderUpdate : Type := MkOrderUpdate {
  ou_status : option OrderStatus;
  ou_filled_delta : Quantity;
  ou_quote_delta : Quantity;
  ou_fee_delta : Quantity;
  ou_canceled_by : option Principal
}.

Definition update_default : OrderUpdate :=
  MkOrderUpdate None Quantity_ZERO Quantity_ZERO Quantity_ZERO None.
Definition update_status (status : OrderStatus) : OrderUpdate :=
  MkOrderUpdate (Some status) Quantity_ZERO Quantity_ZERO Quantity_ZERO None.
Definition update_cancel (canceled_by : option Principal) : OrderUpdate :=
  MkOrderUpdate (Some Canceled) Quantity_ZERO Quantity_ZERO Quantity_ZERO canceled_by.
Definition update_filled (filled_delta : Quantity) : OrderUpdate :=
  MkOrderUpdate None filled_delta Quantity_ZERO Quantity_ZERO None.

(** Field assignments of a record. *)
Definition set_status (s : OrderStatus) (r : OrderRecord) : OrderRecord :=
  MkOrderRecord (or_owner r) (or_side r) (or_price r) (or_quantity r) s (or_created_at r)
    (or_filled_quantity r) (or_last_updated_at r) (or_time_in_force r) (or_filled_quote r)
    (or_filled_fee r) (or_placed_by r) (or_canceled_by r).
Definition set_canceled_by (c : option Principal) (r : OrderRecord) : OrderRecord :=
  MkOrderRecord (or_owner r) (or_side r) (or_price r) (or_quantity r) (or_status r)
    (or_created_at r) (or_filled_quantity r) (or_last_updated_at r) (or_time_in_force r)
    (or_filled_quote r) (or_filled_fee r) (or_placed_by r) c.
Definition set_filled_quantity (q : Quantity) (r : OrderRecord) : OrderRecord :=
  MkOrderRecord (or_owner r) (or_side r) (or_price r) (or_quantity r) (or_status r)
    (or_created_at r) q (or_last_updated_at r) (or_time_in_force r)
    (or_filled_quote r) (or_filled_fee r) (or_placed_by r) (or_canceled_by r).
Definition set_filled_quote (q : Quantity) (r : OrderRecord) : OrderRecord :=
  MkOrderRecord (or_owner r) (or_side r) (or_price r) (or_quantity r) (or_status r)
    (or_created_at r) (or_filled_quantity r) (or_last_updated_at r) (or_time_in_force r)
    q (or_filled_fee r) (or_placed_by r) (or_canceled_by r).
Definition set_filled_fee (q : Quantity) (r : OrderRecord) : OrderRecord :=
  MkOrderRecord (or_owner r) (or_side r) (or_price r) (or_quantity r) (or_status r)
    (or_created_at r) (or_filled_quantity r) (or_last_updated_at r) (or_time_in_force r)
    (or_filled_quote r) q (or_placed_by r) (or_canceled_by r).
Definition set_last_updated (t : option Timestamp) (r : OrderRecord) : OrderRecord :=
  MkOrderRecord (or_owner r) (or_side r) (or_price r) (or_quantity r) (or_status r)
    (or_created_at r) (or_filled_quantity r) t (or_time_in_force r)
    (or_filled_quote r) (or_filled_fee r) (or_placed_by r) (or_canceled_by r).

(** [OrderUpdate::apply]: whether the record changed, and the record. *)
Definition update_apply (self : OrderUpdate) (order : OrderRecord) : exec (bool * OrderRecord) :=
  let '(changed, order) :=
    match ou_status self with
    | Some new_status =>
        if bool_decide (new_status ≠ or_status order) then
          let order := set_status new_status order in
          (true, if bool_decide (new_status = Canceled)
                 then set_canceled_by (ou_canceled_by self) order else order)
        else (false, order)
    | None => (false, order)
    end in
  let! (changed, order) :=
    if bool_decide (ou_filled_delta self ≠ Quantity_ZERO) then
      let! q := expect (checked_add (or_filled_quantity order) (ou_filled_delta self)) in
      let order := set_filled_quantity q order in
      let! _ := assert (q_leb (or_filled_quantity order) (or_quantity order)) in
      Done (true, order)
    else Done (changed, order) in
  let! (changed, order) :=
    if bool_decide (ou_quote_delta self ≠ Quantity_ZERO) then
      let! q := expect (checked_add (or_filled_quote order) (ou_quote_delta self)) in
      Done (true, set_filled_quote q order)
    else Done (changed, order) in
  let! (changed, order) :=
    if bool_decide (ou_fee_delta self ≠ Quantity_ZERO) then
      let! q := expect (checked_add (or_filled_fee order) (ou_fee_delta self)) in
      Done (true, set_filled_fee q order)
    else Done (changed, order) in
  Done (changed, order).

(** ** [OrderHistory] *)

Abbreviation OrderHistory := (History OrderId OrderRecord).

Definition apply_update (self : OrderHistory) (id : OrderId) (update : OrderUpdate)
    (now : Timestamp) : exec OrderHistory :=
  history_modify self id (λ record,
    let! (changed, record) := update_apply update record in
    Done (changed, if changed : bool then set_last_updated (Some now) record else record)).

Definition orders_after (self : OrderHistory) (user : UserId) (after : option OrderId)
    (length : nat) : result (list OrderId) CursorNotFound :=
  page_by_user self user after length.

(** ** What an update does *)

(** The fields no update touches. *)
Record same_order (r r' : OrderRecord) : Prop := {
  so_owner : or_owner r' = or_owner r;
  so_side : or_side r' = or_side r;
  so_price : or_price r' = or_price r;
  so_quantity : or_quantity r' = or_quantity r;
  so_created : or_created_at r' = or_created_at r;
  so_tif : or_time_in_force r' = or_time_in_force r;
  so_placed : or_placed_by r' = or_placed_by r
}.

#[export] Instance same_order_preorder : PreOrder same_order.
Proof.
  split; [by intros r; split|]. intros r1 r2 r3 A B. destruct A, B. split; congruence.
Qed.

Definition next_status (u : OrderUpdate) (r : OrderRecord) : OrderStatus :=
  default (or_status r) (ou_status u).

Lemma update_apply_Done u r c r' :
  update_apply u r = Done (c, r') →
  same_order r r' ∧ or_status r' = next_status u r ∧
  or_last_updated_at r' = or_last_updated_at r ∧
  qval (or_filled_quantity r') = qval (or_filled_quantity r) + qval (ou_filled_delta u) ∧
  qval (or_filled_quote r') = qval (or_filled_quote r) + qval (ou_quote_delta u) ∧
  qval (or_filled_fee r') = qval (or_filled_fee r) + qval (ou_fee_delta u) ∧
  (qval (ou_filled_delta u) ≠ 0 → qval (or_filled_quantity r') ≤ qval (or_quantity r)) ∧
  (c = false → r' = r).
Proof.
  unfold update_apply, next_status. intros HT.
  destruct (ou_status u) as [s|];
    repeat first [case_bool_decide | progress exec_inv | progress (simplify_eq/=)];
    repeat match goal with
    | E : checked_add _ _ = Some _ |- _ => apply checked_add_Some in E
    | E : q_leb _ _ = true |- _ => rewrite q_leb_spec in E; apply Z.leb_le in E
    | E : ?q u = Quantity_ZERO |- _ => apply (f_equal qval) in E; rewrite qval_zero in E
    end; (split_and!; [by split|..]); simpl; congruence || lia || done.
Qed.

(** An update goes through when the fill stays within the order's quantity and the
    totals within 256 bits. *)
Lemma update_apply_total u r :
  qval (or_filled_quantity r) + qval (ou_filled_delta u) ≤ qval (or_quantity r) →
  qval (or_filled_quote r) + qval (ou_quote_delta u) < 2 ^ 256 →
  qval (or_filled_fee r) + qval (ou_fee_delta u) < 2 ^ 256 →
  ∃ c r', update_apply u r = Done (c, r').
Proof.
  intros Hq Hn Hf. pose proof (qval_range (or_quantity r)).
  pose proof (qval_range (or_filled_quantity r)). pose proof (qval_range (ou_filled_delta u)).
  pose proof (qval_range (or_filled_quote r)). pose proof (qval_range (ou_quote_delta u)).
  pose proof (qval_range (or_filled_fee r)). pose proof (qval_range (ou_fee_delta u)).
  assert (E1 : checked_add (or_filled_quantity r) (ou_filled_delta u) =
    Some (q_of_Z (qval (or_filled_quantity r) + qval (ou_filled_delta u))))
    by (rewrite checked_add_eq; apply q_checked_in; lia).
  assert (E2 : checked_add (or_filled_quote r) (ou_quote_delta u) =
    Some (q_of_Z (qval (or_filled_quote r) + qval (ou_quote_delta u))))
    by (rewrite checked_add_eq; apply q_checked_in; lia).
  assert (E3 : checked_add (or_filled_fee r) (ou_fee_delta u) =
    Some (q_of_Z (qval (or_filled_fee r) + qval (ou_fee_delta u))))
    by (rewrite checked_add_eq; apply q_checked_in; lia).
  assert (E4 : q_leb (q_of_Z (qval (or_filled_quantity r) + qval (ou_filled_delta u)))
    (or_quantity r) = true) by (rewrite q_leb_spec, q_of_Z_val by lia; by apply Z.leb_le).
  unfold update_apply.
  destruct (ou_status u) as [s|];
    repeat (case_bool_decide; simpl; rewrite ?E1; simpl; rewrite ?E4; simpl; rewrite ?E2; simpl;
            rewrite ?E3; simpl); eauto.
Qed.

(** The record after a finished update, with its time stamp. *)
Lemma apply_update_spec (h : OrderHistory) log id u now r c r' :
  lockstep h log → history_get h id = Some r → update_apply u r = Done (c, r') →
  ∃ h' log', apply_update h id u now = Done h' ∧ lockstep h' log' ∧
    ((λ e : UserId * OrderId * OrderRecord, (e.1.1, e.1.2)) <$> log' =
     (λ e : UserId * OrderId * OrderRecord, (e.1.1, e.1.2)) <$> log) ∧
    (∀ id', history_get h' id' = if decide (id' = id)
       then Some (if c : bool then set_last_updated (Some now) r' else r)
       else history_get h id').
Proof.
  intros Hl Hg Hu. unfold apply_update.
  edestruct (modify_spec h log id (λ record,
    let! (changed, record) := update_apply u record in
    Done (changed, if changed : bool then set_last_updated (Some now) record else record)))
    as (h' & log' & E & Hl' & El & Hg'); [done|done|cbn beta; rewrite Hu; done|].
  exists h', log'. split_and!; [done..|]. intros id'. rewrite Hg'. by destruct c.
Qed.

(** ** [TradeHistory] *)

Record TradeRecord : Type := MkTradeRecord {
  tr_side : Side;
  tr_price : Price;
  tr_quantity : Quantity;
  tr_notional : Quantity;
  tr_fee : Quantity;
  tr_fee_token : PairToken;
  tr_is_maker : bool;
  tr_timestamp : Timestamp
}.

Abbreviation TradeHistory := (History TradeId TradeRecord).
Abbreviation TradeLeg := (TradeId * TradeRecord)%type.

Definition trade_append (self : TradeHistory) (taker_leg : TradeLeg) (taker_user : UserId)
    (maker_leg : TradeLeg) (maker_user : UserId) : exec TradeHistory :=
  let! self := history_insert_once self taker_user taker_leg.1 taker_leg.2 in
  history_insert_once self maker_user maker_leg.1 maker_leg.2.

Definition trades_for_order (self : TradeHistory) (order : OrderId) (after : option TradeId)
    (length : nat) : result (list (FillSeq * TradeRecord)) CursorNotFound :=
  let page upper :=
    Ok ((λ kv : TradeId * TradeRecord, (trade_seq kv.1, kv.2)) <$>
        range_primary self (first_of order) upper length) in
  match after with
  | None => page (Included (last_of order))
  | Some id =>
      if bool_decide (trade_order_id id ≠ order) || negb (history_contains_key self id)
      then Err MkCursorNotFound
      else page (Excluded id)
  end.

Definition trades_after (self : TradeHistory) (user : UserId) (after : option TradeId)
    (length : nat) : exec (result (list (TradeId * TradeRecord)) CursorNotFound) :=
  match page_by_user self user after length with
  | Err e => Done (Err e)
  | Ok ids =>
      let! trades := exec_map (λ id, let! trade := expect (history_get self id) in
                                     Done (id, trade)) ids in
      Done (Ok trades)
  end.

(** The range between [first_of] and [last_of] is exactly the order's trades. *)
Lemma trade_range_iff (order : OrderId) (id : TradeId) :
  ord_cmp id (first_of order) ≠ Lt ∧ ord_cmp id (last_of order) ≠ Gt ↔ trade_order_id id = order.
Proof.
  destruct id as [o s]. unfold ord_cmp, CompositeId_Ord at 1 3, first_of, last_of, trade_order_id; simpl.
  destruct (ord_cmp o order) eqn:E; simpl.
  - apply ord_eq in E as ->. split; [done|]. intros _.
    unfold ord_cmp, Seq_Ord. change (seqZ Seq_ZERO) with 0. change (seqZ Seq_MAX) with (2 ^ 64 - 1).
    pose proof (seqZ_range s). split; [rewrite Z.compare_ge_iff|rewrite Z.compare_le_iff]; lia.
  - split; [naive_solver|]. intros ->. by rewrite (proj2 (ord_eq order order) eq_refl) in E.
  - split; [naive_solver|]. intros ->. by rewrite (proj2 (ord_eq order order) eq_refl) in E.
Qed.

(** The trades of one order, in increasing fill order. *)
Definition order_trades (h : TradeHistory) (order : OrderId) : list (TradeId * TradeRecord) :=
  filter (λ kv : TradeId * TradeRecord, trade_order_id kv.1 = order) (iter_primary h).

Lemma trades_for_order_newest h order n :
  trades_for_order h order None n =
    Ok ((λ kv, (trade_seq kv.1, kv.2)) <$> take n (reverse (order_trades h order))).
Proof.
  assert (E : (λ kv, (kv.1, sr_record kv.2)) <$>
      btree_range (primary h) (first_of order) (Included (last_of order)) = order_trades h order).
  { unfold btree_range, order_trades, iter_primary.
    induction (btree_iter (primary h)) as [|[id r] l IH]; [done|].
    rewrite fmap_cons, !filter_cons; simpl. pose proof (trade_range_iff order id) as Hr.
    destruct (decide (trade_order_id id = order)) as [Eo|Eo].
    - rewrite decide_True; simpl; [f_equal; apply IH|].
      apply Hr in Eo as [R1 R2]. by rewrite !bool_decide_eq_false_2 by done.
    - rewrite decide_False; [done|]. intros Hb. apply Eo, Hr.
      apply Is_true_true, andb_true_iff in Hb as [R1 R2]. simpl in R2.
      rewrite negb_true_iff, bool_decide_eq_false in R1, R2. done. }
  unfold trades_for_order, range_primary. by rewrite fmap_take, fmap_reverse, E.
Qed.

Lemma trade_append_spec (h : TradeHistory) log taker_leg tu maker_leg mu :
  lockstep h log → Z.of_nat (length log) + 1 < 2 ^ 64 →
  history_get h taker_leg.1 = None → history_get h maker_leg.1 = None →
  taker_leg.1 ≠ maker_leg.1 →
  ∃ h', trade_append h taker_leg tu maker_leg mu = Done h' ∧
    lockstep h' (log ++ [(tu, taker_leg.1, taker_leg.2); (mu, maker_leg.1, maker_leg.2)]) ∧
    (∀ id, history_get h' id = if decide (id = maker_leg.1) then Some maker_leg.2
       else if decide (id = taker_leg.1) then Some taker_leg.2 else history_get h id).
Proof.
  intros Hl Hb Ht Hm Hne. unfold history_get in Ht, Hm. rewrite fmap_None in Ht, Hm.
  destruct (insert_once_spec h log tu taker_leg.1 taker_leg.2 Hl ltac:(lia) Ht) as (h1 & E1 & Hl1 & G1).
  destruct (insert_once_spec h1 _ mu maker_leg.1 maker_leg.2 Hl1) as (h2 & E2 & Hl2 & G2).
  - rewrite length_app. simpl. lia.
  - specialize (G1 maker_leg.1). unfold history_get in G1. rewrite decide_False in G1 by done.
    rewrite Hm in G1. by apply fmap_None in G1.
  - exists h2. unfold trade_append. rewrite E1. cbn [ebind]. split_and!; [done| |].
    + by rewrite <-app_assoc in Hl2.
    + intros id. rewrite G2, G1. done.
Qed.

Lemma trades_after_total (h : TradeHistory) log u after n :
  lockstep h log →
  match page_by_user h u after n with
  | Err e => trades_after h u after n = Done (Err e)
  | Ok ids => ∃ trades, trades_after h u after n = Done (Ok trades) ∧ trades.*1 = ids ∧
      ∀ id t, (id, t) ∈ trades → history_get h id = Some t
  end.
Proof.
  intros Hl. unfold trades_after. destruct (page_by_user h u after n) as [ids|e] eqn:Ep; [|done].
  pose proof (λ id, page_members h log u after n ids id Hl Ep) as Hin.
  assert (Hmap : ∃ ts, exec_map (λ id, let! trade := expect (history_get h id) in Done (id, trade)) ids
    = Done ts ∧ ts.*1 = ids ∧ ∀ id t, (id, t) ∈ ts → history_get h id = Some t).
  { clear Ep. induction ids as [|id ids IH]; [exists []; set_solver|].
    destruct (Hin id ltac:(left)) as [t Ht]. destruct IH as (ts & Ets & E1 & Hts).
    { intros. apply Hin. by right. }
    exists ((id, t) :: ts).
    split_and!; [simpl; rewrite Ht; simpl; by rewrite Ets|by rewrite fmap_cons, E1|]. intros id' t' [[= -> ->]|Hi]%elem_of_cons; [done|by apply Hts]. }
  destruct Hmap as (ts & -> & E1 & Hts). by exists ts.
Qed.
End order_history.

(** The two histories of the canister. *)
Abbreviation OrderHistory := (History OrderId OrderRecord).
Abbreviation TradeHistory := (History TradeId TradeRecord).
