(* ===== verification/ApiErrors.v ===== *)
(** * User-facing errors (src/libs/types/src/error/mod.rs)

    Every endpoint answers a failure with a disposition (the caller's request, a
    transient condition, the canister itself) and a leaf that names the reason.
    The advisory text next to it ([Error::message]) is for people only and is left
    out: the disposition and the leaf are what clients act on. *)

From stdpp Require Import prelude.
From Stdlib Require Import ZArith NArith.
From S2P Require Import Prelude Word Bytes Quantity QuantityCodec Ids OrderTypes Tokens.

(** Each arm carries an [Option] of its leaf: an older client decodes a leaf it
    does not know as [None]. *)
Inductive ErrorKind (Request Temporary Internal : Type) : Type :=
| RequestError (leaf : option Request)
| TemporaryError (leaf : option Temporary)
| InternalError (leaf : option Internal).
Arguments RequestError {_ _ _} leaf.
Arguments TemporaryError {_ _ _} leaf.
Arguments InternalError {_ _ _} leaf.

(** [Error::request], [Error::temporary] and [Error::internal]. *)
Definition request_error {R T I} (leaf : R) : ErrorKind R T I := RequestError (Some leaf).
Definition temporary_error {R T I} (leaf : T) : ErrorKind R T I := TemporaryError (Some leaf).
Definition internal_error {R T I} (leaf : I) : ErrorKind R T I := InternalError (Some leaf).

Inductive Never : Type := .

(** What the ledgers answer with, of the [icrc-ledger-types] crate; the leaves
    that report one carry it in place of its text. *)
Inductive TransferFromError : Type :=
| TFInsufficientFunds (balance : N)
| TFInsufficientAllowance (allowance : N)
| TFTemporarilyUnavailable
| TFBadFee (expected_fee : N)
| TFBadBurn
| TFCreatedInFuture
| TFDuplicate
| TFGenericError
| TFTooOld.

Inductive TransferError : Type :=
| TEBadFee (expected_fee : N)
| TEInsufficientFunds (balance : N)
| TETemporarilyUnavailable
| TEBadBurn
| TECreatedInFuture
| TEDuplicate
| TEGenericError
| TETooOld.

Section api_errors.
Context `{PrincipalType}.

(** [oisy_trade_types::TokenId] and its conversions from and to the canister's. *)
Record ApiTokenId : Type := MkApiTokenId { api_ledger_id : Principal }.

#[export] Instance ApiTokenId_eq_dec : EqDecision ApiTokenId.
Proof. solve_decision. Defined.

Definition token_from (value : ApiTokenId) : TokenId := MkTokenId (api_ledger_id value).
Definition api_token_id (value : TokenId) : ApiTokenId := MkApiTokenId (ledger_id value).

Lemma token_round_trip t : token_from (api_token_id t) = t.
Proof. by destruct t. Qed.

(** ** Orders *)

Inductive AddLimitOrderRequestError : Type :=
| ApiAmountExceedsMaximum
| ApiUnknownTradingPair
| ApiInvalidPrice (price tick_size : N)
| ApiInvalidQuantity (quantity lot_size : N)
| ApiInsufficientBalance (token : ApiTokenId) (available required : N)
| ApiInvalidNotional (notional min : N) (max : option N).
Inductive AddLimitOrderTemporaryError : Type := ApiTradingHalted.
Definition AddLimitOrderApiError : Type :=
  ErrorKind AddLimitOrderRequestError AddLimitOrderTemporaryError Never.

Inductive CancelLimitOrderRequestError : Type :=
| ApiInvalidOrderId
| ApiOrderNotFound
| ApiNotOrderOwner
| ApiOrderAlreadyTerminal.
Definition CancelLimitOrderApiError : Type := ErrorKind CancelLimitOrderRequestError Never Never.

Inductive GetMyOrdersRequestError : Type :=
| OrdersInvalidOrderId
| OrdersOrderNotFound.
Definition GetMyOrdersApiError : Type := ErrorKind GetMyOrdersRequestError Never Never.

Inductive GetMyTradesRequestError : Type :=
| TradesInvalidOrderId
| TradesInvalidTradeId
| TradesOrderUnknown.
Definition GetMyTradesApiError : Type := ErrorKind GetMyTradesRequestError Never Never.

(** ** Deposits and withdrawals *)

Inductive DepositRequestError : Type :=
| DepositAmountExceedsMaximum
| DepositUnsupportedToken (token_id : ApiTokenId)
| DepositInsufficientFunds (balance : N)
| DepositInsufficientAllowance (allowance : N)
| DepositTradingAccountForbidden.
Inductive DepositTemporaryError : Type :=
| DepositOperationInProgress
| DepositLedgerTemporarilyUnavailable
| DepositCallFailed (ledger : Principal) (reason : list u8).
Inductive DepositInternalError : Type :=
| DepositLedgerError (reason : TransferFromError)
| DepositCandidDecodeFailed (ledger : Principal) (reason : list u8).
Definition DepositError : Type :=
  ErrorKind DepositRequestError DepositTemporaryError DepositInternalError.

Inductive WithdrawRequestError : Type :=
| WithdrawAmountExceedsMaximum
| WithdrawAmountTooSmall (min_amount : N)
| WithdrawUnsupportedToken (token_id : ApiTokenId)
| WithdrawInsufficientBalance (available : N)
| WithdrawTradingAccountForbidden.
Inductive WithdrawTemporaryError : Type :=
| WithdrawOperationInProgress
| WithdrawLedgerTemporarilyUnavailable
| WithdrawCallFailed (ledger : Principal) (reason : list u8)
| WithdrawLedgerFeeChanged.
Inductive WithdrawInternalError : Type :=
| WithdrawLedgerError (reason : TransferError)
| WithdrawLedgerInsufficientFunds (balance : N)
| WithdrawCandidDecodeFailed (ledger : Principal) (reason : list u8).
Definition WithdrawError : Type :=
  ErrorKind WithdrawRequestError WithdrawTemporaryError WithdrawInternalError.

(** ** Market data *)

Inductive GetOrderBookTickerRequestError : Type := TickerUnknownTradingPair.
Definition GetOrderBookTickerError : Type := ErrorKind GetOrderBookTickerRequestError Never Never.

Inductive GetOrderBookDepthRequestError : Type :=
| DepthUnknownTradingPair
| DepthLimitTooLarge (requested max : u32).
Definition GetOrderBookDepthError : Type := ErrorKind GetOrderBookDepthRequestError Never Never.

(** ** Trading accounts *)

Inductive AddTradingAccountRequestError : Type :=
| ApiFundingAccountNotFound
| ApiInvalidTradingAccount
| ApiNonAuthenticatingTradingAccount
| ApiAlreadyTradingAccount
| ApiTooManyTradingAccounts (max : u32).
Inductive AddTradingAccountTemporaryError : Type :=
| ApiFundingOperationInProgress
| ApiRateLimit (retry_after_ns : u64).
Definition AddTradingAccountApiError : Type :=
  ErrorKind AddTradingAccountRequestError AddTradingAccountTemporaryError Never.

Inductive RemoveTradingAccountRequestError : Type := ApiNotAllowed.
Definition RemoveTradingAccountApiError : Type :=
  ErrorKind RemoveTradingAccountRequestError Never Never.

(** The query cannot fail. *)
Definition GetMyTradingAccountsError : Type := ErrorKind Never Never Never.

(** ** Balances *)

(** A [FilterToken] selects a token by its identifier, the one variant there is. *)
Inductive FilterToken : Type := ById (id : ApiTokenId).

Inductive GetBalancesRequestError : Type :=
| TokenNotSupported (filter : FilterToken)
| FilterTooLarge (len max : u32).
Definition GetBalancesError : Type := ErrorKind GetBalancesRequestError Never Never.
End api_errors.
