(* ===== verification/Api.v ===== *)
(** * The types of the Candid interface (src/libs/types/src/lib.rs)

    The requests and answers of the endpoints, and the conversions between them
    and the canister's own types (src/canister/src/order/mod.rs). Candid's [Nat] is
    [N], a text is a list of bytes, a time is its nanoseconds. *)

From stdpp Require Import prelude gmap.
From Stdlib Require Import ZArith NArith Lia.
From S2P Require Import Prelude Word BTree Bytes Quantity QuantityCodec Ids.
From S2P Require Import Fees OrderTypes Tokens History OrderHistory ApiErrors.

Inductive ApiSide : Type := ApiBuy | ApiSell.
Inductive ApiTimeInForce : Type := ApiGoodTilCanceled | ApiFillOrKill.
Inductive ApiPairToken : Type := ApiBase | ApiQuote.
Inductive ApiOrderStatus : Type := ApiPending | ApiOpen | ApiFilled | ApiCanceled | ApiExpired.
Inductive TradingStatus : Type := StatusTrading | StatusHalted.

(** ** Conversions of the enumerations *)

Definition side_from (side : ApiSide) : Side := match side with ApiBuy => Buy | ApiSell => Sell end.
Definition api_side (side : Side) : ApiSide := match side with Buy => ApiBuy | Sell => ApiSell end.
Definition tif_from (tif : ApiTimeInForce) : TimeInForce :=
  match tif with ApiGoodTilCanceled => GoodTilCanceled | ApiFillOrKill => FillOrKill end.
Definition api_tif (tif : TimeInForce) : ApiTimeInForce :=
  match tif with GoodTilCanceled => ApiGoodTilCanceled | FillOrKill => ApiFillOrKill end.
Definition api_pair_token (token : PairToken) : ApiPairToken :=
  match token with Base => ApiBase | Quote => ApiQuote end.
Definition api_status (status : OrderStatus) : ApiOrderStatus :=
  match status with
  | Pending => ApiPending
  | Open => ApiOpen
  | Filled => ApiFilled
  | Canceled => ApiCanceled
  | Expired => ApiExpired
  end.

(** [From<Price>], [From<TickSize>] and [From<LotSize>] for [Nat]. *)
Definition nat_of_price (price : Price) : N := Z.to_N price.
Definition nat_of_tick (tick_size : TickSize) : N := Z.to_N tick_size.
Definition nat_of_lot (lot_size : LotSize) : N := Z.to_N lot_size.

Section api.
Context `{PrincipalType} `{BigUint}.

(** ** Tokens and pairs *)

Record ApiTokenMetadata : Type := MkApiTokenMetadata { am_symbol : list u8; am_decimals : u8 }.
Record ApiToken : Type := MkApiToken { at_id : ApiTokenId; at_metadata : ApiTokenMetadata }.
Record ApiTradingPair : Type := MkApiTradingPair { ap_base : Principal; ap_quote : Principal }.

Definition metadata_from (value : ApiTokenMetadata) : TokenMetadata :=
  MkTokenMetadata (am_symbol value) (am_decimals value).
Definition api_metadata (value : TokenMetadata) : ApiTokenMetadata :=
  MkApiTokenMetadata (symbol value) (decimals value).
Definition pair_from (value : ApiTradingPair) : TradingPair :=
  MkTradingPair (MkTokenId (ap_base value)) (MkTokenId (ap_quote value)).
Definition api_pair (value : TradingPair) : ApiTradingPair :=
  MkApiTradingPair (ledger_id (base value)) (ledger_id (quote value)).

(** ** Requests *)

Record LimitOrderRequest : Type := MkLimitOrderRequest {
  lr_pair : ApiTradingPair;
  lr_side : ApiSide;
  lr_price : N;
  lr_quantity : N;
  lr_time_in_force : option ApiTimeInForce
}.

Record AddTradingPairRequest : Type := MkAddTradingPairRequest {
  tr_base : ApiToken;
  tr_quote : ApiToken;
  tr_tick_size : N;
  tr_lot_size : N;
  tr_maker_fee_bps : u16;
  tr_taker_fee_bps : u16;
  tr_min_notional : N;
  tr_max_notional : option N
}.

Inductive AddTradingPairError : Type :=
| PairNotController
| BaseEqualsQuote
| InvalidTickSizeParam
| InvalidLotSizeParam
| PairInvalidBasisPoint (bps : u16)
| TradingPairAlreadyExists
| PairInconsistentTokenMetadata (token : ApiTokenId) (expected submitted : ApiTokenMetadata)
| BaseDecimalsTooLarge (decimals : u8)
| IndivisibleTickLotForBaseDecimals (tick_size lot_size : N) (base_decimals : u8)
| InvalidNotionalBounds (min_notional : N) (max_notional : option N).

(** The controller-gated endpoints refuse any other caller. *)
Inductive ApiUnauthorizedError : Type := ApiNotController.

Record GetOrderBookDepthRequest : Type := MkGetOrderBookDepthRequest {
  gd_trading_pair : ApiTradingPair;
  gd_limit : option u32
}.

Record DepositRequest : Type := MkDepositRequest { dr_token_id : ApiTokenId; dr_amount : N }.
Record WithdrawRequest : Type := MkWithdrawRequest { wr_token_id : ApiTokenId; wr_amount : N }.

(** ** Answers *)

Record DepositResponse : Type := MkDepositResponse { dr_block_index : N }.
Record WithdrawResponse : Type := MkWithdrawResponse { wr_block_index : N }.

Record TradingPairInfo : Type := MkTradingPairInfo {
  tpi_base : ApiToken;
  tpi_quote : ApiToken;
  tpi_status : TradingStatus;
  tpi_tick_size : N;
  tpi_lot_size : N;
  tpi_maker_fee_bps : u16;
  tpi_taker_fee_bps : u16;
  tpi_min_notional : N;
  tpi_max_notional : option N
}.

Record ApiPriceLevel : Type := MkApiPriceLevel { apl_price : N; apl_quantity : N }.
Record OrderBookTicker : Type := MkOrderBookTicker {
  tk_bid : option ApiPriceLevel; tk_ask : option ApiPriceLevel
}.
Record OrderBookDepth : Type := MkOrderBookDepth {
  dp_bids : list ApiPriceLevel; dp_asks : list ApiPriceLevel
}.

Record ApiOrderRecord : Type := MkApiOrderRecord {
  ao_owner : Principal;
  ao_side : ApiSide;
  ao_price : N;
  ao_quantity : N;
  ao_filled_quantity : N;
  ao_status : ApiOrderStatus;
  ao_created_at : u64;
  ao_last_updated_at : option u64;
  ao_time_in_force : ApiTimeInForce;
  ao_filled_quote : N;
  ao_filled_fee : N;
  ao_placed_by : option Principal;
  ao_canceled_by : option Principal
}.

Record UserOrder : Type := MkUserOrder {
  uo_id : list u8; uo_pair : ApiTradingPair; uo_order : ApiOrderRecord
}.

Record Trade : Type := MkTrade {
  t_id : list u8;
  t_order_id : list u8;
  t_side : ApiSide;
  t_price : N;
  t_quantity : N;
  t_notional : N;
  t_fee : N;
  t_fee_token : ApiPairToken;
  t_is_maker : bool;
  t_timestamp : u64
}.

Record ApiBalance : Type := MkApiBalance { ab_free : N; ab_reserved : N }.
Record UserTokenBalance : Type := MkUserTokenBalance {
  utb_token : ApiToken; utb_balance : ApiBalance
}.

(** ** Records and trades as the interface shows them *)

(** [From<OrderRecord> for oisy_trade_types::OrderRecord]. *)
Definition api_order_record (record : OrderRecord) : ApiOrderRecord :=
  MkApiOrderRecord (or_owner record) (api_side (or_side record)) (nat_of_price (or_price record))
    (to_nat (or_quantity record)) (to_nat (or_filled_quantity record))
    (api_status (or_status record)) (or_created_at record) (or_last_updated_at record)
    (api_tif (or_time_in_force record)) (to_nat (or_filled_quote record))
    (to_nat (or_filled_fee record)) (or_placed_by record) (or_canceled_by record).

(** [TradeRecord::into_public]. *)
Definition into_public (self : TradeRecord) (id : TradeId) : Trade :=
  MkTrade (to_string id) (to_string (trade_order_id id)) (api_side (tr_side self))
    (nat_of_price (tr_price self)) (to_nat (tr_quantity self)) (to_nat (tr_notional self))
    (to_nat (tr_fee self)) (api_pair_token (tr_fee_token self)) (tr_is_maker self)
    (tr_timestamp self).

(** ** The selectors of the paged queries *)

Definition MAX_ORDERS_PER_RESPONSE : u32 := mk_uint 32 100.
Definition MAX_TRADES_PER_RESPONSE : u32 := mk_uint 32 100.
Definition DEFAULT_DEPTH_LIMIT : u32 := mk_uint 32 100.
Definition MAX_DEPTH_LIMIT : u32 := mk_uint 32 1000.
Definition MAX_FILTER_LEN : u32 := mk_uint 32 100.

Record GetMyOrdersPage : Type := MkGetMyOrdersPage { mp_after : option (list u8); mp_length : u32 }.
Inductive GetMyOrdersFilter : Type :=
| OrderById (id : list u8)
| OrdersByPage (page : GetMyOrdersPage).
Record GetMyOrdersArgs : Type := MkGetMyOrdersArgs { mo_filter : GetMyOrdersFilter }.

Definition page_default : GetMyOrdersPage := MkGetMyOrdersPage None MAX_ORDERS_PER_RESPONSE.
Definition filter_default : GetMyOrdersFilter := OrdersByPage page_default.
Definition args_default : GetMyOrdersArgs := MkGetMyOrdersArgs filter_default.

Record TradesByOrder : Type := MkTradesByOrder {
  bo_order_id : list u8; bo_after : option (list u8); bo_length : u32
}.
Record TradesByAccount : Type := MkTradesByAccount { ba_after : option (list u8); ba_length : u32 }.
Inductive TradesFilter : Type :=
| ByOrder (by_order : TradesByOrder)
| ByAccount (by_account : TradesByAccount).
Record GetMyTradesArgs : Type := MkGetMyTradesArgs { mt_filter : TradesFilter }.

(** ** The conversions lose nothing *)

Lemma side_round_trip side : side_from (api_side side) = side.
Proof. by destruct side. Qed.
Lemma tif_round_trip tif : tif_from (api_tif tif) = tif.
Proof. by destruct tif. Qed.
Lemma pair_round_trip p : pair_from (api_pair p) = p.
Proof. by destruct p as [[] []]. Qed.
Lemma metadata_round_trip m : metadata_from (api_metadata m) = m.
Proof. by destruct m. Qed.

#[export] Instance api_side_inj : Inj (=) (=) api_side.
Proof. by intros [] []. Qed.
#[export] Instance api_tif_inj : Inj (=) (=) api_tif.
Proof. by intros [] []. Qed.
#[export] Instance api_status_inj : Inj (=) (=) api_status.
Proof. by intros [] []. Qed.
#[export] Instance api_pair_token_inj : Inj (=) (=) api_pair_token.
Proof. by intros [] []. Qed.
#[export] Instance api_token_id_inj : Inj (=) (=) api_token_id.
Proof. intros a b E. by rewrite <- (token_round_trip a), E, token_round_trip. Qed.
#[export] Instance api_metadata_inj : Inj (=) (=) api_metadata.
Proof. intros a b E. by rewrite <- (metadata_round_trip a), E, metadata_round_trip. Qed.
#[export] Instance to_nat_inj : Inj (=) (=) to_nat.
Proof.
  intros a b E. apply (f_equal Z.of_N) in E. rewrite !to_nat_val in E.
  by rewrite <- (q_of_Z_qval a), E, q_of_Z_qval.
Qed.
#[export] Instance nat_of_price_inj : Inj (=) (=) nat_of_price.
Proof.
  intros a b E. unfold nat_of_price in E. pose proof (u128_range a). pose proof (u128_range b).
  apply uint_eq. lia.
Qed.
End api.
