(* ===== verification/Settlement.v ===== *)
(** * Settlement (src/canister/src/settlement/mod.rs)

    What a matching round turns into: the balance operations and the lean fill
    records of every fill, packed into bounded batches, and the updates of the
    order records. *)

From stdpp Require Import prelude gmap sorting.
From Stdlib Require Import ZArith Lia.
From S2P Require Import Prelude Word BTree Quantity Ids Fees OrderTypes.
From S2P Require Import Tokens History OrderHistory OrderBook BookInvMatch.

(** [event::BalanceOperation]. *)
Inductive BalanceOperation : Type :=
| Transfer (from_order to_order : OrderSeq) (token : PairToken) (amount : Quantity)
    (fee : option Quantity)
| Unreserve (order : OrderSeq) (token : PairToken) (amount : Quantity).

Record FillEvent : Type := MkFillEvent {
  fv_fill_seq : FillSeq;
  fv_taker_order_seq : OrderSeq;
  fv_maker_order_seq : OrderSeq;
  fv_quantity : Quantity;
  fv_fee_rates : FeeRates
}.

Record SettlementBatch : Type := MkBatch {
  sb_operations : list BalanceOperation;
  sb_fills : list FillEvent
}.
Definition batch_default : SettlementBatch := MkBatch [] [].

Record SettlementUnit : Type := MkUnit {
  su_operations : list BalanceOperation;
  su_fill : option FillEvent
}.

(** [SettlementBatch::add_unit] and [is_empty]. *)
Definition add_unit (self : SettlementBatch) (unit : SettlementUnit) : SettlementBatch :=
  MkBatch (sb_operations self ++ su_operations unit)
    (match su_fill unit with Some fill => sb_fills self ++ [fill] | None => sb_fills self end).

Definition batch_is_empty (self : SettlementBatch) : bool :=
  match sb_operations self with [] => true | _ => false end &&
  match sb_fills self with [] => true | _ => false end.

(** The loop of [pack_settlement_units]. *)
Fixpoint pack_loop (cap : nat) (batches : list SettlementBatch) (current : SettlementBatch)
    (units_in_current : nat) (units : list SettlementUnit) :
    list SettlementBatch * SettlementBatch :=
  match units with
  | [] => (batches, current)
  | unit :: units =>
      let '(batches, current, units_in_current) :=
        if (units_in_current =? cap)%nat then (batches ++ [current], batch_default, 0%nat)
        else (batches, current, units_in_current) in
      pack_loop cap batches (add_unit current unit) (units_in_current + 1) units
  end.

Definition pack_settlement_units (units : list SettlementUnit)
    (max_settlement_units_per_event : nonzero 32) : list SettlementBatch :=
  let cap := Z.to_nat max_settlement_units_per_event in
  let '(batches, current) := pack_loop cap [] batch_default 0 units in
  if negb (batch_is_empty current) then batches ++ [current] else batches.

(** ** Fills *)

Record FillSettlement : Type := MkFillSettlement {
  fs_fill : Fill;
  fs_notional : Quantity;
  fs_taker_fee : Quantity;
  fs_maker_fee : Quantity;
  fs_surplus : Quantity;
  fs_fee_rates : FeeRates
}.

Definition nonzero_fee (q : Quantity) : option Quantity := if is_zero q then None else Some q.

(** [fees]: the notional, the taker's fee and the maker's fee. *)
Definition fees (maker_price : Price) (quantity : Quantity) (taker_side : Side)
    (fee_rates : FeeRates) (base_scale : nonzero 64) : exec (Quantity * Quantity * Quantity) :=
  let '(buyer_rate, seller_rate) :=
    match taker_side with
    | Buy => (taker fee_rates, maker fee_rates)
    | Sell => (maker fee_rates, taker fee_rates)
    end in
  let! notional := checked_mul_quantity_scaled maker_price quantity base_scale in
  let! notional := expect notional in
  let! quote_fee := mul_ceil seller_rate notional in
  let! base_fee := mul_ceil buyer_rate quantity in
  let '(taker_fee, maker_fee) :=
    match taker_side with Buy => (base_fee, quote_fee) | Sell => (quote_fee, base_fee) end in
  Done (notional, taker_fee, maker_fee).

(** [FillSettlement::new]. *)
Definition fill_settlement_new (fill : Fill) (fee_rates : FeeRates) (base_scale : nonzero 64) :
    exec FillSettlement :=
  let! (notional, taker_fee, maker_fee) :=
    fees (maker_price fill) (fill_quantity fill) (taker_side fill) fee_rates base_scale in
  let! surplus :=
    match taker_side fill, price_checked_sub (taker_price fill) (maker_price fill) with
    | Buy, Some diff =>
        if negb (price_is_zero diff) then
          let! product := checked_mul_quantity_scaled diff (fill_quantity fill) base_scale in
          expect product
        else Done Quantity_ZERO
    | _, _ => Done Quantity_ZERO
    end in
  Done (MkFillSettlement fill notional taker_fee maker_fee surplus fee_rates).

(** [FillSettlement::balance_operations]. *)
Definition fill_operations (self : FillSettlement) : list BalanceOperation :=
  let fill := fs_fill self in
  let '(buyer_seq, seller_seq) :=
    match taker_side fill with
    | Buy => (taker_order_seq fill, maker_order_seq fill)
    | Sell => (maker_order_seq fill, taker_order_seq fill)
    end in
  let '(quote_fee, base_fee) :=
    match taker_side fill with
    | Buy => (fs_maker_fee self, fs_taker_fee self)
    | Sell => (fs_taker_fee self, fs_maker_fee self)
    end in
  [Transfer buyer_seq seller_seq Quote (fs_notional self) (nonzero_fee quote_fee)] ++
  (if negb (is_zero (fs_surplus self))
   then [Unreserve (taker_order_seq fill) Quote (fs_surplus self)] else []) ++
  [Transfer seller_seq buyer_seq Base (fill_quantity fill) (nonzero_fee base_fee)].

Definition fill_event (self : FillSettlement) : FillEvent :=
  MkFillEvent (fill_seq (fs_fill self)) (taker_order_seq (fs_fill self))
    (maker_order_seq (fs_fill self)) (fill_quantity (fs_fill self)) (fs_fee_rates self).

Definition fee_token (side : Side) : PairToken := match side with Buy => Base | Sell => Quote end.

(** [FillEvent::trade_legs]. *)
Definition trade_legs (self : FillEvent) (book_id : OrderBookId) (taker_side : Side)
    (maker_price : Price) (base_scale : nonzero 64) (timestamp : Timestamp) :
    exec ((TradeId * TradeRecord) * (TradeId * TradeRecord)) :=
  let! (notional, taker_fee, maker_fee) :=
    fees maker_price (fv_quantity self) taker_side (fv_fee_rates self) base_scale in
  let maker_side := match taker_side with Buy => Sell | Sell => Buy end in
  let taker_id := MkCompositeId (MkCompositeId book_id (fv_taker_order_seq self)) (fv_fill_seq self) in
  let taker_leg := MkTradeRecord taker_side maker_price (fv_quantity self) notional taker_fee
                     (fee_token taker_side) false timestamp in
  let maker_id := MkCompositeId (MkCompositeId book_id (fv_maker_order_seq self)) (fv_fill_seq self) in
  let maker_leg := MkTradeRecord maker_side maker_price (fv_quantity self) notional maker_fee
                     (fee_token maker_side) true timestamp in
  Done ((taker_id, taker_leg), (maker_id, maker_leg)).

(** ** Removed orders *)

Record RemovedOrderSettlement : Type := MkRemovedSettlement {
  rs_order_seq : OrderSeq; rs_token : PairToken; rs_amount : Quantity
}.

Definition removed_settlement_new (order_seq : OrderSeq) (removed : RemovedOrder)
    (base_scale : nonzero 64) : exec RemovedOrderSettlement :=
  match ro_side removed with
  | Buy =>
      let! product :=
        checked_mul_quantity_scaled (ro_price removed) (ro_remaining removed) base_scale in
      let! amount := expect product in
      Done (MkRemovedSettlement order_seq Quote amount)
  | Sell => Done (MkRemovedSettlement order_seq Base (ro_remaining removed))
  end.

Definition removed_operations (self : RemovedOrderSettlement) : list BalanceOperation :=
  [Unreserve (rs_order_seq self) (rs_token self) (rs_amount self)].

(** ** [MatchSettlement] *)

Section match_settlement.
Context `{PrincipalType}.

Record MatchSettlement : Type := MkMatchSettlement {
  order_updates : gmap OrderSeq OrderUpdate;
  settling_batches : list SettlementBatch
}.

(** One iteration of the loop of [FillSettlement::accrue_fill]. *)
Definition accrue_one (self : FillSettlement) (updates : gmap OrderSeq OrderUpdate)
    (sf : OrderSeq * Quantity) : exec (gmap OrderSeq OrderUpdate) :=
  let '(order_seq, fee) := sf in
  let update := default update_default (updates !! order_seq) in
  let! filled := expect (checked_add (ou_filled_delta update) (fill_quantity (fs_fill self))) in
  let! quote := expect (checked_add (ou_quote_delta update) (fs_notional self)) in
  let! fee := expect (checked_add (ou_fee_delta update) fee) in
  Done (<[order_seq := MkOrderUpdate (ou_status update) filled quote fee (ou_canceled_by update)]>
          updates).

Definition accrue_fill (self : FillSettlement) (updates : gmap OrderSeq OrderUpdate) :
    exec (gmap OrderSeq OrderUpdate) :=
  exec_fold (accrue_one self) updates
    [(maker_order_seq (fs_fill self), fs_maker_fee self);
     (taker_order_seq (fs_fill self), fs_taker_fee self)].

(** The bodies of the two loops that build the settlement units. *)
Definition settle_fill (fee_rates : FeeRates) (base_scale : nonzero 64)
    (st : gmap OrderSeq OrderUpdate * list SettlementUnit) (fill : Fill) :
    exec (gmap OrderSeq OrderUpdate * list SettlementUnit) :=
  let '(updates, units) := st in
  let! settlement := fill_settlement_new fill fee_rates base_scale in
  let! updates := accrue_fill settlement updates in
  Done (updates, units ++ [MkUnit (fill_operations settlement) (Some (fill_event settlement))]).

Definition settle_expired (base_scale : nonzero 64) (units : list SettlementUnit)
    (entry : OrderSeq * RemovedOrder) : exec (list SettlementUnit) :=
  let! settlement := removed_settlement_new entry.1 entry.2 base_scale in
  Done (units ++ [MkUnit (removed_operations settlement) None]).

(** [updates.entry(seq).or_default().status = Some(status)] for every [seq]. *)
Definition set_statuses (status : OrderStatus) (updates : gmap OrderSeq OrderUpdate)
    (seqs : list OrderSeq) : gmap OrderSeq OrderUpdate :=
  foldl (λ updates seq,
    let update := default update_default (updates !! seq) in
    <[seq := MkOrderUpdate (Some status) (ou_filled_delta update) (ou_quote_delta update)
               (ou_fee_delta update) (ou_canceled_by update)]> updates) updates seqs.

Definition from_matching (output : MatchingOutput) (fee_rates : FeeRates) (base_scale : nonzero 64)
    (max_settlement_units_per_event : nonzero 32) : exec MatchSettlement :=
  let! (updates, units) :=
    exec_fold (settle_fill fee_rates base_scale) (∅, []) (mo_fills output) in
  let! units := exec_fold (settle_expired base_scale) units (btree_iter (mo_expired_orders output)) in
  let batches := pack_settlement_units units max_settlement_units_per_event in
  let updates := set_statuses Open updates (bset_iter (mo_resting_orders output)) in
  let updates := set_statuses Filled updates (bset_iter (mo_filled_orders output)) in
  let updates := set_statuses Expired updates (btree_iter (mo_expired_orders output)).*1 in
  Done (MkMatchSettlement updates batches).
End match_settlement.

(** ** Packing *)

(** The batch a group of units makes. *)
Definition batch_of (units : list SettlementUnit) : SettlementBatch :=
  MkBatch (concat (su_operations <$> units)) (omap su_fill units).

Lemma batch_of_snoc units u : batch_of (units ++ [u]) = add_unit (batch_of units) u.
Proof.
  unfold batch_of, add_unit; simpl. rewrite fmap_app, concat_app, omap_app; simpl.
  rewrite app_nil_r. destruct (su_fill u); simpl; [done|by rewrite app_nil_r].
Qed.

(** A sensible cut of [units]: the groups in order, each of 1 to [cap] units. *)
Record packing (cap : nat) (units : list SettlementUnit) (groups : list (list SettlementUnit)) :
    Prop := {
  pk_concat : concat groups = units;
  pk_size : Forall (λ g, (0 < length g ≤ cap)%nat) groups
}.

Lemma pack_loop_spec cap units groups cur batches current :
  (0 < cap)%nat → (length cur ≤ cap)%nat →
  Forall (λ g, (0 < length g ≤ cap)%nat) groups →
  batches = batch_of <$> groups → current = batch_of cur →
  ∃ groups' cur', pack_loop cap batches current (length cur) units =
      (batch_of <$> groups', batch_of cur') ∧
    concat groups' ++ cur' = concat groups ++ cur ++ units ∧
    Forall (λ g, (0 < length g ≤ cap)%nat) groups' ∧ (length cur' ≤ cap)%nat.
Proof.
  intros Hcap. revert groups cur batches current.
  induction units as [|u units IH]; intros groups cur batches current Hc Hg -> ->; simpl.
  { exists groups, cur. by rewrite app_nil_r. }
  destruct (Nat.eqb_spec (length cur) cap) as [E|E]; cbn beta iota.
  - destruct (IH (groups ++ [cur]) [u] (batch_of <$> groups ++ [cur]) (batch_of [u]))
      as (g' & c' & El & Ec & ? & ?); [simpl; lia| |done|done|].
    { apply Forall_app. split; [done|]. constructor; [lia|constructor]. }
    exists g', c'. change (add_unit batch_default u) with (add_unit (batch_of []) u).
    rewrite <-batch_of_snoc; cbn [app]. rewrite fmap_app in El. split_and!; [exact El| |done..].
    rewrite Ec, concat_app; simpl. by rewrite app_nil_r, <-app_assoc.
  - destruct (IH groups (cur ++ [u]) (batch_of <$> groups) (batch_of (cur ++ [u])))
      as (g' & c' & El & Ec & ? & ?); [rewrite length_app; simpl; lia|done..|].
    exists g', c'. rewrite <-batch_of_snoc. rewrite length_app in El; simpl in El.
    split_and!; [exact El| |done..]. by rewrite Ec, <-app_assoc.
Qed.

Lemma batch_of_nonempty g :
  g ≠ [] → Forall (λ u, su_operations u ≠ []) g → batch_is_empty (batch_of g) = false.
Proof.
  intros Hne Hg. destruct g as [|u g]; [done|]. apply Forall_cons in Hg as [Hu _].
  unfold batch_is_empty, batch_of; simpl. by destruct (su_operations u).
Qed.

Lemma pack_settlement_units_spec units cap :
  Forall (λ u, su_operations u ≠ []) units →
  ∃ groups, packing (Z.to_nat (nzval cap)) units groups ∧
    pack_settlement_units units cap = batch_of <$> groups.
Proof.
  intros Hu. pose proof (nonzero_pos cap) as Hcap. unfold pack_settlement_units.
  destruct (pack_loop_spec (Z.to_nat (nzval cap)) units [] [] [] batch_default)
    as (g & c & E & Ec & Hg & Hc); [lia|simpl; lia|constructor|done|done|].
  cbn [length] in E. rewrite E. simpl in Ec. destruct c as [|u c].
  - exists g. rewrite app_nil_r in Ec. split; [by split|done].
  - rewrite batch_of_nonempty; [|done|].
    + exists (g ++ [u :: c]). split; [split|by rewrite fmap_app].
      * rewrite concat_app; simpl. by rewrite app_nil_r.
      * apply Forall_app. split; [done|]. constructor; [simpl in *; lia|constructor].
    + rewrite <-Ec in Hu. by apply Forall_app in Hu as [_ Hu].
Qed.
