(* ===== verification/SettlementSpec.v ===== *)
(** * What settlement releases and credits

    Every fill releases, for each of its two orders, exactly the reservation its
    own limit price holds for the filled quantity; the fees are the rates' share
    of what each side receives; a removed order releases its whole reservation. *)

From stdpp Require Import prelude gmap sorting.
From Stdlib Require Import ZArith Lia.
From S2P Require Import Prelude Word BTree Quantity Ids Fees OrderTypes.
From S2P Require Import Tokens History OrderHistory OrderBook BookInv.
From S2P Require Import BookInvMatch BookPending Settlement.

(** ** Amounts *)

(** A price and a quantity whose product settles exactly within 256 bits. *)
Definition settles (p : Price) (q : Quantity) (s : nonzero 64) : Prop :=
  scale_exact p q s ∧ p * qval q < 2 ^ 256.

Lemma scaledZ_range p q s : settles p q s → 0 ≤ scaledZ p q s < 2 ^ 256.
Proof.
  intros [_ Hb]. pose proof (scaledZ_nonneg p q s). pose proof (scaledZ_le_product p q s). lia.
Qed.

Lemma settles_mul p q s :
  settles p q s → checked_mul_quantity_scaled p q s = Done (Some (q_of_Z (scaledZ p q s))).
Proof.
  intros [He Hb]. rewrite checked_mul_quantity_scaled_eq by done. by rewrite (proj2 (Z.ltb_lt _ _)).
Qed.

(** What a side of a fill receives, and the fee it pays out of it. *)
Definition received (side : Side) (p : Price) (q : Quantity) (s : nonzero 64) : Z :=
  match side with Buy => qval q | Sell => scaledZ p q s end.

Lemma received_range side p q s : settles p q s → 0 ≤ received side p q s < 2 ^ 256.
Proof. intros Hs. destruct side; [apply qval_range|by apply scaledZ_range]. Qed.

Lemma fees_eq mp q side rates s :
  settles mp q s →
  fees mp q side rates s =
    Done (q_of_Z (scaledZ mp q s),
          q_of_Z (fee_of (taker rates) (received side mp q s)),
          q_of_Z (fee_of (maker rates) (received (opp side) mp q s))).
Proof.
  intros Hs. pose proof (scaledZ_range mp q s Hs). unfold fees.
  destruct side; rewrite settles_mul by done; cbn [ebind expect];
    rewrite !mul_ceil_eq; cbn [ebind]; by rewrite q_of_Z_val by lia.
Qed.

(** The surplus a buy taker gets back for the price improvement. *)
Definition surplusZ (f : Fill) (s : nonzero 64) : Z :=
  match taker_side f with
  | Buy => scaledZ (taker_price f) (fill_quantity f) s - scaledZ (maker_price f) (fill_quantity f) s
  | Sell => 0
  end.

(** A fill whose prices settle and cross. *)
Record fill_ok (s : nonzero 64) (f : Fill) : Prop := {
  fo_taker : settles (taker_price f) (fill_quantity f) s;
  fo_maker : settles (maker_price f) (fill_quantity f) s;
  fo_cross : stop_at (taker_side f) (taker_price f) (maker_price f) = false;
  fo_distinct : taker_order_seq f ≠ maker_order_seq f
}.

Lemma diff_settles (tp mp diff : Price) q s :
  settles tp q s → settles mp q s → uval diff = tp - mp → 0 ≤ tp - mp →
  settles diff q s ∧ scaledZ diff q s = scaledZ tp q s - scaledZ mp q s.
Proof.
  intros [Et Bt] [Em Bm] Hd Hge. pose proof (nonzero_pos s). pose proof (qval_range q).
  pose proof (scaledZ_mul tp q s Et) as Mt. pose proof (scaledZ_mul mp q s Em) as Mm.
  pose proof (u128_range mp).
  assert (E : diff * qval q = (scaledZ tp q s - scaledZ mp q s) * s) by (rewrite Hd; lia).
  split; [split|].
  - unfold scale_exact. rewrite E. apply Z.mod_mul. lia.
  - rewrite Hd. nia.
  - unfold scaledZ at 1. rewrite E. apply Z.div_mul. lia.
Qed.

Lemma surplus_nonneg f s : fill_ok s f → 0 ≤ surplusZ f s < 2 ^ 256.
Proof.
  intros [Ht Hm Hc _]. unfold surplusZ. destruct (taker_side f); simpl in Hc; [|lia].
  apply Z.ltb_ge in Hc. pose proof (scaledZ_range _ _ _ Ht). pose proof (scaledZ_range _ _ _ Hm).
  pose proof (scaledZ_mul _ _ _ (proj1 Ht)). pose proof (scaledZ_mul _ _ _ (proj1 Hm)).
  pose proof (nonzero_pos s). pose proof (qval_range (fill_quantity f)). nia.
Qed.

Definition settlement_of (f : Fill) (rates : FeeRates) (s : nonzero 64) : FillSettlement :=
  MkFillSettlement f (q_of_Z (scaledZ (maker_price f) (fill_quantity f) s))
    (q_of_Z (fee_of (taker rates) (received (taker_side f) (maker_price f) (fill_quantity f) s)))
    (q_of_Z (fee_of (maker rates) (received (opp (taker_side f)) (maker_price f) (fill_quantity f) s)))
    (q_of_Z (surplusZ f s)) rates.

Lemma fill_settlement_new_eq f rates s :
  fill_ok s f → fill_settlement_new f rates s = Done (settlement_of f rates s).
Proof.
  intros [Ht Hm Hc Hd]. unfold fill_settlement_new, settlement_of, surplusZ.
  rewrite fees_eq by done. cbn [ebind].
  destruct (taker_side f) eqn:Es; simpl in Hc; [|done]. apply Z.ltb_ge in Hc.
  unfold price_checked_sub, u_checked_sub.
  pose proof (u128_range (taker_price f)). pose proof (u128_range (maker_price f)).
  rewrite checked_in by (change (Z.of_N 128) with 128; lia).
  set (diff := mk_uint 128 _).
  assert (Ed : uval diff = taker_price f - maker_price f)
    by (apply mk_uint_small; change (Z.of_N 128) with 128; lia).
  destruct (diff_settles _ _ diff _ _ Ht Hm Ed) as [Hs E]; [lia|].
  unfold price_is_zero. destruct (Z.eqb_spec (uval diff) 0) as [Ez|Ez]; cbn [negb].
  - cbn [ebind]. do 2 f_equal. rewrite <-E. unfold scaledZ. by rewrite Ez, Z.mul_0_l, Zdiv_0_l.
  - rewrite settles_mul by done. cbn [ebind expect]. by rewrite E.
Qed.

(** ** Releases *)

(** The reservation behind an order: which token, and how much of it. *)
Definition pair_side (side : Side) : PairToken := match side with Buy => Quote | Sell => Base end.
Definition reservation (side : Side) (p : Price) (q : Quantity) (s : nonzero 64) : Z :=
  match side with Buy => scaledZ p q s | Sell => qval q end.

(** What operations take out of the reserved balance behind an order. *)
Definition op_released (seq : OrderSeq) (t : PairToken) (op : BalanceOperation) : Z :=
  match op with
  | Transfer from _ t' amount _ => if decide (from = seq ∧ t' = t) then qval amount else 0
  | Unreserve order t' amount => if decide (order = seq ∧ t' = t) then qval amount else 0
  end.
Definition released (seq : OrderSeq) (t : PairToken) (ops : list BalanceOperation) : Z :=
  sum_over (op_released seq t) ops.

Lemma released_app seq t ops ops' :
  released seq t (ops ++ ops') = released seq t ops + released seq t ops'.
Proof. apply sum_over_app. Qed.

Lemma released_surplus seq t (order : OrderSeq) z :
  0 ≤ z < 2 ^ 256 →
  released seq t (if negb (is_zero (q_of_Z z)) then [Unreserve order Quote (q_of_Z z)] else []) =
    if decide (order = seq ∧ Quote = t) then z else 0.
Proof.
  intros Hz. rewrite is_zero_spec, q_of_Z_val by done.
  destruct (Z.eqb_spec z 0) as [->|_]; simpl; unfold released; autorewrite with oisy_sums.
  - by case_decide.
  - unfold op_released. rewrite q_of_Z_val by done. lia.
Qed.

(** A fill releases both reservations, in full and in the right token. *)
Lemma fill_released f rates s seq t :
  fill_ok s f →
  released seq t (fill_operations (settlement_of f rates s)) =
    (if decide (taker_order_seq f = seq ∧ pair_side (taker_side f) = t)
     then reservation (taker_side f) (taker_price f) (fill_quantity f) s else 0) +
    (if decide (maker_order_seq f = seq ∧ pair_side (opp (taker_side f)) = t)
     then reservation (opp (taker_side f)) (maker_price f) (fill_quantity f) s else 0).
Proof.
  intros Hok. pose proof (surplus_nonneg f s Hok) as Hsp.
  destruct Hok as [Ht Hm Hc Hd]. pose proof (scaledZ_range _ _ _ Hm) as Hn.
  unfold fill_operations, settlement_of, surplusZ in *.
  cbn [fs_fill fs_surplus fs_notional fs_maker_fee fs_taker_fee].
  destruct (taker_side f) eqn:Es; cbn beta iota in *; rewrite !released_app, released_surplus by done;
    unfold released; autorewrite with oisy_sums; unfold op_released; rewrite ?q_of_Z_val by lia;
    cbn [pair_side opp reservation]; repeat case_decide; naive_solver lia.
Qed.

(** ** Credits, fees and refunds *)

(** What operations pay into the free balance behind an order, what they withhold from
    those payments for the fee pool, and what they hand back of its reservation. *)
Definition op_fee (op : BalanceOperation) : Z :=
  match op with Transfer _ _ _ _ fee => from_option qval 0 fee | Unreserve _ _ _ => 0 end.
Definition op_credited (seq : OrderSeq) (t : PairToken) (op : BalanceOperation) : Z :=
  match op with
  | Transfer _ to t' amount _ => if decide (to = seq ∧ t' = t) then qval amount - op_fee op else 0
  | Unreserve _ _ _ => 0
  end.
Definition op_charged (seq : OrderSeq) (t : PairToken) (op : BalanceOperation) : Z :=
  match op with
  | Transfer _ to t' _ _ => if decide (to = seq ∧ t' = t) then op_fee op else 0
  | Unreserve _ _ _ => 0
  end.
Definition op_returned (seq : OrderSeq) (t : PairToken) (op : BalanceOperation) : Z :=
  match op with
  | Transfer _ _ _ _ _ => 0
  | Unreserve order t' amount => if decide (order = seq ∧ t' = t) then qval amount else 0
  end.

Lemma nonzero_fee_val q : from_option qval 0 (nonzero_fee q) = qval q.
Proof.
  unfold nonzero_fee. rewrite is_zero_spec. by destruct (Z.eqb_spec (qval q) 0).
Qed.

Lemma fee_range r side p q s : settles p q s → 0 ≤ fee_of r (received side p q s) < 2 ^ 256.
Proof.
  intros Hs. pose proof (received_range side _ _ _ Hs) as Hr.
  pose proof (fee_of_le r (received side p q s) ltac:(lia)). lia.
Qed.

(** The refund is left out when there is nothing to give back. *)
Lemma sum_surplus (g : BalanceOperation → Z) order q :
  (qval q = 0 → g (Unreserve order Quote q) = 0) →
  sum_over g (if negb (is_zero q) then [Unreserve order Quote q] else []) =
    g (Unreserve order Quote q).
Proof.
  intros Hz. rewrite is_zero_spec. destruct (Z.eqb_spec (qval q) 0) as [E|]; simpl;
    autorewrite with oisy_sums; [by rewrite Hz|lia].
Qed.

(** One amount for the taker of a fill in the token it receives, another for its maker. *)
Definition to_receivers (f : Fill) (seq : OrderSeq) (t : PairToken) (as_taker as_maker : Z) : Z :=
  (if decide (taker_order_seq f = seq ∧ pair_side (opp (taker_side f)) = t) then as_taker else 0) +
  (if decide (maker_order_seq f = seq ∧ pair_side (taker_side f) = t) then as_maker else 0).

(** A fill pays each order what its side receives less its fee, charges it that fee,
    and returns to the taker what it reserved above the price it got. *)
Lemma fill_pays f rates s seq t :
  fill_ok s f →
  let ops := fill_operations (settlement_of f rates s) in
  let gets side := received side (maker_price f) (fill_quantity f) s in
  let taker_fee := fee_of (taker rates) (gets (taker_side f)) in
  let maker_fee := fee_of (maker rates) (gets (opp (taker_side f))) in
  sum_over (op_credited seq t) ops =
    to_receivers f seq t (gets (taker_side f) - taker_fee)
      (gets (opp (taker_side f)) - maker_fee) ∧
  sum_over (op_charged seq t) ops = to_receivers f seq t taker_fee maker_fee ∧
  sum_over (op_returned seq t) ops =
    (if decide (taker_order_seq f = seq ∧ pair_side (taker_side f) = t)
     then reservation (taker_side f) (taker_price f) (fill_quantity f) s -
          reservation (taker_side f) (maker_price f) (fill_quantity f) s else 0).
Proof.
  intros Hok ops gets taker_fee maker_fee. pose proof (surplus_nonneg f s Hok) as Hsp.
  pose proof (fo_maker _ _ Hok) as Hm. pose proof (scaledZ_range _ _ _ Hm) as Hn.
  pose proof (λ r side, fee_range r side _ _ _ Hm) as Hf.
  unfold ops, taker_fee, maker_fee, gets, to_receivers, fill_operations, settlement_of, surplusZ in *.
  cbn [fs_fill fs_surplus fs_notional fs_maker_fee fs_taker_fee].
  destruct (taker_side f) eqn:Es; cbn beta iota in *; rewrite !sum_over_app;
    rewrite !sum_surplus by (intros Ez; simpl; try case_decide; done);
    autorewrite with oisy_sums; unfold op_credited, op_charged, op_returned, op_fee;
    rewrite !nonzero_fee_val, !q_of_Z_val by (done || apply Hf);
    cbn [pair_side opp reservation received]; split_and!; repeat case_decide; naive_solver lia.
Qed.

Lemma removed_settlement_eq seq ro s :
  settles (ro_price ro) (ro_remaining ro) s →
  removed_settlement_new seq ro s =
    Done (MkRemovedSettlement seq (pair_side (ro_side ro))
      (q_of_Z (reservation (ro_side ro) (ro_price ro) (ro_remaining ro) s))).
Proof.
  intros Hs. unfold removed_settlement_new. destruct (ro_side ro); simpl.
  - rewrite settles_mul by done. done.
  - by rewrite q_of_Z_qval.
Qed.

(** ** [FillSettlement::accrue_fill] and the fills' loop *)

(** What one fill adds to the totals of the order [seq]. *)
Definition by_role (seq : OrderSeq) (f : Fill) (as_taker as_maker : Z) : Z :=
  qty_if seq (taker_order_seq f) as_taker + qty_if seq (maker_order_seq f) as_maker.

Definition quote_of (s : nonzero 64) (seq : OrderSeq) (f : Fill) : Z :=
  by_role seq f (scaledZ (maker_price f) (fill_quantity f) s)
    (scaledZ (maker_price f) (fill_quantity f) s).
Definition fee_on (rates : FeeRates) (s : nonzero 64) (seq : OrderSeq) (f : Fill) : Z :=
  by_role seq f
    (fee_of (taker rates) (received (taker_side f) (maker_price f) (fill_quantity f) s))
    (fee_of (maker rates) (received (opp (taker_side f)) (maker_price f) (fill_quantity f) s)).

(** The totals of the fills of an order stay within 256 bits. *)
Record fits (rates : FeeRates) (s : nonzero 64) (fs : list Fill) (seq : OrderSeq) : Prop := {
  ft_filled : fills_qty seq fs < 2 ^ 256;
  ft_quote : sum_over (quote_of s seq) fs < 2 ^ 256;
  ft_fee : sum_over (fee_on rates s seq) fs < 2 ^ 256
}.

Definition takes_part (seq : OrderSeq) (f : Fill) : Prop :=
  taker_order_seq f = seq ∨ maker_order_seq f = seq.

Section updates.
Context `{PrincipalType}.

(** The update a map of updates holds for an order ([entry(..).or_default()]). *)
Definition update_at (m : gmap OrderSeq OrderUpdate) (seq : OrderSeq) : OrderUpdate :=
  default update_default (m !! seq).

(** The totals of an update. *)
Definition totals (u : OrderUpdate) (filled quote fee : Z) : Prop :=
  qval (ou_filled_delta u) = filled ∧ qval (ou_quote_delta u) = quote ∧
  qval (ou_fee_delta u) = fee.

Lemma update_at_insert m k u seq :
  update_at (<[k := u]> m) seq = if decide (k = seq) then u else update_at m seq.
Proof. unfold update_at. destruct (decide (k = seq)) as [->|Hn].
  - by rewrite lookup_insert_eq.
  - by rewrite lookup_insert_ne.
Qed.

Lemma accrue_one_spec fs m seq fee :
  let u := update_at m seq in
  qval (ou_filled_delta u) + qval (fill_quantity (fs_fill fs)) < 2 ^ 256 →
  qval (ou_quote_delta u) + qval (fs_notional fs) < 2 ^ 256 →
  qval (ou_fee_delta u) + qval fee < 2 ^ 256 →
  ∃ u', accrue_one fs m (seq, fee) = Done (<[seq := u']> m) ∧
    totals u' (qval (ou_filled_delta u) + qval (fill_quantity (fs_fill fs)))
      (qval (ou_quote_delta u) + qval (fs_notional fs)) (qval (ou_fee_delta u) + qval fee) ∧
    ou_status u' = ou_status u ∧ ou_canceled_by u' = ou_canceled_by u.
Proof.
  intros u H1 H2 H3. unfold accrue_one, totals. fold (update_at m seq). fold u.
  pose proof (qval_range (ou_filled_delta u)). pose proof (qval_range (ou_quote_delta u)).
  pose proof (qval_range (ou_fee_delta u)). pose proof (qval_range (fill_quantity (fs_fill fs))).
  pose proof (qval_range (fs_notional fs)). pose proof (qval_range fee).
  rewrite !checked_add_eq, !q_checked_in by lia. cbn [ebind expect].
  eexists. split; [done|]. simpl. rewrite !q_of_Z_val by lia. done.
Qed.

(** The invariant of the updates map while the fills are processed. *)
Record accrued_updates (rates : FeeRates) (s : nonzero 64) (fs : list Fill)
    (m : gmap OrderSeq OrderUpdate) : Prop := {
  ac_totals : ∀ seq, totals (update_at m seq) (fills_qty seq fs)
    (sum_over (quote_of s seq) fs) (sum_over (fee_on rates s seq) fs);
  ac_status : ∀ seq, ou_status (update_at m seq) = None ∧ ou_canceled_by (update_at m seq) = None;
  ac_dom : ∀ seq, is_Some (m !! seq) ↔ ∃ f, f ∈ fs ∧ takes_part seq f
}.

(** What the totals of an order become with one more fill. *)
Definition role_adds (rates : FeeRates) (s : nonzero 64) (f : Fill) (seq : OrderSeq)
    (q n fee : Z) : Prop :=
  taker_qty seq f + maker_qty seq f = q ∧ quote_of s seq f = n ∧ fee_on rates s seq f = fee.

Lemma taker_adds rates s f :
  taker_order_seq f ≠ maker_order_seq f →
  role_adds rates s f (taker_order_seq f) (qval (fill_quantity f))
    (scaledZ (maker_price f) (fill_quantity f) s)
    (fee_of (taker rates) (received (taker_side f) (maker_price f) (fill_quantity f) s)).
Proof.
  intros Hn. unfold role_adds, taker_qty, maker_qty, quote_of, fee_on, by_role, qty_if.
  split_and!; repeat case_decide; done || lia.
Qed.

Lemma maker_adds rates s f :
  taker_order_seq f ≠ maker_order_seq f →
  role_adds rates s f (maker_order_seq f) (qval (fill_quantity f))
    (scaledZ (maker_price f) (fill_quantity f) s)
    (fee_of (maker rates) (received (opp (taker_side f)) (maker_price f) (fill_quantity f) s)).
Proof.
  intros Hn. unfold role_adds, taker_qty, maker_qty, quote_of, fee_on, by_role, qty_if.
  split_and!; repeat case_decide; done || lia.
Qed.

Lemma other_adds rates s f seq :
  taker_order_seq f ≠ seq → maker_order_seq f ≠ seq → role_adds rates s f seq 0 0 0.
Proof.
  intros H1 H2. unfold role_adds, taker_qty, maker_qty, quote_of, fee_on, by_role, qty_if.
  by rewrite !decide_False by done.
Qed.

Lemma totals_snoc rates s fs f seq q n fee u :
  totals u (fills_qty seq fs + q) (sum_over (quote_of s seq) fs + n)
    (sum_over (fee_on rates s seq) fs + fee) →
  role_adds rates s f seq q n fee →
  totals u (fills_qty seq (fs ++ [f])) (sum_over (quote_of s seq) (fs ++ [f]))
    (sum_over (fee_on rates s seq) (fs ++ [f])).
Proof.
  intros Ht (<- & <- & <-). unfold fills_qty, totals in *. autorewrite with oisy_sums in *. lia.
Qed.

Lemma accrue_one_step rates s fs f m seq q fee :
  totals (update_at m seq) (fills_qty seq fs) (sum_over (quote_of s seq) fs)
    (sum_over (fee_on rates s seq) fs) →
  fits rates s (fs ++ [f]) seq →
  q = qval (fill_quantity f) →
  role_adds rates s f seq q (scaledZ (maker_price f) (fill_quantity f) s) fee →
  settles (maker_price f) (fill_quantity f) s → 0 ≤ fee < 2 ^ 256 →
  ∃ u', accrue_one (settlement_of f rates s) m (seq, q_of_Z fee) = Done (<[seq := u']> m) ∧
    totals u' (fills_qty seq (fs ++ [f])) (sum_over (quote_of s seq) (fs ++ [f]))
      (sum_over (fee_on rates s seq) (fs ++ [f])) ∧
    ou_status u' = ou_status (update_at m seq) ∧
    ou_canceled_by u' = ou_canceled_by (update_at m seq).
Proof.
  intros Ht [F1 F2 F3] -> Ha Hs Hfee. pose proof (scaledZ_range _ _ _ Hs) as Hn.
  pose proof Ht as (T1 & T2 & T3). pose proof Ha as (A1 & A2 & A3).
  unfold fills_qty in F1. autorewrite with oisy_sums in F1, F2, F3. fold (fills_qty seq fs) in F1.
  destruct (accrue_one_spec (settlement_of f rates s) m seq (q_of_Z fee)) as (u & E & Tu & Su & Cu).
  1-3: cbn [settlement_of fs_fill fs_notional]; rewrite ?q_of_Z_val by lia; lia.
  exists u. split_and!; [done| |done..]. eapply totals_snoc; [|exact Ha].
  cbn [settlement_of fs_fill fs_notional] in Tu. rewrite !q_of_Z_val in Tu by lia.
  unfold totals in *. lia.
Qed.

Lemma accrue_fill_spec rates s fs f m :
  accrued_updates rates s fs m → fill_ok s f → (∀ seq, fits rates s (fs ++ [f]) seq) →
  ∃ m', accrue_fill (settlement_of f rates s) m = Done m' ∧ accrued_updates rates s (fs ++ [f]) m'.
Proof.
  intros [Ht Hs Hd] [Hst Hsm Hc Hdist] Hfit.
  assert (Hr : ∀ side rate, 0 ≤ fee_of rate (received side (maker_price f) (fill_quantity f) s) < 2 ^ 256).
  { intros side rate. pose proof (received_range side _ _ _ Hsm).
    pose proof (fee_of_le rate (received side (maker_price f) (fill_quantity f) s)). lia. }
  destruct (accrue_one_step rates s fs f m (maker_order_seq f) _ _ (Ht _) (Hfit _) eq_refl
    (maker_adds rates s f Hdist) Hsm (Hr _ _)) as (u1 & E1 & T1 & S1 & C1).
  assert (Ht1 : totals (update_at (<[maker_order_seq f := u1]> m) (taker_order_seq f))
    (fills_qty (taker_order_seq f) fs) (sum_over (quote_of s (taker_order_seq f)) fs)
    (sum_over (fee_on rates s (taker_order_seq f)) fs))
    by (rewrite update_at_insert, decide_False by done; apply Ht).
  destruct (accrue_one_step rates s fs f _ (taker_order_seq f) _ _ Ht1 (Hfit _) eq_refl
    (taker_adds rates s f Hdist) Hsm (Hr _ _)) as (u2 & E2 & T2 & S2 & C2).
  rewrite update_at_insert, decide_False in S2, C2 by done.
  exists (<[taker_order_seq f := u2]> (<[maker_order_seq f := u1]> m)). split.
  { unfold accrue_fill, exec_fold.
    etrans; [apply (f_equal (λ x, ebind x _) E1)|]. cbn [ebind].
    etrans; [apply (f_equal (λ x, ebind x _) E2)|]. done. }
  split.
  - intros seq. rewrite !update_at_insert. repeat case_decide; subst; [done..|].
    eapply totals_snoc; [|by apply other_adds]. specialize (Ht seq). unfold totals in *. lia.
  - intros seq. rewrite !update_at_insert. repeat case_decide; subst; rewrite ?S1, ?S2, ?C1, ?C2; apply Hs.
  - intros seq. rewrite !lookup_insert_is_Some, Hd.
    setoid_rewrite elem_of_app. setoid_rewrite list_elem_of_singleton. unfold takes_part.
    destruct (decide (taker_order_seq f = seq)); destruct (decide (maker_order_seq f = seq)); naive_solver.
Qed.

(** The fills' loop of [MatchSettlement::from_matching]. *)
Definition fill_unit (rates : FeeRates) (s : nonzero 64) (f : Fill) : SettlementUnit :=
  MkUnit (fill_operations (settlement_of f rates s)) (Some (fill_event (settlement_of f rates s))).

Lemma sum_over_prefix_le {A} (g : A → Z) (l1 l2 : list A) :
  (∀ a, a ∈ l2 → 0 ≤ g a) → sum_over g l1 ≤ sum_over g (l1 ++ l2).
Proof. intros Hg. rewrite sum_over_app. pose proof (sum_over_nonneg g l2 Hg). lia. Qed.

Lemma fits_prefix rates s fs f seq :
  fill_ok s f → fits rates s (fs ++ [f]) seq → fits rates s fs seq.
Proof.
  intros [_ Hsm _ _] [F1 F2 F3]. pose proof (scaledZ_nonneg (maker_price f) (fill_quantity f) s).
  pose proof (qval_range (fill_quantity f)).
  assert (Hr : ∀ side rate, 0 ≤ fee_of rate (received side (maker_price f) (fill_quantity f) s)).
  { intros side rate. pose proof (received_range side _ _ _ Hsm). apply fee_of_le; lia. }
  split; (eapply Z.le_lt_trans; [apply sum_over_prefix_le|eassumption]);
    intros g ->%list_elem_of_singleton;
    unfold taker_qty, maker_qty, quote_of, fee_on, by_role, qty_if;
    pose proof (Hr (taker_side f) (taker rates)); pose proof (Hr (opp (taker_side f)) (maker rates));
    repeat case_decide; lia.
Qed.

Lemma settle_fills_spec rates s fs :
  Forall (fill_ok s) fs → (∀ seq, fits rates s fs seq) →
  ∃ m, exec_fold (settle_fill rates s) (∅, []) fs = Done (m, fill_unit rates s <$> fs) ∧
    accrued_updates rates s fs m.
Proof.
  induction fs as [|f fs IH] using rev_ind; intros Hok Hfit.
  { exists ∅. split; [done|]. split.
    - intros seq. unfold update_at, totals, fills_qty. rewrite lookup_empty.
      autorewrite with oisy_sums. simpl. by rewrite qval_zero.
    - intros seq. unfold update_at. by rewrite lookup_empty.
    - intros seq. rewrite lookup_empty, is_Some_alt. set_solver. }
  apply Forall_app in Hok as [Hok Hf]. rewrite Forall_singleton in Hf.
  destruct IH as (m & E & Hacc); [done|intros seq; apply (fits_prefix rates s fs f seq Hf), Hfit|].
  destruct (accrue_fill_spec rates s fs f m Hacc Hf Hfit) as (m' & E' & Hacc').
  exists m'. split; [|done]. rewrite exec_fold_app, E. cbn [ebind exec_fold settle_fill].
  rewrite fill_settlement_new_eq by done. cbn [ebind]. rewrite E'. cbn [ebind].
  by rewrite fmap_app.
Qed.

(** The expired orders' loop. *)
Definition expired_unit (s : nonzero 64) (e : OrderSeq * RemovedOrder) : SettlementUnit :=
  MkUnit [Unreserve e.1 (pair_side (ro_side e.2))
            (q_of_Z (reservation (ro_side e.2) (ro_price e.2) (ro_remaining e.2) s))] None.

Lemma settle_expired_spec s units es :
  Forall (λ e : OrderSeq * RemovedOrder, settles (ro_price e.2) (ro_remaining e.2) s) es →
  exec_fold (settle_expired s) units es = Done (units ++ (expired_unit s <$> es)).
Proof.
  intros Hes. revert units. induction Hes as [|e es He _ IH]; intros units; simpl.
  { by rewrite app_nil_r. }
  unfold settle_expired at 1. rewrite removed_settlement_eq by done. cbn [ebind].
  rewrite IH, <-app_assoc. done.
Qed.

(** The status assignments. *)
Definition with_status (st : OrderStatus) (u : OrderUpdate) : OrderUpdate :=
  MkOrderUpdate (Some st) (ou_filled_delta u) (ou_quote_delta u) (ou_fee_delta u)
    (ou_canceled_by u).

Lemma set_statuses_spec st seqs m seq :
  set_statuses st m seqs !! seq =
    if decide (seq ∈ seqs) then Some (with_status st (update_at m seq)) else m !! seq.
Proof.
  revert m. unfold set_statuses. induction seqs as [|k seqs IH]; intros m; cbn [foldl].
  { case_decide; set_solver. }
  rewrite IH. fold (update_at m k). fold (with_status st (update_at m k)).
  rewrite update_at_insert. destruct (decide (k = seq)) as [->|Hn].
  - rewrite lookup_insert_eq. repeat case_decide; set_solver.
  - rewrite lookup_insert_ne by done. repeat case_decide; set_solver.
Qed.

(** ** [MatchSettlement::from_matching] *)

Record settleable (rates : FeeRates) (s : nonzero 64) (out : MatchingOutput) : Prop := {
  sl_fills : Forall (fill_ok s) (mo_fills out);
  sl_fits : ∀ seq, fits rates s (mo_fills out) seq;
  sl_expired : ∀ seq ro, mo_expired_orders out !! seq = Some ro →
    settles (ro_price ro) (ro_remaining ro) s
}.

Definition units_of (rates : FeeRates) (s : nonzero 64) (out : MatchingOutput) :
    list SettlementUnit :=
  (fill_unit rates s <$> mo_fills out) ++ (expired_unit s <$> btree_iter (mo_expired_orders out)).

(** The status a round gives to an order. *)
Definition status_in (out : MatchingOutput) (seq : OrderSeq) : option OrderStatus :=
  if decide (seq ∈ dom (mo_expired_orders out)) then Some Expired
  else if decide (seq ∈ mo_filled_orders out) then Some Filled
  else if decide (seq ∈ mo_resting_orders out) then Some Open
  else None.

Record settled (rates : FeeRates) (s : nonzero 64) (cap : nonzero 32) (out : MatchingOutput)
    (ms : MatchSettlement) : Prop := {
  sd_totals : ∀ seq, totals (update_at (order_updates ms) seq) (fills_qty seq (mo_fills out))
    (sum_over (quote_of s seq) (mo_fills out)) (sum_over (fee_on rates s seq) (mo_fills out));
  sd_status : ∀ seq, ou_status (update_at (order_updates ms) seq) = status_in out seq;
  sd_canceled : ∀ seq, ou_canceled_by (update_at (order_updates ms) seq) = None;
  sd_dom : ∀ seq, is_Some (order_updates ms !! seq) ↔
    (∃ f, f ∈ mo_fills out ∧ takes_part seq f) ∨ is_Some (status_in out seq);
  sd_batches : ∃ groups, packing (Z.to_nat (nzval cap)) (units_of rates s out) groups ∧
    settling_batches ms = batch_of <$> groups
}.

Lemma units_nonempty rates s out : Forall (λ u, su_operations u ≠ []) (units_of rates s out).
Proof.
  apply Forall_app. split; apply Forall_fmap, Forall_forall; intros x _; simpl; [|done].
  unfold fill_operations. by repeat case_match.
Qed.

Lemma from_matching_spec rates s cap out :
  settleable rates s out →
  ∃ ms, from_matching out rates s cap = Done ms ∧ settled rates s cap out ms.
Proof.
  intros [Hf Hfit He]. unfold from_matching.
  destruct (settle_fills_spec rates s (mo_fills out) Hf Hfit) as (m & -> & [At As Ad]). cbn [ebind].
  rewrite settle_expired_spec.
  2: { apply Forall_forall. intros [seq ro] Hin%btree_iter_elem. by apply (He seq). }
  cbn [ebind]. eexists. split; [done|].
  assert (Hex : ∀ seq, seq ∈ (btree_iter (mo_expired_orders out)).*1 ↔ seq ∈ dom (mo_expired_orders out)).
  { intros seq. rewrite elem_of_dom, list_elem_of_fmap. split.
    - intros ([k ro] & -> & Hin%btree_iter_elem). by exists ro.
    - intros [ro Hro]. exists (seq, ro). split; [done|]. by apply btree_iter_elem. }
  assert (Hup : ∀ seq, order_updates (MkMatchSettlement
      (set_statuses Expired (set_statuses Filled (set_statuses Open m (bset_iter (mo_resting_orders out)))
         (bset_iter (mo_filled_orders out))) (btree_iter (mo_expired_orders out)).*1) []) !! seq =
    match status_in out seq with
    | Some st => Some (with_status st (update_at m seq)) | None => m !! seq end).
  { intros seq. simpl. unfold status_in, update_at. rewrite !set_statuses_spec. unfold update_at.
    rewrite !set_statuses_spec. unfold update_at. rewrite !set_statuses_spec.
    rewrite (decide_ext _ _ _ _ (Hex seq)), !(decide_ext _ _ _ _ (bset_iter_elem _ seq)).
    by repeat case_decide. }
  simpl in Hup. split; simpl.
  - intros seq. specialize (At seq). unfold update_at at 1. rewrite Hup. by destruct (status_in out seq).
  - intros seq. destruct (As seq) as [As1 _]. unfold update_at at 1. rewrite Hup. by destruct (status_in out seq).
  - intros seq. destruct (As seq) as [_ As2]. unfold update_at at 1. rewrite Hup. by destruct (status_in out seq).
  - intros seq. rewrite Hup, <-Ad, !is_Some_alt. destruct (status_in out seq); [tauto|]. simpl. tauto.
  - apply pack_settlement_units_spec, units_nonempty.
Qed.

(** ** The operations of a whole round *)

Definition batch_ops (bs : list SettlementBatch) : list BalanceOperation :=
  concat (sb_operations <$> bs).
Definition batch_fills (bs : list SettlementBatch) : list FillEvent := concat (sb_fills <$> bs).

Lemma batch_of_ops groups : batch_ops (batch_of <$> groups) = concat (su_operations <$> concat groups).
Proof.
  unfold batch_ops. induction groups as [|g gs IH]; [done|].
  rewrite !fmap_cons. cbn [concat]. by rewrite IH, fmap_app, concat_app.
Qed.

Lemma batch_of_fills groups : batch_fills (batch_of <$> groups) = omap su_fill (concat groups).
Proof.
  unfold batch_fills. induction groups as [|g gs IH]; [done|].
  rewrite !fmap_cons. cbn [concat]. by rewrite IH, omap_app.
Qed.

(** What a fill, and an expired order, take out of the reservations. *)
Definition release_of (s : nonzero 64) (seq : OrderSeq) (t : PairToken) (f : Fill) : Z :=
  (if decide (taker_order_seq f = seq ∧ pair_side (taker_side f) = t)
   then reservation (taker_side f) (taker_price f) (fill_quantity f) s else 0) +
  (if decide (maker_order_seq f = seq ∧ pair_side (opp (taker_side f)) = t)
   then reservation (opp (taker_side f)) (maker_price f) (fill_quantity f) s else 0).
Definition expired_release (s : nonzero 64) (seq : OrderSeq) (t : PairToken)
    (e : OrderSeq * RemovedOrder) : Z :=
  if decide (e.1 = seq ∧ pair_side (ro_side e.2) = t)
  then reservation (ro_side e.2) (ro_price e.2) (ro_remaining e.2) s else 0.

Lemma reservation_range side p q s : settles p q s → 0 ≤ reservation side p q s < 2 ^ 256.
Proof. intros Hs. destruct side; [by apply scaledZ_range|apply qval_range]. Qed.

Lemma released_concat seq t opss :
  released seq t (concat opss) = sum_over (released seq t) opss.
Proof. apply sum_over_concat. Qed.

Lemma settled_released rates s cap out ms seq t :
  settleable rates s out → settled rates s cap out ms →
  released seq t (batch_ops (settling_batches ms)) =
    sum_over (release_of s seq t) (mo_fills out) +
    sum_over (expired_release s seq t) (btree_iter (mo_expired_orders out)).
Proof.
  intros [Hf _ He] [_ _ _ _ (groups & [Hc _] & ->)].
  rewrite batch_of_ops, Hc, released_concat, sum_over_fmap. unfold units_of.
  rewrite sum_over_app, !sum_over_fmap. f_equal; apply sum_over_ext.
  - intros f Hin. rewrite Forall_forall in Hf. by apply fill_released, Hf.
  - intros [k ro] Hin%btree_iter_elem. specialize (He _ _ Hin).
    unfold expired_release, released; simpl. autorewrite with oisy_sums. unfold op_released.
    rewrite q_of_Z_val by (by apply reservation_range). by rewrite Z.add_0_r.
Qed.

Lemma settled_fills rates s cap out ms :
  settled rates s cap out ms →
  batch_fills (settling_batches ms) = (λ f, fill_event (settlement_of f rates s)) <$> mo_fills out.
Proof.
  intros [_ _ _ _ (groups & [Hc _] & ->)]. rewrite batch_of_fills, Hc. unfold units_of.
  rewrite omap_app. transitivity (((λ f, fill_event (settlement_of f rates s)) <$> mo_fills out) ++ []).
  2: apply app_nil_r.
  f_equal.
  - induction (mo_fills out) as [|f fs IH]; [done|]. simpl. f_equal. apply IH.
  - by induction (btree_iter (mo_expired_orders out)).
Qed.

(** No batch exceeds the configured number of units. *)
Lemma settled_bounded rates s cap out ms :
  settled rates s cap out ms →
  Forall (λ b, Z.of_nat (length (sb_fills b)) ≤ nzval cap ∧ sb_operations b ≠ [])
    (settling_batches ms).
Proof.
  intros [_ _ _ _ (groups & [Hc Hs] & ->)]. apply Forall_fmap.
  assert (Hn : Forall (Forall (λ u, su_operations u ≠ [])) groups).
  { pose proof (units_nonempty rates s out) as Hu. rewrite <-Hc in Hu. clear Hc Hs.
    induction groups as [|g gs IH]; [constructor|]. cbn [concat] in Hu.
    apply Forall_app in Hu as [? ?]. constructor; auto. }
  clear Hc. revert Hn. induction Hs as [|g gs [Hg1 Hg2] Hgs IH]; intros Hn; [constructor|].
  apply Forall_cons in Hn as [Hn Hns]. constructor; [|by apply IH]. split; simpl.
  - assert (length (omap su_fill g) ≤ length g)%nat.
    { clear. induction g as [|u g IH]; simpl; [lia|]. destruct (su_fill u); simpl in *; unfold omap in *; lia. }
    lia.
  - destruct g as [|u g]; [simpl in Hg1; lia|]. apply Forall_cons in Hn as [Hn _]. simpl.
    by destruct (su_operations u).
Qed.
End updates.
