(* ===== verification/UserRegistry.v ===== *)
(** * Users and trading accounts (src/canister/src/user/mod.rs)

    [UserRegistry] gives every identity that deposits a dense [UserId] and keeps,
    per funding account, the whitelist of trading accounts that may act for it. *)

From stdpp Require Import prelude gmap.
From Stdlib Require Import ZArith Lia.
From S2P Require Import Prelude Word BTree Ids OrderTypes Tokens OrderHistory.

Definition MAX_TRADING_ACCOUNTS_PER_USER : nat := 4.
(** [TRADING_ACCOUNT_GRANT_COOLDOWN.as_nanos()]. *)
Definition TRADING_ACCOUNT_GRANT_COOLDOWN : Z := 60 * 60 * 1000000000.

Section user_registry.
Context `{PrincipalType}.

Record TradingGrant : Type := MkTradingGrant { tg_funding : Principal }.
Record TradingAccountList : Type := MkTradingAccountList {
  accounts : list Principal;
  last_granted_at : Timestamp
}.
Record FundingAccount : Type := MkFundingAccount { funding_principal : Principal }.
Record TradingAccount : Type := MkTradingAccount { trading_principal : Principal }.

Inductive GrantError : Type :=
| GranterNotRegistered
| SelfGrant
| NonAuthenticatingTradingAccount
| AlreadyTradingAccount
| AlreadyRegisteredUser
| GranterIsTradingAccount
| TooManyTradingAccounts
| CooldownActive (retry_after_ns : u64).

Inductive RevokeError : Type := NotAllowed.

Inductive UserAccount : Type :=
| Funding (id : UserId) (principal : Principal)
| Trading (principal : Principal) (grant : TradingGrant).

Definition effective_principal (self : UserAccount) : Principal :=
  match self with Funding _ principal => principal | Trading _ grant => tg_funding grant end.
Definition funding_id (self : UserAccount) : option UserId :=
  match self with Funding id _ => Some id | Trading _ _ => None end.

Record UserRegistry : Type := MkUserRegistry {
  users : gmap Principal UserId;
  trading_accounts : gmap Principal TradingGrant;
  trading_accounts_by_funding : gmap UserId TradingAccountList
}.

Definition registry_new : UserRegistry := MkUserRegistry ∅ ∅ ∅.

Definition get_or_register (self : UserRegistry) (principal : Principal) : UserId * UserRegistry :=
  match users self !! principal with
  | Some id => (id, self)
  | None =>
      let id := MkSeq (mk_uint 64 (Z.of_nat (size (users self)))) in
      (id, MkUserRegistry (<[principal := id]> (users self)) (trading_accounts self)
             (trading_accounts_by_funding self))
  end.

Definition registry_lookup (self : UserRegistry) (principal : Principal) : option UserAccount :=
  match trading_accounts self !! principal with
  | Some grant => Some (Trading principal grant)
  | None => (λ id, Funding id principal) <$> users self !! principal
  end.

(** [lookup(..).and_then(|account| account.funding_id())]. *)
Definition lookup_funding_id (self : UserRegistry) (principal : Principal) : option UserId :=
  registry_lookup self principal ≫= funding_id.

Definition validate_add_trading_account (self : UserRegistry) (funding : FundingAccount)
    (trading : TradingAccount) (now : Timestamp) : result unit GrantError :=
  let funding := funding_principal funding in
  let trading := trading_principal trading in
  match registry_lookup self funding with
  | Some (Trading _ _) => Err GranterIsTradingAccount
  | None => Err GranterNotRegistered
  | Some (Funding funding_id _) =>
      if bool_decide (trading = funding) then Err SelfGrant else
      if bool_decide (trading = anonymous) || bool_decide (trading = management_canister)
      then Err NonAuthenticatingTradingAccount else
      match registry_lookup self trading with
      | Some (Trading _ _) => Err AlreadyTradingAccount
      | Some (Funding _ _) => Err AlreadyRegisteredUser
      | None =>
          match trading_accounts_by_funding self !! funding_id with
          | None => Ok ()
          | Some list =>
              if (MAX_TRADING_ACCOUNTS_PER_USER <=? length (accounts list))%nat
              then Err TooManyTradingAccounts else
              let elapsed := uval (u_saturating_sub now (last_granted_at list)) in
              if elapsed <? TRADING_ACCOUNT_GRANT_COOLDOWN
              then Err (CooldownActive (mk_uint 64 (TRADING_ACCOUNT_GRANT_COOLDOWN - elapsed)))
              else Ok ()
          end
      end
  end.

Definition validate_remove_trading_account (self : UserRegistry) (funding : FundingAccount)
    (trading : TradingAccount) : result unit RevokeError :=
  match trading_accounts self !! trading_principal trading with
  | Some grant =>
      if bool_decide (tg_funding grant = funding_principal funding) then Ok () else Err NotAllowed
  | None => Err NotAllowed
  end.

Definition record_add_trading_account (self : UserRegistry) (funding : FundingAccount)
    (trading : TradingAccount) (now : Timestamp) : exec UserRegistry :=
  let funding := funding_principal funding in
  let trading := trading_principal trading in
  let! funding_id := expect (lookup_funding_id self funding) in
  let grants := <[trading := MkTradingGrant funding]> (trading_accounts self) in
  let list := default (MkTradingAccountList [] (mk_uint 64 0))
                (trading_accounts_by_funding self !! funding_id) in
  let list := MkTradingAccountList (accounts list ++ [trading]) now in
  Done (MkUserRegistry (users self) grants
          (<[funding_id := list]> (trading_accounts_by_funding self))).

Definition record_remove_trading_account (self : UserRegistry) (funding : FundingAccount)
    (trading : TradingAccount) : exec UserRegistry :=
  let funding := funding_principal funding in
  let trading := trading_principal trading in
  let! funding_id := expect (lookup_funding_id self funding) in
  let! removed := expect (trading_accounts self !! trading) in
  let grants := delete trading (trading_accounts self) in
  let! list := expect (trading_accounts_by_funding self !! funding_id) in
  let list := MkTradingAccountList (filter (λ p, p ≠ trading) (accounts list))
                (last_granted_at list) in
  Done (MkUserRegistry (users self) grants
          (<[funding_id := list]> (trading_accounts_by_funding self))).

Definition trading_accounts_of (self : UserRegistry) (funding : Principal) : list Principal :=
  match lookup_funding_id self funding with
  | Some funding_id =>
      match trading_accounts_by_funding self !! funding_id with
      | Some list => accounts list
      | None => []
      end
  | None => []
  end.
End user_registry.
