(* ===== verification/UserRegistryInv.v ===== *)
(** * The registry's invariant and its histories

    Ids are dense and never shared, trading accounts are never users, the two
    sides of the whitelist agree, and over any history of calls two grants by
    one funding account are at least the cooldown apart. *)

From stdpp Require Import prelude gmap.
From Stdlib Require Import ZArith Lia.
From S2P Require Import Prelude Word BTree Ids OrderTypes Tokens OrderHistory UserRegistry.

Section registry_inv.
Context `{PrincipalType}.
Local Arguments Nat.leb : simpl never.
Implicit Types (r : UserRegistry) (p q f t : Principal) (id : UserId).

(** The whitelist of a funding id. *)
Definition whitelist r id : list Principal :=
  match trading_accounts_by_funding r !! id with Some l => accounts l | None => [] end.

Record registry_inv (r : UserRegistry) : Prop := {
  ri_bound : Z.of_nat (size (users r)) ≤ 2 ^ 64;
  ri_dense p id : users r !! p = Some id → seqZ id < Z.of_nat (size (users r));
  ri_inj p q id : users r !! p = Some id → users r !! q = Some id → p = q;
  ri_disjoint p g : trading_accounts r !! p = Some g → users r !! p = None;
  ri_granter p g : trading_accounts r !! p = Some g → is_Some (users r !! tg_funding g);
  ri_grants f id p : users r !! f = Some id →
    trading_accounts r !! p = Some (MkTradingGrant f) ↔ p ∈ whitelist r id;
  ri_lists id l : trading_accounts_by_funding r !! id = Some l →
    ∃ f, users r !! f = Some id;
  ri_caps id : NoDup (whitelist r id) ∧ (length (whitelist r id) ≤ MAX_TRADING_ACCOUNTS_PER_USER)%nat;
  ri_auth p g : trading_accounts r !! p = Some g → p ≠ anonymous ∧ p ≠ management_canister
}.

Lemma registry_new_inv : registry_inv registry_new.
Proof.
  split; unfold whitelist; simpl; intros *; rewrite ?lookup_empty; try done.
  split; [constructor|simpl; unfold MAX_TRADING_ACCOUNTS_PER_USER; lia].
Qed.

(** A user's id is found exactly when it is registered. *)
Lemma lookup_funding_id_eq r p : registry_inv r → lookup_funding_id r p = users r !! p.
Proof.
  intros Hr. unfold lookup_funding_id, registry_lookup.
  destruct (trading_accounts r !! p) as [g|] eqn:E; simpl.
  - by rewrite (ri_disjoint r Hr p g E).
  - by destruct (users r !! p).
Qed.

(** ** Registration *)

Lemma get_or_register_spec r p :
  registry_inv r → trading_accounts r !! p = None → Z.of_nat (size (users r)) < 2 ^ 64 →
  registry_inv (get_or_register r p).2 ∧
  users (get_or_register r p).2 !! p = Some (get_or_register r p).1 ∧
  (∀ q, q ≠ p → users (get_or_register r p).2 !! q = users r !! q) ∧
  (∀ q, is_Some (users r !! q) → users (get_or_register r p).2 !! q = users r !! q).
Proof.
  intros Hr Ht Hb. unfold get_or_register. destruct (users r !! p) as [id|] eqn:Eu; simpl.
  { split_and!; done. }
  set (id := MkSeq _ : UserId).
  assert (Eid : seqZ id = Z.of_nat (size (users r))).
  { unfold id, seqZ; simpl. apply mk_uint_small. change (Z.of_N 64) with 64. lia. }
  assert (Hfresh : ∀ q i, users r !! q = Some i → i ≠ id).
  { intros q i Hq ->. pose proof (ri_dense r Hr q id Hq). lia. }
  destruct Hr as [B D I J G W L C A]. split_and!; [|by rewrite lookup_insert_eq| |].
  - split; simpl; rewrite ?map_size_insert_None by done; try done.
    + lia.
    + intros q i. rewrite lookup_insert. case_decide; [intros [= <-]; lia|].
      intros Hq%D. lia.
    + intros q q' i. rewrite !lookup_insert. repeat case_decide; try congruence.
      * intros [= <-] Hq. by apply Hfresh in Hq.
      * intros Hq [= <-]. by apply Hfresh in Hq.
      * apply I.
    + intros q g Hg. rewrite lookup_insert. case_decide; [congruence|by apply (J q g)].
    + intros q g Hg. rewrite lookup_insert_is_Some'. right. by apply (G q).
    + intros f i q. rewrite lookup_insert. case_decide as E; [subst f|apply W].
      intros [= <-]. unfold whitelist; simpl.
      destruct (trading_accounts_by_funding r !! id) as [l|] eqn:El.
      { apply L in El as (f & Hf). by apply Hfresh in Hf. }
      split; [|by intros ?%not_elem_of_nil]. intros Hg. apply G in Hg as [i Hi]. simpl in Hi. congruence.
    + intros i l Hl. destruct (L i l Hl) as (f & Hf). exists f.
      rewrite lookup_insert_ne; [done|]. congruence.
  - intros q Hq. by rewrite lookup_insert_ne.
  - intros q [i Hi]. rewrite lookup_insert_ne; [done|]. congruence.
Qed.

(** ** Granting *)

Definition anchor r id : Z :=
  match trading_accounts_by_funding r !! id with Some l => uval (last_granted_at l) | None => 0 end.

(** What a successful validation has checked. *)
Lemma validate_add_Ok r f t now :
  registry_inv r →
  validate_add_trading_account r (MkFundingAccount f) (MkTradingAccount t) now = Ok () →
  ∃ id, users r !! f = Some id ∧ t ≠ f ∧ t ≠ anonymous ∧ t ≠ management_canister ∧
    users r !! t = None ∧ trading_accounts r !! t = None ∧
    (length (whitelist r id) < MAX_TRADING_ACCOUNTS_PER_USER)%nat ∧
    (is_Some (trading_accounts_by_funding r !! id) →
     anchor r id + TRADING_ACCOUNT_GRANT_COOLDOWN ≤ uval now).
Proof.
  intros Hr HV. unfold validate_add_trading_account in HV; simpl in HV.
  unfold registry_lookup in HV.
  destruct (trading_accounts r !! f) eqn:Ef; [done|].
  destruct (users r !! f) as [id|] eqn:Eu; simpl in HV; [|done]. exists id.
  repeat (case_bool_decide; simpl in HV; [done|]).
  destruct (trading_accounts r !! t) eqn:Et; [done|].
  destruct (users r !! t) eqn:Eut; simpl in HV; [done|].
  unfold whitelist, anchor.
  destruct (trading_accounts_by_funding r !! id) as [l|].
  - destruct (Nat.leb_spec MAX_TRADING_ACCOUNTS_PER_USER (length (accounts l))); [done|].
    destruct (Z.ltb_spec (uval (u_saturating_sub now (last_granted_at l)))
      TRADING_ACCOUNT_GRANT_COOLDOWN) as [|Hc]; [done|].
    split_and!; try done. intros _. unfold u_saturating_sub in Hc.
    pose proof (u64_range now). pose proof (u64_range (last_granted_at l)).
    rewrite mk_uint_small in Hc by (change (Z.of_N 64) with 64; lia).
    unfold TRADING_ACCOUNT_GRANT_COOLDOWN in *. lia.
  - split_and!; try done. cbn [length]. unfold MAX_TRADING_ACCOUNTS_PER_USER. lia.
Qed.

Lemma record_add_spec r f t now id :
  registry_inv r → users r !! f = Some id → t ≠ anonymous → t ≠ management_canister →
  users r !! t = None → trading_accounts r !! t = None →
  (length (whitelist r id) < MAX_TRADING_ACCOUNTS_PER_USER)%nat →
  ∃ r', record_add_trading_account r (MkFundingAccount f) (MkTradingAccount t) now = Done r' ∧
    registry_inv r' ∧ users r' = users r ∧
    trading_accounts r' = <[t := MkTradingGrant f]> (trading_accounts r) ∧
    whitelist r' id = whitelist r id ++ [t] ∧ anchor r' id = uval now ∧
    (∀ i, i ≠ id → whitelist r' i = whitelist r i ∧ anchor r' i = anchor r i) ∧
    (∀ i, is_Some (trading_accounts_by_funding r' !! i) ↔
          i = id ∨ is_Some (trading_accounts_by_funding r !! i)).
Proof.
  intros Hr Hf Ha Hm Hu Ht Hlen. unfold record_add_trading_account; simpl.
  rewrite lookup_funding_id_eq, Hf by done. cbn [expect ebind].
  set (l0 := default (MkTradingAccountList [] (mk_uint 64 0)) (trading_accounts_by_funding r !! id)).
  assert (Hl0 : accounts l0 = whitelist r id)
    by (unfold l0, whitelist; by destruct (trading_accounts_by_funding r !! id)).
  eexists. split; [done|].
  assert (Hwl : ∀ i, whitelist (MkUserRegistry (users r) (<[t := MkTradingGrant f]> (trading_accounts r))
      (<[id := MkTradingAccountList (accounts l0 ++ [t]) now]> (trading_accounts_by_funding r))) i =
      if decide (i = id) then whitelist r id ++ [t] else whitelist r i).
  { intros i. unfold whitelist at 1; simpl. rewrite lookup_insert.
    destruct (decide (id = i)) as [->|]; [by rewrite decide_True, Hl0|by rewrite decide_False]. }
  assert (Htn : t ∉ whitelist r id).
  { intros Hin. apply (ri_grants r Hr f id t Hf) in Hin. congruence. }
  split_and!; [|done|done|by rewrite Hwl, decide_True|unfold anchor; simpl; by rewrite lookup_insert_eq|..].
  - destruct Hr as [B D I J G W L C A]. split; try done.
    + intros p g. simpl. rewrite lookup_insert. case_decide; [congruence|apply J].
    + intros p g. simpl. rewrite lookup_insert. case_decide; [intros [= <-]; simpl; by exists id|apply G].
    + intros f' i p Hf'. cbn [users] in Hf'. rewrite Hwl. cbn [trading_accounts].
      destruct (decide (i = id)) as [->|Hne].
      * pose proof (I f f' id Hf Hf') as <-. rewrite lookup_insert, elem_of_app, <-(W f id p Hf).
        rewrite list_elem_of_singleton. case_decide; subst; [naive_solver|naive_solver].
      * rewrite lookup_insert, <-(W f' i p Hf'). case_decide; [|done]. subst p.
        assert (f ≠ f') by congruence. naive_solver.
    + intros i l. simpl. rewrite lookup_insert. case_decide; [intros _; subst; by exists f|apply L].
    + intros i. rewrite Hwl. case_decide; [|apply C]. subst i. destruct (C id) as [Cn _]. split.
      * apply NoDup_app. split_and!; [done| |by apply NoDup_singleton].
        intros x Hx ->%list_elem_of_singleton. done.
      * rewrite length_app; simpl. lia.
    + intros p g. simpl. rewrite lookup_insert. case_decide; [intros _; by subst|apply A].
  - intros i Hi. rewrite Hwl, decide_False by done. split; [done|].
    unfold anchor; simpl. by rewrite lookup_insert_ne.
  - intros i. simpl. rewrite lookup_insert_is_Some'. naive_solver.
Qed.

(** ** Revoking *)

Lemma record_remove_spec r f t :
  registry_inv r →
  validate_remove_trading_account r (MkFundingAccount f) (MkTradingAccount t) = Ok () →
  ∃ r' id, record_remove_trading_account r (MkFundingAccount f) (MkTradingAccount t) = Done r' ∧
    registry_inv r' ∧ users r' = users r ∧ users r !! f = Some id ∧
    trading_accounts r' = delete t (trading_accounts r) ∧
    whitelist r' id = filter (λ p, p ≠ t) (whitelist r id) ∧
    (∀ i, i ≠ id → whitelist r' i = whitelist r i) ∧
    (∀ i, anchor r' i = anchor r i) ∧
    (∀ i, is_Some (trading_accounts_by_funding r' !! i) ↔
          is_Some (trading_accounts_by_funding r !! i)).
Proof.
  intros Hr HV. unfold validate_remove_trading_account in HV; simpl in HV.
  destruct (trading_accounts r !! t) as [g|] eqn:Et; [|done]. case_bool_decide as Eg; [|done].
  destruct (ri_granter r Hr t g Et) as [id Hid]. rewrite Eg in Hid.
  assert (Hin : t ∈ whitelist r id).
  { apply (ri_grants r Hr f id t Hid). rewrite Et. destruct g; simpl in Eg. by rewrite Eg. }
  unfold record_remove_trading_account; simpl.
  rewrite lookup_funding_id_eq, Hid by done. cbn [expect ebind]. rewrite Et. cbn [expect ebind].
  unfold whitelist in Hin.
  destruct (trading_accounts_by_funding r !! id) as [l|] eqn:El; [|by apply not_elem_of_nil in Hin].
  cbn [expect ebind]. eexists _, id. split; [done|].
  set (r' := MkUserRegistry _ _ _).
  assert (Hwl : ∀ i, whitelist r' i = if decide (i = id) then filter (λ p, p ≠ t) (whitelist r id)
                                      else whitelist r i).
  { intros i. unfold r', whitelist; simpl. rewrite lookup_insert.
    destruct (decide (id = i)) as [<-|]; [by rewrite decide_True, El|by rewrite decide_False]. }
  split_and!; [|done|done|done|by rewrite Hwl, decide_True|by intros i Hi; rewrite Hwl, decide_False|..].
  - destruct Hr as [B D I J G W L C A]. split; try done.
    + intros p g'. simpl. rewrite lookup_delete_Some. intros [_ Hp]. by apply (J p g').
    + intros p g'. simpl. rewrite lookup_delete_Some. intros [_ Hp]. by apply (G p g').
    + intros f' i p Hf'. cbn [users r'] in Hf'. rewrite Hwl. cbn [trading_accounts r'].
      rewrite lookup_delete_Some. destruct (decide (i = id)) as [->|Hne].
      * pose proof (I f f' id Hid Hf') as <-. rewrite list_elem_of_filter, <-(W f id p Hid). naive_solver.
      * rewrite <-(W f' i p Hf'). split; [naive_solver|]. intros Hp. split; [|done]. intros <-.
        rewrite Hp in Et. injection Et as <-. simpl in Eg. congruence.
    + intros i l'. simpl. rewrite lookup_insert. case_decide as E; [intros _; exists f; by rewrite <-E|apply L].
    + intros i. rewrite Hwl. case_decide; [|apply C]. destruct (C id) as [Cn Cl]. split.
      * by apply NoDup_filter.
      * etrans; [apply length_filter|exact Cl].
    + intros p g'. simpl. rewrite lookup_delete_Some. intros [_ Hp]. by apply (A p g').
  - intros i. unfold anchor; simpl. rewrite lookup_insert. case_decide; [subst; by rewrite El|done].
  - intros i. simpl. rewrite lookup_insert_is_Some'. split; [|by right]. intros [<-|?]; [by exists l|done].
Qed.

(** ** Histories of calls *)

Inductive RegistryCall : Type :=
| Deposits (p : Principal)
| Grants (f t : Principal) (now : Timestamp)
| Revokes (f t : Principal).

(** What the endpoints do to the registry: a deposit registers a caller that is
    not a trading account, a grant and a revocation record what validates. The
    log keeps the successful grants. *)
Definition registry_call (st : UserRegistry * list (Principal * Timestamp)) (c : RegistryCall) :
    exec (UserRegistry * list (Principal * Timestamp)) :=
  let '(r, log) := st in
  match c with
  | Deposits p =>
      match registry_lookup r p with
      | Some (Trading _ _) => Done (r, log)
      | _ => Done ((get_or_register r p).2, log)
      end
  | Grants f t now =>
      match validate_add_trading_account r (MkFundingAccount f) (MkTradingAccount t) now with
      | Err _ => Done (r, log)
      | Ok _ =>
          let! r := record_add_trading_account r (MkFundingAccount f) (MkTradingAccount t) now in
          Done (r, log ++ [(f, now)])
      end
  | Revokes f t =>
      match validate_remove_trading_account r (MkFundingAccount f) (MkTradingAccount t) with
      | Err _ => Done (r, log)
      | Ok _ =>
          let! r := record_remove_trading_account r (MkFundingAccount f) (MkTradingAccount t) in
          Done (r, log)
      end
  end.

(** The anchor remembers the last grant of every funding account. *)
Definition spaced (log : list (Principal * Timestamp)) : Prop :=
  ∀ i j f (a b : Timestamp), (i < j)%nat → log !! i = Some (f, a) → log !! j = Some (f, b) →
    uval a + TRADING_ACCOUNT_GRANT_COOLDOWN ≤ uval b.

Record history_inv (n : nat) (st : UserRegistry * list (Principal * Timestamp)) : Prop := {
  hi_inv : registry_inv st.1;
  hi_size : (size (users st.1) ≤ n)%nat;
  hi_spaced : spaced st.2;
  hi_anchor f id (a : Timestamp) : (f, a) ∈ st.2 → users st.1 !! f = Some id →
    is_Some (trading_accounts_by_funding st.1 !! id) ∧ uval a ≤ anchor st.1 id;
  hi_known f (a : Timestamp) : (f, a) ∈ st.2 → is_Some (users st.1 !! f)
}.

Lemma history_step n st c :
  history_inv n st → Z.of_nat n < 2 ^ 64 →
  ∃ st', registry_call st c = Done st' ∧ history_inv (S n) st'.
Proof.
  destruct st as [r log]. intros [Hr Hs Hsp Han Hkn] Hn; simpl in *.
  assert (Hsame : history_inv (S n) (r, log)) by (split; simpl; [done|lia|done..]).
  destruct c as [p|f t now|f t]; simpl.
  - destruct (registry_lookup r p) as [[i0 p0|p0 g0]|] eqn:El; [| eauto |];
      (unfold registry_lookup in El; destruct (trading_accounts r !! p) eqn:Et; [done|]);
      (destruct (get_or_register_spec r p Hr Et) as (Hr' & Hp & Hq & Hk); [lia|]);
      (eexists; split; [done|]);
      assert (Hex : trading_accounts_by_funding (get_or_register r p).2 = trading_accounts_by_funding r)
        by (unfold get_or_register; by destruct (users r !! p));
      (split; simpl; [done| |done| |]).
    1,4: unfold get_or_register; destruct (users r !! p) eqn:Eu; simpl;
      [lia|rewrite map_size_insert_None by done; lia].
    1,3: intros f id a Hin Hf; rewrite Hk in Hf by (by eapply Hkn);
      unfold anchor; rewrite Hex; by apply (Han f).
    all: intros f a Hin; rewrite Hk by (by eapply Hkn); by eapply Hkn.
  - destruct (validate_add_trading_account _ _ _ _) as [[]|] eqn:EV; [|eauto].
    destruct (validate_add_Ok r f t now Hr EV) as (id & Hf & _ & Ha & Hm & Hu & Ht & Hl & Hc).
    destruct (record_add_spec r f t now id Hr Hf Ha Hm Hu Ht Hl)
      as (r' & -> & Hr' & Eu & _ & _ & Ean & Eo & Edom).
    eexists. split; [done|]. split; simpl; [done|rewrite Eu; lia|..].
    + intros i j f' a b Hij Hi Hj. destruct (decide (j < length log)%nat) as [Hjl|Hjl].
      { rewrite lookup_app_l in Hi, Hj by lia. by apply (Hsp i j f'). }
      rewrite lookup_app_r in Hj by lia. apply list_lookup_singleton_Some in Hj as [Ej [= <- <-]].
      rewrite lookup_app_l in Hi by lia. apply list_elem_of_lookup_2 in Hi.
      destruct (Han f id a Hi Hf) as [Hex Hle]. specialize (Hc Hex). lia.
    + intros f' id' a. rewrite elem_of_app, list_elem_of_singleton, Eu, Edom.
      destruct (decide (id' = id)) as [->|Hne].
      * intros Hin Hf'. split; [by left|]. rewrite Ean. destruct Hin as [Hin|[= -> ->]]; [|done].
        destruct (Han f' id a Hin Hf') as [Hex Hle]. specialize (Hc Hex).
        unfold TRADING_ACCOUNT_GRANT_COOLDOWN in Hc. lia.
      * intros [Hin|[= -> ->]] Hf'; [|congruence]. destruct (Eo id' Hne) as [_ ->].
        destruct (Han f' id' a Hin Hf'). eauto.
    + intros f' a. rewrite elem_of_app, list_elem_of_singleton, Eu.
      intros [Hin|[= -> ->]]; [by eapply Hkn|by exists id].
  - destruct (validate_remove_trading_account _ _ _) as [[]|] eqn:EV; [|eauto].
    destruct (record_remove_spec r f t Hr EV) as (r' & id & -> & Hr' & Eu & _ & _ & _ & _ & Ean & Edom).
    eexists. split; [done|]. split; simpl; [done|rewrite Eu; lia|done|..].
    + intros f' id' a. rewrite Eu, Edom, Ean. by apply Han.
    + intros f' a. rewrite Eu. apply Hkn.
Qed.

Lemma history_run n st cs :
  history_inv n st → Z.of_nat (n + length cs) ≤ 2 ^ 64 →
  ∃ st', exec_fold registry_call st cs = Done st' ∧ history_inv (n + length cs) st'.
Proof.
  revert n st. induction cs as [|c cs IH]; intros n st Hi Hn; simpl.
  { exists st. by rewrite Nat.add_0_r. }
  cbn [length] in Hn. destruct (history_step n st c Hi) as (st1 & -> & Hi1); [lia|]. cbn [ebind].
  destruct (IH (S n) st1 Hi1) as (st' & E & Hi'); [lia|]. exists st'.
  by rewrite Nat.add_succ_r.
Qed.

Lemma registry_history_new : history_inv 0 (registry_new, []).
Proof.
  split; simpl; [apply registry_new_inv|done|..].
  - intros i j f a b _ Hi. done.
  - intros f id a ?%not_elem_of_nil. done.
  - intros f a ?%not_elem_of_nil. done.
Qed.
End registry_inv.
