(* ===== verification/Permissions.v ===== *)
(** * Permissions and the execution policy

    src/canister/src/state/permissions/mod.rs: the halt switches and the permits
    every state change consumes; src/canister/src/state/execution_policy/mod.rs:
    the validated bounds of chunked matching. *)

From stdpp Require Import prelude gmap.
From Stdlib Require Import ZArith Lia.
From S2P Require Import Prelude Word BTree Ids OrderTypes Tokens.

(** ** [Permissions] *)

Record Permissions : Type := MkPermissions {
  trading_halted : bool;
  halted_pairs : gset OrderBookId
}.

#[export] Instance Permissions_eq_dec : EqDecision Permissions.
Proof. solve_decision. Defined.

Definition permissions_default : Permissions := MkPermissions false ∅.

Inductive UnauthorizedError : Type := TradingHalted | NotController.
Inductive FundingDenied : Type := TradingAccountForbidden.

Inductive SyncPermit : Type := MkSyncPermit.
Inductive PreAsyncPermit : Type := MkPreAsyncPermit.
Inductive PostAsyncPermit : Type := MkPostAsyncPermit.
Inductive Permit : Type :=
| PermitSync (permit : SyncPermit)
| PermitAsync (permit : PostAsyncPermit).

Definition reconcile (self : PreAsyncPermit) : PostAsyncPermit := MkPostAsyncPermit.

Definition halt_trading_globally (self : Permissions) : Permissions :=
  MkPermissions true (halted_pairs self).
Definition resume_trading_globally (self : Permissions) : Permissions := MkPermissions false ∅.
Definition perm_halt_trading (self : Permissions) (book : OrderBookId) : Permissions :=
  MkPermissions (trading_halted self) ({[book]} ∪ halted_pairs self).
Definition perm_resume_trading (self : Permissions) (book : OrderBookId) : Permissions :=
  MkPermissions (trading_halted self) (halted_pairs self ∖ {[book]}).

Definition is_halted (self : Permissions) (book : OrderBookId) : bool :=
  trading_halted self || bool_decide (book ∈ halted_pairs self).

Definition permit_matching (self : Permissions) (book : OrderBookId) :
    result SyncPermit UnauthorizedError :=
  if is_halted self book then Err TradingHalted else Ok MkSyncPermit.

Section permits.
Context `{PrincipalType}.

Definition permit_trading (self : Permissions) (caller : Principal) (book : OrderBookId) :
    result SyncPermit UnauthorizedError :=
  if is_halted self book then Err TradingHalted else Ok MkSyncPermit.

Definition permit_deposit (self : Permissions) (caller : Principal)
    (caller_is_trading_account : bool) : result PreAsyncPermit FundingDenied :=
  if caller_is_trading_account then Err TradingAccountForbidden else Ok MkPreAsyncPermit.

Definition permit_withdraw (self : Permissions) (caller : Principal)
    (caller_is_trading_account : bool) : result PreAsyncPermit FundingDenied :=
  if caller_is_trading_account then Err TradingAccountForbidden else Ok MkPreAsyncPermit.
End permits.

(** The permits that are always granted. *)
Definition permit_cancel (self : Permissions) : SyncPermit := MkSyncPermit.
Definition permit_settling (self : Permissions) : SyncPermit := MkSyncPermit.
Definition permit_add_trading_pair (self : Permissions) : SyncPermit := MkSyncPermit.
Definition permit_admin (self : Permissions) : SyncPermit := MkSyncPermit.
Definition permit_add_trading_account (self : Permissions) : SyncPermit := MkSyncPermit.
Definition permit_remove_trading_account (self : Permissions) : SyncPermit := MkSyncPermit.

(** ** [PermissionsSnapshot] (src/canister/src/state/snapshot/mod.rs) *)

Record PermissionsSnapshot : Type := MkPermissionsSnapshot {
  pms_trading_halted : bool;
  pms_halted_pairs : list OrderBookId
}.

Definition permissions_to_snapshot (permissions : Permissions) : PermissionsSnapshot :=
  MkPermissionsSnapshot (trading_halted permissions) (bset_iter (halted_pairs permissions)).

Definition permissions_from_snapshot (snapshot : PermissionsSnapshot) : Permissions :=
  let permissions := permissions_default in
  let permissions := if pms_trading_halted snapshot then halt_trading_globally permissions
                     else permissions in
  foldl perm_halt_trading permissions (pms_halted_pairs snapshot).

Lemma permissions_from_to p : permissions_from_snapshot (permissions_to_snapshot p) = p.
Proof.
  destruct p as [halted pairs]. unfold permissions_from_snapshot, permissions_to_snapshot; simpl.
  assert (Hf : ∀ l p, foldl perm_halt_trading p l =
    MkPermissions (trading_halted p) (list_to_set l ∪ halted_pairs p)).
  { induction l as [|b l IH]; intros [h ps]; simpl; [f_equal; set_solver|].
    rewrite IH; simpl. f_equal. set_solver. }
  rewrite Hf, list_to_set_bset_iter. destruct halted; simpl; f_equal; set_solver.
Qed.

(** Halting is idempotent, and only a global resume lifts the global halt. *)
Lemma is_halted_halt p b b' :
  is_halted (perm_halt_trading p b) b' = bool_decide (b' = b) || is_halted p b'.
Proof.
  unfold is_halted, perm_halt_trading; simpl. destruct (trading_halted p); simpl.
  { by rewrite orb_true_r. }
  repeat case_bool_decide; set_solver.
Qed.

Lemma is_halted_resume p b b' :
  is_halted (perm_resume_trading p b) b' =
    trading_halted p || (negb (bool_decide (b' = b)) && is_halted p b').
Proof.
  unfold is_halted, perm_resume_trading; simpl. destruct (trading_halted p); simpl; [done|].
  repeat case_bool_decide; set_solver.
Qed.

(** ** [ExecutionPolicy] *)

Definition MAX_INSTRUCTION_BUDGET : Z := 40000000000.
Definition DEFAULT_MAX_ORDERS_PER_CHUNK : u32 := mk_uint 32 1000.
Definition DEFAULT_INSTRUCTION_BUDGET : u64 := mk_uint 64 1000000000.
Definition DEFAULT_MAX_SETTLEMENT_UNITS_PER_EVENT : u32 := mk_uint 32 256.

Record ExecutionPolicy : Type := MkExecutionPolicy {
  ep_max_orders_per_chunk : nonzero 32;
  ep_instruction_budget : nonzero 64;
  ep_max_settlement_units_per_event : nonzero 32
}.

(** The message of a rejected policy. *)
Inductive PolicyError : Type :=
| MaxOrdersPerChunkZero
| InstructionBudgetZero
| MaxSettlementUnitsZero
| InstructionBudgetTooLarge (budget : u64).

Definition policy_try_new (max_orders_per_chunk : u32) (instruction_budget : u64)
    (max_settlement_units_per_event : u32) : result ExecutionPolicy PolicyError :=
  match nz_new max_orders_per_chunk with
  | None => Err MaxOrdersPerChunkZero
  | Some max_orders_per_chunk =>
      match nz_new instruction_budget with
      | None => Err InstructionBudgetZero
      | Some instruction_budget =>
          match nz_new max_settlement_units_per_event with
          | None => Err MaxSettlementUnitsZero
          | Some max_settlement_units_per_event =>
              if MAX_INSTRUCTION_BUDGET <? instruction_budget
              then Err (InstructionBudgetTooLarge instruction_budget)
              else Ok (MkExecutionPolicy max_orders_per_chunk instruction_budget
                         max_settlement_units_per_event)
          end
      end
  end.

Definition policy_default : exec ExecutionPolicy :=
  match policy_try_new DEFAULT_MAX_ORDERS_PER_CHUNK DEFAULT_INSTRUCTION_BUDGET
          DEFAULT_MAX_SETTLEMENT_UNITS_PER_EVENT with
  | Ok policy => Done policy
  | Err _ => Trap
  end.

(** What every policy built by [try_new] satisfies. *)
Definition policy_ok (p : ExecutionPolicy) : Prop := ep_instruction_budget p ≤ MAX_INSTRUCTION_BUDGET.

Lemma policy_try_new_ok p :
  policy_ok p →
  policy_try_new (ep_max_orders_per_chunk p) (ep_instruction_budget p)
    (ep_max_settlement_units_per_event p) = Ok p.
Proof.
  intros Hp. unfold policy_try_new. rewrite !(proj2 (nz_new_Some _ _) eq_refl).
  destruct (Z.ltb_spec MAX_INSTRUCTION_BUDGET (ep_instruction_budget p)) as [Hlt|_];
    [unfold policy_ok in Hp; lia|by destruct p].
Qed.

Lemma policy_try_new_Ok a b c p :
  policy_try_new a b c = Ok p →
  nzval (ep_max_orders_per_chunk p) = a ∧ nzval (ep_instruction_budget p) = b ∧
  nzval (ep_max_settlement_units_per_event p) = c ∧ policy_ok p.
Proof.
  unfold policy_try_new. intros HT.
  destruct (nz_new a) as [a'|] eqn:Ea; [|done]. destruct (nz_new b) as [b'|] eqn:Eb; [|done].
  destruct (nz_new c) as [c'|] eqn:Ec; [|done].
  apply nz_new_Some in Ea as <-. apply nz_new_Some in Eb as <-. apply nz_new_Some in Ec as <-.
  destruct (Z.ltb_spec MAX_INSTRUCTION_BUDGET b'); [done|]. injection HT as <-.
  unfold policy_ok. simpl. done.
Qed.
