(* ===== verification/PairMap.v ===== *)
(** * The trading-pair map (src/canister/src/state/map/trading_pair_map.rs)

    [TradingPairMap] wraps [bimap::BiBTreeMap], a crate the sources only call:
    the class states what the crate documents of the operations the wrapper uses,
    and two finite maps implement it. *)

From stdpp Require Import prelude gmap sorting.
From Stdlib Require Import ZArith Lia Eqdep_dec Bool.Bool.
From S2P Require Import Prelude Word BTree Ids OrderTypes Tokens.

(** [BiBTreeMap<L, R>]: a one-to-one relation, iterated in the order of its left
    values; [insert_no_overwrite] refuses a pair either half of which is present. *)
Class BiBTreeMap (L R : Type) `{Ord L} : Type := {
  bimap : Type;
  bi_default : bimap;
  insert_no_overwrite : bimap → L → R → result bimap (L * R);
  get_by_left : bimap → L → option R;
  get_by_right : bimap → R → option L;
  bi_iter : bimap → list (L * R);
  bi_len : bimap → nat;
  get_by_left_default l : get_by_left bi_default l = None;
  get_by_left_right m l r : get_by_left m l = Some r ↔ get_by_right m r = Some l;
  insert_fresh m l r : get_by_left m l = None → get_by_right m r = None →
    ∃ m', insert_no_overwrite m l r = Ok m' ∧
      get_by_left m' l = Some r ∧ ∀ l', l' ≠ l → get_by_left m' l' = get_by_left m l';
  insert_taken m l r : get_by_left m l ≠ None ∨ get_by_right m r ≠ None →
    insert_no_overwrite m l r = Err (l, r);
  bi_iter_elem m l r : (l, r) ∈ bi_iter m ↔ get_by_left m l = Some r;
  bi_iter_sorted m : StronglySorted (λ a b, ord_cmp a.1 b.1 = Lt) (bi_iter m);
  bi_len_iter m : bi_len m = length (bi_iter m);
  bi_ext m m' : (∀ l, get_by_left m l = get_by_left m' l) → m = m'
}.
Arguments bimap L R {_ _}.

Section pair_map.
Context `{PrincipalType} `{!BiBTreeMap TradingPair OrderBookId}.

Definition TradingPairMap : Type := bimap TradingPair OrderBookId.
Definition pairs_default : TradingPairMap := bi_default.

Definition pairs_insert (self : TradingPairMap) (pair : TradingPair) (book_id : OrderBookId) :
    exec TradingPairMap :=
  match insert_no_overwrite self pair book_id with Ok self => Done self | Err _ => Trap end.
Definition pairs_contains (self : TradingPairMap) (pair : TradingPair) : bool :=
  bool_decide (is_Some (get_by_left self pair)).
Definition get_book_id (self : TradingPairMap) (pair : TradingPair) : option OrderBookId :=
  get_by_left self pair.
Definition get_pair (self : TradingPairMap) (book_id : OrderBookId) : option TradingPair :=
  get_by_right self book_id.
Definition pairs_iter (self : TradingPairMap) : list (TradingPair * OrderBookId) := bi_iter self.
Definition pairs_len (self : TradingPairMap) : nat := bi_len self.

Lemma get_pair_iff m pair id : get_pair m id = Some pair ↔ get_book_id m pair = Some id.
Proof. symmetry. apply get_by_left_right. Qed.

Lemma get_pair_default id : get_pair pairs_default id = None.
Proof.
  destruct (get_pair pairs_default id) as [pair|] eqn:E; [|done].
  apply get_pair_iff in E. unfold get_book_id, pairs_default in E.
  by rewrite get_by_left_default in E.
Qed.

Lemma pairs_insert_Done m pair id m' :
  pairs_insert m pair id = Done m' ↔
  get_book_id m pair = None ∧ get_pair m id = None ∧
  (∀ pair', get_book_id m' pair' = if decide (pair' = pair) then Some id else get_book_id m pair').
Proof.
  unfold pairs_insert, get_book_id, get_pair.
  destruct (get_by_left m pair) as [r|] eqn:El; [rewrite insert_taken by (left; congruence); naive_solver|].
  destruct (get_by_right m id) as [l|] eqn:Er; [rewrite insert_taken by (right; congruence); naive_solver|].
  destruct (insert_fresh m pair id El Er) as (m1 & -> & H1 & H2). split.
  - intros [= <-]. split_and!; [done..|]. intros pair'. case_decide; [by subst|by apply H2].
  - intros (_ & _ & Hm). f_equal. apply bi_ext. intros l. rewrite Hm. case_decide; [by subst|by apply H2].
Qed.

Lemma pairs_insert_get_pair m pair id m' id' :
  pairs_insert m pair id = Done m' →
  get_pair m' id' = if decide (id' = id) then Some pair else get_pair m id'.
Proof.
  intros (Hp & Hi & Hm)%pairs_insert_Done. apply option_eq. intros q. rewrite get_pair_iff, Hm.
  destruct (decide (q = pair)) as [->|Hq].
  - case_decide; [naive_solver|]. rewrite get_pair_iff, Hp. naive_solver.
  - rewrite <-get_pair_iff. case_decide; [subst; rewrite Hi; naive_solver|done].
Qed.

(** Rebuilding a map from its entries ([StateSnapshot::into_state]). *)
Lemma pairs_rebuild (m : TradingPairMap) :
  exec_fold (λ acc e, pairs_insert acc e.1 e.2) pairs_default (pairs_iter m) = Done m.
Proof.
  assert (Hgen : ∀ l acc, (∀ l' r', get_book_id acc l' = Some r' → get_book_id m l' = Some r' ∧ l' ∉ l.*1) →
    NoDup l.*1 → (∀ e, e ∈ l → get_book_id m e.1 = Some e.2) →
    ∃ m', exec_fold (λ acc e, pairs_insert acc e.1 e.2) acc l = Done m' ∧
      ∀ l' r', get_book_id m' l' = Some r' ↔ get_book_id acc l' = Some r' ∨ (l', r') ∈ l).
  { induction l as [|[p i] l IH]; intros acc Hacc Hnd Hl; cbn [exec_fold fst snd fmap list_fmap] in *.
    { exists acc. split; [done|]. set_solver. }
    apply NoDup_cons in Hnd as [Hp Hnd].
    assert (Hpi : get_book_id m p = Some i) by (apply (Hl (p, i)); left).
    destruct (pairs_insert acc p i) as [acc1|] eqn:E1.
    - cbn [ebind]. pose proof E1 as (Hn & _ & Hm1)%pairs_insert_Done.
      destruct (IH acc1) as (m' & E & Hm').
      + intros l' r'. rewrite Hm1. case_decide; [intros [= <-]; by subst|].
        intros [? ?]%Hacc. set_solver.
      + done.
      + intros e He. apply Hl. by right.
      + exists m'. split; [done|]. intros l' r'. rewrite Hm', Hm1, elem_of_cons.
        destruct (decide (l' = p)) as [->|]; [rewrite Hn|]; naive_solver.
    - exfalso. unfold pairs_insert in E1.
      assert (Hn : get_by_left acc p = None).
      { destruct (get_by_left acc p) as [r|] eqn:Er; [|done]. apply Hacc in Er as [_ Hni].
        set_solver. }
      assert (Hr : get_by_right acc i = None).
      { destruct (get_by_right acc i) as [q|] eqn:Er; [|done]. apply get_by_left_right in Er.
        pose proof (Hacc _ _ Er) as [Hq Hqn]. apply get_pair_iff in Hq, Hpi.
        rewrite Hq in Hpi. injection Hpi as ->. set_solver. }
      destruct (insert_fresh acc p i Hn Hr) as (? & E & _). by rewrite E in E1. }
  destruct (Hgen (pairs_iter m) pairs_default) as (m' & -> & Hm').
  - intros l r. unfold get_book_id, pairs_default. by rewrite get_by_left_default.
  - apply (StronglySorted_NoDup_fmap (λ a b, ord_cmp a.1 b.1 = Lt)); [apply bi_iter_sorted|].
    intros x y _ _ Hxy E. rewrite E in Hxy. by rewrite (proj2 (ord_eq _ _) eq_refl) in Hxy.
  - intros [l r] Hin. by apply bi_iter_elem.
  - f_equal. apply bi_ext. intros l. apply option_eq. intros r. rewrite Hm'.
    unfold get_book_id, pairs_default, pairs_iter. rewrite get_by_left_default, bi_iter_elem. naive_solver.
Qed.
End pair_map.

(** ** An implementation of the interface

    A finite map whose values are pairwise different, searched for a value. *)

Section gmap_bimap.
Context {L R : Type} `{Countable L, Countable R, !Ord L, !OrdLaws L}.

Definition one_to_one (m : gmap L R) : bool := bool_decide (NoDup (btree_iter m).*2).
Definition gbimap : Type := {m : gmap L R | one_to_one m = true}.

Lemma one_to_one_iff m :
  one_to_one m = true ↔ ∀ l l' r, m !! l = Some r → m !! l' = Some r → l = l'.
Proof.
  unfold one_to_one. rewrite bool_decide_eq_true. split.
  - intros Hnd l l' r Hl%btree_iter_elem Hl'%btree_iter_elem.
    apply list_elem_of_lookup in Hl as [i Hi]. apply list_elem_of_lookup in Hl' as [j Hj].
    assert (i = j) as ->.
    { eapply NoDup_lookup; [exact Hnd|..]; rewrite list_lookup_fmap; [by rewrite Hi|by rewrite Hj]. }
    congruence.
  - intros Hinj. apply (StronglySorted_NoDup_fmap (λ a b, ord_cmp a.1 b.1 = Lt)).
    { apply btree_iter_sorted. }
    intros [l r] [l' r'] Hx%btree_iter_elem Hy%btree_iter_elem Hlt E; simpl in *. subst r'.
    rewrite (Hinj l l' r Hx Hy) in Hlt. by rewrite (proj2 (ord_eq _ _) eq_refl) in Hlt.
Qed.

Lemma one_to_one_empty : one_to_one ∅ = true.
Proof. apply one_to_one_iff. intros l l' r. by rewrite lookup_empty. Qed.

Definition find_value (m : gmap L R) (r : R) : option L :=
  match list_find (λ kv, kv.2 = r) (btree_iter m) with Some (_, (l, _)) => Some l | None => None end.

Lemma find_value_Some m r l : one_to_one m = true → find_value m r = Some l ↔ m !! l = Some r.
Proof.
  intros Hone. unfold find_value. destruct (list_find _ _) as [[i [l' r']]|] eqn:E.
  - apply list_find_Some in E as (Hi & Hr & _). simpl in Hr. subst r'.
    apply list_elem_of_lookup_2, btree_iter_elem in Hi. split; [naive_solver|].
    intros Hl. f_equal. by eapply one_to_one_iff.
  - apply list_find_None in E. rewrite Forall_forall in E. split; [done|].
    intros Hl%btree_iter_elem. by apply E in Hl.
Qed.

Definition gbi_insert (m : gbimap) (l : L) (r : R) : result gbimap (L * R) :=
  match `m !! l, find_value (`m) r with
  | None, None =>
      match bool_dec (one_to_one (<[l := r]> (`m))) true with
      | left H => Ok (exist (λ m, one_to_one m = true) (<[l := r]> (`m)) H)
      | right _ => Err (l, r)
      end
  | _, _ => Err (l, r)
  end.

Lemma gbi_insert_one_to_one (m : gbimap) l r :
  `m !! l = None → find_value (`m) r = None → one_to_one (<[l := r]> (`m)) = true.
Proof.
  destruct m as [m Hm]; simpl. intros Hl Hr. apply one_to_one_iff. intros a b c.
  assert (Hno : ∀ k, m !! k ≠ Some r).
  { intros k Hk. apply (find_value_Some m r k Hm) in Hk. congruence. }
  rewrite !lookup_insert. destruct (decide (l = a)) as [Ea|Ea], (decide (l = b)) as [Eb|Eb].
  - congruence.
  - intros [= <-] Hb. by apply Hno in Hb.
  - intros Ha [= <-]. by apply Hno in Ha.
  - by apply one_to_one_iff.
Qed.
End gmap_bimap.
Arguments gbimap L R {_ _ _ _}.

#[export] Program Instance gmap_BiBTreeMap {L R} `{Countable L, Countable R, !Ord L, !OrdLaws L} :
    BiBTreeMap L R := {|
  bimap := gbimap L R;
  bi_default := exist _ ∅ one_to_one_empty;
  insert_no_overwrite := gbi_insert;
  get_by_left m l := `m !! l;
  get_by_right m r := find_value (`m) r;
  bi_iter m := btree_iter (`m);
  bi_len m := length (btree_iter (`m))
|}.
Next Obligation. intros. simpl. apply lookup_empty. Qed.
Next Obligation. intros L R ? ? ? ? ? ? [m Hm] l r. simpl. by rewrite find_value_Some. Qed.
Next Obligation.
  intros L R ? ? ? ? ? ? m l r Hl Hr; simpl in *. unfold gbi_insert. rewrite Hl, Hr.
  destruct (bool_dec _ _) as [Ho|Ho]; [|by rewrite gbi_insert_one_to_one in Ho].
  eexists. split; [done|]. simpl. split; [by rewrite lookup_insert_eq|].
  intros l' Hne. by rewrite lookup_insert_ne.
Qed.
Next Obligation.
  intros L R ? ? ? ? ? ? m l r; simpl in *. unfold gbi_insert.
  destruct (`m !! l), (find_value (`m) r); naive_solver.
Qed.
Next Obligation. intros. apply btree_iter_elem. Qed.
Next Obligation. intros. apply btree_iter_sorted. Qed.
Next Obligation. done. Qed.
Next Obligation.
  intros L R ? ? ? ? ? ? [m Hm] [m' Hm'] E; simpl in E. apply map_eq in E. subst m'.
  f_equal. apply UIP_dec, bool_dec.
Qed.
