(* ===== verification/Events.v ===== *)
(** * The runtime, events and arguments

    src/canister/src/runtime/mod.rs, what a message reads of its environment,
    src/canister/src/state/event/mod.rs, the payloads of the append-only event
    log, and the init and upgrade arguments of src/libs/types-internal/src/lib.rs. *)

From stdpp Require Import prelude gmap.
From Stdlib Require Import ZArith Lia.
From S2P Require Import Prelude Word BTree Quantity Ids Fees OrderTypes.
From S2P Require Import Tokens OrderHistory Settlement UserRegistry.

(** ** The runtime (src/canister/src/runtime/mod.rs) *)

Record Runtime `{PrincipalType} : Type := MkRuntime {
  rt_msg_caller : Principal;
  rt_canister_self : Principal;
  rt_is_controller : Principal → bool;
  rt_instruction_counter : nat → u64;
  rt_time : Timestamp
}.
Arguments MkRuntime {_} _ _ _ _ _.

Section events.
Context `{PrincipalType}.

Inductive Mode : Type :=
| GeneralAvailability
| RestrictedTo (allowed : gset Principal).

Record InitArg : Type := MkInitArg {
  ia_mode : Mode;
  ia_max_orders_per_chunk : u32;
  ia_instruction_budget : u64;
  ia_max_settlement_units_per_event : option u32
}.

Record UpgradeArg : Type := MkUpgradeArg {
  ua_mode : option Mode;
  ua_max_orders_per_chunk : option u32;
  ua_instruction_budget : option u64;
  ua_max_settlement_units_per_event : option u32
}.

Record AddTradingPairEvent : Type := MkAddTradingPairEvent {
  atp_book_id : OrderBookId;
  atp_base : TokenId;
  atp_quote : TokenId;
  atp_tick_size : TickSize;
  atp_lot_size : LotSize;
  atp_base_metadata : TokenMetadata;
  atp_quote_metadata : TokenMetadata;
  atp_fee_rates : FeeRates;
  atp_min_notional : Quantity;
  atp_max_notional : option Quantity
}.

Record DepositEvent : Type := MkDepositEvent {
  de_user : Principal; de_token : TokenId; de_amount : Quantity
}.

Record WithdrawEvent : Type := MkWithdrawEvent {
  we_block_index : u64; we_user : Principal; we_token : TokenId; we_amount : Quantity
}.

Record AddLimitOrderEvent : Type := MkAddLimitOrderEvent {
  ale_user : Principal;
  ale_order_id : OrderId;
  ale_side : Side;
  ale_price : Price;
  ale_quantity : Quantity;
  ale_time_in_force : TimeInForce;
  ale_placed_by : option Principal
}.

Record MatchingEvent : Type := MkMatchingEvent {
  me_book_id : OrderBookId; me_orders : list OrderSeq
}.

Record SettlingEvent : Type := MkSettlingEvent {
  se_book_id : OrderBookId;
  se_balance_operations : list BalanceOperation;
  se_fills : list FillEvent
}.

Record CancelLimitOrderEvent : Type := MkCancelLimitOrderEvent {
  ce_order_id : OrderId; ce_canceled_by : option Principal
}.

Record SetHaltEvent : Type := MkSetHaltEvent {
  she_book_ids : option (list OrderBookId); she_halted : bool
}.

Record AddTradingAccountEvent : Type := MkAddTradingAccountEvent {
  atae_funding : FundingAccount; atae_trading : TradingAccount
}.

Record RemoveTradingAccountEvent : Type := MkRemoveTradingAccountEvent {
  rtae_funding : FundingAccount; rtae_trading : TradingAccount
}.

Inductive EventType : Type :=
| EInit (arg : InitArg)
| EUpgrade (arg : UpgradeArg)
| EAddTradingPair (e : AddTradingPairEvent)
| EDeposit (e : DepositEvent)
| EAddLimitOrder (e : AddLimitOrderEvent)
| ESettling (e : SettlingEvent)
| EMatching (e : MatchingEvent)
| EWithdraw (e : WithdrawEvent)
| ECancelLimitOrder (e : CancelLimitOrderEvent)
| ESetHalt (e : SetHaltEvent)
| EAddTradingAccount (e : AddTradingAccountEvent)
| ERemoveTradingAccount (e : RemoveTradingAccountEvent).

Record Event : Type := MkEvent { ev_timestamp : Timestamp; ev_payload : EventType }.
End events.
