(* ===== verification/State.v ===== *)
(** * The canister state (src/canister/src/state/mod.rs)

    [State] and every operation of it. An operation on [&mut self] returns the
    state it leaves. The stable-memory maps ([user_registry], [balances],
    [order_history], [trade_history]) are part of the state, and
    [StableMemoryOptions] says whether an operation writes to them. *)

From stdpp Require Import prelude gmap.
From Stdlib Require Import ZArith Lia.
From S2P Require Import Prelude Word BTree Quantity Ids Fees OrderTypes.
From S2P Require Import Tokens Balance WriteBack OrderQueue OrderBook.
From S2P Require Import History OrderHistory UserRegistry Settlement.
From S2P Require Import Permissions PairMap Events.

Inductive Task : Type := ProcessPendingOrders.
#[export] Instance Task_eq_dec : EqDecision Task.
Proof. solve_decision. Defined.
#[export] Instance Task_countable : Countable Task.
Proof. apply (inj_countable' (λ _, ()) (λ _, ProcessPendingOrders)). by intros []. Defined.

Inductive StableMemoryOptions : Type := Write | Skip.

Section state.
Context `{PrincipalType} `{!BiBTreeMap TradingPair OrderBookId}.

Record State : Type := MkState {
  st_mode : Mode;
  st_execution_policy : ExecutionPolicy;
  st_next_book_id : OrderBookId;
  st_tokens : gmap TokenId TokenMetadata;
  st_trading_pairs : TradingPairMap;
  st_order_books : gmap OrderBookId OrderBook;
  st_user_registry : UserRegistry;
  st_balances : TokenBalance;
  st_order_history : OrderHistory;
  st_trade_history : TradeHistory;
  st_ledger_fee_cache : gmap TokenId N;
  st_pending_settling_events : list SettlingEvent;
  st_active_tasks : gset Task;
  st_in_flight_user_ops : gset (Principal * TokenId);
  st_permissions : Permissions
}.

(** Field assignments. *)
Definition set_mode (x : Mode) (s : State) : State :=
    MkState x (st_execution_policy s) (st_next_book_id s) (st_tokens s) (st_trading_pairs s)
    (st_order_books s) (st_user_registry s) (st_balances s) (st_order_history s)
    (st_trade_history s) (st_ledger_fee_cache s) (st_pending_settling_events s) (st_active_tasks
    s) (st_in_flight_user_ops s) (st_permissions s).
Definition set_execution_policy (x : ExecutionPolicy) (s : State) : State :=
    MkState (st_mode s) x (st_next_book_id s) (st_tokens s) (st_trading_pairs s) (st_order_books
    s) (st_user_registry s) (st_balances s) (st_order_history s) (st_trade_history s)
    (st_ledger_fee_cache s) (st_pending_settling_events s) (st_active_tasks s)
    (st_in_flight_user_ops s) (st_permissions s).
Definition set_next_book_id (x : OrderBookId) (s : State) : State :=
    MkState (st_mode s) (st_execution_policy s) x (st_tokens s) (st_trading_pairs s)
    (st_order_books s) (st_user_registry s) (st_balances s) (st_order_history s)
    (st_trade_history s) (st_ledger_fee_cache s) (st_pending_settling_events s) (st_active_tasks
    s) (st_in_flight_user_ops s) (st_permissions s).
Definition set_tokens (x : gmap TokenId TokenMetadata) (s : State) : State :=
    MkState (st_mode s) (st_execution_policy s) (st_next_book_id s) x (st_trading_pairs s)
    (st_order_books s) (st_user_registry s) (st_balances s) (st_order_history s)
    (st_trade_history s) (st_ledger_fee_cache s) (st_pending_settling_events s) (st_active_tasks
    s) (st_in_flight_user_ops s) (st_permissions s).
Definition set_trading_pairs (x : TradingPairMap) (s : State) : State :=
    MkState (st_mode s) (st_execution_policy s) (st_next_book_id s) (st_tokens s) x
    (st_order_books s) (st_user_registry s) (st_balances s) (st_order_history s)
    (st_trade_history s) (st_ledger_fee_cache s) (st_pending_settling_events s) (st_active_tasks
    s) (st_in_flight_user_ops s) (st_permissions s).
Definition set_order_books (x : gmap OrderBookId OrderBook) (s : State) : State :=
    MkState (st_mode s) (st_execution_policy s) (st_next_book_id s) (st_tokens s)
    (st_trading_pairs s) x (st_user_registry s) (st_balances s) (st_order_history s)
    (st_trade_history s) (st_ledger_fee_cache s) (st_pending_settling_events s) (st_active_tasks
    s) (st_in_flight_user_ops s) (st_permissions s).
Definition set_user_registry (x : UserRegistry) (s : State) : State :=
    MkState (st_mode s) (st_execution_policy s) (st_next_book_id s) (st_tokens s)
    (st_trading_pairs s) (st_order_books s) x (st_balances s) (st_order_history s)
    (st_trade_history s) (st_ledger_fee_cache s) (st_pending_settling_events s) (st_active_tasks
    s) (st_in_flight_user_ops s) (st_permissions s).
Definition set_balances (x : TokenBalance) (s : State) : State :=
    MkState (st_mode s) (st_execution_policy s) (st_next_book_id s) (st_tokens s)
    (st_trading_pairs s) (st_order_books s) (st_user_registry s) x (st_order_history s)
    (st_trade_history s) (st_ledger_fee_cache s) (st_pending_settling_events s) (st_active_tasks
    s) (st_in_flight_user_ops s) (st_permissions s).
Definition set_order_history (x : OrderHistory) (s : State) : State :=
    MkState (st_mode s) (st_execution_policy s) (st_next_book_id s) (st_tokens s)
    (st_trading_pairs s) (st_order_books s) (st_user_registry s) (st_balances s) x
    (st_trade_history s) (st_ledger_fee_cache s) (st_pending_settling_events s) (st_active_tasks
    s) (st_in_flight_user_ops s) (st_permissions s).
Definition set_trade_history (x : TradeHistory) (s : State) : State :=
    MkState (st_mode s) (st_execution_policy s) (st_next_book_id s) (st_tokens s)
    (st_trading_pairs s) (st_order_books s) (st_user_registry s) (st_balances s)
    (st_order_history s) x (st_ledger_fee_cache s) (st_pending_settling_events s)
    (st_active_tasks s) (st_in_flight_user_ops s) (st_permissions s).
Definition set_ledger_fee_cache (x : gmap TokenId N) (s : State) : State :=
    MkState (st_mode s) (st_execution_policy s) (st_next_book_id s) (st_tokens s)
    (st_trading_pairs s) (st_order_books s) (st_user_registry s) (st_balances s)
    (st_order_history s) (st_trade_history s) x (st_pending_settling_events s) (st_active_tasks
    s) (st_in_flight_user_ops s) (st_permissions s).
Definition set_pending_settling_events (x : list SettlingEvent) (s : State) : State :=
    MkState (st_mode s) (st_execution_policy s) (st_next_book_id s) (st_tokens s)
    (st_trading_pairs s) (st_order_books s) (st_user_registry s) (st_balances s)
    (st_order_history s) (st_trade_history s) (st_ledger_fee_cache s) x (st_active_tasks s)
    (st_in_flight_user_ops s) (st_permissions s).
Definition set_active_tasks (x : gset Task) (s : State) : State :=
    MkState (st_mode s) (st_execution_policy s) (st_next_book_id s) (st_tokens s)
    (st_trading_pairs s) (st_order_books s) (st_user_registry s) (st_balances s)
    (st_order_history s) (st_trade_history s) (st_ledger_fee_cache s)
    (st_pending_settling_events s) x (st_in_flight_user_ops s) (st_permissions s).
Definition set_in_flight_user_ops (x : gset (Principal * TokenId)) (s : State) : State :=
    MkState (st_mode s) (st_execution_policy s) (st_next_book_id s) (st_tokens s)
    (st_trading_pairs s) (st_order_books s) (st_user_registry s) (st_balances s)
    (st_order_history s) (st_trade_history s) (st_ledger_fee_cache s)
    (st_pending_settling_events s) (st_active_tasks s) x (st_permissions s).
Definition set_permissions (x : Permissions) (s : State) : State :=
    MkState (st_mode s) (st_execution_policy s) (st_next_book_id s) (st_tokens s)
    (st_trading_pairs s) (st_order_books s) (st_user_registry s) (st_balances s)
    (st_order_history s) (st_trade_history s) (st_ledger_fee_cache s)
    (st_pending_settling_events s) (st_active_tasks s) (st_in_flight_user_ops s) x.

(** [pub const fn new]: [State::new]. *)
Definition state_new (init_arg : InitArg) (order_history : OrderHistory)
    (trade_history : TradeHistory) (user_registry : UserRegistry) (balances : TokenBalance) :
    result State PolicyError :=
  match policy_try_new (ia_max_orders_per_chunk init_arg) (ia_instruction_budget init_arg)
          (default DEFAULT_MAX_SETTLEMENT_UNITS_PER_EVENT
             (ia_max_settlement_units_per_event init_arg)) with
  | Err e => Err e
  | Ok execution_policy =>
      Ok (MkState (ia_mode init_arg) execution_policy Seq_ZERO ∅ pairs_default ∅ user_registry
            balances order_history trade_history ∅ [] ∅ ∅ permissions_default)
  end.

Definition assert_caller_is_allowed (self : State) (runtime : Runtime) : exec unit :=
  match st_mode self with
  | GeneralAvailability => Done ()
  | RestrictedTo allowed =>
      let caller := rt_msg_caller runtime in
      if rt_is_controller runtime caller then Done ()
      else if negb (bool_decide (caller ∈ allowed)) then Trap
      else Done ()
  end.

(** ** Tokens and pairs *)

Definition is_known_token (self : State) (token_id : TokenId) : bool :=
  bool_decide (is_Some (st_tokens self !! token_id)).
Definition token_metadata (self : State) (token_id : TokenId) : option TokenMetadata :=
  st_tokens self !! token_id.

(** [10u64.checked_pow(decimals as u32)]. *)
Definition pow10_u64 (decimals : u8) : option u64 := checked 64 (10 ^ decimals).

Definition base_scale (self : State) (base : TokenId) : exec (nonzero 64) :=
  let! metadata := expect (token_metadata self base) in
  let! scale := expect (pow10_u64 (decimals metadata)) in
  expect (nz_new scale).

Definition base_scale_for_book (self : State) (book_id : OrderBookId) : exec (nonzero 64) :=
  let! trading_pair := expect (get_pair (st_trading_pairs self) book_id) in
  base_scale self (base trading_pair).

Definition record_token (self : State) (token_id : TokenId) (metadata : TokenMetadata) :
    exec State :=
  match st_tokens self !! token_id with
  | Some existing =>
      let! _ := assert (bool_decide (existing = metadata)) in
      Done self
  | None => Done (set_tokens (<[token_id := metadata]> (st_tokens self)) self)
  end.

Definition record_trading_pair (self : State) (book_id : OrderBookId) (pair : TradingPair)
    (base_metadata quote_metadata : TokenMetadata) (tick_size : TickSize) (lot_size : LotSize)
    (min_notional : Quantity) (max_notional : option Quantity) (fee_rates : FeeRates) :
    exec State :=
  let! self := record_token self (base pair) base_metadata in
  let! self := record_token self (quote pair) quote_metadata in
  let! _ := assert (bool_decide (book_id = st_next_book_id self)) in
  let book := book_new book_id tick_size lot_size min_notional max_notional fee_rates in
  let! pairs := pairs_insert (st_trading_pairs self) pair book_id in
  let self := set_trading_pairs pairs self in
  let! _ := assert (bool_decide (st_order_books self !! book_id = None)) in
  let self := set_order_books (<[book_id := book]> (st_order_books self)) self in
  let! next := increment (st_next_book_id self) in
  Done (set_next_book_id next self).

Record InconsistentTokenMetadata : Type := MkInconsistentTokenMetadata {
  itm_token : TokenId; itm_expected : TokenMetadata; itm_submitted : TokenMetadata
}.

Definition check_token_metadata_consistency (self : State) (token_id : TokenId)
    (submitted : TokenMetadata) : result unit InconsistentTokenMetadata :=
  match st_tokens self !! token_id with
  | Some existing =>
      if bool_decide (existing ≠ submitted)
      then Err (MkInconsistentTokenMetadata token_id existing submitted) else Ok ()
  | None => Ok ()
  end.

Definition has_trading_pair (self : State) (pair : TradingPair) : bool :=
  pairs_contains (st_trading_pairs self) pair.
Definition get_order_book (self : State) (trading_pair : TradingPair) : option OrderBook :=
  get_book_id (st_trading_pairs self) trading_pair ≫= λ id, st_order_books self !! id.

(** ** Limit orders *)

Inductive AddLimitOrderError : Type :=
| AmountExceedsMaximum
| UnknownTradingPair
| InvalidOrder (e : MatchOrderError)
| InsufficientBalance (token : TokenId) (available required : Quantity)
| InvalidNotional (e : NotionalError)
| OrderTradingHalted.

Inductive CancelLimitOrderError : Type :=
| OrderNotFound
| NotOrderOwner
| OrderAlreadyTerminal.

Definition user_free_balance (self : State) (user : Principal) (token : TokenId) : Quantity :=
  default Quantity_ZERO
    (lookup_funding_id (st_user_registry self) user ≫= λ u,
     free <$> tb_get_balance (st_balances self) u token).

Definition validate_limit_order (self : State) (user : Principal) (pair : TradingPair)
    (pending : PendingOrder) : exec (result (OrderId * Order) AddLimitOrderError) :=
  let?! book_id := ok_or (get_book_id (st_trading_pairs self) pair) UnknownTradingPair in
  let! book := expect (st_order_books self !! book_id) in
  let! valid := validate_order book (po_price pending) (po_quantity pending) in
  let?! _ := map_err InvalidOrder valid in
  let! scale := base_scale self (base pair) in
  let! amount := checked_mul_quantity_scaled (po_price pending) (po_quantity pending) scale in
  let?! amount := ok_or amount AmountExceedsMaximum in
  let?! _ := map_err InvalidNotional (check_notional book amount) in
  let '(token, required) :=
    match po_side pending with
    | Buy => (quote pair, amount)
    | Sell => (base pair, po_quantity pending)
    end in
  let free := user_free_balance self user token in
  if q_ltb free required then Done (Err (InsufficientBalance token free required)) else
  let order_id := MkCompositeId book_id (ob_next_seq book) in
  let order := into_order pending (order_seq order_id) in
  Done (Ok (order_id, order)).

Definition record_limit_order (self : State) (user : Principal) (book_id : OrderBookId)
    (order : Order) (placed_by : option Principal) (timestamp : Timestamp)
    (persistence : StableMemoryOptions) : exec State :=
  let! trading_pair := expect (get_pair (st_trading_pairs self) book_id) in
  let! scale := base_scale self (base trading_pair) in
  let! book := expect (st_order_books self !! book_id) in
  let! (token, required) :=
    match o_side order with
    | Buy =>
        let! amount := checked_mul_quantity_scaled (o_price order) (o_remaining order) scale in
        let! amount := expect amount in
        Done (quote trading_pair, amount)
    | Sell => Done (base trading_pair, o_remaining order)
    end in
  let! self :=
    match persistence with
    | Skip => Done self
    | Write =>
        let! user_id := expect (lookup_funding_id (st_user_registry self) user) in
        let! (reserved, balances) := tb_reserve (st_balances self) user_id token required in
        let! _ := assert (is_ok reserved) in
        let self := set_balances balances self in
        let order_id := MkCompositeId book_id (o_id order) in
        let! history := history_insert_once (st_order_history self) user_id order_id
          (MkOrderRecord user (o_side order) (o_price order) (o_remaining order) Pending timestamp
             Quantity_ZERO None (o_tif order) Quantity_ZERO Quantity_ZERO placed_by None) in
        Done (set_order_history history self)
    end in
  let! book := add_pending_order book order in
  Done (set_order_books (<[book_id := book]> (st_order_books self)) self).

Definition validate_cancel_limit_order (self : State) (owner : Principal) (order_id : OrderId) :
    result unit CancelLimitOrderError :=
  match history_get (st_order_history self) order_id with
  | None => Err OrderNotFound
  | Some record =>
      if bool_decide (or_owner record ≠ owner) then Err NotOrderOwner else
      match or_status record with
      | Pending | Open => Ok ()
      | Filled | Canceled | Expired => Err OrderAlreadyTerminal
      end
  end.

Definition record_cancel_limit_order (self : State) (order_id : OrderId)
    (canceled_by : option Principal) (now : Timestamp) (persistence : StableMemoryOptions) :
    exec State :=
  let '(book_id, seq) := into_parts order_id in
  let! scale := base_scale_for_book self book_id in
  let! book := expect (st_order_books self !! book_id) in
  let! (removed, book) := remove_order book seq in
  let! removed := expect removed in
  let self := set_order_books (<[book_id := book]> (st_order_books self)) self in
  match persistence with
  | Skip => Done self
  | Write =>
      let! history := apply_update (st_order_history self) order_id (update_cancel canceled_by) now in
      let self := set_order_history history self in
      let! settlement := removed_settlement_new seq removed scale in
      Done (set_pending_settling_events
              (st_pending_settling_events self ++
                 [MkSettlingEvent book_id (removed_operations settlement) []]) self)
  end.

(** ** Matching *)

Definition record_matching_event (self : State) (event : MatchingEvent) (now : Timestamp)
    (persistence : StableMemoryOptions) : exec State :=
  let book_id := me_book_id event in
  let! scale := base_scale_for_book self book_id in
  let! book := expect (st_order_books self !! book_id) in
  let fee_rates := ob_fee_rates book in
  let! (output, book) := process_pending_orders book (me_orders event) in
  let self := set_order_books (<[book_id := book]> (st_order_books self)) self in
  match persistence with
  | Skip => Done self
  | Write =>
      let! settlement := from_matching output fee_rates scale
        (ep_max_settlement_units_per_event (st_execution_policy self)) in
      let! history :=
        exec_fold (λ history su, apply_update history (MkCompositeId book_id su.1) su.2 now)
          (st_order_history self) (btree_iter (order_updates settlement)) in
      let self := set_order_history history self in
      Done (set_pending_settling_events
              (st_pending_settling_events self ++
                 ((λ batch, MkSettlingEvent book_id (sb_operations batch) (sb_fills batch)) <$>
                    settling_batches settlement)) self)
  end.

(** ** Settling *)

Record ResolvedOrder : Type := MkResolvedOrder {
  rv_user : UserId; rv_side : Side; rv_price : Price
}.

(** The sequences an operation refers to. *)
Definition op_seqs (op : BalanceOperation) : list OrderSeq :=
  match op with
  | Transfer from_order to_order _ _ _ => [from_order; to_order]
  | Unreserve order _ _ => [order]
  end.

Definition resolve_order (book_id : OrderBookId) (history : OrderHistory)
    (registry : UserRegistry) (seq : OrderSeq) : exec (OrderSeq * ResolvedOrder) :=
  let! record := expect (history_get history (MkCompositeId book_id seq)) in
  let! user := expect (lookup_funding_id registry (or_owner record)) in
  Done (seq, MkResolvedOrder user (or_side record) (or_price record)).

Definition resolve_op_orders (book_id : OrderBookId) (ops : list BalanceOperation)
    (history : OrderHistory) (registry : UserRegistry) : exec (gmap OrderSeq ResolvedOrder) :=
  let seqs : gset OrderSeq := list_to_set (concat (op_seqs <$> ops)) in
  let! entries := exec_map (resolve_order book_id history registry) (bset_iter seqs) in
  Done (list_to_map entries).

(** The two loops of [record_settling_event]. *)
Definition settle_trade (event : SettlingEvent) (resolved : gmap OrderSeq ResolvedOrder)
    (scale : nonzero 64) (timestamp : Timestamp) (history : TradeHistory) (fill : FillEvent) :
    exec TradeHistory :=
  let! taker := expect (resolved !! fv_taker_order_seq fill) in
  let! maker := expect (resolved !! fv_maker_order_seq fill) in
  let! (taker_leg, maker_leg) :=
    trade_legs fill (se_book_id event) (rv_side taker) (rv_price maker) scale timestamp in
  trade_append history taker_leg (rv_user taker) maker_leg (rv_user maker).

Definition op_token (op : BalanceOperation) : PairToken :=
  match op with Transfer _ _ token _ _ => token | Unreserve _ token _ => token end.

Definition settle_op (pair : TradingPair) (resolved : gmap OrderSeq ResolvedOrder)
    (balances : BalanceWriteBack) (op : BalanceOperation) : exec BalanceWriteBack :=
  let token := pair_token pair (op_token op) in
  match op with
  | Transfer from_order to_order _ amount fee =>
      let! from := expect (resolved !! from_order) in
      let! to := expect (resolved !! to_order) in
      transfer balances (rv_user from) (rv_user to) token amount (default Quantity_ZERO fee)
  | Unreserve order _ amount =>
      let! order := expect (resolved !! order) in
      wb_unreserve balances (rv_user order) token amount
  end.

Definition record_settling_event (self : State) (event : SettlingEvent) (timestamp : Timestamp)
    (persistence : StableMemoryOptions) : exec State :=
  match persistence with
  | Skip => Done self
  | Write =>
      let! trading_pair := expect (get_pair (st_trading_pairs self) (se_book_id event)) in
      let! scale := base_scale_for_book self (se_book_id event) in
      let! resolved := resolve_op_orders (se_book_id event) (se_balance_operations event)
        (st_order_history self) (st_user_registry self) in
      let! trades := exec_fold (settle_trade event resolved scale timestamp)
        (st_trade_history self) (se_fills event) in
      let self := set_trade_history trades self in
      let! (_, balances) := with_write_back (st_balances self) (λ wb,
        let! wb := exec_fold (settle_op trading_pair resolved) wb (se_balance_operations event) in
        Done ((), wb)) in
      Done (set_balances balances self)
  end.

Definition take_next_pending_settling_event (self : State) : option SettlingEvent * State :=
  match st_pending_settling_events self with
  | [] => (None, self)
  | event :: rest => (Some event, set_pending_settling_events rest self)
  end.
Definition has_pending_settling_events (self : State) : bool :=
  negb (bool_decide (length (st_pending_settling_events self) = 0%nat)).
Definition has_pending_orders (self : State) : bool :=
  existsb (λ kb : OrderBookId * OrderBook, (0 <? pending_orders_len kb.2)%nat)
    (btree_iter (st_order_books self)).

(** ** Deposits, withdrawals and accounts *)

Definition state_deposit (self : State) (user : Principal) (token_id : TokenId)
    (amount : Quantity) (persistence : StableMemoryOptions) : exec State :=
  match persistence with
  | Skip => Done self
  | Write =>
      let '(user_id, registry) := get_or_register (st_user_registry self) user in
      let self := set_user_registry registry self in
      let! balances := tb_deposit (st_balances self) user_id token_id amount in
      Done (set_balances balances self)
  end.

Definition state_withdraw (self : State) (user : Principal) (token_id : TokenId)
    (amount : Quantity) : exec (result unit InsufficientBalanceError * State) :=
  match lookup_funding_id (st_user_registry self) user with
  | None => Done (Err (MkInsufficient Quantity_ZERO amount), self)
  | Some user_id =>
      let! (r, balances) := tb_withdraw (st_balances self) user_id token_id amount in
      Done (r, set_balances balances self)
  end.

Inductive AddTradingAccountError : Type :=
| AddGranterNotRegistered
| AddSelfGrant
| AddNonAuthenticatingTradingAccount
| AddAlreadyTradingAccount
| AddAlreadyRegisteredUser
| AddGranterIsTradingAccount
| AddTooManyTradingAccounts
| AddFundingOperationInProgress
| AddCooldownActive (retry_after_ns : u64).

(** [From<GrantError> for AddTradingAccountError]. *)
Definition grant_error_from (err : GrantError) : AddTradingAccountError :=
  match err with
  | GranterNotRegistered => AddGranterNotRegistered
  | SelfGrant => AddSelfGrant
  | NonAuthenticatingTradingAccount => AddNonAuthenticatingTradingAccount
  | AlreadyTradingAccount => AddAlreadyTradingAccount
  | AlreadyRegisteredUser => AddAlreadyRegisteredUser
  | GranterIsTradingAccount => AddGranterIsTradingAccount
  | TooManyTradingAccounts => AddTooManyTradingAccounts
  | CooldownActive retry_after_ns => AddCooldownActive retry_after_ns
  end.

Definition state_validate_add_trading_account (self : State) (funding : FundingAccount)
    (trading : TradingAccount) (now : Timestamp) : result unit AddTradingAccountError :=
  match validate_add_trading_account (st_user_registry self) funding trading now with
  | Err e => Err (grant_error_from e)
  | Ok _ =>
      if existsb (λ pt : Principal * TokenId, bool_decide (pt.1 = trading_principal trading))
           (elements (st_in_flight_user_ops self))
      then Err AddFundingOperationInProgress else Ok ()
  end.

Inductive RemoveTradingAccountError : Type := RemoveNotAllowed.

(** [From<RevokeError> for RemoveTradingAccountError]. *)
Definition revoke_error_from (err : RevokeError) : RemoveTradingAccountError :=
  match err with NotAllowed => RemoveNotAllowed end.

Definition state_validate_remove_trading_account (self : State) (funding : FundingAccount)
    (trading : TradingAccount) : result unit RemoveTradingAccountError :=
  map_err revoke_error_from (validate_remove_trading_account (st_user_registry self) funding trading).

Definition state_record_add_trading_account (self : State) (funding : FundingAccount)
    (trading : TradingAccount) (now : Timestamp) (persistence : StableMemoryOptions) : exec State :=
  match persistence with
  | Skip => Done self
  | Write =>
      let! registry := record_add_trading_account (st_user_registry self) funding trading now in
      Done (set_user_registry registry self)
  end.

Definition state_record_remove_trading_account (self : State) (funding : FundingAccount)
    (trading : TradingAccount) (persistence : StableMemoryOptions) : exec State :=
  match persistence with
  | Skip => Done self
  | Write =>
      let! registry := record_remove_trading_account (st_user_registry self) funding trading in
      Done (set_user_registry registry self)
  end.

Definition effective_account (self : State) (caller : Principal) : Principal :=
  match registry_lookup (st_user_registry self) caller with
  | Some account => effective_principal account
  | None => caller
  end.

Definition get_cached_ledger_fee (self : State) (token_id : TokenId) : N :=
  default 0%N (st_ledger_fee_cache self !! token_id).
Definition set_cached_ledger_fee (self : State) (token_id : TokenId) (fee : N) : State :=
  set_ledger_fee_cache (<[token_id := fee]> (st_ledger_fee_cache self)) self.

Definition get_balance (self : State) (user : Principal) (token_id : TokenId) : Balance :=
  default balance_zero
    (lookup_funding_id (st_user_registry self) user ≫= λ u,
     tb_get_balance (st_balances self) u token_id).
End state.
