(* ===== verification/EventAudit.v ===== *)
(** * Event sourcing (src/canister/src/state/audit/mod.rs)

    Every state change is an event: applied to the state, then appended to the
    log. [World] is the state with the stable event log. *)

From stdpp Require Import prelude gmap.
From Stdlib Require Import ZArith Lia.
From S2P Require Import Prelude Word BTree Quantity Ids Fees OrderTypes.
From S2P Require Import Tokens Balance WriteBack OrderBook History.
From S2P Require Import OrderHistory UserRegistry Settlement Permissions.
From S2P Require Import PairMap Events State.

Section audit.
Context `{PrincipalType} `{!BiBTreeMap TradingPair OrderBookId}.

Record World : Type := MkWorld { w_state : State; w_log : list Event }.

(** [EventType::Upgrade]. *)
Definition apply_upgrade (state : State) (arg : UpgradeArg) : exec State :=
  let state := match ua_mode arg with Some new_mode => set_mode new_mode state | None => state end in
  if bool_decide (is_Some (ua_max_orders_per_chunk arg)) ||
     bool_decide (is_Some (ua_instruction_budget arg)) ||
     bool_decide (is_Some (ua_max_settlement_units_per_event arg))
  then
    let current := st_execution_policy state in
    match policy_try_new
            (default (nzval (ep_max_orders_per_chunk current)) (ua_max_orders_per_chunk arg))
            (default (nzval (ep_instruction_budget current)) (ua_instruction_budget arg))
            (default (nzval (ep_max_settlement_units_per_event current))
               (ua_max_settlement_units_per_event arg)) with
    | Ok policy => Done (set_execution_policy policy state)
    | Err _ => Trap
    end
  else Done state.

(** [EventType::SetHalt]. *)
Definition apply_set_halt (permissions : Permissions) (event : SetHaltEvent) : Permissions :=
  match she_book_ids event with
  | None =>
      if she_halted event then halt_trading_globally permissions
      else resume_trading_globally permissions
  | Some book_ids =>
      foldl (λ permissions book_id,
        if she_halted event then perm_halt_trading permissions book_id
        else perm_resume_trading permissions book_id) permissions book_ids
  end.

Definition apply_state_transition (state : State) (payload : EventType) (timestamp : Timestamp)
    (persistence : StableMemoryOptions) : exec State :=
  match payload with
  | EInit _ => Trap
  | EUpgrade arg => apply_upgrade state arg
  | EAddTradingPair e =>
      record_trading_pair state (atp_book_id e) (MkTradingPair (atp_base e) (atp_quote e))
        (atp_base_metadata e) (atp_quote_metadata e) (atp_tick_size e) (atp_lot_size e)
        (atp_min_notional e) (atp_max_notional e) (atp_fee_rates e)
  | EDeposit e => state_deposit state (de_user e) (de_token e) (de_amount e) persistence
  | EWithdraw e =>
      match persistence with
      | Skip => Done state
      | Write =>
          let! (r, state) := state_withdraw state (we_user e) (we_token e) (we_amount e) in
          let! _ := assert (is_ok r) in
          Done state
      end
  | EAddLimitOrder e =>
      let pending := MkPendingOrder (ale_side e) (ale_price e) (ale_quantity e)
                       (ale_time_in_force e) in
      let '(book_id, order_seq) := into_parts (ale_order_id e) in
      let order := into_order pending order_seq in
      record_limit_order state (ale_user e) book_id order (ale_placed_by e) timestamp persistence
  | ECancelLimitOrder e =>
      record_cancel_limit_order state (ce_order_id e) (ce_canceled_by e) timestamp persistence
  | EMatching e => record_matching_event state e timestamp persistence
  | ESettling e => record_settling_event state e timestamp persistence
  | EAddTradingAccount e =>
      state_record_add_trading_account state (atae_funding e) (atae_trading e) timestamp persistence
  | ERemoveTradingAccount e =>
      state_record_remove_trading_account state (rtae_funding e) (rtae_trading e) persistence
  | ESetHalt e => Done (set_permissions (apply_set_halt (st_permissions state) e) state)
  end.

(** [storage::record_event] and the two gated entry points. *)
Definition storage_record_event (log : list Event) (timestamp : Timestamp) (payload : EventType) :
    list Event := log ++ [MkEvent timestamp payload].

Definition process_event (w : World) (payload : EventType) (permit : Permit) (runtime : Runtime) :
    exec World :=
  let timestamp := rt_time runtime in
  let! state := apply_state_transition (w_state w) payload timestamp Write in
  Done (MkWorld state (storage_record_event (w_log w) timestamp payload)).

Definition record_event (w : World) (payload : EventType) (permit : Permit) (runtime : Runtime) :
    World :=
  MkWorld (w_state w) (storage_record_event (w_log w) (rt_time runtime) payload).

Definition replay_events (events : list Event) (order_history : OrderHistory)
    (trade_history : TradeHistory) (user_registry : UserRegistry) (balances : TokenBalance)
    (persistence : StableMemoryOptions) : exec State :=
  match events with
  | [] => Trap
  | first :: rest =>
      let! state :=
        match ev_payload first with
        | EInit init_arg =>
            match state_new init_arg order_history trade_history user_registry balances with
            | Ok state => Done state
            | Err _ => Trap
            end
        | _ => Trap
        end in
      let! state := exec_fold (λ state event,
        apply_state_transition state (ev_payload event) (ev_timestamp event) persistence)
        state rest in
      Done (set_pending_settling_events [] state)
  end.

(** ** [State::cancel_limit_order] *)

(** The loop over the settling events the cancellation itself enqueued. *)
Definition settle_now (w : World) (event : SettlingEvent) (runtime : Runtime) : exec World :=
  process_event w (ESettling event) (PermitSync (permit_settling (st_permissions (w_state w)))) runtime.

Definition cancel_limit_order (w : World) (owner : Principal) (canceled_by : option Principal)
    (order_id : OrderId) (runtime : Runtime) :
    exec (result OrderRecord CancelLimitOrderError * World) :=
  match validate_cancel_limit_order (w_state w) owner order_id with
  | Err e => Done (Err e, w)
  | Ok _ =>
      let settling_backlog_len := length (st_pending_settling_events (w_state w)) in
      let permit := permit_cancel (st_permissions (w_state w)) in
      let! w := process_event w
        (ECancelLimitOrder (MkCancelLimitOrderEvent order_id canceled_by)) (PermitSync permit)
        runtime in
      (* [split_off(settling_backlog_len)] *)
      let split := drop settling_backlog_len (st_pending_settling_events (w_state w)) in
      let w := MkWorld (set_pending_settling_events
        (take settling_backlog_len (st_pending_settling_events (w_state w))) (w_state w)) (w_log w) in
      let! w := exec_fold (λ w event, settle_now w event runtime) w split in
      let! order := expect (history_get (st_order_history (w_state w)) order_id) in
      let! _ := assert (bool_decide (or_status order = Canceled)) in
      Done (Ok order, w)
  end.

(** ** Replay

    The part of the state that lives on the heap and is rebuilt from the log. *)

Record heap_eq (s t : State) : Prop := {
  he_mode : st_mode s = st_mode t;
  he_policy : st_execution_policy s = st_execution_policy t;
  he_next : st_next_book_id s = st_next_book_id t;
  he_tokens : st_tokens s = st_tokens t;
  he_pairs : st_trading_pairs s = st_trading_pairs t;
  he_books : st_order_books s = st_order_books t;
  he_permissions : st_permissions s = st_permissions t
}.

#[export] Instance heap_eq_equiv : Equivalence heap_eq.
Proof.
  split.
  - intros s. by split.
  - intros s t []. by split.
  - intros s t u [] []. split; congruence.
Qed.
End audit.
