(* ===== verification/Replay.v ===== *)
(** * Replaying the event log (src/canister/src/state/audit/mod.rs)

    A state changes by events and by the few direct mutations of the withdrawal
    and guard code. Replaying the log without touching the stable maps rebuilds
    the heap part of the state exactly. *)

From stdpp Require Import prelude gmap.
From Stdlib Require Import ZArith Lia.
From S2P Require Import Prelude Word BTree Quantity Ids Fees OrderTypes.
From S2P Require Import Tokens Balance WriteBack OrderBook History.
From S2P Require Import OrderHistory UserRegistry Settlement Permissions.
From S2P Require Import PairMap Events State EventAudit.
From S2P Require Import BalanceTotals.

Section replay.
Context `{PrincipalType} `{!BiBTreeMap TradingPair OrderBookId}.
Implicit Types (s t : State) (w : World).

(** The maps in stable memory. *)
Record stable_eq (s t : State) : Prop := {
  sq_registry : st_user_registry s = st_user_registry t;
  sq_balances : st_balances s = st_balances t;
  sq_orders : st_order_history s = st_order_history t;
  sq_trades : st_trade_history s = st_trade_history t
}.

#[export] Instance stable_eq_equiv : Equivalence stable_eq.
Proof.
  split.
  - intros s. by split.
  - intros s t []. by split.
  - intros s t u [] []. split; congruence.
Qed.

Lemma base_scale_heap s t b : heap_eq s t → base_scale s b = base_scale t b.
Proof. intros E. unfold base_scale, token_metadata. by rewrite (he_tokens _ _ E). Qed.

Lemma base_scale_for_book_heap s t b :
  heap_eq s t → base_scale_for_book s b = base_scale_for_book t b.
Proof.
  intros E. unfold base_scale_for_book. rewrite (he_pairs _ _ E).
  destruct (expect _); [|done]. by apply base_scale_heap.
Qed.

(** One transition, applied to a heap-equal state without writing stable memory. *)
Definition skips (s' t : State) (run : exec State) : Prop :=
  ∃ t', run = Done t' ∧ heap_eq s' t' ∧ stable_eq t t'.

Lemma skips_refl s t : heap_eq s t → skips s t (Done t).
Proof. intros E. exists t. split_and!; [done|done|reflexivity]. Qed.

Lemma record_token_skip s t k m s' :
  heap_eq s t → record_token s k m = Done s' → skips s' t (record_token t k m).
Proof.
  intros E. unfold record_token. rewrite (he_tokens _ _ E). destruct (st_tokens t !! k).
  - intros HT. apply bind_Done in HT as ([] & -> & [= <-]). by apply skips_refl.
  - intros [= <-]. eexists. split; [done|]. destruct E. split; by split.
Qed.

Lemma record_trading_pair_skip s t id p bm qm ts ls mn mx fr s' :
  heap_eq s t → record_trading_pair s id p bm qm ts ls mn mx fr = Done s' →
  skips s' t (record_trading_pair t id p bm qm ts ls mn mx fr).
Proof.
  intros E HT. unfold record_trading_pair in *.
  apply bind_Done in HT as (s1 & E1 & HT). apply bind_Done in HT as (s2 & E2 & HT).
  destruct (record_token_skip _ _ _ _ _ E E1) as (t1 & -> & Et1 & St1). cbn [ebind].
  destruct (record_token_skip _ _ _ _ _ Et1 E2) as (t2 & -> & Et2 & St2). cbn [ebind].
  rewrite (he_next _ _ Et2), (he_pairs _ _ Et2) in HT.
  apply bind_Done in HT as ([] & -> & HT). cbn [ebind].
  apply bind_Done in HT as (ps & -> & HT). cbn [ebind].
  cbn [st_order_books set_trading_pairs st_next_book_id set_order_books] in *.
  rewrite (he_books _ _ Et2) in HT. apply bind_Done in HT as ([] & -> & HT). cbn [ebind].
  rewrite (he_next _ _ Et2) in HT. apply bind_Done in HT as (nx & -> & HT). cbn [ebind].
  injection HT as <-. eexists. split; [done|]. split.
  - destruct Et2. by split.
  - transitivity t2; [by transitivity t1|by split].
Qed.

Lemma record_limit_order_skip s t user id o pb ts s' :
  heap_eq s t → record_limit_order s user id o pb ts Write = Done s' →
  skips s' t (record_limit_order t user id o pb ts Skip).
Proof.
  intros E HT. unfold record_limit_order in *. rewrite (he_pairs _ _ E), (he_books _ _ E) in HT.
  apply bind_Done in HT as (p & -> & HT). cbn [ebind] in *. rewrite (base_scale_heap _ t) in HT by done.
  apply bind_Done in HT as (sc & -> & HT). cbn [ebind].
  apply bind_Done in HT as (b & -> & HT). cbn [ebind].
  apply bind_Done in HT as ([tok req] & -> & HT). cbn [ebind].
  apply bind_Done in HT as (s1 & HW & HT). apply bind_Done in HT as (b' & -> & HT).
  cbn [ebind]. injection HT as <-. eexists. split; [done|].
  assert (E1 : heap_eq s1 s).
  { exec_inv. destruct x0. exec_inv. by split. }
  rewrite E in E1. split; [|by split]. rewrite (he_books _ _ E1). destruct E1. by split.
Qed.

Lemma record_cancel_skip s t id cb ts s' :
  heap_eq s t → record_cancel_limit_order s id cb ts Write = Done s' →
  skips s' t (record_cancel_limit_order t id cb ts Skip).
Proof.
  intros E HT. unfold record_cancel_limit_order in *. destruct (into_parts id) as [bid seq].
  rewrite (base_scale_for_book_heap _ t), (he_books _ _ E) in HT by done.
  apply bind_Done in HT as (sc & -> & HT). cbn [ebind].
  apply bind_Done in HT as (b & -> & HT). cbn [ebind].
  apply bind_Done in HT as ([ro b'] & -> & HT). cbn [ebind].
  apply bind_Done in HT as (r & -> & HT). cbn [ebind].
  apply bind_Done in HT as (h & _ & HT). apply bind_Done in HT as (rs & _ & [= <-]).
  eexists. split; [done|]. split; [|by split]. destruct E. by split.
Qed.

Lemma record_matching_skip s t e ts s' :
  heap_eq s t → record_matching_event s e ts Write = Done s' →
  skips s' t (record_matching_event t e ts Skip).
Proof.
  intros E HT. unfold record_matching_event in *.
  rewrite (base_scale_for_book_heap _ t), (he_books _ _ E) in HT by done.
  apply bind_Done in HT as (sc & -> & HT). cbn [ebind].
  apply bind_Done in HT as (b & -> & HT). cbn [ebind].
  apply bind_Done in HT as ([out b'] & -> & HT). cbn [ebind].
  apply bind_Done in HT as (ms & _ & HT). apply bind_Done in HT as (h & _ & [= <-]).
  eexists. split; [done|]. split; [|by split]. destruct E. by split.
Qed.

Lemma apply_upgrade_skip s t a s' :
  heap_eq s t → apply_upgrade s a = Done s' → skips s' t (apply_upgrade t a).
Proof.
  intros E. unfold apply_upgrade.
  set (s1 := match ua_mode a with Some m => set_mode m s | None => s end).
  set (t1 := match ua_mode a with Some m => set_mode m t | None => t end).
  assert (E1 : heap_eq s1 t1) by (unfold s1, t1; destruct E, (ua_mode a); by split).
  assert (S1 : stable_eq t t1) by (unfold t1; by destruct (ua_mode a)).
  rewrite (he_policy _ _ E1). destruct (_ || _).
  - destruct (policy_try_new _ _ _) as [p|]; [|done]. intros [= <-].
    eexists. split; [done|]. split; [destruct E1; by split|].
    transitivity t1; [done|by split].
  - intros [= <-]. by exists t1.
Qed.

(** Any transition. *)
Lemma transition_skip s t p ts s' :
  heap_eq s t → apply_state_transition s p ts Write = Done s' →
  skips s' t (apply_state_transition t p ts Skip).
Proof.
  intros E HT. destruct p; cbn [apply_state_transition] in *.
  - done.
  - by apply (apply_upgrade_skip s).
  - by apply (record_trading_pair_skip s).
  - unfold state_deposit in HT. destruct (get_or_register _ _). exec_inv.
    apply skips_refl. destruct E. by split.
  - destruct (into_parts _). by apply (record_limit_order_skip s).
  - unfold record_settling_event in HT. repeat (apply bind_Done in HT as (? & ? & HT)).
    destruct x3. injection HT as <-. apply skips_refl. destruct E. by split.
  - by apply (record_matching_skip s).
  - apply bind_Done in HT as ([r s1] & Hw & HT). apply bind_Done in HT as ([] & _ & [= <-]).
    apply skips_refl. unfold state_withdraw in Hw.
    destruct (lookup_funding_id _ _); [|by injection Hw as _ <-].
    apply bind_Done in Hw as ([] & _ & [= _ <-]). destruct E. by split.
  - by apply (record_cancel_skip s).
  - injection HT as <-. eexists. split; [done|]. rewrite (he_permissions _ _ E).
    destruct E. split; by split.
  - unfold state_record_add_trading_account in HT. exec_inv. apply skips_refl. destruct E. by split.
  - unfold state_record_remove_trading_account in HT. exec_inv. apply skips_refl. destruct E. by split.
Qed.

(** ** Executions

    How the canister changes its world: events through [process_event], the
    record-only withdrawal event, and the direct mutations of [withdraw] (debit,
    credit back, fee cache), of the guards and of the settling queue. *)
Inductive world_step : World → World → Prop :=
| step_event w p permit rt w' :
    process_event w p permit rt = Done w' → world_step w w'
| step_withdraw_record w e permit rt :
    world_step w (record_event w (EWithdraw e) permit rt)
| step_withdraw_debit w user token amount r s' :
    state_withdraw (w_state w) user token amount = Done (r, s') →
    world_step w (MkWorld s' (w_log w))
| step_withdraw_refund w user token amount s' :
    state_deposit (w_state w) user token amount Write = Done s' →
    world_step w (MkWorld s' (w_log w))
| step_fee_cache w token fee :
    world_step w (MkWorld (set_cached_ledger_fee (w_state w) token fee) (w_log w))
| step_guard_ops w ops :
    world_step w (MkWorld (set_in_flight_user_ops ops (w_state w)) (w_log w))
| step_guard_tasks w tasks :
    world_step w (MkWorld (set_active_tasks tasks (w_state w)) (w_log w))
| step_settling_queue w queue :
    world_step w (MkWorld (set_pending_settling_events queue (w_state w)) (w_log w)).

Inductive reachable (arg : InitArg) (start : Timestamp) : World → Prop :=
| reach_init s :
    state_new arg history_new history_new registry_new (MkTokenBalance ∅ fee_pool_default) = Ok s →
    reachable arg start (MkWorld s [MkEvent start (EInit arg)])
| reach_step w w' : reachable arg start w → world_step w w' → reachable arg start w'.

Definition replay_tail (s : State) (events : list Event) : exec State :=
  exec_fold (λ state event,
    apply_state_transition state (ev_payload event) (ev_timestamp event) Skip) s events.

(** Replaying the log of a reachable world gives its heap back. *)
Lemma replay_reachable arg start w oh th ur tb :
  reachable arg start w →
  ∃ s0 rest t, w_log w = MkEvent start (EInit arg) :: rest ∧
    state_new arg oh th ur tb = Ok s0 ∧ replay_tail s0 rest = Done t ∧
    heap_eq (w_state w) t ∧ stable_eq s0 t.
Proof.
  induction 1 as [s Hs|w w' _ IH Hstep].
  - unfold state_new in *. destruct (policy_try_new _ _ _) as [p|]; [|done]. injection Hs as <-.
    eexists _, [], _. split_and!; [done|done|done|by split|reflexivity].
  - destruct IH as (s0 & rest & t & El & Es0 & Er & Eh & Est). exists s0.
    assert (Hsame : ∀ s', heap_eq (w_state w) s' → ∃ rest' t', w_log w = MkEvent start (EInit arg) :: rest' ∧
      state_new arg oh th ur tb = Ok s0 ∧ replay_tail s0 rest' = Done t' ∧
      heap_eq s' t' ∧ stable_eq s0 t').
    { intros s' E. exists rest, t. split_and!; try done. by rewrite <-E. }
    assert (Hpush : ∀ ev s' t', apply_state_transition t (ev_payload ev) (ev_timestamp ev) Skip = Done t' →
      heap_eq s' t' → stable_eq t t' →
      ∃ rest' t', w_log w ++ [ev] = MkEvent start (EInit arg) :: rest' ∧
      state_new arg oh th ur tb = Ok s0 ∧ replay_tail s0 rest' = Done t' ∧
      heap_eq s' t' ∧ stable_eq s0 t').
    { intros ev s' t' Et Eh' Est'. exists (rest ++ [ev]), t'. rewrite El. split_and!; try done.
      - unfold replay_tail in *. rewrite exec_fold_app, Er. simpl. by rewrite Et.
      - by rewrite Est. }
    destruct Hstep; cbn [w_state w_log].
    + unfold process_event in *. apply bind_Done in H0 as (s' & Hs' & [= <-]). cbn [w_state w_log].
      destruct (transition_skip _ t _ _ _ Eh Hs') as (t' & Et & Eh' & Est').
      by apply (Hpush (MkEvent (rt_time rt) p) s' t').
    + unfold record_event, storage_record_event. cbn [w_state w_log].
      by apply (Hpush (MkEvent (rt_time rt) (EWithdraw e)) _ t).
    + apply Hsame. unfold state_withdraw in *. destruct (lookup_funding_id _ _); exec_inv; [|done].
      destruct x. exec_inv. by split.
    + apply Hsame. unfold state_deposit in *. destruct (get_or_register _ _). exec_inv. by split.
    + by apply Hsame.
    + by apply Hsame.
    + by apply Hsame.
    + by apply Hsame.
Qed.
(** The whole log, from its first event. *)
Lemma replay_events_reachable arg start w oh th ur tb :
  reachable arg start w →
  ∃ t, replay_events (w_log w) oh th ur tb Skip = Done t ∧ heap_eq (w_state w) t ∧
    st_order_history t = oh ∧ st_trade_history t = th ∧ st_user_registry t = ur ∧
    st_balances t = tb.
Proof.
  intros R. destruct (replay_reachable arg start w oh th ur tb R)
    as (s0 & rest & t & El & E0 & Et & Hh & Hs).
  exists (set_pending_settling_events [] t). unfold replay_events. rewrite El. simpl. rewrite E0.
  cbn [ebind]. unfold replay_tail in Et. rewrite Et. cbn [ebind]. split; [done|].
  unfold state_new in E0. destruct (policy_try_new _ _ _); [|done]. injection E0 as <-.
  destruct Hh, Hs. simpl in *. split_and!; [by split|done..].
Qed.
End replay.

(** ** Conservation of tokens through the state transitions

    Per token, the balances of all users (free and reserved) plus the fee pool
    change only by the deposits and withdrawals: orders, matching, settlement,
    cancellation and administration move tokens but never create or destroy them. *)

Section conservation.
Context `{PrincipalType} `{!BiBTreeMap TradingPair OrderBookId}.

(** What an event brings in, per token. *)
Definition event_flow (t : TokenId) (p : EventType) : Z :=
  match p with
  | EDeposit e => if decide (de_token e = t) then qval (de_amount e) else 0
  | EWithdraw e => if decide (we_token e = t) then - qval (we_amount e) else 0
  | _ => 0
  end.

Definition state_supply (t : TokenId) (s : State) : Z := supply t (st_balances s).

Lemma settle_op_supply pair resolved wb op wb' t :
  wb_ok wb → settle_op pair resolved wb op = Done wb' →
  wb_ok wb' ∧ wb_supply t wb' = wb_supply t wb.
Proof.
  intros O E. destruct op as [f u tok a fee|o tok a]; unfold settle_op in E; exec_inv.
  - split; [by apply (transfer_Done _ _ _ _ _ _ _ O E)|by eapply transfer_supply].
  - split; [by apply (wb_unreserve_Done _ _ _ _ _ O E)|by eapply wb_unreserve_supply].
Qed.

Lemma settle_ops_supply pair resolved ops wb wb' t :
  wb_ok wb → exec_fold (settle_op pair resolved) wb ops = Done wb' →
  wb_ok wb' ∧ wb_supply t wb' = wb_supply t wb.
Proof.
  intros O. apply (exec_fold_inv (λ _ w, wb_ok w ∧ wb_supply t w = wb_supply t wb)); [done|].
  intros op rest w1 w2 [O1 S1] E. destruct (settle_op_supply _ _ _ _ _ t O1 E). split; [done|lia].
Qed.

Lemma record_settling_supply s e ts s' t :
  record_settling_event s e ts Write = Done s' → state_supply t s' = state_supply t s.
Proof.
  unfold record_settling_event. intros E. exec_inv. destruct x3 as [[] tb'].
  apply with_write_back_Done in H4 as (wb' & Ew & ->). exec_inv.
  destruct (settle_ops_supply _ _ _ _ _ t (wb_new_ok _ _) H4) as [_ Hs].
  rewrite wb_supply_new in Hs. exact Hs.
Qed.

Lemma state_deposit_supply s u tok a s' t :
  state_deposit s u tok a Write = Done s' →
  state_supply t s' = state_supply t s + if decide (tok = t) then qval a else 0.
Proof.
  unfold state_deposit. destruct (get_or_register _ u) as [uid reg]. intros E. exec_inv.
  apply tb_deposit_Done in H0 as (_ & _ & Hs & _). apply Hs.
Qed.

Lemma state_withdraw_supply s u tok a r s' t :
  state_withdraw s u tok a = Done (r, s') →
  state_supply t s' =
    state_supply t s - if r is Ok _ then if decide (tok = t) then qval a else 0 else 0.
Proof.
  unfold state_withdraw. destruct (lookup_funding_id _ u) as [uid|]; intros E; exec_inv; [|lia].
  destruct x as [r0 tb']. exec_inv. apply tb_withdraw_Done in H0. unfold state_supply; simpl.
  destruct r; [by destruct H0 as (_ & _ & _ & ->)|]. destruct H0 as (-> & _). lia.
Qed.

Lemma record_limit_order_supply s u id o pb ts s' t :
  record_limit_order s u id o pb ts Write = Done s' → state_supply t s' = state_supply t s.
Proof.
  unfold record_limit_order. intros E. exec_inv.
  destruct x2 as [token required]. exec_inv.
  match goal with Hr : tb_reserve _ _ _ _ = Done ?p |- _ =>
    destruct p as [r tb']; pose proof (tb_reserve_Done _ _ _ _ _ _ Hr) as Hres end.
  exec_inv. unfold state_supply; simpl.
  destruct r; [by destruct Hres as (_ & _ & _ & _ & -> & _)|by destruct Hres as (-> & _)].
Qed.

Lemma record_token_balances s k m s' :
  record_token s k m = Done s' → st_balances s' = st_balances s.
Proof. unfold record_token. intros E. case_match; exec_inv; done. Qed.

Lemma transition_supply s p ts s' t :
  apply_state_transition s p ts Write = Done s' →
  state_supply t s' = state_supply t s + event_flow t p.
Proof.
  destruct p as [i|a|e|e|e|e|e|e|e|e|e|e]; cbn [apply_state_transition event_flow]; intros E.
  - done.
  - unfold apply_upgrade in E. rewrite Z.add_0_r.
    repeat (case_match; simplify_eq/=; try done); exec_inv; done.
  - unfold record_trading_pair in E. exec_inv. unfold state_supply; simpl.
    apply record_token_balances in H0, H1. rewrite H1, H0. lia.
  - by apply (state_deposit_supply s (de_user e)).
  - destruct (into_parts _) as [id seq]. apply (record_limit_order_supply _ _ _ _ _ _ _ t) in E. lia.
  - apply (record_settling_supply _ _ _ _ t) in E. lia.
  - unfold record_matching_event in E. exec_inv. destruct x1 as [out b]. exec_inv.
    unfold state_supply; simpl. lia.
  - apply bind_Done in E as ([r s1] & H0 & E). exec_inv.
    apply (state_withdraw_supply _ _ _ _ _ _ t) in H0. destruct r; [|done]. case_decide; lia.
  - unfold record_cancel_limit_order in E. destruct (into_parts _) as [id seq]. exec_inv.
    destruct x1 as [r b]. exec_inv. unfold state_supply; simpl. lia.
  - exec_inv. unfold state_supply; simpl. lia.
  - unfold state_record_add_trading_account in E. exec_inv. unfold state_supply; simpl. lia.
  - unfold state_record_remove_trading_account in E. exec_inv. unfold state_supply; simpl. lia.
Qed.

(** A run of events. *)
Lemma transitions_supply evs s s' t :
  exec_fold (λ s e, apply_state_transition s (ev_payload e) (ev_timestamp e) Write) s evs = Done s' →
  state_supply t s' = state_supply t s + sum_over (λ e, event_flow t (ev_payload e)) evs.
Proof.
  revert s. induction evs as [|e evs IH]; intros s E; simpl in E; exec_inv.
  { rewrite sum_over_nil. lia. }
  apply (transition_supply _ _ _ _ t) in H0. apply IH in E. rewrite sum_over_cons. lia.
Qed.
End conservation.
