(* ===== verification/Accounting.v ===== *)
(** * Accounting lemmas

    What the canister-wide invariant is built from: the reservation behind a
    quantity, sums over the records of a history, the bounds that the supply of a
    token puts on every row, and the operations on the write-back buffer that
    these bounds make total. *)

From stdpp Require Import prelude gmap.
From Stdlib Require Import ZArith Lia.
From S2P Require Import Prelude Word BTree Quantity Ids OrderTypes Tokens.
From S2P Require Import Balance WriteBack BalanceTotals History.
From S2P Require Import Settlement SettlementSpec.
Open Scope Z_scope.

(** ** Reservations *)

(** [reservation] on a plain number of base units. *)
Definition resZ (side : Side) (p : Price) (z scale : Z) : Z :=
  match side with Buy => p * z / scale | Sell => z end.

Lemma reservation_resZ side p q s : reservation side p q s = resZ side p (qval q) s.
Proof. by destruct side. Qed.

Lemma resZ_zero side p s : resZ side p 0 s = 0.
Proof. destruct side; simpl; [by rewrite Z.mul_0_r, Zdiv_0_l|done]. Qed.

Lemma resZ_nonneg side (p : Price) z s : 0 ≤ z → 0 < s → 0 ≤ resZ side p z s.
Proof.
  intros. destruct side; simpl; [|done]. pose proof (u128_range p). apply Z.div_pos; nia.
Qed.

Lemma resZ_mono side (p : Price) z z' s : z ≤ z' → 0 < s → resZ side p z s ≤ resZ side p z' s.
Proof.
  intros. destruct side; simpl; [|done]. pose proof (u128_range p). apply Z.div_le_mono; nia.
Qed.

(** Reservations of whole lots add up. *)
Lemma resZ_add side (p : Price) z1 z2 s :
  p * z1 mod s = 0 → 0 < s → resZ side p (z1 + z2) s = resZ side p z1 s + resZ side p z2 s.
Proof.
  intros Hm Hs. destruct side; simpl; [|done].
  apply Z.div_exact in Hm; [|lia]. rewrite Z.mul_add_distr_l, Hm at 1.
  rewrite (Z.mul_comm s). by rewrite Z.div_add_l by lia.
Qed.

Lemma resZ_positive side (p : Price) z s :
  0 < p → 0 < z → p * z mod s = 0 → 0 < s → 0 < resZ side p z s.
Proof.
  intros Hp Hz Hm Hs. destruct side; simpl; [|done].
  apply Z.div_exact in Hm; [|lia]. nia.
Qed.

(** ** Sums over the records of a history *)

Section history_sums.
Context {K V : Type} `{Countable K, !Ord K}.
Implicit Types (h : History K V) (f g : K → V → Z).

Definition hsum (f : K → V → Z) (h : History K V) : Z :=
  map_sum (λ k sr, f k (sr_record sr)) (primary h).

Definition weight_at (f : K → V → Z) (h : History K V) (k : K) : Z :=
  from_option (f k) 0 (history_get h k).

Lemma map_sum_imap {W} (f : K → W → Z) (m : gmap K W) :
  map_sum f m = map_sum (λ _ z, z) (map_imap (λ k v, Some (f k v)) m).
Proof.
  induction m as [|k v m Hk IH] using map_ind.
  - by rewrite map_imap_empty.
  - rewrite map_imap_insert_Some with (y := f k v) by done.
    rewrite !map_sum_insert_new, IH; [done|by rewrite map_lookup_imap, Hk|done].
Qed.

Lemma map_sum_le {W} (f g : K → W → Z) (m : gmap K W) :
  (∀ k v, m !! k = Some v → f k v ≤ g k v) → map_sum f m ≤ map_sum g m.
Proof.
  induction m as [|k v m Hk IH] using map_ind; intros Hfg; [done|].
  rewrite !map_sum_insert_new by done.
  assert (f k v ≤ g k v) by (apply Hfg; by rewrite lookup_insert_eq).
  assert (map_sum f m ≤ map_sum g m); [|lia]. apply IH. intros k' v' Hv. apply Hfg.
  rewrite lookup_insert_ne; [done|]. intros ->. congruence.
Qed.

Lemma hsum_ext f g h h' : (∀ k, weight_at f h k = weight_at g h' k) → hsum f h = hsum g h'.
Proof.
  intros E. unfold hsum. rewrite (map_sum_imap _ (primary h)), (map_sum_imap _ (primary h')).
  apply map_sum_ext. intros k. specialize (E k). unfold weight_at, history_get in E.
  rewrite !map_lookup_imap. by destruct (primary h !! k), (primary h' !! k).
Qed.

(** One record more, or one record that weighs differently. *)
Lemma hsum_change f g h h' k0 z :
  (∀ k, weight_at g h' k = weight_at f h k + if decide (k = k0) then z else 0) →
  hsum g h' = hsum f h + z.
Proof.
  intros E. unfold hsum. rewrite (map_sum_imap _ (primary h)), (map_sum_imap _ (primary h')).
  set (m := map_imap _ (primary h)). set (m' := map_imap _ (primary h')).
  assert (W : ∀ k, from_option (λ z, z) 0 (m' !! k) =
                   from_option (λ z, z) 0 (m !! k) + if decide (k = k0) then z else 0).
  { intros k. specialize (E k). unfold weight_at, history_get in E. unfold m, m'.
    rewrite !map_lookup_imap. by destruct (primary h !! k), (primary h' !! k). }
  rewrite (map_sum_ext _ m' (<[k0 := from_option (λ z, z) 0 (m !! k0) + z]> m)).
  - rewrite map_sum_insert. lia.
  - intros k. rewrite W. destruct (decide (k = k0)) as [->|].
    + by rewrite lookup_insert_eq.
    + rewrite lookup_insert_ne by done. lia.
Qed.

Lemma hsum_nonneg_ge f h k v :
  (∀ k v, history_get h k = Some v → 0 ≤ f k v) → history_get h k = Some v → f k v ≤ hsum f h.
Proof.
  intros Hf Hk. unfold history_get in *.
  destruct (primary h !! k) as [sr|] eqn:E; simplify_eq/=.
  unfold hsum, map_sum.
  apply (sum_over_elem_le (λ kv : K * SeqRecord V, f kv.1 (sr_record kv.2)) _ (k, sr)).
  - intros [k' sr'] Hin. apply elem_of_map_to_list in Hin. simpl. apply Hf. by rewrite Hin.
  - by apply elem_of_map_to_list.
Qed.
End history_sums.

(** ** Bounds from the supply *)

Section supply_bounds.
Context `{PrincipalType}.
Implicit Types (wb : BalanceWriteBack) (t : TokenId) (c d u : UserId).

(** A debtor's reserved and a creditor's free balance are part of the supply. *)
Lemma users_total_bound t m c d :
  qval (free (amount_of m (t, c))) + qval (reserved (amount_of m (t, d))) ≤ users_total t m.
Proof.
  pose proof (λ k, qval_range (free (amount_of m k))) as Hf.
  pose proof (λ k, qval_range (reserved (amount_of m k))) as Hr.
  assert (Hz : ∀ m', 0 ≤ users_total t m').
  { intros m'. apply sum_over_nonneg. intros [k b] _. unfold weight; simpl.
    case_decide; [apply bal_total_nonneg|lia]. }
  pose proof (users_total_insert t m (t, c) balance_zero) as Hc.
  pose proof (users_total_insert t (<[(t, c) := balance_zero]> m) (t, d) balance_zero) as Hd.
  pose proof (Hz (<[(t, d) := balance_zero]> (<[(t, c) := balance_zero]> m))) as H0.
  unfold weight, bal_total in Hc, Hd. simpl in Hc, Hd. rewrite !decide_True in Hc, Hd by done.
  rewrite amount_insert in Hd. change (qval Quantity_ZERO) with 0 in *.
  specialize (Hf (t, c)) as Hf1. specialize (Hf (t, d)) as Hf2. specialize (Hr (t, c)) as Hr1.
  case_decide as E; [injection E as ->|]; simpl in Hd;
    try change (qval Quantity_ZERO) with 0 in Hd; lia.
Qed.

Lemma fees_at_nonneg p t : 0 ≤ fees_at p t.
Proof. unfold fees_at. destruct (per_token p !! t) as [q|]; simpl; [apply qval_range|done]. Qed.

Lemma wb_supply_bound t wb c d :
  wb_ok wb →
  qval (free (view wb (t, c))) + qval (reserved (view wb (t, d))) + fees_at (wb_fee_pool wb) t
    ≤ wb_supply t wb.
Proof.
  intros Hok. unfold wb_supply. rewrite <-!flush_view by done.
  pose proof (users_total_bound t (flush wb) c d). lia.
Qed.

Lemma reserved_le_supply t tb u : qval (reserved (amount_of (tb_balances tb) (t, u))) ≤ supply t tb.
Proof.
  pose proof (users_total_bound t (tb_balances tb) u u).
  pose proof (qval_range (free (amount_of (tb_balances tb) (t, u)))).
  pose proof (fees_at_nonneg (tb_fee_pool tb) t). unfold supply. lia.
Qed.

(** ** Total operations *)

Lemma load_existing_Done wb k :
  wb_ok wb → is_Some (wb_balances wb !! k) →
  load_existing wb k = Done (view wb k, λ b, write_row wb k (MkRow b (existed (buffered_row wb k)))).
Proof.
  intros Hok Hk. unfold load_existing. rewrite buffered_row_existed by done.
  by rewrite bool_decide_eq_true_2.
Qed.

Lemma withhold_total p t gross fee :
  qval fee ≤ qval gross → fees_at p t + qval fee < 2 ^ 256 →
  ∃ net p', withhold p t gross fee = Done (net, p').
Proof.
  intros Hle Hs. unfold withhold. rewrite checked_sub_eq.
  pose proof (qval_range gross). pose proof (qval_range fee).
  rewrite q_checked_in by lia. cbn [expect ebind]. destruct (is_zero fee); simpl; [eauto|].
  rewrite checked_add_eq, q_checked_in; [simpl; eauto|].
  unfold fees_at in Hs. destruct (per_token p !! t) as [q|]; simpl in *.
  - pose proof (qval_range q). lia.
  - change (qval Quantity_ZERO) with 0. lia.
Qed.

Lemma wb_unreserve_total wb u t a :
  wb_ok wb → is_Some (wb_balances wb !! (t, u)) → qval a ≤ qval (reserved (view wb (t, u))) →
  wb_supply t wb < 2 ^ 256 → ∃ wb', wb_unreserve wb u t a = Done wb'.
Proof.
  intros Hok Hrow Ha Hs. unfold wb_unreserve. rewrite load_existing_Done by done. cbn [ebind].
  pose proof (wb_supply_bound t wb u u Hok) as Hb. pose proof (fees_at_nonneg (wb_fee_pool wb) t).
  pose proof (qval_range a). pose proof (qval_range (free (view wb (t, u)))).
  pose proof (qval_range (reserved (view wb (t, u)))).
  unfold bal_unreserve. rewrite checked_sub_eq, q_checked_in by lia. cbn [expect ebind].
  rewrite checked_add_eq, q_checked_in by lia. simpl. eauto.
Qed.

Lemma transfer_total wb d c t gross fee :
  wb_ok wb → is_Some (wb_balances wb !! (t, d)) → qval fee ≤ qval gross →
  qval gross ≤ qval (reserved (view wb (t, d))) → wb_supply t wb < 2 ^ 256 →
  ∃ wb', transfer wb d c t gross fee = Done wb'.
Proof.
  intros Hok Hrow Hfee Ha Hs. unfold transfer.
  pose proof (wb_supply_bound t wb c d Hok) as Hb. pose proof (fees_at_nonneg (wb_fee_pool wb) t).
  pose proof (qval_range gross). pose proof (qval_range fee).
  pose proof (qval_range (free (view wb (t, c)))). pose proof (qval_range (reserved (view wb (t, d)))).
  destruct (withhold_total (wb_fee_pool wb) t gross fee) as (net & p' & Ew); [done|lia|].
  rewrite Ew. cbn [ebind]. apply withhold_Done in Ew as [En _].
  set (wb1 := MkWriteBack _ _ _).
  assert (Ok1 : wb_ok wb1) by exact Hok.
  rewrite load_existing_Done by done. change (view wb1 (t, d)) with (view wb (t, d)). cbn [ebind].
  unfold bal_debit_reserved. rewrite checked_sub_eq, q_checked_in by lia. cbn [expect ebind].
  set (b1 := MkBalance _ _). unfold load_or_create.
  match goal with |- context [row_balance (buffered_row ?w ?k)] =>
    change (row_balance (buffered_row w k)) with (view w k) end.
  rewrite view_write_row. unfold bal_deposit.
  assert (Ef : free (if decide ((t, c) = (t, d)) then row_balance (MkRow b1 (existed
      (buffered_row wb1 (t, d)))) else view wb1 (t, c)) = free (view wb (t, c))).
  { case_decide as E; [|done]. injection E as ->. done. }
  rewrite Ef, checked_add_eq, q_checked_in by (pose proof (qval_range net); lia).
  simpl. eauto.
Qed.
End supply_bounds.
