(* ===== verification/StateInv.v ===== *)
(** * The invariant of the canister state

    [core n Q s] ties the components of [State] together: the books, their
    orders' records, the balances and the settling events [Q] that are still
    outstanding. Its centre is the reserve equation: what a user has reserved of a
    token is exactly what the user's open orders and outstanding settlements
    account for. [n] bounds the number of orders, users and books. *)

From stdpp Require Import prelude gmap.
From Stdlib Require Import ZArith Lia.
From S2P Require Import Prelude Word BTree Quantity Ids Fees OrderTypes.
From S2P Require Import Tokens Balance WriteBack BalanceTotals OrderQueue.
From S2P Require Import FillPlan OrderBook BookInv BookMatching BookInvMatch.
From S2P Require Import BookPending BookRound.
From S2P Require Import BookCancel History OrderHistory.
From S2P Require Import UserRegistry UserRegistryInv Settlement SettlementSpec.
From S2P Require Import Permissions PairMap Events State Replay.
From S2P Require Import Accounting.
Open Scope Z_scope.

(** The bound on the tokens of one ledger that are in custody. *)
Definition MAX_SUPPLY : Z := 2 ^ 192.

Section state_inv.
Context `{PrincipalType} `{!BiBTreeMap TradingPair OrderBookId}.
Implicit Types (s : State) (id : OrderId) (r : OrderRecord) (k : OrderBookId).
Implicit Types (Q : list SettlingEvent) (t : TokenId) (u : UserId) (seq : OrderSeq).

(** A listed book: the book, its pair and the scale of its base token. *)
Record listed s k (b : OrderBook) (pair : TradingPair) (sc : nonzero 64) : Prop := {
  li_book : st_order_books s !! k = Some b;
  li_pair : get_pair (st_trading_pairs s) k = Some pair;
  li_scale : base_scale s (base pair) = Done sc
}.

(** ** What the reserved balances stand for *)

Definition scale_of s k : Z :=
  match base_scale_for_book s k with Done sc => nzval sc | Trap => 1 end.

(** The open quantity of an order on its book. *)
Definition book_open s id : Z :=
  from_option (λ b, open_qty b (order_seq id)) 0 (st_order_books s !! book_id id).

(** What the outstanding settlements release for an order. *)
Definition queued Q id (t : PairToken) : Z :=
  sum_over (λ e, if decide (se_book_id e = book_id id)
                 then released (order_seq id) t (se_balance_operations e) else 0) Q.

Definition held s Q id r : Z :=
  resZ (or_side r) (or_price r) (book_open s id) (scale_of s (book_id id)) +
  queued Q id (pair_side (or_side r)).

(** The balance row an order's reservation lives in. *)
Definition row_of s id r : option (TokenId * UserId) :=
  match get_pair (st_trading_pairs s) (book_id id), users (st_user_registry s) !! or_owner r with
  | Some tp, Some u => Some (pair_token tp (pair_side (or_side r)), u)
  | _, _ => None
  end.

Definition share s Q t u id r : Z :=
  if decide (row_of s id r = Some (t, u)) then held s Q id r else 0.
Definition owed s Q t u : Z := hsum (share s Q t u) (st_order_history s).

(** ** Orders *)

Definition off_book (b : OrderBook) seq : Prop :=
  ob_resting_orders b !! seq = None ∧ ∀ o, o ∈ ob_pending_orders b → o_id o ≠ seq.

(** The status of a record says where its order is. *)
Definition status_ok (b : OrderBook) seq (st : OrderStatus) : Prop :=
  match st with
  | Pending => ∃ o, o ∈ ob_pending_orders b ∧ o_id o = seq
  | Open => ob_resting_orders b !! seq ≠ None
  | Filled | Canceled | Expired => off_book b seq
  end.

Record order_ok s (b : OrderBook) (sc : nonzero 64) id r : Prop := {
  oo_owner : is_Some (users (st_user_registry s) !! or_owner r);
  oo_seq : seqZ (order_seq id) < seqZ (ob_next_seq b);
  oo_valid : valid_order b (or_price r) (or_quantity r);
  oo_settles : settles (or_price r) (or_quantity r) sc;
  oo_filled : qval (or_filled_quantity r) + open_qty b (order_seq id) ≤ qval (or_quantity r);
  oo_exact : or_status r ≠ Canceled → or_status r ≠ Expired →
    qval (or_filled_quantity r) + open_qty b (order_seq id) = qval (or_quantity r);
  oo_status : status_ok b (order_seq id) (or_status r);
  oo_quote : qval (or_filled_quote r) ≤ seqZ (ob_next_fill b) * MAX_SUPPLY;
  oo_fee : qval (or_filled_fee r) ≤ seqZ (ob_next_fill b) * MAX_SUPPLY
}.

(** ** Outstanding settlements *)

Definition op_ok (h : OrderHistory) k (op : BalanceOperation) : Prop :=
  match op with
  | Transfer from to token amount fee =>
      (∃ r, history_get h (MkCompositeId k from) = Some r ∧ token = pair_side (or_side r)) ∧
      (∃ r, history_get h (MkCompositeId k to) = Some r) ∧
      0 < qval amount ∧ qval (default Quantity_ZERO fee) ≤ qval amount
  | Unreserve order token amount =>
      (∃ r, history_get h (MkCompositeId k order) = Some r ∧ token = pair_side (or_side r)) ∧
      0 < qval amount
  end.

Record fill_event_ok (h : OrderHistory) k (b : OrderBook) (sc : nonzero 64)
    (ops : list BalanceOperation) (f : FillEvent) : Prop := {
  fe_taker : fv_taker_order_seq f ∈ concat (op_seqs <$> ops);
  fe_maker : fv_maker_order_seq f ∈ concat (op_seqs <$> ops);
  fe_distinct : fv_taker_order_seq f ≠ fv_maker_order_seq f;
  fe_settles r : history_get h (MkCompositeId k (fv_maker_order_seq f)) = Some r →
    settles (or_price r) (fv_quantity f) sc;
  fe_seq : seqZ (fv_fill_seq f) < seqZ (ob_next_fill b)
}.

Definition event_ok s (e : SettlingEvent) : Prop :=
  ∃ b pair sc, listed s (se_book_id e) b pair sc ∧
    Forall (op_ok (st_order_history s) (se_book_id e)) (se_balance_operations e) ∧
    Forall (fill_event_ok (st_order_history s) (se_book_id e) b sc (se_balance_operations e))
      (se_fills e).

(** The fills whose trades are still to be written. *)
Definition event_fills (e : SettlingEvent) : list (OrderBookId * FillSeq) :=
  (λ f, (se_book_id e, fv_fill_seq f)) <$> se_fills e.
Definition fill_ids Q : list (OrderBookId * FillSeq) := concat (event_fills <$> Q).

Definition total_fills s : Z := map_sum (λ _ b, seqZ (ob_next_fill b)) (st_order_books s).
Definition total_orders s : Z := map_sum (λ _ b, seqZ (ob_next_seq b)) (st_order_books s).

(** ** The invariant *)

Record core (n : Z) Q s : Prop := {
  co_registry : registry_inv (st_user_registry s);
  co_users : Z.of_nat (size (users (st_user_registry s))) ≤ n;
  co_book k b : st_order_books s !! k = Some b →
    ∃ pair sc, listed s k b pair sc ∧ book_ready n b ∧
      ob_tick_size b * ob_lot_size b mod sc = 0 ∧ ob_id b = k;
  co_pair k pair : get_pair (st_trading_pairs s) k = Some pair → is_Some (st_order_books s !! k);
  co_book_id k : is_Some (st_order_books s !! k) → seqZ k < seqZ (st_next_book_id s);
  co_next_book : seqZ (st_next_book_id s) ≤ n;
  co_history : ∃ log, lockstep (st_order_history s) log ∧ Z.of_nat (length log) ≤ n;
  co_order id r : history_get (st_order_history s) id = Some r →
    ∃ b pair sc, listed s (book_id id) b pair sc ∧ order_ok s b sc id r;
  co_on_book k b seq side p : st_order_books s !! k = Some b → has_terms b seq side p →
    ∃ r, history_get (st_order_history s) (MkCompositeId k seq) = Some r ∧
      or_side r = side ∧ or_price r = p;
  co_events e : e ∈ Q → event_ok s e;
  co_fills : NoDup (fill_ids Q);
  co_trades : ∃ log, lockstep (st_trade_history s) log ∧
    Z.of_nat (length log) + 2 * Z.of_nat (length (fill_ids Q)) ≤ 2 * total_fills s;
  co_orders : total_orders s ≤ n;
  co_traded (tid : TradeId) : is_Some (history_get (st_trade_history s) tid) →
    ((book_id (trade_order_id tid), trade_seq tid) ∉ fill_ids Q) ∧
    ∃ b, st_order_books s !! book_id (trade_order_id tid) = Some b ∧
      seqZ (trade_seq tid) < seqZ (ob_next_fill b);
  co_reserved t u : qval (reserved (amount_of (tb_balances (st_balances s)) (t, u))) = owed s Q t u;
  co_supply t : state_supply t s ≤ MAX_SUPPLY
}.

(** ** Basic facts *)

(** Overwriting a present key keeps the domain. *)
Lemma insert_dom_present {A} (m : gmap OrderBookId A) k x y k0 :
  m !! k = Some x → is_Some (<[k := y]> m !! k0) ↔ is_Some (m !! k0).
Proof.
  intros E. destruct (decide (k0 = k)) as [->|]; [by rewrite lookup_insert_eq, E|].
  by rewrite lookup_insert_ne.
Qed.

Lemma listed_fun s k b pair sc b' pair' sc' :
  listed s k b pair sc → listed s k b' pair' sc' → b' = b ∧ pair' = pair ∧ sc' = sc.
Proof. intros [] []. simplify_eq. naive_solver congruence. Qed.

Lemma listed_scale s k b pair sc :
  listed s k b pair sc → base_scale_for_book s k = Done sc ∧ scale_of s k = nzval sc.
Proof.
  intros [_ Hp Hs]. unfold scale_of, base_scale_for_book. rewrite Hp. cbn [expect ebind].
  by rewrite Hs.
Qed.

Lemma open_qty_nonneg b seq : 0 ≤ open_qty b seq.
Proof.
  unfold open_qty, resting_qty, list_qty, pending_qty.
  assert (Hs : ∀ sd, 0 ≤ sum_over (λ x, qty_if seq (x_id x) (r_qty x)) (side_list b sd)).
  { intros sd. apply sum_over_nonneg. intros x _. unfold qty_if.
    case_decide; [apply qval_range|done]. }
  assert (0 ≤ sum_over (λ o, qty_if seq (o_id o) (qval (o_remaining o))) (ob_pending_orders b)).
  { apply sum_over_nonneg. intros x _. unfold qty_if. case_decide; [apply qval_range|done]. }
  pose proof (Hs Buy). pose proof (Hs Sell). lia.
Qed.

Lemma off_book_open b seq : book_inv b → off_book b seq → open_qty b seq = 0.
Proof.
  intros Hb [Hr Hp]. unfold open_qty. rewrite resting_qty_notin by done.
  by rewrite pending_qty_notin.
Qed.

Lemma op_released_nonneg seq (t : PairToken) op : 0 ≤ op_released seq t op.
Proof. destruct op; simpl; case_decide; try apply qval_range; done. Qed.

Lemma released_nonneg seq (t : PairToken) ops : 0 ≤ released seq t ops.
Proof. apply sum_over_nonneg. intros op _. apply op_released_nonneg. Qed.

Lemma queued_nonneg Q id (t : PairToken) : 0 ≤ queued Q id t.
Proof. apply sum_over_nonneg. intros e _. case_decide; [apply released_nonneg|done]. Qed.

Lemma book_open_nonneg s id : 0 ≤ book_open s id.
Proof.
  unfold book_open. destruct (st_order_books s !! book_id id); simpl; [apply open_qty_nonneg|done].
Qed.

Lemma scale_of_pos s k : 0 < scale_of s k.
Proof. unfold scale_of. destruct (base_scale_for_book s k); [apply nonzero_pos|done]. Qed.

Lemma held_nonneg s Q id r : 0 ≤ held s Q id r.
Proof.
  unfold held. pose proof (queued_nonneg Q id (pair_side (or_side r))).
  pose proof (resZ_nonneg (or_side r) (or_price r) (book_open s id) (scale_of s (book_id id))
    (book_open_nonneg s id) (scale_of_pos s _)). lia.
Qed.

(** A single order's reservation is part of its owner's reserved balance, and that
    of the supply. *)
Lemma held_le_owed s Q t u id r :
  history_get (st_order_history s) id = Some r → row_of s id r = Some (t, u) →
  held s Q id r ≤ owed s Q t u.
Proof.
  intros Hr Hrow. replace (held s Q id r) with (share s Q t u id r)
    by (unfold share; by rewrite decide_True).
  apply hsum_nonneg_ge; [|done]. intros. unfold share.
  case_decide; [apply held_nonneg|done].
Qed.

Lemma core_row n Q s id r :
  core n Q s → history_get (st_order_history s) id = Some r →
  ∃ b pair sc u, listed s (book_id id) b pair sc ∧ order_ok s b sc id r ∧
    users (st_user_registry s) !! or_owner r = Some u ∧
    row_of s id r = Some (pair_token pair (pair_side (or_side r)), u).
Proof.
  intros Hc Hr. destruct (co_order _ _ _ Hc _ _ Hr) as (b & pair & sc & Hl & Ho).
  destruct (oo_owner _ _ _ _ _ Ho) as [u Hu]. exists b, pair, sc, u. split_and!; [done..|].
  unfold row_of. by rewrite (li_pair _ _ _ _ _ Hl), Hu.
Qed.

Lemma held_le_supply n Q s id r :
  core n Q s → history_get (st_order_history s) id = Some r → held s Q id r ≤ MAX_SUPPLY.
Proof.
  intros Hc Hr. destruct (core_row _ _ _ _ _ Hc Hr) as (b & pair & sc & u & _ & _ & _ & Hrow).
  pose proof (held_le_owed s Q _ _ _ _ Hr Hrow) as Hle.
  rewrite <-(co_reserved _ _ _ Hc) in Hle.
  pose proof (reserved_le_supply (pair_token pair (pair_side (or_side r))) (st_balances s) u).
  pose proof (co_supply _ _ _ Hc (pair_token pair (pair_side (or_side r)))).
  unfold state_supply in *. lia.
Qed.

(** There are at most as many fills as orders. *)
Lemma total_fills_le n Q s : core n Q s → total_fills s ≤ n.
Proof.
  intros Hc. etrans; [|apply (co_orders _ _ _ Hc)]. apply map_sum_le. intros k b Hb.
  destruct (co_book _ _ _ Hc _ _ Hb) as (pair & sc & _ & [] & _). lia.
Qed.

(** The order of the outstanding settlements does not matter. *)
Lemma queued_perm Q Q' id (t : PairToken) : Q ≡ₚ Q' → queued Q id t = queued Q' id t.
Proof. intros. by apply sum_over_perm. Qed.

Lemma queued_cons e Q id (t : PairToken) :
  queued (e :: Q) id t =
    (if decide (se_book_id e = book_id id)
     then released (order_seq id) t (se_balance_operations e) else 0) + queued Q id t.
Proof. apply sum_over_cons. Qed.

Lemma queued_app Q Q' id (t : PairToken) : queued (Q ++ Q') id t = queued Q id t + queued Q' id t.
Proof. apply sum_over_app. Qed.

Lemma fill_ids_cons e Q : fill_ids (e :: Q) = event_fills e ++ fill_ids Q.
Proof. done. Qed.

Lemma length_fill_ids e Q :
  length (fill_ids (e :: Q)) = (length (se_fills e) + length (fill_ids Q))%nat.
Proof. rewrite fill_ids_cons, length_app. unfold event_fills. by rewrite length_fmap. Qed.

Lemma fill_ids_perm Q Q' : Q ≡ₚ Q' → fill_ids Q ≡ₚ fill_ids Q'.
Proof.
  unfold fill_ids. induction 1 as [|e Q Q' _ IH|e e' Q|]; simpl; [done| | |by etrans].
  - by rewrite IH.
  - rewrite !(assoc_L (++)). by rewrite (comm (++) (event_fills e')).
Qed.

Lemma owed_ext s s' Q Q' t u :
  (∀ id, weight_at (share s Q t u) (st_order_history s) id =
         weight_at (share s' Q' t u) (st_order_history s') id) →
  owed s Q t u = owed s' Q' t u.
Proof. apply hsum_ext. Qed.

Lemma core_perm n Q Q' s : Q ≡ₚ Q' → core n Q s → core n Q' s.
Proof.
  intros HQ Hc. pose proof (fill_ids_perm _ _ HQ) as Hf. destruct Hc. split; try done.
  - intros e. rewrite <-HQ. auto.
  - by rewrite <-Hf.
  - destruct co_trades0 as (log & ? & ?). exists log. split; [done|]. by rewrite <-Hf.
  - intros id Hid. rewrite <-Hf. auto.
  - intros t u. rewrite co_reserved0. apply owed_ext. intros id. unfold weight_at.
    destruct (history_get _ id) as [r|]; simpl; [|done]. unfold share, held.
    by rewrite (queued_perm Q Q').
Qed.

Lemma core_mono n n' Q s : n ≤ n' → core n Q s → core n' Q s.
Proof.
  intros Hn []. split; try done; try lia.
  - intros k b Hb. destruct (co_book0 _ _ Hb) as (pair & sc & ? & Hr & ? & ?).
    exists pair, sc. split_and!; [done|by eapply book_ready_mono|done|done].
  - destruct co_history0 as (log & ? & ?). exists log. split; [done|lia].
Qed.

(** The fields the invariant reads. *)
Record same_core s s' : Prop := {
  sc_next : st_next_book_id s' = st_next_book_id s;
  sc_tokens : st_tokens s' = st_tokens s;
  sc_pairs : st_trading_pairs s' = st_trading_pairs s;
  sc_books : st_order_books s' = st_order_books s;
  sc_registry : st_user_registry s' = st_user_registry s;
  sc_balances : st_balances s' = st_balances s;
  sc_orders : st_order_history s' = st_order_history s;
  sc_trades : st_trade_history s' = st_trade_history s
}.

Lemma core_same n Q s s' : same_core s s' → core n Q s → core n Q s'.
Proof.
  intros [] []. destruct s, s'; simpl in *; subst. split; simpl; try assumption.
  - intros k b Hb. destruct (co_book0 _ _ Hb) as (pair & sc & [] & ? & ?).
    by exists pair, sc.
  - intros id r Hr. destruct (co_order0 _ _ Hr) as (b & pair & sc & [] & []).
    exists b, pair, sc. by split.
  - intros e He. destruct (co_events0 _ He) as (b & pair & sc & [] & ?). by exists b, pair, sc.
Qed.
End state_inv.

(** Take the invariant apart under fixed names. *)
Ltac core_destruct Hc :=
  destruct Hc as [Cregistry Cusers Cbook Cpair Cbook_id Cnext_book Chistory Corder Con_book
    Cevents Cfills Ctrades Corders Ctraded Creserved Csupply].
