(* ===== verification/InvSettle.v ===== *)
(** * Settling keeps the invariant

    An outstanding settling event can always be settled: every order it names is
    on record, every debit is covered by the debtor's reserve, no balance
    overflows, and its trades are written for the first time. *)

From stdpp Require Import prelude gmap.
From Stdlib Require Import ZArith Lia.
From S2P Require Import Prelude Word BTree Quantity Ids Fees OrderTypes.
From S2P Require Import Tokens Balance WriteBack BalanceTotals OrderQueue.
From S2P Require Import OrderBook History OrderHistory UserRegistry.
From S2P Require Import UserRegistryInv Settlement SettlementSpec Permissions.
From S2P Require Import PairMap Events State Replay Accounting.
From S2P Require Import StateInv.
Open Scope Z_scope.

(** The number of orders, users and books the theorems allow. *)
Definition MAX_STEPS : Z := 2 ^ 62.

Section inv_settle.
Context `{PrincipalType} `{!BiBTreeMap TradingPair OrderBookId}.
Implicit Types (s : State) (id : OrderId) (r : OrderRecord) (k : OrderBookId).
Implicit Types (Q : list SettlingEvent) (t : TokenId) (u : UserId) (seq : OrderSeq).

(** ** What one operation takes out of the reserves *)

Definition op_debtor (op : BalanceOperation) : OrderSeq :=
  match op with Transfer from _ _ _ _ => from | Unreserve order _ _ => order end.
Definition op_amount (op : BalanceOperation) : Quantity :=
  match op with Transfer _ _ _ amount _ => amount | Unreserve _ _ amount => amount end.

Lemma op_released_eq seq pt op :
  op_released seq pt op =
    if decide (op_debtor op = seq ∧ op_token op = pt) then qval (op_amount op) else 0.
Proof. by destruct op. Qed.

Lemma op_ok_debtor h k op :
  op_ok h k op → ∃ r, history_get h (MkCompositeId k (op_debtor op)) = Some r ∧
    op_token op = pair_side (or_side r) ∧ 0 < qval (op_amount op).
Proof. destruct op; simpl; naive_solver. Qed.

Lemma op_ok_seqs h k op seq :
  op_ok h k op → seq ∈ op_seqs op → is_Some (history_get h (MkCompositeId k seq)).
Proof. destruct op; simpl; set_solver. Qed.

Lemma queued_pop_op k op ops fs fs' Q id (pt : PairToken) :
  queued (MkSettlingEvent k (op :: ops) fs :: Q) id pt =
    queued (MkSettlingEvent k ops fs' :: Q) id pt +
    if decide (k = book_id id) then op_released (order_seq id) pt op else 0.
Proof.
  rewrite !queued_cons. simpl. case_decide; [|lia].
  unfold released. rewrite sum_over_cons. lia.
Qed.

Lemma owed_pop_op s k op ops fs fs' Q r tu t u :
  let id := MkCompositeId k (op_debtor op) in
  history_get (st_order_history s) id = Some r → op_token op = pair_side (or_side r) →
  row_of s id r = Some tu →
  owed s (MkSettlingEvent k (op :: ops) fs :: Q) t u =
    owed s (MkSettlingEvent k ops fs' :: Q) t u + at_key (t, u) tu (qval (op_amount op)).
Proof.
  intros id Hr Htok Hrow. apply hsum_change with (k0 := id). intros id'. unfold weight_at.
  destruct (history_get (st_order_history s) id') as [r'|] eqn:Hr'; simpl;
    [|case_decide; [subst; congruence|done]].
  unfold share, held. rewrite (queued_pop_op _ _ _ _ fs'), op_released_eq.
  destruct (decide (id' = id)) as [->|Hne].
  - simplify_eq. rewrite Hrow. unfold at_key. simpl. rewrite (decide_True (P := k = k)) by done.
    rewrite (decide_True (P := _ ∧ _)) by done.
    destruct (decide (Some tu = Some (t, u))), (decide ((t, u) = tu)); simplify_eq; lia.
  - case_decide; [|lia]. destruct id' as [k' seq']; simpl in *.
    case_decide; [|lia]. rewrite decide_False; [lia|]. intros [? _]. subst. by apply Hne.
Qed.

(** An operation that is still outstanding is covered. *)
Lemma op_covered s k op ops fs Q r tu :
  let id := MkCompositeId k (op_debtor op) in
  history_get (st_order_history s) id = Some r → op_token op = pair_side (or_side r) →
  row_of s id r = Some tu →
  qval (op_amount op) ≤ owed s (MkSettlingEvent k (op :: ops) fs :: Q) tu.1 tu.2.
Proof.
  intros id Hr Htok Hrow. etrans; [|eapply held_le_owed; [exact Hr|by rewrite <-surjective_pairing]].
  unfold held. rewrite (queued_pop_op _ _ _ _ fs), op_released_eq. simpl.
  rewrite (decide_True (P := k = k)), decide_True by done.
  pose proof (queued_nonneg (MkSettlingEvent k ops fs :: Q) id (pair_side (or_side r))).
  pose proof (resZ_nonneg (or_side r) (or_price r) (book_open s id) (scale_of s k)
    (book_open_nonneg s id) (scale_of_pos s k)). unfold id in *. lia.
Qed.

(** ** The orders behind the operations *)

Definition resolves s k (m : gmap OrderSeq ResolvedOrder) seq : Prop :=
  ∃ r u, history_get (st_order_history s) (MkCompositeId k seq) = Some r ∧
    users (st_user_registry s) !! or_owner r = Some u ∧
    m !! seq = Some (MkResolvedOrder u (or_side r) (or_price r)).

Lemma resolve_op_orders_spec n Q s k ops :
  core n Q s → Forall (op_ok (st_order_history s) k) ops →
  ∃ m, resolve_op_orders k ops (st_order_history s) (st_user_registry s) = Done m ∧
    ∀ seq, seq ∈ concat (op_seqs <$> ops) → resolves s k m seq.
Proof.
  intros Hc Hops. unfold resolve_op_orders. set (seqs := list_to_set (concat (op_seqs <$> ops))).
  destruct (exec_map_total (λ seq (e : OrderSeq * ResolvedOrder), ∃ r u, e.1 = seq ∧
      history_get (st_order_history s) (MkCompositeId k seq) = Some r ∧
      users (st_user_registry s) !! or_owner r = Some u ∧
      e.2 = MkResolvedOrder u (or_side r) (or_price r))
    (resolve_order k (st_order_history s) (st_user_registry s)) (bset_iter seqs))
    as (es & -> & Hes).
  { intros seq Hseq. apply bset_iter_elem, elem_of_list_to_set, elem_of_concat in Hseq
      as (l & Hl & Hin). apply list_elem_of_fmap in Hin as (op & -> & Hop).
    rewrite Forall_forall in Hops. destruct (op_ok_seqs _ _ _ _ (Hops _ Hop) Hl) as [r Hr].
    destruct (core_row _ _ _ _ _ Hc Hr) as (b & pair & sc & u & _ & _ & Hu & _).
    unfold resolve_order. rewrite Hr. cbn [expect ebind].
    rewrite lookup_funding_id_eq, Hu by apply (co_registry _ _ _ Hc). simpl. eauto 10. }
  eexists. split; [done|]. intros seq Hseq.
  assert (Hin : seq ∈ bset_iter seqs) by by apply bset_iter_elem, elem_of_list_to_set.
  apply list_elem_of_lookup in Hin as [i Hi].
  destruct (Forall2_lookup_l _ _ _ _ _ Hes Hi) as ([seq' v] & He & r & u & ? & Hr & Hu & ?).
  simpl in *; subst. exists r, u. split_and!; [done..|].
  apply elem_of_list_to_map_1; [|by eapply list_elem_of_lookup_2].
  assert (E : es.*1 = bset_iter seqs).
  { clear -Hes. induction Hes as [|? ? ? ? (r & u & ? & _)]; simpl; [done|]. by f_equal. }
  rewrite E. apply btree_iter_keys_NoDup.
Qed.

(** ** The balance operations *)

Record settling s k Q (ops : list BalanceOperation) (wb : BalanceWriteBack) : Prop := {
  sg_ok : wb_ok wb;
  sg_balances : wb_balances wb = tb_balances (st_balances s);
  sg_ops : Forall (op_ok (st_order_history s) k) ops;
  sg_reserved t u : qval (reserved (view wb (t, u))) = owed s (MkSettlingEvent k ops [] :: Q) t u;
  sg_rows key : wb_balances wb !! key = None → qval (reserved (view wb key)) = 0;
  sg_supply t : wb_supply t wb ≤ MAX_SUPPLY
}.

Lemma settling_step n s k b tp sc Q0 Q m op ops wb :
  core n Q0 s → listed s k b tp sc →
  (∀ seq, seq ∈ op_seqs op → resolves s k m seq) → settling s k Q (op :: ops) wb →
  ∃ wb', settle_op tp m wb op = Done wb' ∧ settling s k Q ops wb'.
Proof.
  intros Hc Hl Hm [Hok Hb Hops Hres Hrows Hsup]. apply Forall_cons in Hops as [Hop Hops].
  destruct (op_ok_debtor _ _ _ Hop) as (r & Hr & Htok & Hpos).
  destruct (core_row _ _ _ _ _ Hc Hr) as (b' & tp' & sc' & u & Hl' & _ & Hu & Hrow).
  destruct (listed_fun _ _ _ _ _ _ _ _ Hl Hl') as (-> & -> & ->).
  rewrite <-Htok in Hrow. set (T := pair_token tp (op_token op)) in *.
  assert (Hcov : qval (op_amount op) ≤ qval (reserved (view wb (T, u)))).
  { rewrite Hres. apply (op_covered s k op ops [] Q r (T, u)); done. }
  assert (Hrow' : is_Some (wb_balances wb !! (T, u))).
  { destruct (wb_balances wb !! (T, u)) eqn:E; [done|]. apply Hrows in E. lia. }
  assert (Hs256 : wb_supply T wb < 2 ^ 256) by (specialize (Hsup T); unfold MAX_SUPPLY in Hsup; lia).
  assert (Hnext : ∀ wb', steps_to wb wb' →
    (∀ key, qval (reserved (view wb key)) =
            qval (reserved (view wb' key)) + at_key key (T, u) (qval (op_amount op))) →
    (∀ t, wb_supply t wb' = wb_supply t wb) → settling s k Q ops wb').
  { intros wb' [Hok' Hb'] Hr' Hs'. split; [done|congruence|done| | |].
    - intros t v. pose proof (Hr' (t, v)) as E. rewrite Hres in E.
      rewrite (owed_pop_op s k op ops [] [] Q r (T, u)) in E by done. lia.
    - intros key Hk. rewrite Hb' in Hk. specialize (Hrows _ Hk). specialize (Hr' key).
      pose proof (qval_range (reserved (view wb' key))). unfold at_key in Hr'. case_decide; lia.
    - intros t. rewrite Hs'. apply Hsup. }
  assert (Hmd : m !! op_debtor op = Some (MkResolvedOrder u (or_side r) (or_price r))).
  { destruct (Hm (op_debtor op)) as (r' & u' & Hr' & Hu' & ->); [destruct op; left|].
    by simplify_eq. }
  destruct op as [from to token amount fee|order token amount]; simpl in *.
  - destruct (Hm to) as (rt & ut & _ & _ & Hto); [set_solver|]. rewrite Hmd, Hto. simpl.
    destruct (transfer_total wb u ut T amount (default Quantity_ZERO fee)) as [wb' E];
      [done..|naive_solver|done|done|].
    exists wb'. split; [done|]. pose proof (transfer_Done _ _ _ _ _ _ _ Hok E) as (? & _ & _ & ? & _).
    apply Hnext; [done..|]. intros t'. by eapply transfer_supply.
  - rewrite Hmd. simpl. destruct (wb_unreserve_total wb u T amount) as [wb' E]; [done..|].
    exists wb'. split; [done|]. pose proof (wb_unreserve_Done _ _ _ _ _ Hok E) as (? & _ & ? & _).
    apply Hnext; [done..|]. intros t'. by eapply wb_unreserve_supply.
Qed.
Lemma settle_ops_total n s e b tp sc Q m :
  let k := se_book_id e in
  let ops := se_balance_operations e in
  core n (e :: Q) s → listed s k b tp sc → Forall (op_ok (st_order_history s) k) ops →
  (∀ seq, seq ∈ concat (op_seqs <$> ops) → resolves s k m seq) →
  ∃ wb, exec_fold (settle_op tp m) (wb_new (tb_balances (st_balances s))
      (tb_fee_pool (st_balances s))) ops = Done wb ∧ settling s k Q [] wb.
Proof.
  intros k ops Hc Hl Hops Hm.
  destruct (exec_fold_total (λ ops wb, settling s k Q ops wb ∧
      ∀ seq, seq ∈ concat (op_seqs <$> ops) → resolves s k m seq) (settle_op tp m) ops
    (wb_new (tb_balances (st_balances s)) (tb_fee_pool (st_balances s))))
    as (wb & E & Hwb & _); [|intros op rest wb [Hwb Hrest]|by exists wb].
  - split; [|done]. split; [apply wb_new_ok|done|done| | |].
    + intros t u. rewrite view_new. apply (co_reserved _ _ _ Hc).
    + intros key Hk. rewrite view_new. simpl in Hk. unfold amount_of. by rewrite Hk.
    + intros t. rewrite wb_supply_new. apply (co_supply _ _ _ Hc t).
  - destruct (settling_step n s k b tp sc (e :: Q) Q m op rest wb Hc Hl) as (wb' & ? & ?); [|done|].
    { intros seq Hseq. apply Hrest. simpl. apply elem_of_app. by left. }
    exists wb'. split; [done|]. split; [done|]. intros seq Hseq. apply Hrest. simpl.
    apply elem_of_app. by right.
Qed.

(** ** The trades *)

Record recording (h0 : TradeHistory) k (B : Z) (all fs : list FillEvent) (h : TradeHistory) : Prop := {
  rc_log : ∃ log, lockstep h log ∧ Z.of_nat (length log) + 2 * Z.of_nat (length fs) ≤ B;
  rc_fresh : NoDup (fv_fill_seq <$> fs);
  rc_known (tid : TradeId) : is_Some (history_get h tid) →
    (book_id (trade_order_id tid) = k → trade_seq tid ∉ fv_fill_seq <$> fs) ∧
    (is_Some (history_get h0 tid) ∨
     book_id (trade_order_id tid) = k ∧ trade_seq tid ∈ fv_fill_seq <$> all)
}.

Lemma recording_step h0 s e b sc B all f fs h m ts :
  B < 2 ^ 64 → resolves s (se_book_id e) m (fv_taker_order_seq f) →
  resolves s (se_book_id e) m (fv_maker_order_seq f) →
  fill_event_ok (st_order_history s) (se_book_id e) b sc (se_balance_operations e) f → f ∈ all →
  recording h0 (se_book_id e) B all (f :: fs) h →
  ∃ h', settle_trade e m sc ts h f = Done h' ∧ recording h0 (se_book_id e) B all fs h'.
Proof.
  intros HB (rt & ut & _ & _ & Ht) (rm & um & Hm & _ & Hrm) Hf Hall [(log & Hlog & Hlen) Hnd Hk].
  cbn [length] in Hlen. apply NoDup_cons in Hnd as [Hnin Hnd].
  unfold settle_trade. rewrite Ht, Hrm. cbn [expect ebind rv_side rv_price].
  unfold trade_legs. rewrite (fees_eq _ _ _ _ _ (fe_settles _ _ _ _ _ _ Hf _ Hm)). cbn [ebind].
  set (k := se_book_id e) in *. set (q := fv_fill_seq f) in *.
  assert (Hnew : ∀ seq, history_get h (MkCompositeId (MkCompositeId k seq) q) = None).
  { intros seq. destruct (history_get h _) eqn:E; [|done]. exfalso.
    destruct (Hk (MkCompositeId (MkCompositeId k seq) q)) as [Hn _]; [by rewrite E|].
    apply (Hn eq_refl). left. }
  match goal with |- context [trade_append h ?tl ?tu ?ml ?mu] =>
    destruct (trade_append_spec h log tl tu ml mu) as (h' & E & Hlog' & Hget) end;
    [done|lia|apply Hnew|apply Hnew| |].
  { simpl. intros [= E]. by apply (fe_distinct _ _ _ _ _ _ Hf). }
  exists h'. split; [exact E|]. split; [|done|].
  - eexists. split; [exact Hlog'|]. rewrite length_app. simpl. lia.
  - intros tid Hid. rewrite Hget in Hid. simpl in Hid.
    assert (Hcase : tid = MkCompositeId (MkCompositeId k (fv_maker_order_seq f)) q ∨
      tid = MkCompositeId (MkCompositeId k (fv_taker_order_seq f)) q ∨ is_Some (history_get h tid)).
    { destruct (decide _); [by left|]. destruct (decide _); [by right; left|by right; right]. }
    destruct Hcase as [-> | [-> | Hold]]; simpl.
    1,2: split; [done|]; right; split; [done|]; by apply list_elem_of_fmap_2.
    destruct (Hk _ Hold) as [Hn Ho]. split; [|done]. intros Hkk Hin. apply (Hn Hkk). by right.
Qed.

Lemma settle_trades_total n s e b sc Q m ts :
  core n (e :: Q) s → n < MAX_STEPS → total_fills s ≤ n →
  Forall (fill_event_ok (st_order_history s) (se_book_id e) b sc (se_balance_operations e))
    (se_fills e) →
  (∀ seq, seq ∈ concat (op_seqs <$> se_balance_operations e) → resolves s (se_book_id e) m seq) →
  ∃ h, exec_fold (settle_trade e m sc ts) (st_trade_history s) (se_fills e) = Done h ∧
    recording (st_trade_history s) (se_book_id e)
      (2 * total_fills s - 2 * Z.of_nat (length (fill_ids Q))) (se_fills e) [] h.
Proof.
  intros Hc Hn Hf Hfs Hm. set (all := se_fills e) in *.
  set (B := 2 * total_fills s - 2 * Z.of_nat (length (fill_ids Q))).
  assert (HB : B < 2 ^ 64).
  { unfold B. unfold MAX_STEPS in Hn. assert (2 ^ 62 + 2 ^ 62 < 2 ^ 64) by done. lia. }
  pose proof (co_fills _ _ _ Hc) as Hnd. rewrite fill_ids_cons in Hnd.
  apply NoDup_app in Hnd as (Hnd & _ & _). unfold event_fills in Hnd.
  destruct (exec_fold_total (λ fs h, recording (st_trade_history s) (se_book_id e) B all fs h ∧
      (∀ f, f ∈ fs → f ∈ all)) (settle_trade e m sc ts) all (st_trade_history s))
    as (h & E & Hr & _); [|intros f fs h [Hr Hsub]|by exists h].
  - split; [|done]. split.
    + destruct (co_trades _ _ _ Hc) as (log & ? & Hl). exists log. split; [done|].
      rewrite length_fill_ids in Hl. unfold B. fold all in Hl. lia.
    + eapply (NoDup_fmap_1 (λ q, (se_book_id e, q))). by rewrite <-list_fmap_compose.
    + intros tid Hid. destruct (co_traded _ _ _ Hc _ Hid) as [Hnin _]. split; [|by left].
      intros Hk Hin. apply Hnin. rewrite fill_ids_cons. apply elem_of_app. left.
      apply list_elem_of_fmap in Hin as (f & -> & Hin).
      rewrite Hk. unfold event_fills. apply list_elem_of_fmap. by exists f.
  - rewrite Forall_forall in Hfs. pose proof (Hfs f (Hsub f ltac:(left))) as Hok.
    destruct (recording_step (st_trade_history s) s e b sc B all f fs h m ts) as (h' & ? & ?);
      [done|apply Hm, (fe_taker _ _ _ _ _ _ Hok)|apply Hm, (fe_maker _ _ _ _ _ _ Hok)|done| |done|].
    { apply Hsub. left. }
    exists h'. split; [done|]. split; [done|]. intros. apply Hsub. by right.
Qed.
(** ** The whole event *)

(** A state that differs from [s] in the balances and trades. *)
Lemma core_settled n e Q s tb h :
  core n (e :: Q) s →
  recording (st_trade_history s) (se_book_id e)
    (2 * total_fills s - 2 * Z.of_nat (length (fill_ids Q))) (se_fills e) [] h →
  (∀ t u, qval (reserved (amount_of (tb_balances tb) (t, u))) = owed s Q t u) →
  (∀ t, supply t tb ≤ MAX_SUPPLY) →
  core n Q (set_balances tb (set_trade_history h s)).
Proof.
  intros Hc [(log & Hlog & Hlen) _ Hk] Hres Hsup.
  destruct (co_events _ _ _ Hc e) as (be & tp & sc & Hl & _ & Hfs); [left|].
  pose proof (co_fills _ _ _ Hc) as Hnd. rewrite fill_ids_cons in Hnd.
  apply NoDup_app in Hnd as (_ & Hdis & Hnd). simpl in Hlen.
  core_destruct Hc. split; simpl; try assumption.
  - intros k b Hb. destruct (Cbook _ _ Hb) as (pair & sc' & [] & ? & ?). by exists pair, sc'.
  - intros id r Hr. destruct (Corder _ _ Hr) as (b & pair & sc' & [] & []).
    exists b, pair, sc'. by split.
  - intros e' He. destruct (Cevents e') as (b & pair & sc' & [] & ?); [by right|].
    by exists b, pair, sc'.
  - exists log. split; [done|]. change (total_fills (set_balances tb (set_trade_history h s)))
      with (total_fills s). lia.
  - intros tid Hid. destruct (Hk _ Hid) as [_ [Hold | [Hkk Hin]]].
    + destruct (Ctraded _ Hold) as [Hnin ?]. split; [|done]. intros Hin. apply Hnin.
      rewrite fill_ids_cons. apply elem_of_app. by right.
    + apply list_elem_of_fmap in Hin as (f & Hf & Hin). split.
      * rewrite Hkk, Hf. apply Hdis. unfold event_fills. apply list_elem_of_fmap. by exists f.
      * exists be. rewrite Hkk, Hf. split; [apply Hl|]. rewrite Forall_forall in Hfs.
        apply (fe_seq _ _ _ _ _ _ (Hfs _ Hin)).
Qed.

Lemma settle_core n e Q s ts :
  core n (e :: Q) s → n < MAX_STEPS →
  ∃ tb h, record_settling_event s e ts Write = Done (set_balances tb (set_trade_history h s)) ∧
    core n Q (set_balances tb (set_trade_history h s)).
Proof.
  intros Hc Hn. destruct (co_events _ _ _ Hc e) as (b & tp & sc & Hl & Hops & Hfs); [left|].
  destruct (resolve_op_orders_spec _ _ _ _ _ Hc Hops) as (m & Em & Hm).
  destruct (settle_trades_total n s e b sc Q m ts) as (h & Eh & Hh);
    [done..|by eapply total_fills_le|done|done|].
  destruct (settle_ops_total n s e b tp sc Q m) as (wb & Ewb & [Hok Hbal _ Hres _ Hsup]); [done..|].
  exists (MkTokenBalance (flush wb) (wb_fee_pool wb)), h. split.
  - unfold record_settling_event. rewrite (li_pair _ _ _ _ _ Hl). cbn [expect ebind].
    destruct (listed_scale _ _ _ _ _ Hl) as [-> _]. cbn [ebind]. rewrite Em. cbn [ebind].
    rewrite Eh. cbn [ebind]. unfold with_write_back.
    change (st_balances (set_trade_history h s)) with (st_balances s). rewrite Ewb. done.
  - apply (core_settled n e); [done..| |done]. intros t u. simpl. rewrite flush_view by done.
    rewrite Hres. apply owed_ext. intros id. unfold weight_at.
    destruct (history_get _ id) as [r|]; simpl; [|done]. unfold share, held.
    rewrite queued_cons. simpl. change (released (order_seq id) (pair_side (or_side r)) []) with 0.
    by destruct (decide (se_book_id e = book_id id)).
Qed.
End inv_settle.
