(* ===== verification/InvBook.v ===== *)
(** * Steps of one book

    Matching and cancellation change one book, the records of its orders and the
    outstanding settlements, and no balance. [book_step] says what such a change
    has to satisfy; [core_book_step] shows that it keeps the invariant. *)

From stdpp Require Import prelude gmap.
From Stdlib Require Import ZArith Lia.
From S2P Require Import Prelude Word BTree Quantity Ids Fees OrderTypes.
From S2P Require Import Tokens Balance WriteBack BalanceTotals OrderQueue.
From S2P Require Import OrderBook BookInv BookPending BookRound BookCancel.
From S2P Require Import History OrderHistory UserRegistry UserRegistryInv.
From S2P Require Import Settlement SettlementSpec Permissions PairMap Events.
From S2P Require Import State Replay Accounting StateInv.
Open Scope Z_scope.

Section inv_book.
Context `{PrincipalType} `{!BiBTreeMap TradingPair OrderBookId}.
Implicit Types (s : State) (id : OrderId) (r : OrderRecord) (k : OrderBookId).
Implicit Types (Q N : list SettlingEvent) (seq : OrderSeq) (h : OrderHistory) (b : OrderBook).

(** The state after the step; [P] is the settling queue it leaves. *)
Definition book_stepped s k b h (P : list SettlingEvent) : State :=
  set_pending_settling_events P
    (set_order_history h (set_order_books (<[k := b]> (st_order_books s)) s)).

(** The records of book [k] may change, never their terms. *)
Record records_step k h h' : Prop := {
  rs_log : ∃ log, lockstep h' log ∧ length log = size (primary h);
  rs_none id : history_get h id = None → history_get h' id = None;
  rs_some id r : history_get h id = Some r →
    ∃ r', history_get h' id = Some r' ∧ same_order r r' ∧ (book_id id ≠ k → r' = r)
}.

Record book_step n s k b sc b' h' N : Prop := {
  bs_ready : book_ready n b';
  bs_rules : same_rules b b';
  bs_next : ob_next_seq b' = ob_next_seq b;
  bs_terms seq side p : has_terms b' seq side p → has_terms b seq side p;
  bs_records : records_step k (st_order_history s) h';
  bs_orders id r' : history_get h' id = Some r' → book_id id = k → order_ok s b' sc id r';
  bs_book e : e ∈ N → se_book_id e = k;
  bs_ops e : e ∈ N → Forall (op_ok h' k) (se_balance_operations e);
  bs_fills e : e ∈ N → Forall (fill_event_ok h' k b' sc (se_balance_operations e)) (se_fills e);
  bs_new : NoDup (fill_ids N);
  bs_seqs q : (k, q) ∈ fill_ids N → seqZ (ob_next_fill b) ≤ seqZ q;
  bs_count : seqZ (ob_next_fill b') = seqZ (ob_next_fill b) + Z.of_nat (length (fill_ids N));
  bs_held id r : history_get (st_order_history s) id = Some r → book_id id = k →
    resZ (or_side r) (or_price r) (open_qty b (order_seq id)) sc =
    resZ (or_side r) (or_price r) (open_qty b' (order_seq id)) sc +
    queued N id (pair_side (or_side r))
}.

Lemma fill_ids_app Q N : fill_ids (Q ++ N) = fill_ids Q ++ fill_ids N.
Proof. unfold fill_ids. by rewrite fmap_app, concat_app. Qed.

Lemma elem_of_fill_ids k q Q :
  (k, q) ∈ fill_ids Q ↔ ∃ e f, e ∈ Q ∧ f ∈ se_fills e ∧ se_book_id e = k ∧ fv_fill_seq f = q.
Proof.
  unfold fill_ids. rewrite elem_of_concat. split.
  - intros (l & Hl & Hin). apply list_elem_of_fmap in Hin as (e & -> & He).
    unfold event_fills in Hl. apply list_elem_of_fmap in Hl as (f & ? & Hf). naive_solver.
  - intros (e & f & He & Hf & <- & <-). exists (event_fills e). split.
    + unfold event_fills. by apply (list_elem_of_fmap_2 (λ f, (se_book_id e, fv_fill_seq f))).
    + by apply list_elem_of_fmap_2.
Qed.

(** The outstanding fills of a book have been numbered by it. *)
Lemma fill_ids_bound n Q s k b q :
  core n Q s → st_order_books s !! k = Some b → (k, q) ∈ fill_ids Q →
  seqZ q < seqZ (ob_next_fill b).
Proof.
  intros Hc Hb Hin. apply elem_of_fill_ids in Hin as (e & f & He & Hf & <- & <-).
  destruct (co_events _ _ _ Hc _ He) as (b' & tp & sc & Hl & _ & Hfs).
  rewrite (li_book _ _ _ _ _ Hl) in Hb. simplify_eq. rewrite Forall_forall in Hfs.
  apply (fe_seq _ _ _ _ _ _ (Hfs _ Hf)).
Qed.

Lemma op_ok_step k h h' k' op : records_step k h h' → op_ok h k' op → op_ok h' k' op.
Proof.
  intros Hh. assert (Hs : ∀ id r, history_get h id = Some r →
    ∃ r', history_get h' id = Some r' ∧ or_side r' = or_side r).
  { intros id r Hr. destruct (rs_some _ _ _ Hh _ _ Hr) as (r' & ? & [] & _). eauto. }
  destruct op; simpl; intros Hop.
  - destruct Hop as ((r1 & Hr1 & ->) & (r2 & Hr2) & ? & ?).
    destruct (Hs _ _ Hr1) as (? & ? & <-). destruct (Hs _ _ Hr2) as (? & ? & _). naive_solver.
  - destruct Hop as ((r1 & Hr1 & ->) & ?). destruct (Hs _ _ Hr1) as (? & ? & <-). naive_solver.
Qed.

Lemma fill_event_ok_step k h h' k' b b' sc ops f :
  records_step k h h' → seqZ (ob_next_fill b) ≤ seqZ (ob_next_fill b') →
  fill_event_ok h k' b sc ops f → fill_event_ok h' k' b' sc ops f.
Proof.
  intros Hh Hb [? ? ? Hs ?]. split; [done..| |lia]. intros r' Hr'.
  destruct (history_get h (MkCompositeId k' (fv_maker_order_seq f))) as [r|] eqn:Hr.
  - destruct (rs_some _ _ _ Hh _ _ Hr) as (r1 & Hr1 & [] & _). simplify_eq.
    rewrite so_price. by apply Hs.
  - rewrite (rs_none _ _ _ Hh _ Hr) in Hr'. done.
Qed.

Section step.
Context (n : Z) (Q : list SettlingEvent) (s : State) (k : OrderBookId) (b b' : OrderBook).
Context (tp : TradingPair) (sc : nonzero 64) (h' : OrderHistory) (N P : list SettlingEvent).
Hypothesis Hc : core n Q s.
Hypothesis Hl : listed s k b tp sc.
Hypothesis Hs : book_step n s k b sc b' h' N.
Let s' : State := book_stepped s k b' h' P.

Lemma stepped_listed : listed s' k b' tp sc.
Proof. destruct Hl. split; [simpl; apply lookup_insert_eq|done|done]. Qed.

Lemma stepped_listed_ne k0 b0 tp0 sc0 : k0 ≠ k → listed s k0 b0 tp0 sc0 → listed s' k0 b0 tp0 sc0.
Proof. intros Hne []. split; [simpl; by rewrite lookup_insert_ne|done|done]. Qed.

(** The old settlements are still well formed. *)
Lemma stepped_event e : event_ok s e → event_ok s' e.
Proof.
  intros (b0 & tp0 & sc0 & Hl0 & Hops & Hfs).
  assert (Hh := bs_records _ _ _ _ _ _ _ _ Hs).
  assert (Hops' : Forall (op_ok h' (se_book_id e)) (se_balance_operations e)).
  { eapply Forall_impl; [exact Hops|]. intros op. by apply op_ok_step with k. }
  destruct (decide (se_book_id e = k)) as [E|Hne].
  - rewrite E in *. destruct (listed_fun _ _ _ _ _ _ _ _ Hl Hl0) as (-> & -> & ->).
    exists b', tp, sc. rewrite E. split_and!; [apply stepped_listed|done|].
    eapply Forall_impl; [exact Hfs|]. intros f. apply fill_event_ok_step with k; [done|].
    rewrite (bs_count _ _ _ _ _ _ _ _ Hs). lia.
  - exists b0, tp0, sc0. split_and!; [by apply stepped_listed_ne|done|].
    eapply Forall_impl; [exact Hfs|]. intros f. by apply fill_event_ok_step with k.
Qed.

(** Every order's reservation is carried over. *)
Lemma stepped_owed t u : owed s' (Q ++ N) t u = owed s Q t u.
Proof.
  apply owed_ext. intros id. unfold weight_at. change (st_order_history s') with h'.
  assert (Hh := bs_records _ _ _ _ _ _ _ _ Hs).
  destruct (history_get (st_order_history s) id) as [r|] eqn:Hr;
    [|by rewrite (rs_none _ _ _ Hh _ Hr)].
  destruct (rs_some _ _ _ Hh _ _ Hr) as (r' & -> & [] & _). simpl.
  assert (Erow : row_of s' id r' = row_of s id r).
  { unfold row_of. simpl. by rewrite so_owner, so_side. }
  unfold share. rewrite Erow. destruct (decide _) as [_|_]; [|done]. unfold held.
  rewrite so_side, so_price, queued_app.
  change (scale_of s' (book_id id)) with (scale_of s (book_id id)).
  destruct (decide (book_id id = k)) as [E|Hne].
  - pose proof (bs_held _ _ _ _ _ _ _ _ Hs _ _ Hr E) as Hheld.
    unfold book_open. simpl. rewrite E, lookup_insert_eq, (li_book _ _ _ _ _ Hl). simpl.
    destruct (listed_scale _ _ _ _ _ Hl) as [_ ->]. lia.
  - unfold book_open. simpl. rewrite lookup_insert_ne by done.
    replace (queued N id (pair_side (or_side r))) with 0; [lia|].
    unfold queued. rewrite (sum_over_ext _ (λ _, 0)).
    + clear. induction N as [|e N' IH]; [done|]. rewrite sum_over_cons. lia.
    + intros e He. rewrite decide_False; [done|]. rewrite (bs_book _ _ _ _ _ _ _ _ Hs _ He). done.
Qed.

Lemma stepped_fill_ids : NoDup (fill_ids (Q ++ N)).
Proof.
  rewrite fill_ids_app. apply NoDup_app. split_and!; [apply (co_fills _ _ _ Hc)| |apply Hs].
  intros [k0 q] Hold Hnew.
  assert (k0 = k) as ->.
  { apply elem_of_fill_ids in Hnew as (e & f & He & _ & <- & _). by apply Hs. }
  pose proof (fill_ids_bound _ _ _ _ _ _ Hc (li_book _ _ _ _ _ Hl) Hold).
  pose proof (bs_seqs _ _ _ _ _ _ _ _ Hs _ Hnew). lia.
Qed.

Lemma stepped_totals :
  total_fills s' = total_fills s + Z.of_nat (length (fill_ids N)) ∧ total_orders s' = total_orders s.
Proof.
  unfold total_fills, total_orders. simpl. rewrite !map_sum_insert, (li_book _ _ _ _ _ Hl). simpl.
  rewrite (bs_count _ _ _ _ _ _ _ _ Hs), (bs_next _ _ _ _ _ _ _ _ Hs). lia.
Qed.

Lemma stepped_dom k0 : is_Some (st_order_books s' !! k0) ↔ is_Some (st_order_books s !! k0).
Proof. apply (insert_dom_present _ _ _ _ _ (li_book _ _ _ _ _ Hl)). Qed.

Lemma stepped_book k0 b0 : st_order_books s' !! k0 = Some b0 →
  ∃ tp0 sc0, listed s' k0 b0 tp0 sc0 ∧ book_ready n b0 ∧
    ob_tick_size b0 * ob_lot_size b0 mod sc0 = 0 ∧ ob_id b0 = k0.
Proof.
  intros Hb0. simpl in Hb0. apply lookup_insert_Some in Hb0 as [[<- <-]|[Hne Hb0]].
  - destruct (co_book _ _ _ Hc _ _ (li_book _ _ _ _ _ Hl)) as (tp' & sc' & Hl' & _ & Hmod & Hbid).
    destruct (listed_fun _ _ _ _ _ _ _ _ Hl Hl') as (_ & -> & ->).
    exists tp, sc. destruct (bs_rules _ _ _ _ _ _ _ _ Hs).
    split_and!; [apply stepped_listed|apply Hs|congruence..].
  - destruct (co_book _ _ _ Hc _ _ Hb0) as (tp' & sc' & Hl' & ? & ?).
    exists tp', sc'. split; [by apply stepped_listed_ne|done].
Qed.

(** Records agree with their books, and books with the records. *)
Lemma stepped_order id r' : history_get h' id = Some r' →
  ∃ b0 tp0 sc0, listed s' (book_id id) b0 tp0 sc0 ∧ order_ok s' b0 sc0 id r'.
Proof.
  intros Hr'. assert (Hh := bs_records _ _ _ _ _ _ _ _ Hs).
  destruct (history_get (st_order_history s) id) as [r|] eqn:Hr;
    [|by rewrite (rs_none _ _ _ Hh _ Hr) in Hr'].
  destruct (decide (book_id id = k)) as [E|Hne].
  - exists b', tp, sc. rewrite E. split; [apply stepped_listed|].
    destruct (bs_orders _ _ _ _ _ _ _ _ Hs id r' Hr' E). by split.
  - destruct (rs_some _ _ _ Hh _ _ Hr) as (r1 & Hr1 & _ & Heq).
    rewrite Hr1 in Hr'. simplify_eq. rewrite (Heq Hne).
    destruct (co_order _ _ _ Hc _ _ Hr) as (b0 & tp0 & sc0 & Hl0 & []).
    exists b0, tp0, sc0. split; [by apply stepped_listed_ne|by split].
Qed.

Lemma stepped_on_book k0 b0 seq side p :
  st_order_books s' !! k0 = Some b0 → has_terms b0 seq side p →
  ∃ r, history_get h' (MkCompositeId k0 seq) = Some r ∧ or_side r = side ∧ or_price r = p.
Proof.
  intros Hb0 Ht. simpl in Hb0. assert (Hh := bs_records _ _ _ _ _ _ _ _ Hs).
  assert (Hold : ∃ b1, st_order_books s !! k0 = Some b1 ∧ has_terms b1 seq side p).
  { apply lookup_insert_Some in Hb0 as [[<- <-]|[_ Hb0]]; [|by exists b0].
    exists b. split; [apply Hl|]. by apply (bs_terms _ _ _ _ _ _ _ _ Hs). }
  destruct Hold as (b1 & Hb1 & Ht1).
  destruct (co_on_book _ _ _ Hc _ _ _ _ _ Hb1 Ht1) as (r & Hr & <- & <-).
  destruct (rs_some _ _ _ Hh _ _ Hr) as (r' & Hr' & [] & _). by exists r'.
Qed.

Lemma stepped_events e : e ∈ Q ++ N → event_ok s' e.
Proof.
  intros [He|He]%elem_of_app; [apply stepped_event; by apply (co_events _ _ _ Hc)|].
  pose proof (bs_book _ _ _ _ _ _ _ _ Hs _ He) as E. exists b', tp, sc. rewrite E.
  split_and!; [apply stepped_listed|by apply (bs_ops _ _ _ _ _ _ _ _ Hs)|].
  by apply (bs_fills _ _ _ _ _ _ _ _ Hs).
Qed.

(** The new fills are numbered after every recorded trade. *)
Lemma stepped_traded (tid : TradeId) : is_Some (history_get (st_trade_history s) tid) →
  ((book_id (trade_order_id tid), trade_seq tid) ∉ fill_ids (Q ++ N)) ∧
  ∃ b0, st_order_books s' !! book_id (trade_order_id tid) = Some b0 ∧
    seqZ (trade_seq tid) < seqZ (ob_next_fill b0).
Proof.
  intros Htid. destruct (co_traded _ _ _ Hc _ Htid) as (Hnin & b0 & Hb0 & Hlt).
  assert (Hlb := li_book _ _ _ _ _ Hl). rewrite fill_ids_app, not_elem_of_app. split.
  - split; [done|]. intros Hin.
    assert (E : book_id (trade_order_id tid) = k).
    { apply elem_of_fill_ids in Hin as (e & f & He & _ & <- & _). by apply Hs. }
    rewrite E in *. rewrite Hlb in Hb0. simplify_eq.
    pose proof (bs_seqs _ _ _ _ _ _ _ _ Hs _ Hin). lia.
  - simpl. destruct (decide (book_id (trade_order_id tid) = k)) as [E|Hne].
    + rewrite E in *. exists b'. rewrite lookup_insert_eq. split; [done|].
      rewrite Hlb in Hb0. simplify_eq. rewrite (bs_count _ _ _ _ _ _ _ _ Hs). lia.
    + exists b0. by rewrite lookup_insert_ne.
Qed.

Lemma core_book_step : core n (Q ++ N) s'.
Proof.
  pose proof stepped_totals as [Hfills Horders].
  assert (Hh := bs_records _ _ _ _ _ _ _ _ Hs).
  split; [apply Hc|apply Hc|apply stepped_book| | |apply Hc| |apply stepped_order
    |apply stepped_on_book|apply stepped_events|apply stepped_fill_ids| | |apply stepped_traded| |apply Hc].
  - intros k0 p Hp. apply stepped_dom. by apply (co_pair _ _ _ Hc) with p.
  - intros k0 Hk0. apply (co_book_id _ _ _ Hc). by apply stepped_dom.
  - destruct (co_history _ _ _ Hc) as (log & Hlog & Hn).
    destruct (rs_log _ _ _ Hh) as (log' & ? & E). exists log'.
    by rewrite E, (ls_size _ _ Hlog).
  - destruct (co_trades _ _ _ Hc) as (log & ? & ?). exists log. split; [done|].
    rewrite Hfills, fill_ids_app, length_app. lia.
  - rewrite Horders. apply Hc.
  - intros t u. rewrite stepped_owed. apply (co_reserved _ _ _ Hc).
Qed.
End step.
(** ** Updating the records *)

(** What an update makes of a record. *)
Record order_step (u : OrderUpdate) r r' : Prop := {
  os_same : same_order r r';
  os_status : or_status r' = next_status u r;
  os_filled : qval (or_filled_quantity r') = qval (or_filled_quantity r) + qval (ou_filled_delta u);
  os_quote : qval (or_filled_quote r') = qval (or_filled_quote r) + qval (ou_quote_delta u);
  os_fee : qval (or_filled_fee r') = qval (or_filled_fee r) + qval (ou_fee_delta u)
}.

(** An update the record has room for. *)
Record update_fits (u : OrderUpdate) r : Prop := {
  uf_filled : qval (or_filled_quantity r) + qval (ou_filled_delta u) ≤ qval (or_quantity r);
  uf_quote : qval (or_filled_quote r) + qval (ou_quote_delta u) < 2 ^ 256;
  uf_fee : qval (or_filled_fee r) + qval (ou_fee_delta u) < 2 ^ 256
}.

Lemma order_step_default r : order_step update_default r r.
Proof. split; simpl; try change (qval Quantity_ZERO) with 0; [done|done|lia..]. Qed.

Lemma apply_update_step h log id u now r :
  lockstep h log → history_get h id = Some r → update_fits u r →
  ∃ h' log' r', apply_update h id u now = Done h' ∧ lockstep h' log' ∧ length log' = length log ∧
    order_step u r r' ∧
    ∀ id', history_get h' id' = if decide (id' = id) then Some r' else history_get h id'.
Proof.
  intros Hlog Hr [Hf Hq He]. destruct (update_apply_total u r Hf Hq He) as (c & r1 & E).
  destruct (apply_update_spec h log id u now r c r1 Hlog Hr E) as (h' & log' & Eh & Hlog' & Hfst & Hget).
  exists h', log', (if c then set_last_updated (Some now) r1 else r). split_and!; [done..| | |done].
  - apply (f_equal length) in Hfst. by rewrite !length_fmap in Hfst.
  - pose proof (update_apply_Done _ _ _ _ E) as (Hs & Hst & _ & H1 & H2 & H3 & _ & Hsame).
    destruct c; [|rewrite (Hsame eq_refl) in *; by split].
    split; [|done..]. destruct Hs. by split.
Qed.

(** The loop over the updates of a round. *)
Lemma apply_updates k now us : ∀ h log,
  lockstep h log → NoDup us.*1 →
  (∀ seq u, (seq, u) ∈ us → ∃ r, history_get h (MkCompositeId k seq) = Some r ∧ update_fits u r) →
  ∃ h' log', exec_fold (λ h su, apply_update h (MkCompositeId k su.1) su.2 now) h us = Done h' ∧
    lockstep h' log' ∧ length log' = length log ∧
    (∀ id, history_get h id = None → history_get h' id = None) ∧
    ∀ id r, history_get h id = Some r → ∃ r', history_get h' id = Some r' ∧
      (book_id id ≠ k → r' = r) ∧
      (book_id id = k → order_step (update_at (list_to_map us) (order_seq id)) r r').
Proof.
  induction us as [|[seq u] us IH]; intros h log Hlog Hnd Hus; simpl.
  { exists h, log. split_and!; [done..|]. intros id r Hr. exists r. split_and!; [done..|].
    intros _. unfold update_at. rewrite lookup_empty. apply order_step_default. }
  cbn [fmap list_fmap fst] in Hnd. apply NoDup_cons in Hnd as [Hnin Hnd].
  destruct (Hus seq u) as (r0 & Hr0 & Hfit); [left|].
  destruct (apply_update_step h log _ u now r0 Hlog Hr0 Hfit)
    as (h1 & log1 & r1 & -> & Hlog1 & Hlen1 & Hstep & Hget).
  cbn [ebind]. destruct (IH h1 log1) as (h' & log' & E & Hlog' & Hlen & Hnone & Hsome); [done..| |].
  { intros seq' u' Hin. rewrite Hget, decide_False; [apply Hus; by right|].
    intros [= ->]. apply Hnin. by apply (list_elem_of_fmap_2 fst _ (seq, u')). }
  exists h', log'. split_and!; [done|done|congruence| |].
  - intros id Hid. apply Hnone. rewrite Hget, decide_False; [done|]. intros ->. congruence.
  - intros id r Hr. rewrite (update_at_insert (list_to_map us)).
    destruct (decide (id = MkCompositeId k seq)) as [->|Hne].
    + simplify_eq. destruct (Hsome (MkCompositeId k seq) r1) as (r' & Hr' & _ & Hst);
        [by rewrite Hget, decide_True|].
      exists r'. split_and!; [done|done|]. intros _. simpl. rewrite decide_True by done.
      specialize (Hst eq_refl). simpl in Hst. unfold update_at in Hst.
      rewrite not_elem_of_list_to_map_1 in Hst by done. simpl in Hst.
      destruct Hst as [Hs1 Hs2 Hs3 Hs4 Hs5], Hstep as [Ht1 Ht2 Ht3 Ht4 Ht5]. simpl in *.
      change (qval Quantity_ZERO) with 0 in *. split; [by etrans|by rewrite Hs2|lia..].
    + destruct (Hsome id r) as (r' & Hr' & Hne' & Hst); [by rewrite Hget, decide_False|].
      exists r'. split_and!; [done..|]. intros Hk. rewrite decide_False; [by apply Hst|].
      intros ->. apply Hne. by destruct id; simpl in *; subst.
Qed.
End inv_book.
