(* ===== verification/InvMatch.v ===== *)
(** * Matching keeps the invariant

    A matching event over the oldest pending orders of a book never traps: every
    fill and every killed order settles exactly, every record has room for its
    totals, and what leaves the book is queued for settlement to the last unit. *)

From stdpp Require Import prelude gmap.
From Stdlib Require Import ZArith Lia.
From S2P Require Import Prelude Word BTree Quantity Ids Fees OrderTypes.
From S2P Require Import Tokens Balance WriteBack BalanceTotals OrderQueue.
From S2P Require Import OrderBook BookInv BookInvMatch BookPending BookRound.
From S2P Require Import BookCancel History OrderHistory.
From S2P Require Import UserRegistry UserRegistryInv Settlement SettlementSpec.
From S2P Require Import Permissions PairMap Events State Replay.
From S2P Require Import Accounting StateInv InvSettle InvBook.
Open Scope Z_scope.

(** ** Sums *)

Lemma map_sum_single {K V} `{Countable K} (f : K → V → Z) (m : gmap K V) k0 :
  (∀ k v, m !! k = Some v → k ≠ k0 → f k v = 0) →
  map_sum f m = from_option (f k0) 0 (m !! k0).
Proof.
  intros Hf. destruct (m !! k0) as [v|] eqn:E; simpl.
  - rewrite (map_sum_delete f m k0 v E), (map_sum_ext f (delete k0 m) ∅), map_sum_empty; [lia|].
    intros k. rewrite lookup_empty. destruct (decide (k = k0)) as [->|Hne].
    + by rewrite lookup_delete_eq.
    + rewrite lookup_delete_ne by done. destruct (m !! k) eqn:Ek; simpl; [by apply Hf|done].
  - rewrite (map_sum_ext f m ∅), map_sum_empty; [done|]. intros k. rewrite lookup_empty.
    destruct (m !! k) eqn:Ek; simpl; [|done]. apply Hf; [done|]. intros ->. congruence.
Qed.

Lemma sum_over_bound {A} (f : A → Z) (l : list A) (B : Z) :
  (∀ a, a ∈ l → f a ≤ B) → sum_over f l ≤ Z.of_nat (length l) * B.
Proof.
  induction l as [|a l IH]; intros Hf; [done|]. rewrite sum_over_cons. cbn [length].
  assert (f a ≤ B) by (apply Hf; left).
  assert (sum_over f l ≤ Z.of_nat (length l) * B) by (apply IH; intros; apply Hf; by right). lia.
Qed.

(** Exact reservations add up over a list. *)
Lemma resZ_sum {A} side (p : Price) (s : nonzero 64) (f : A → Z) (l : list A) :
  (∀ a, a ∈ l → p * f a mod s = 0) →
  resZ side p (sum_over f l) s = sum_over (λ a, resZ side p (f a) s) l.
Proof.
  pose proof (nonzero_pos s). induction l as [|a l IH]; intros Hf; [apply resZ_zero|].
  rewrite !sum_over_cons, resZ_add; [|apply Hf; left|done].
  rewrite IH; [done|]. intros. apply Hf. by right.
Qed.

Lemma mod_zero_qty_if (p : Price) (s : nonzero 64) seq id z :
  p * z mod s = 0 → p * qty_if seq id z mod s = 0.
Proof. intros. unfold qty_if. case_decide; [done|]. by rewrite Z.mul_0_r, Zmod_0_l. Qed.

Section round.
Context `{PrincipalType} `{!BiBTreeMap TradingPair OrderBookId}.
Implicit Types (id : OrderId) (r : OrderRecord) (seq : OrderSeq) (f : Fill).
Context (n : Z) (Q : list SettlingEvent) (s : State) (k : OrderBookId) (b b' : OrderBook).
Context (tp : TradingPair) (sc : nonzero 64) (c : nat) (out : MatchingOutput).
Hypothesis Hc : core n Q s.
Hypothesis Hn : n < MAX_STEPS.
Hypothesis Hl : listed s k b tp sc.
Hypothesis Hmod : ob_tick_size b * ob_lot_size b mod sc = 0.
Hypothesis Hpost : round_post b (list_to_set (take c (pending_order_seqs b))) out b'.
Hypothesis Hpend : ob_pending_orders b' = drop c (ob_pending_orders b).
Hypothesis Hready : book_ready n b'.
Hypothesis Hinv : book_inv b.

Lemma terms_record seq side p :
  has_terms b seq side p → ∃ r, history_get (st_order_history s) (MkCompositeId k seq) = Some r ∧
    or_side r = side ∧ or_price r = p ∧ order_ok s b sc (MkCompositeId k seq) r ∧
    resZ side p (open_qty b seq) sc ≤ MAX_SUPPLY.
Proof.
  intros Ht. destruct (co_on_book _ _ _ Hc _ _ _ _ _ (li_book _ _ _ _ _ Hl) Ht) as (r & Hr & <- & <-).
  exists r. destruct (co_order _ _ _ Hc _ _ Hr) as (b0 & tp0 & sc0 & Hl0 & Ho).
  destruct (listed_fun _ _ _ _ _ _ _ _ Hl Hl0) as (-> & -> & ->).
  split_and!; [done..|]. pose proof (held_le_supply _ _ _ _ _ Hc Hr) as Hh.
  unfold held, book_open in Hh. simpl in Hh.
  rewrite (li_book _ _ _ _ _ Hl) in Hh. destruct (listed_scale _ _ _ _ _ Hl) as [_ Es].
  simpl in Hh. rewrite Es in Hh.
  pose proof (queued_nonneg Q (MkCompositeId k seq) (pair_side (or_side r))). lia.
Qed.

Lemma expired_qty_nonneg seq : 0 ≤ expired_qty (mo_expired_orders out) seq.
Proof.
  unfold expired_qty. destruct (mo_expired_orders out !! seq); simpl; [apply qval_range|done].
Qed.

Lemma role_qty_nonneg seq f : 0 ≤ taker_qty seq f ∧ 0 ≤ maker_qty seq f.
Proof.
  unfold taker_qty, maker_qty, qty_if. pose proof (qval_range (fill_quantity f)).
  split; case_decide; lia.
Qed.

Lemma fills_qty_nonneg seq : 0 ≤ fills_qty seq (mo_fills out).
Proof. apply sum_over_nonneg. intros f _. pose proof (role_qty_nonneg seq f). lia. Qed.

Lemma fill_le_open seq f :
  f ∈ mo_fills out → takes_part seq f → qval (fill_quantity f) ≤ open_qty b seq.
Proof.
  intros Hf Hp. pose proof (rp_account _ _ _ _ Hpost seq). pose proof (expired_qty_nonneg seq).
  pose proof (open_qty_nonneg b' seq).
  assert (qval (fill_quantity f) ≤ fills_qty seq (mo_fills out)); [|lia].
  etrans; [|apply (sum_over_elem_le (λ f, taker_qty seq f + maker_qty seq f) _ f);
    [|exact Hf]; intros g _; pose proof (role_qty_nonneg seq g); lia].
  pose proof (qval_range (fill_quantity f)). unfold taker_qty, maker_qty, qty_if.
  destruct Hp; repeat case_decide; try congruence; lia.
Qed.

(** Quantities of the book settle at the prices of its orders. *)
Lemma settles_part (p : Price) q q' :
  settles p q sc → valid_order b p q' → qval q' ≤ qval q → settles p q' sc.
Proof.
  intros [_ Hlt] (_ & Hp & _ & Hq) Hle. split; [by eapply scale_exact_of_lots|].
  pose proof (u128_range p). nia.
Qed.

Lemma fill_settles f :
  f ∈ mo_fills out →
  settles (taker_price f) (fill_quantity f) sc ∧ settles (maker_price f) (fill_quantity f) sc ∧
  qval (fill_quantity f) ≤ MAX_SUPPLY ∧ scaledZ (maker_price f) (fill_quantity f) sc ≤ MAX_SUPPLY.
Proof.
  intros Hf. destruct (rp_fills _ _ _ _ Hpost f Hf) as [Ht Hm Hd Hx Htv Hmv].
  destruct (terms_record _ _ _ Ht) as (rt & _ & _ & Ept & Hot & Hbt).
  destruct (terms_record _ _ _ Hm) as (rm & _ & _ & Epm & Hom & Hbm).
  pose proof (fill_le_open _ f Hf (or_introl eq_refl)) as Hqt.
  pose proof (fill_le_open _ f Hf (or_intror eq_refl)) as Hqm.
  pose proof (oo_filled _ _ _ _ _ Hot) as Hft. pose proof (oo_filled _ _ _ _ _ Hom) as Hfm.
  simpl in Hft, Hfm.
  pose proof (qval_range (or_filled_quantity rt)). pose proof (qval_range (or_filled_quantity rm)).
  assert (Hst : settles (taker_price f) (fill_quantity f) sc).
  { rewrite <-Ept. eapply settles_part; [apply Hot|by rewrite Ept|lia]. }
  assert (Hsm : settles (maker_price f) (fill_quantity f) sc).
  { rewrite <-Epm. eapply settles_part; [apply Hom|by rewrite Epm|lia]. }
  pose proof (nonzero_pos sc).
  assert (Hmono : ∀ side (p : Price) z, qval (fill_quantity f) ≤ z →
    resZ side p (qval (fill_quantity f)) sc ≤ resZ side p z sc) by (intros; by apply resZ_mono).
  split_and!; [done..| |].
  - destruct (taker_side f); simpl in Hbm, Hbt; [|lia]. lia.
  - unfold scaledZ. destruct (taker_side f); simpl in Hx, Hbt, Hbm.
    + apply Z.ltb_ge in Hx. specialize (Hmono Buy (taker_price f) _ Hqt). simpl in Hmono.
      assert (maker_price f * qval (fill_quantity f) / sc ≤
              taker_price f * qval (fill_quantity f) / sc); [|lia].
      apply Z.div_le_mono; [lia|]. pose proof (qval_range (fill_quantity f)). nia.
    + specialize (Hmono Buy (maker_price f) _ Hqm). simpl in Hmono. lia.
Qed.

Lemma fill_is_ok f : f ∈ mo_fills out → fill_ok sc f.
Proof.
  intros Hf. destruct (fill_settles f Hf) as (? & ? & _). split; [done..| |];
    by destruct (rp_fills _ _ _ _ Hpost f Hf).
Qed.

Lemma by_role_bound seq f x y B :
  taker_order_seq f ≠ maker_order_seq f → 0 ≤ B → x ≤ B → y ≤ B → by_role seq f x y ≤ B.
Proof. intros. unfold by_role, qty_if. repeat case_decide; subst; try congruence; lia. Qed.

(** A round adds at most [MAX_SUPPLY] per fill to any total. *)
Lemma totals_bound rates seq :
  fills_qty seq (mo_fills out) ≤ Z.of_nat (length (mo_fills out)) * MAX_SUPPLY ∧
  sum_over (quote_of sc seq) (mo_fills out) ≤ Z.of_nat (length (mo_fills out)) * MAX_SUPPLY ∧
  sum_over (fee_on rates sc seq) (mo_fills out) ≤ Z.of_nat (length (mo_fills out)) * MAX_SUPPLY.
Proof.
  assert (0 ≤ MAX_SUPPLY) by done.
  assert (Hr : ∀ side f, f ∈ mo_fills out →
    0 ≤ received side (maker_price f) (fill_quantity f) sc ≤ MAX_SUPPLY).
  { intros side f Hf. destruct (fill_settles f Hf) as (_ & Hs & ? & ?).
    pose proof (received_range side _ _ _ Hs). destruct side; simpl in *; lia. }
  split_and!; apply sum_over_bound; intros f Hf;
    destruct (fill_settles f Hf) as (_ & Hs & ? & ?);
    pose proof (ft_distinct _ _ (rp_fills _ _ _ _ Hpost f Hf)) as Hd.
  - change (by_role seq f (qval (fill_quantity f)) (qval (fill_quantity f)) ≤ MAX_SUPPLY).
    by apply by_role_bound.
  - by apply by_role_bound.
  - apply by_role_bound; [done|done|..].
    + pose proof (Hr (taker_side f) f Hf) as [Hr0 ?].
      pose proof (fee_of_le (taker rates) _ Hr0). lia.
    + pose proof (Hr (opp (taker_side f)) f Hf) as [Hr0 ?].
      pose proof (fee_of_le (maker rates) _ Hr0). lia.
Qed.

Lemma fills_count : seqZ (ob_next_fill b') = seqZ (ob_next_fill b) + Z.of_nat (length (mo_fills out)) ∧
  0 ≤ seqZ (ob_next_fill b) ∧ seqZ (ob_next_fill b') < MAX_STEPS.
Proof.
  destruct Hready. pose proof (rp_next_fill _ _ _ _ Hpost).
  pose proof (u64_range (seq_get (ob_next_fill b))). unfold seqZ in *. lia.
Qed.

Lemma expired_settles seq ro :
  mo_expired_orders out !! seq = Some ro → settles (ro_price ro) (ro_remaining ro) sc.
Proof.
  intros He. destruct (rp_killed _ _ _ _ Hpost _ _ He) as [Ht Hv].
  destruct (terms_record _ _ _ Ht) as (r & _ & _ & Ep & Ho & _). rewrite <-Ep.
  eapply settles_part; [apply Ho|by rewrite Ep|].
  pose proof (rp_account _ _ _ _ Hpost seq) as Ha. pose proof (oo_filled _ _ _ _ _ Ho) as Hf.
  unfold expired_qty in Ha. rewrite He in Ha. simpl in Ha, Hf.
  pose proof (open_qty_nonneg b' seq). pose proof (fills_qty_nonneg seq).
  pose proof (qval_range (or_filled_quantity r)). lia.
Qed.

Lemma round_settleable rates : settleable rates sc out.
Proof.
  split.
  - apply Forall_forall. apply fill_is_ok.
  - intros seq. pose proof fills_count as (? & ? & ?).
    destruct (totals_bound rates seq) as (? & ? & ?). unfold MAX_STEPS, MAX_SUPPLY in *.
    assert (Z.of_nat (length (mo_fills out)) * 2 ^ 128 ≤ 2 ^ 62 * 2 ^ 128) by nia.
    assert (2 ^ 62 * 2 ^ 128 < 2 ^ 256) by done. split; lia.
  - apply expired_settles.
Qed.
(** ** Where the orders are after the round *)

Lemma round_ids seq :
  seq ∈ (list_to_set (take c (pending_order_seqs b)) : gset OrderSeq) ↔
  ∃ o, o ∈ take c (ob_pending_orders b) ∧ o_id o = seq.
Proof.
  rewrite elem_of_list_to_set. unfold pending_order_seqs. rewrite <-fmap_take, list_elem_of_fmap.
  naive_solver.
Qed.

Lemma pending_kept o : o ∈ ob_pending_orders b' → o ∈ ob_pending_orders b.
Proof. rewrite Hpend. intros Ho. rewrite <-(take_drop c). apply elem_of_app. by right. Qed.

Lemma pending_split o1 o2 :
  o1 ∈ take c (ob_pending_orders b) → o2 ∈ ob_pending_orders b' → o_id o1 ≠ o_id o2.
Proof.
  intros H1 H2 E. rewrite Hpend in H2. pose proof (pending_seqs_NoDup b Hinv) as Hnd.
  unfold pending_order_seqs in Hnd. rewrite <-(take_drop c (ob_pending_orders b)), fmap_app in Hnd.
  apply NoDup_app in Hnd as (_ & Hd & _). apply (Hd (o_id o1)); [by apply list_elem_of_fmap_2|].
  rewrite E. by apply list_elem_of_fmap_2.
Qed.

Lemma round_off_book seq :
  ob_resting_orders b' !! seq = None →
  seq ∈ (list_to_set (take c (pending_order_seqs b)) : gset OrderSeq) ∨
    ob_resting_orders b !! seq ≠ None →
  off_book b' seq.
Proof.
  intros Hr Hcase. split; [done|]. intros o Ho E. destruct Hcase as [Hid|Hrest].
  - apply round_ids in Hid as (o1 & Ho1 & E1). by apply (pending_split o1 o); [..|congruence].
  - apply Hrest. rewrite <-E. apply pending_not_resting; [done|by apply pending_kept].
Qed.

Lemma off_book_stays seq : off_book b seq → off_book b' seq.
Proof.
  intros [Hr Hp]. split; [|intros o Ho; apply Hp; by apply pending_kept].
  destruct (ob_resting_orders b' !! seq) as [[side p]|] eqn:E; [|done]. exfalso.
  destruct (rp_terms _ _ _ _ Hpost seq side p) as [Hb|(o & Ho & Eo & _)]; [by left|congruence|].
  by apply (Hp o).
Qed.

(** A round names no order that had left the book. *)
Lemma status_in_on_book seq st : status_in out seq = Some st → ¬ off_book b seq.
Proof.
  intros Hst [Hr Hp].
  assert (Hids : seq ∉ (list_to_set (take c (pending_order_seqs b)) : gset OrderSeq)).
  { intros Hid. apply round_ids in Hid as (o & Ho & E). apply (Hp o); [|done].
    rewrite <-(take_drop c). apply elem_of_app. by left. }
  unfold status_in in Hst. destruct (decide (seq ∈ dom _)) as [He|_].
  { by apply (rp_expired _ _ _ _ Hpost) in He as [? _]. }
  destruct (decide (seq ∈ mo_filled_orders out)) as [Hf|_].
  { by apply (rp_filled _ _ _ _ Hpost) in Hf as [_ [?|?]]. }
  destruct (decide (seq ∈ mo_resting_orders out)) as [Ho|_]; [|done].
  by apply (rp_resting _ _ _ _ Hpost) in Ho as [? _].
Qed.

Lemma status_stepped seq st :
  status_ok b seq st → status_ok b' seq (default st (status_in out seq)).
Proof.
  intros Hst. unfold status_in.
  destruct (decide (seq ∈ dom (mo_expired_orders out))) as [He|Hne]; simpl.
  { destruct (rp_expired _ _ _ _ Hpost seq He). apply round_off_book; auto. }
  destruct (decide (seq ∈ mo_filled_orders out)) as [Hf|Hnf]; simpl.
  { destruct (rp_filled _ _ _ _ Hpost seq Hf). by apply round_off_book. }
  destruct (decide (seq ∈ mo_resting_orders out)) as [Ho|Hno]; simpl.
  { by apply (rp_resting _ _ _ _ Hpost) in Ho as [_ ?]. }
  destruct st; simpl in *; try by apply off_book_stays.
  - destruct Hst as (o & Ho & <-). rewrite <-(take_drop c (ob_pending_orders b)) in Ho.
    apply elem_of_app in Ho as [Ho|Ho]; [|exists o; by rewrite Hpend]. exfalso.
    assert (Hid : o_id o ∈ (list_to_set (take c (pending_order_seqs b)) : gset OrderSeq))
      by (apply round_ids; eauto).
    destruct (rp_once _ _ _ _ Hpost _ Hid) as [?|[?|?]]; naive_solver.
  - by destruct (rp_gone _ _ _ _ Hpost seq Hst).
Qed.

(** ** The records after the round *)

Context (cap : nonzero 32) (ms : MatchSettlement).
Hypothesis Hms : settled (ob_fee_rates b) sc cap out ms.

Lemma expired_qty_none seq : status_in out seq ≠ Some Expired →
  expired_qty (mo_expired_orders out) seq = 0.
Proof.
  unfold status_in, expired_qty. destruct (decide (seq ∈ dom _)) as [|Hne]; [done|].
  intros _. apply not_elem_of_dom in Hne. by rewrite Hne.
Qed.

Lemma update_room seq r :
  order_ok s b sc (MkCompositeId k seq) r → update_fits (update_at (order_updates ms) seq) r.
Proof.
  intros Ho. destruct (sd_totals _ _ _ _ _ Hms seq) as (E1 & E2 & E3).
  pose proof (rp_account _ _ _ _ Hpost seq). pose proof (oo_filled _ _ _ _ _ Ho) as Hf.
  pose proof (oo_quote _ _ _ _ _ Ho) as Hq. pose proof (oo_fee _ _ _ _ _ Ho) as He. simpl in Hf.
  pose proof (open_qty_nonneg b' seq). pose proof (expired_qty_nonneg seq).
  destruct (totals_bound (ob_fee_rates b) seq) as (_ & ? & ?). pose proof fills_count as (? & ? & ?).
  assert (seqZ (ob_next_fill b') * MAX_SUPPLY < 2 ^ 256) by (unfold MAX_STEPS, MAX_SUPPLY in *; nia).
  split; [lia|nia..].
Qed.

Lemma order_stepped seq r r' :
  order_ok s b sc (MkCompositeId k seq) r →
  order_step (update_at (order_updates ms) seq) r r' →
  order_ok s b' sc (MkCompositeId k seq) r'.
Proof.
  intros Ho [[] Hst Hfl Hqt Hfe]. destruct (sd_totals _ _ _ _ _ Hms seq) as (E1 & E2 & E3).
  rewrite E1 in Hfl. rewrite E2 in Hqt. rewrite E3 in Hfe.
  unfold next_status in Hst. rewrite (sd_status _ _ _ _ _ Hms) in Hst.
  pose proof (rp_account _ _ _ _ Hpost seq) as Hacc. pose proof (oo_filled _ _ _ _ _ Ho) as Hf.
  pose proof (expired_qty_nonneg seq). simpl in Hf.
  destruct (totals_bound (ob_fee_rates b) seq) as (_ & ? & ?). pose proof fills_count as (? & ? & ?).
  pose proof (rp_rules _ _ _ _ Hpost) as Hrules.
  split; simpl.
  - rewrite so_owner. apply Ho.
  - rewrite (rp_next _ _ _ _ Hpost). apply Ho.
  - rewrite so_price, so_quantity. rewrite (valid_order_rules b b') by done. apply Ho.
  - rewrite so_price, so_quantity. apply Ho.
  - rewrite so_quantity. lia.
  - rewrite so_quantity, Hst. intros Hnc Hne.
    rewrite (expired_qty_none seq) in Hacc
      by (intros E; rewrite E in Hne; by apply Hne).
    assert (Hex : qval (or_filled_quantity r) + open_qty b seq = qval (or_quantity r)); [|lia].
    apply (oo_exact _ _ _ _ _ Ho); intros Er; pose proof (oo_status _ _ _ _ _ Ho) as Hs;
      rewrite Er in Hs; simpl in Hs; destruct (status_in out seq) as [st|] eqn:Ein; simpl in *;
      try congruence; by eapply status_in_on_book.
  - rewrite Hst. apply status_stepped. apply (oo_status _ _ _ _ _ Ho).
  - pose proof (oo_quote _ _ _ _ _ Ho). nia.
  - pose proof (oo_fee _ _ _ _ _ Ho). nia.
Qed.
(** ** What leaves the book is queued *)

Definition round_events : list SettlingEvent :=
  (λ batch, MkSettlingEvent k (sb_operations batch) (sb_fills batch)) <$> settling_batches ms.

Lemma queued_round seq pt :
  queued round_events (MkCompositeId k seq) pt =
    sum_over (release_of sc seq pt) (mo_fills out) +
    sum_over (expired_release sc seq pt) (btree_iter (mo_expired_orders out)).
Proof.
  rewrite <-(settled_released (ob_fee_rates b) sc cap out ms);
    [|apply round_settleable|done]. unfold batch_ops. rewrite released_concat, sum_over_fmap.
  unfold queued, round_events. rewrite sum_over_fmap. apply sum_over_ext.
  intros batch _. simpl. by rewrite decide_True.
Qed.

Lemma terms_unique seq side p r :
  history_get (st_order_history s) (MkCompositeId k seq) = Some r →
  has_terms b seq side p → side = or_side r ∧ p = or_price r.
Proof.
  intros Hr Ht. destruct (terms_record _ _ _ Ht) as (r' & Hr' & <- & <- & _). by simplify_eq.
Qed.

(** The part of a fill that concerns an order, at the order's own terms. *)
Lemma release_of_order seq r f :
  history_get (st_order_history s) (MkCompositeId k seq) = Some r → f ∈ mo_fills out →
  release_of sc seq (pair_side (or_side r)) f =
    resZ (or_side r) (or_price r) (taker_qty seq f + maker_qty seq f) sc ∧
  or_price r * (taker_qty seq f + maker_qty seq f) mod sc = 0.
Proof.
  intros Hr Hf. destruct (rp_fills _ _ _ _ Hpost f Hf) as [Ht Hm Hd _ _ _].
  destruct (fill_settles f Hf) as ([Hxt _] & [Hxm _] & _).
  unfold release_of, taker_qty, maker_qty, qty_if.
  destruct (decide (taker_order_seq f = seq)) as [<-|Hnt].
  - destruct (terms_unique _ _ _ _ Hr Ht) as [Es Ep]. rewrite <-Es, <-Ep.
    rewrite (decide_True (P := _ ∧ _)) by done.
    rewrite !decide_False by naive_solver. rewrite reservation_resZ, !Z.add_0_r. done.
  - rewrite (decide_False (P := taker_order_seq f = seq ∧ _)) by naive_solver.
    destruct (decide (maker_order_seq f = seq)) as [<-|Hnm].
    + destruct (terms_unique _ _ _ _ Hr Hm) as [Es Ep]. rewrite <-Es, <-Ep.
      rewrite decide_True by done. rewrite reservation_resZ, !Z.add_0_l. done.
    + rewrite decide_False by naive_solver. rewrite resZ_zero, Z.mul_0_r, Zmod_0_l. done.
Qed.

Lemma expired_release_order seq r :
  history_get (st_order_history s) (MkCompositeId k seq) = Some r →
  sum_over (expired_release sc seq (pair_side (or_side r))) (btree_iter (mo_expired_orders out)) =
    resZ (or_side r) (or_price r) (expired_qty (mo_expired_orders out) seq) sc ∧
  or_price r * expired_qty (mo_expired_orders out) seq mod sc = 0.
Proof.
  intros Hr. rewrite (sum_over_perm _ _ _ (btree_iter_perm (mo_expired_orders out))).
  change (sum_over (expired_release sc seq (pair_side (or_side r)))
      (map_to_list (mo_expired_orders out)))
    with (map_sum (λ q ro, expired_release sc seq (pair_side (or_side r)) (q, ro))
      (mo_expired_orders out)).
  rewrite (map_sum_single _ _ seq).
  - unfold expired_qty. destruct (mo_expired_orders out !! seq) as [ro|] eqn:E; simpl;
      [|by rewrite resZ_zero, Z.mul_0_r, Zmod_0_l].
    destruct (rp_killed _ _ _ _ Hpost _ _ E) as [Ht _].
    destruct (terms_unique _ _ _ _ Hr Ht) as [Es Ep]. unfold expired_release. simpl.
    rewrite <-Es, <-Ep, decide_True, reservation_resZ by done.
    split; [done|]. apply (expired_settles _ _ E).
  - intros q ro _ Hne. unfold expired_release. simpl. rewrite decide_False; [done|naive_solver].
Qed.

Lemma round_held seq r :
  history_get (st_order_history s) (MkCompositeId k seq) = Some r →
  resZ (or_side r) (or_price r) (open_qty b seq) sc =
    resZ (or_side r) (or_price r) (open_qty b' seq) sc +
    queued round_events (MkCompositeId k seq) (pair_side (or_side r)).
Proof.
  intros Hr. rewrite queued_round. destruct (expired_release_order seq r Hr) as [-> He].
  pose proof (nonzero_pos sc).
  rewrite (sum_over_ext _ (λ f, resZ (or_side r) (or_price r) (taker_qty seq f + maker_qty seq f) sc))
    by (intros f Hf; by apply release_of_order).
  rewrite <-resZ_sum by (intros f Hf; by apply release_of_order).
  change (sum_over (λ f, taker_qty seq f + maker_qty seq f) (mo_fills out))
    with (fills_qty seq (mo_fills out)).
  assert (Hf : or_price r * fills_qty seq (mo_fills out) mod sc = 0).
  { unfold fills_qty. assert (Hall : ∀ f, f ∈ mo_fills out →
      or_price r * (taker_qty seq f + maker_qty seq f) mod sc = 0)
      by (intros f Hf; by apply release_of_order).
    clear -Hall. induction (mo_fills out) as [|f fs IH]; [by rewrite Z.mul_0_r, Zmod_0_l|].
    rewrite sum_over_cons, Z.mul_add_distr_l, Zplus_mod, IH, Hall;
      [by rewrite Z.add_0_l, Zmod_0_l|left|intros; apply Hall; by right]. }
  rewrite (rp_account _ _ _ _ Hpost seq), <-Z.add_assoc, Z.add_comm, !resZ_add;
    [lia|done|done| |done].
  by rewrite Z.mul_add_distr_l, Zplus_mod, Hf, He, Z.add_0_l, Zmod_0_l.
Qed.
(** ** The queued events are well formed *)

Lemma nonzero_fee_default q : default Quantity_ZERO (nonzero_fee q) = q.
Proof.
  unfold nonzero_fee. rewrite is_zero_spec. destruct (Z.eqb_spec (qval q) 0) as [E|]; [|done].
  symmetry. by apply qval_inj.
Qed.

Lemma fill_positive f :
  f ∈ mo_fills out →
  0 < qval (fill_quantity f) ∧ 0 < scaledZ (maker_price f) (fill_quantity f) sc.
Proof.
  intros Hf. destruct (ft_maker_valid _ _ (rp_fills _ _ _ _ Hpost f Hf)) as (Hp & _ & Hq & _).
  destruct (fill_settles f Hf) as (_ & [Hx _] & _).
  pose proof (qval_range (fill_quantity f)). pose proof (u128_range (maker_price f)).
  pose proof (nonzero_pos sc). split; [lia|].
  apply (resZ_positive Buy (maker_price f) (qval (fill_quantity f)) sc); [lia..|done|done].
Qed.

(** A transfer of a fill pays a fee out of a positive amount. *)
Lemma fill_fee_le (rate : BasisPoint) side f :
  f ∈ mo_fills out →
  let z := received side (maker_price f) (fill_quantity f) sc in
  0 < qval (q_of_Z z) ∧
  qval (default Quantity_ZERO (nonzero_fee (q_of_Z (fee_of rate z)))) ≤ qval (q_of_Z z).
Proof.
  intros Hf z. destruct (fill_positive f Hf). destruct (fill_settles f Hf) as (_ & Hs & _).
  pose proof (received_range side _ _ _ Hs) as Hz. fold z in Hz.
  pose proof (fee_of_le rate z ltac:(lia)). rewrite nonzero_fee_default, !q_of_Z_val by lia.
  split; [|lia]. unfold z. by destruct side.
Qed.

Lemma transfer_is_ok from to rf rt tok amount fee :
  history_get (st_order_history s) (MkCompositeId k from) = Some rf →
  history_get (st_order_history s) (MkCompositeId k to) = Some rt → tok = pair_side (or_side rf) →
  0 < qval amount ∧ qval (default Quantity_ZERO (nonzero_fee fee)) ≤ qval amount →
  op_ok (st_order_history s) k (Transfer from to tok amount (nonzero_fee fee)).
Proof. intros ? ? ? []. simpl. split_and!; eauto. Qed.

Lemma fill_ops_ok rates f :
  f ∈ mo_fills out →
  Forall (op_ok (st_order_history s) k) (fill_operations (settlement_of f rates sc)).
Proof.
  intros Hf. destruct (rp_fills _ _ _ _ Hpost f Hf) as [Ht Hm _ _ _ _].
  destruct (terms_record _ _ _ Ht) as (rt & Hrt & Est & _).
  destruct (terms_record _ _ _ Hm) as (rm & Hrm & Esm & _).
  pose proof (λ rate side, fill_fee_le rate side f Hf) as Hfee.
  pose proof (surplus_nonneg f sc (fill_is_ok f Hf)) as Hsur.
  assert (Hu : Forall (op_ok (st_order_history s) k)
    (if negb (is_zero (q_of_Z (surplusZ f sc)))
     then [Unreserve (taker_order_seq f) Quote (q_of_Z (surplusZ f sc))] else [])).
  { rewrite is_zero_spec, q_of_Z_val by done. destruct (Z.eqb_spec (surplusZ f sc) 0) as [|Hne];
      simpl; [done|]. apply Forall_singleton. simpl. rewrite q_of_Z_val by done. split; [|lia].
    exists rt. split; [done|]. unfold surplusZ in Hne. destruct (taker_side f); [|done].
    by rewrite Est. }
  assert (Hb : ∀ rate, 0 < qval (fill_quantity f) ∧
    qval (default Quantity_ZERO (nonzero_fee (q_of_Z (fee_of rate (qval (fill_quantity f)))))) ≤
    qval (fill_quantity f)).
  { intros rate. pose proof (Hfee rate Buy) as E. cbn [received] in E. by rewrite q_of_Z_qval in E. }
  assert (Hq := λ rate, Hfee rate Sell). cbn [received] in Hq. clear Hfee.
  unfold fill_operations, settlement_of. cbn [fs_fill fs_notional fs_taker_fee fs_maker_fee fs_surplus].
  destruct (taker_side f) eqn:Eside; cbn [received opp app] in *; apply Forall_cons;
    (split; [|apply Forall_app; split; [exact Hu|apply Forall_singleton]]).
  - by apply (transfer_is_ok _ _ rt rm); [..|rewrite Est|apply Hq].
  - by apply (transfer_is_ok _ _ rm rt); [..|rewrite Esm|apply Hb].
  - by apply (transfer_is_ok _ _ rm rt); [..|rewrite Esm|apply Hq].
  - by apply (transfer_is_ok _ _ rt rm); [..|rewrite Est|apply Hb].
Qed.
Lemma expired_op_ok seq ro :
  mo_expired_orders out !! seq = Some ro →
  op_ok (st_order_history s) k (Unreserve seq (pair_side (ro_side ro))
    (q_of_Z (reservation (ro_side ro) (ro_price ro) (ro_remaining ro) sc))).
Proof.
  intros E. destruct (rp_killed _ _ _ _ Hpost _ _ E) as [Ht (Hp & _ & Hq & _)].
  destruct (terms_record _ _ _ Ht) as (r & Hr & Es & _). pose proof (expired_settles _ _ E) as Hs.
  simpl. split; [exists r; by rewrite Es|]. rewrite q_of_Z_val by by apply reservation_range.
  rewrite reservation_resZ. pose proof (qval_range (ro_remaining ro)).
  pose proof (u128_range (ro_price ro)).
  apply resZ_positive; [lia..|apply Hs|apply nonzero_pos].
Qed.

Lemma numbered_bound f :
  f ∈ mo_fills out →
  seqZ (ob_next_fill b) ≤ seqZ (fill_seq f) < seqZ (ob_next_fill b').
Proof.
  intros Hf. apply list_elem_of_lookup in Hf as [i Hi].
  rewrite (rp_numbered _ _ _ _ Hpost _ _ Hi), (rp_next_fill _ _ _ _ Hpost).
  apply lookup_lt_Some in Hi. lia.
Qed.

Lemma fill_event_is_ok rates f ops :
  f ∈ mo_fills out →
  (∀ seq, seq ∈ concat (op_seqs <$> fill_operations (settlement_of f rates sc)) →
    seq ∈ concat (op_seqs <$> ops)) →
  fill_event_ok (st_order_history s) k b' sc ops (fill_event (settlement_of f rates sc)).
Proof.
  intros Hf Hops. destruct (rp_fills _ _ _ _ Hpost f Hf) as [_ Hm Hd _ _ _].
  assert (Hin : ∀ seq, takes_part seq f →
    seq ∈ concat (op_seqs <$> fill_operations (settlement_of f rates sc))).
  { intros seq Hp. unfold fill_operations. simpl.
    destruct (taker_side f); simpl; rewrite !elem_of_cons; unfold takes_part in Hp; naive_solver. }
  split; simpl; [apply Hops, Hin; by left|apply Hops, Hin; by right|done| |].
  - intros r Hr. destruct (terms_unique _ _ _ _ Hr Hm) as [_ <-].
    by destruct (fill_settles f Hf) as (_ & ? & _).
  - by apply numbered_bound.
Qed.

Definition round_units : list SettlementUnit := units_of (ob_fee_rates b) sc out.

Lemma unit_ops_ok u : u ∈ round_units → Forall (op_ok (st_order_history s) k) (su_operations u).
Proof.
  unfold round_units, units_of. intros Hu. apply elem_of_app in Hu as [Hu|Hu];
    apply list_elem_of_fmap in Hu as (x & -> & Hx).
  - by apply fill_ops_ok.
  - destruct x as [seq ro]. apply btree_iter_elem in Hx. apply Forall_singleton.
    by apply expired_op_ok.
Qed.

Lemma unit_fill_ok u fe ops :
  u ∈ round_units → su_fill u = Some fe →
  (∀ seq, seq ∈ concat (op_seqs <$> su_operations u) → seq ∈ concat (op_seqs <$> ops)) →
  fill_event_ok (st_order_history s) k b' sc ops fe.
Proof.
  unfold round_units, units_of. intros Hu Hfe. apply elem_of_app in Hu as [Hu|Hu];
    apply list_elem_of_fmap in Hu as (x & -> & Hx); simpl in Hfe; simplify_eq.
  by apply fill_event_is_ok.
Qed.

(** An event of the round carries a group of its units. *)
Lemma round_event_group e :
  e ∈ round_events → ∃ g, (∀ u, u ∈ g → u ∈ round_units) ∧ se_book_id e = k ∧
    se_balance_operations e = concat (su_operations <$> g) ∧ se_fills e = omap su_fill g.
Proof.
  intros He. unfold round_events in He. apply list_elem_of_fmap in He as (batch & -> & Hb).
  destruct (sd_batches _ _ _ _ _ Hms) as (groups & [Hcat _] & E). rewrite E in Hb.
  apply list_elem_of_fmap in Hb as (g & -> & Hg). exists g. split_and!; [|done..].
  intros u Hu. unfold round_units. rewrite <-Hcat. apply elem_of_concat. eauto.
Qed.

Lemma round_event_ok e :
  e ∈ round_events → Forall (op_ok (st_order_history s) k) (se_balance_operations e) ∧
    Forall (fill_event_ok (st_order_history s) k b' sc (se_balance_operations e)) (se_fills e).
Proof.
  intros He. destruct (round_event_group e He) as (g & Hg & _ & -> & ->). split.
  - apply Forall_forall. intros op Hop. apply elem_of_concat in Hop as (ops & Hop & Hin).
    apply list_elem_of_fmap in Hin as (u & -> & Hu).
    pose proof (unit_ops_ok u (Hg u Hu)) as Hall. rewrite Forall_forall in Hall. by apply Hall.
  - apply Forall_forall. intros fe Hfe. apply list_elem_of_omap in Hfe as (u & Hu & Efe).
    apply (unit_fill_ok u); [by apply Hg|done|]. intros seq Hseq.
    apply elem_of_concat in Hseq as (l & Hsl & Hin). apply list_elem_of_fmap in Hin as (op & -> & Hop).
    apply elem_of_concat. exists (op_seqs op). split; [done|]. apply list_elem_of_fmap_2.
    apply elem_of_concat. exists (su_operations u). split; [done|]. by apply list_elem_of_fmap_2.
Qed.

Lemma round_fill_ids : fill_ids round_events = (λ f, (k, fill_seq f)) <$> mo_fills out.
Proof.
  assert (E : fill_ids round_events =
    (λ fe, (k, fv_fill_seq fe)) <$> batch_fills (settling_batches ms)).
  { unfold fill_ids, round_events, batch_fills.
    induction (settling_batches ms) as [|x l IH]; [done|]. rewrite !fmap_cons. cbn [concat].
    by rewrite IH, fmap_app. }
  rewrite E, (settled_fills _ _ _ _ _ Hms), <-list_fmap_compose. done.
Qed.

Lemma numbered_NoDup : NoDup (fill_ids round_events).
Proof.
  rewrite round_fill_ids. apply NoDup_alt. intros i j x Hi Hj.
  apply list_lookup_fmap_Some in Hi as (f & -> & Hi). apply list_lookup_fmap_Some in Hj as (g & E & Hj).
  injection E as E. pose proof (rp_numbered _ _ _ _ Hpost _ _ Hi).
  pose proof (rp_numbered _ _ _ _ Hpost _ _ Hj). rewrite E in *. lia.
Qed.
(** ** The round as a step of the book *)

Context (h' : OrderHistory) (log log' : list (UserId * OrderId * OrderRecord)).
Hypothesis Hlog : lockstep (st_order_history s) log.
Hypothesis Hlog' : lockstep h' log'.
Hypothesis Hlen : length log' = length log.
Hypothesis Hnone : ∀ id, history_get (st_order_history s) id = None → history_get h' id = None.
Hypothesis Hsome : ∀ id r, history_get (st_order_history s) id = Some r →
  ∃ r', history_get h' id = Some r' ∧ (book_id id ≠ k → r' = r) ∧
    (book_id id = k → order_step (update_at (order_updates ms) (order_seq id)) r r').

Lemma round_records : records_step k (st_order_history s) h'.
Proof.
  split; [|done|].
  - exists log'. by rewrite Hlen, (ls_size _ _ Hlog).
  - intros id r Hr. destruct (Hsome id r Hr) as (r' & Hr' & Hne & He). exists r'.
    split_and!; [done| |done]. destruct (decide (book_id id = k)) as [E|E].
    + by destruct (He E). + by rewrite (Hne E).
Qed.

Lemma round_step : book_step n s k b sc b' h' round_events.
Proof.
  pose proof round_records as Hrec.
  split; [done|apply Hpost|apply Hpost|apply Hpost|done| | | | |apply numbered_NoDup| | |].
  - intros [k0 seq] r' Hr' E. simpl in E; subst k0.
    destruct (history_get (st_order_history s) (MkCompositeId k seq)) as [r|] eqn:Hr;
      [|by rewrite Hnone in Hr'].
    destruct (Hsome _ _ Hr) as (r1 & Hr1 & _ & Hst). simplify_eq.
    apply (order_stepped seq r); [|by apply (Hst eq_refl)].
    destruct (co_order _ _ _ Hc _ _ Hr) as (b0 & tp0 & sc0 & Hl0 & Ho).
    by destruct (listed_fun _ _ _ _ _ _ _ _ Hl Hl0) as (-> & -> & ->).
  - intros e He. by destruct (round_event_group e He) as (g & _ & ? & _).
  - intros e He. eapply Forall_impl; [apply (round_event_ok e He)|].
    intros op. by apply op_ok_step with k.
  - intros e He. eapply Forall_impl; [apply (round_event_ok e He)|].
    intros fe. by apply fill_event_ok_step with k.
  - intros q Hq. rewrite round_fill_ids in Hq. apply list_elem_of_fmap in Hq as (f & E & Hf).
    injection E as ->. by apply numbered_bound.
  - rewrite round_fill_ids, length_fmap. apply Hpost.
  - intros [k0 seq] r Hr E. simpl in E; subst k0. by apply round_held.
Qed.
End round.

Section matching.
Context `{PrincipalType} `{!BiBTreeMap TradingPair OrderBookId}.
Implicit Types (s : State) (k : OrderBookId) (b : OrderBook) (Q N : list SettlingEvent).

(** Matching the [c] oldest pending orders of a listed book. *)
Lemma match_core n Q s k b c now :
  core n Q s → n < MAX_STEPS → st_order_books s !! k = Some b →
  ∃ N b' h', let s' := book_stepped s k b' h' (st_pending_settling_events s ++ N) in
    record_matching_event s (MkMatchingEvent k (take c (pending_order_seqs b))) now Write = Done s' ∧
    core n (Q ++ N) s' ∧ ob_pending_orders b' = drop c (ob_pending_orders b) ∧
    ∃ out, process_pending_orders b (take c (pending_order_seqs b)) = Done (out, b') ∧
      ∀ seq r, history_get (st_order_history s) (MkCompositeId k seq) = Some r →
        ∃ r', history_get h' (MkCompositeId k seq) = Some r' ∧ same_order r r' ∧
          or_status r' = default (or_status r) (status_in out seq).
Proof.
  intros Hc Hn Hb. destruct (co_book _ _ _ Hc _ _ Hb) as (tp & sc & Hl & Hready & Hmod & Hbid).
  assert (Hinv := br_inv _ _ Hready).
  destruct (round_ready n b c Hready) as (out & b' & Eproc & Hpost & Hpend & Hready').
  { unfold MAX_STEPS in Hn. change (uint_max 64) with (2 ^ 64 - 1). lia. }
  set (cap := ep_max_settlement_units_per_event (st_execution_policy s)).
  assert (Hsl : settleable (ob_fee_rates b) sc out) by by eapply round_settleable.
  destruct (from_matching_spec (ob_fee_rates b) sc cap out Hsl) as (ms & Ems & Hms).
  destruct (co_history _ _ _ Hc) as (log & Hlog & _).
  destruct (apply_updates k now (btree_iter (order_updates ms)) (st_order_history s) log)
    as (h' & log' & Eh & Hlog' & Hlen & Hnone & Hsome); [done|apply btree_iter_keys_NoDup| |].
  { intros seq u Hu. apply btree_iter_elem in Hu.
    assert (Hon : ∃ side p, has_terms b seq side p).
    { destruct (proj1 (sd_dom _ _ _ _ _ Hms seq)) as [(f & Hf & Hp)|[st Hst]]; [by rewrite Hu| |].
      - destruct (rp_fills _ _ _ _ Hpost f Hf) as [Ht Hm _ _ _ _]. destruct Hp as [<-|<-]; eauto.
      - assert (Hnoff : ¬ off_book b seq) by by eapply status_in_on_book.
        destruct (ob_resting_orders b !! seq) as [[side p]|] eqn:E; [exists side, p; by left|].
        destruct (decide (Exists (λ o, o_id o = seq) (ob_pending_orders b))) as [He|Hne].
        + apply Exists_exists in He as (o & Ho & <-). exists (o_side o), (o_price o). right; eauto.
        + exfalso. apply Hnoff. split; [done|]. intros o Ho Eo. apply Hne, Exists_exists. eauto. }
    destruct Hon as (side & p & Ht).
    destruct (terms_record n Q s k b tp sc Hc Hl seq side p Ht) as (r & Hr & _ & _ & Ho & _).
    exists r. split; [done|]. assert (u = update_at (order_updates ms) seq) as ->
      by (unfold update_at; by rewrite Hu).
    by eapply update_room. }
  rewrite list_to_map_btree_iter in Hsome.
  exists (round_events k ms), b', h'. split_and!; [| |done|].
  - unfold record_matching_event. cbn [me_book_id me_orders].
    destruct (listed_scale _ _ _ _ _ Hl) as [-> _]. cbn [ebind]. rewrite Hb. cbn [expect ebind].
    rewrite Eproc. cbn [ebind].
    match goal with |- context [from_matching _ _ _ ?cp] => change cp with cap end.
    rewrite Ems. cbn [ebind].
    match goal with |- context [exec_fold _ ?hs _] => change hs with (st_order_history s) end.
    rewrite Eh. done.
  - eapply core_book_step; [done..|]. by eapply round_step.
  - exists out. split; [done|]. intros seq r Hr. destruct (Hsome _ _ Hr) as (r' & Hr' & _ & Hstep).
    exists r'. destruct (Hstep eq_refl) as [Hsame Hst _ _ _]. split_and!; [done..|].
    rewrite Hst. unfold next_status. cbn [order_seq second]. by rewrite (sd_status _ _ _ _ _ Hms).
Qed.
End matching.
