(* ===== verification/InvOrder.v ===== *)
(** * Placing and cancelling orders keeps the invariant *)

From stdpp Require Import prelude gmap.
From Stdlib Require Import ZArith Lia.
From S2P Require Import Prelude Word BTree Quantity Ids Fees OrderTypes.
From S2P Require Import Tokens Balance WriteBack BalanceTotals OrderQueue.
From S2P Require Import OrderBook BookInv BookInvMatch BookPending BookRound.
From S2P Require Import BookCancel History OrderHistory.
From S2P Require Import UserRegistry UserRegistryInv Settlement SettlementSpec.
From S2P Require Import Permissions PairMap Events State Replay.
From S2P Require Import Accounting StateInv InvSettle InvBook InvMatch.
Open Scope Z_scope.

Section cancel.
Context `{PrincipalType} `{!BiBTreeMap TradingPair OrderBookId}.
Implicit Types (id : OrderId) (r : OrderRecord) (seq : OrderSeq).

(** An order whose record is not terminal is on its book, at its own terms. *)
Definition live (st : OrderStatus) : Prop := st = Pending ∨ st = Open.

Lemma live_terms n Q (s : State) id r b tp sc :
  core n Q s → history_get (st_order_history s) id = Some r → listed s (book_id id) b tp sc →
  live (or_status r) → has_terms b (order_seq id) (or_side r) (or_price r).
Proof.
  intros Hc Hr Hl Hlive. destruct (co_order _ _ _ Hc _ _ Hr) as (b0 & tp0 & sc0 & Hl0 & Ho).
  destruct (listed_fun _ _ _ _ _ _ _ _ Hl Hl0) as (-> & -> & ->).
  assert (Hon : ∃ side p, has_terms b (order_seq id) side p).
  { pose proof (oo_status _ _ _ _ _ Ho) as Hst. destruct Hlive as [E|E]; rewrite E in Hst; simpl in Hst.
    - destruct Hst as (o & Hin & <-). exists (o_side o), (o_price o). right. eauto.
    - destruct (ob_resting_orders b !! order_seq id) as [[side p]|] eqn:Eo; [|done].
      exists side, p. by left. }
  destruct Hon as (side & p & Ht).
  destruct (co_on_book _ _ _ Hc _ _ _ _ _ (li_book _ _ _ _ _ Hl) Ht) as (r' & Hr' & <- & <-).
  destruct id. simpl in *. by simplify_eq.
Qed.

(** ** Cancellation *)

Section removing.
Context (n : Z) (Q : list SettlingEvent) (s : State) (k : OrderBookId) (seq : OrderSeq).
Context (b b' : OrderBook) (tp : TradingPair) (sc : nonzero 64) (ro : RemovedOrder).
Context (r r1 : OrderRecord) (h' : OrderHistory) (log log' : list (UserId * OrderId * OrderRecord)).
Context (by_ : option Principal).
Hypothesis Hc : core n Q s.
Hypothesis Hl : listed s k b tp sc.
Hypothesis Hmod : ob_tick_size b * ob_lot_size b mod sc = 0.
Hypothesis Hinv : book_inv b.
Hypothesis Hr : history_get (st_order_history s) (MkCompositeId k seq) = Some r.
Hypothesis Hrem : removal b seq ro b'.
Hypothesis Hready : book_ready n b'.
Hypothesis Hlog : lockstep (st_order_history s) log.
Hypothesis Hlog' : lockstep h' log'.
Hypothesis Hlen : length log' = length log.
Hypothesis Hstep : order_step (update_cancel by_) r r1.
Hypothesis Hget : ∀ id, history_get h' id =
  if decide (id = MkCompositeId k seq) then Some r1 else history_get (st_order_history s) id.

Lemma removed_terms : ro_side ro = or_side r ∧ ro_price ro = or_price r.
Proof.
  destruct (co_on_book _ _ _ Hc _ _ _ _ _ (li_book _ _ _ _ _ Hl) (rm_terms _ _ _ _ Hrem))
    as (r' & Hr' & <- & <-). by simplify_eq.
Qed.

Lemma record_ok seq0 r0 :
  history_get (st_order_history s) (MkCompositeId k seq0) = Some r0 →
  order_ok s b sc (MkCompositeId k seq0) r0.
Proof.
  intros E. destruct (co_order _ _ _ Hc _ _ E) as (b0 & tp0 & sc0 & Hl0 & Ho).
  by destruct (listed_fun _ _ _ _ _ _ _ _ Hl Hl0) as (-> & -> & ->).
Qed.

Lemma removed_settles : settles (ro_price ro) (ro_remaining ro) sc.
Proof.
  destruct removed_terms as [_ Ep]. pose proof (record_ok _ _ Hr) as Ho.
  pose proof (oo_filled _ _ _ _ _ Ho) as Hf. pose proof (rm_qty _ _ _ _ Hrem) as Hq. simpl in Hf.
  pose proof (qval_range (or_filled_quantity r)). rewrite Ep.
  eapply settles_part; [exact Hmod|apply Ho|rewrite <-Ep; apply (rm_valid _ _ _ _ Hrem)|lia].
Qed.

Definition cancel_event : SettlingEvent :=
  MkSettlingEvent k [Unreserve seq (pair_side (ro_side ro))
    (q_of_Z (reservation (ro_side ro) (ro_price ro) (ro_remaining ro) sc))] [].

Lemma removed_off_book : off_book b' seq.
Proof.
  split; [rewrite (rm_resting _ _ _ _ Hrem); apply lookup_delete_eq|].
  intros o Ho. by apply (rm_pending _ _ _ _ Hrem) in Ho as [_ ?].
Qed.

Lemma status_removed seq0 st : seq0 ≠ seq → status_ok b seq0 st → status_ok b' seq0 st.
Proof.
  intros Hne. pose proof (rm_pending _ _ _ _ Hrem) as Hp.
  assert (Hrest : ob_resting_orders b' !! seq0 = ob_resting_orders b !! seq0)
    by (rewrite (rm_resting _ _ _ _ Hrem); by apply lookup_delete_ne).
  destruct st; simpl; unfold off_book; rewrite ?Hrest; try done.
  2-4: intros [? Hno]; split; [done|]; intros o Ho; apply Hno; by apply Hp.
  intros (o & Ho & <-). exists o. split; [|done]. by apply Hp.
Qed.

Lemma removed_orders seq0 r0 :
  history_get h' (MkCompositeId k seq0) = Some r0 → order_ok s b' sc (MkCompositeId k seq0) r0.
Proof.
  rewrite Hget. pose proof (rm_others _ _ _ _ Hrem seq0) as Hq. pose proof (rm_rules _ _ _ _ Hrem) as Hru.
  destruct (decide (MkCompositeId k seq0 = MkCompositeId k seq)) as [E|Hne]; intros E0.
  - injection E as ->. injection E0 as <-. rewrite decide_True in Hq by done.
    destruct (record_ok _ _ Hr) as [? ? ? ? Hf _ _ ? ?]. destruct Hstep as [[] Hst Hf1 Hq1 He1].
    simpl in *. change (qval Quantity_ZERO) with 0 in *. pose proof (open_qty_nonneg b seq).
    split; simpl; rewrite ?so_owner, ?so_price, ?so_quantity, ?(rm_next _ _ _ _ Hrem),
      ?(rm_next_fill _ _ _ _ Hrem), ?Hst; try done; try lia.
    + by rewrite (valid_order_rules b b').
    + apply removed_off_book.
  - assert (Hs : seq0 ≠ seq) by congruence. rewrite decide_False in Hq by done.
    destruct (record_ok _ _ E0) as [? ? ? ? Hf Hx Hst ? ?]. simpl in *.
    split; simpl; rewrite ?(rm_next _ _ _ _ Hrem), ?(rm_next_fill _ _ _ _ Hrem), ?Hq; try done.
    + by rewrite (valid_order_rules b b').
    + by apply status_removed.
Qed.

Lemma cancel_step : book_step n s k b sc b' h' [cancel_event].
Proof.
  destruct removed_terms as [Es Ep]. pose proof removed_settles as Hs.
  destruct (rm_valid _ _ _ _ Hrem) as (Hp0 & _ & Hq0 & _).
  split; [done|apply Hrem|apply Hrem| | | | | | |by constructor| | |].
  - intros seq0 side p [Ht|(o & Ho & Ht)].
    + left. rewrite (rm_resting _ _ _ _ Hrem) in Ht. by apply lookup_delete_Some in Ht as [_ ?].
    + right. exists o. by apply (rm_pending _ _ _ _ Hrem) in Ho as [? _].
  - split.
    + exists log'. by rewrite Hlen, (ls_size _ _ Hlog).
    + intros id Hid. rewrite Hget, decide_False; [done|]. intros ->. congruence.
    + intros id r0 Hr0. rewrite Hget. case_decide as E; [|by exists r0].
      subst id. simplify_eq. exists r1. split_and!; [done|apply Hstep|done].
  - intros [k0 seq0] r0 Hr0 E. simpl in E; subst k0. by apply removed_orders.
  - intros e He. by apply list_elem_of_singleton in He as ->.
  - intros e He. apply list_elem_of_singleton in He as ->. apply Forall_singleton. simpl.
    rewrite Hget, decide_True by done. split.
    + exists r1. split; [done|]. destruct Hstep as [[] _ _ _ _]. by rewrite so_side, Es.
    + rewrite q_of_Z_val by by apply reservation_range. rewrite reservation_resZ.
      pose proof (qval_range (ro_remaining ro)). pose proof (u128_range (ro_price ro)).
      apply resZ_positive; [lia..|apply Hs|apply nonzero_pos].
  - intros e He. by apply list_elem_of_singleton in He as ->.
  - intros q Hq. by apply not_elem_of_nil in Hq.
  - rewrite (rm_next_fill _ _ _ _ Hrem). simpl. lia.
  - intros [k0 seq0] r0 Hr0 E. simpl in E; subst k0. simpl.
    rewrite queued_cons. change (queued [] _ _) with 0. simpl. rewrite decide_True by done.
    unfold released. rewrite sum_over_cons. change (sum_over _ []) with 0. simpl.
    rewrite (rm_others _ _ _ _ Hrem seq0). destruct (decide (seq0 = seq)) as [->|Hne].
    + simplify_eq. rewrite Es, Ep, decide_True, resZ_zero by done.
      rewrite q_of_Z_val, reservation_resZ, (rm_qty _ _ _ _ Hrem); [lia|].
      rewrite <-Es, <-Ep. by apply reservation_range.
    + rewrite decide_False; [lia|]. naive_solver.
Qed.
End removing.

Lemma cancel_core n Q (s : State) id r by_ now :
  core n Q s → history_get (st_order_history s) id = Some r → live (or_status r) →
  ∃ e b' h' r', let s' := book_stepped s (book_id id) b' h' (st_pending_settling_events s ++ [e]) in
    record_cancel_limit_order s id by_ now Write = Done s' ∧ core n (Q ++ [e]) s' ∧
    (∀ id', history_get h' id' = if decide (id' = id) then Some r' else history_get (st_order_history s) id') ∧
    or_status r' = Canceled ∧ same_order r r' ∧
    ∃ t a, se_balance_operations e = [Unreserve (order_seq id) t a].
Proof.
  destruct id as [k seq]. intros Hc Hr Hlive.
  destruct (co_order _ _ _ Hc _ _ Hr) as (b & tp & sc & Hl & Ho). simpl in Hl.
  destruct (co_book _ _ _ Hc _ _ (li_book _ _ _ _ _ Hl)) as (tp' & sc' & Hl' & Hready & Hmod & Hbid).
  destruct (listed_fun _ _ _ _ _ _ _ _ Hl Hl') as (_ & -> & ->).
  destruct (cancel_ready n b seq Hready) as (res & b' & E & Hready' & Hres).
  destruct res as [ro|].
  2:{ destruct Hres as (_ & Hnr & Hnp).
      destruct (live_terms _ _ _ _ _ _ _ _ Hc Hr Hl Hlive) as [Ht|(o & Hin & Eo & _)]; simpl in *;
        [congruence|by destruct (Hnp o)]. }
  destruct (co_history _ _ _ Hc) as (log & Hlog & _).
  destruct (apply_update_step (st_order_history s) log (MkCompositeId k seq) (update_cancel by_) now r)
    as (h' & log' & r1 & Eh & Hlog' & Hlen & Hstep & Hget); [done|done| |].
  { pose proof (oo_filled _ _ _ _ _ Ho). pose proof (open_qty_nonneg b seq). simpl in *.
    pose proof (qval_range (or_filled_quote r)). pose proof (qval_range (or_filled_fee r)).
    split; simpl; change (qval Quantity_ZERO) with 0; lia. }
  assert (Hs : settles (ro_price ro) (ro_remaining ro) sc) by by eapply removed_settles.
  exists (cancel_event k seq sc ro), b', h', r1. split_and!.
  - unfold record_cancel_limit_order. cbn [into_parts first second].
    destruct (listed_scale _ _ _ _ _ Hl) as [Esc _]. unfold into_parts. simpl. rewrite Esc.
    cbn [ebind]. rewrite (li_book _ _ _ _ _ Hl). cbn [expect ebind]. rewrite E. cbn [ebind expect].
    match goal with |- context [apply_update ?h _ _ _] => change h with (st_order_history s) end.
    rewrite Eh. cbn [ebind]. rewrite removed_settlement_eq by done. done.
  - eapply core_book_step; [done..|]. by eapply cancel_step.
  - exact Hget.
  - apply (os_status _ _ _ Hstep).
  - apply Hstep.
  - by eexists _, _.
Qed.
End cancel.

(** ** Placing an order *)

Section place.
Context `{PrincipalType} `{!BiBTreeMap TradingPair OrderBookId}.
Implicit Types (id : OrderId) (seq : OrderSeq).
Context (n : Z) (Q : list SettlingEvent) (s : State) (k : OrderBookId) (b : OrderBook).
Context (tp : TradingPair) (sc : nonzero 64) (o : Order) (next : OrderSeq).
Context (r : OrderRecord) (uid : UserId) (tb : TokenBalance) (h' : OrderHistory).
Let b' : OrderBook := with_next_seq next (with_pending (ob_pending_orders b ++ [o]) b).
Let oid : OrderId := MkCompositeId k (o_id o).
Let s' : State := set_order_books (<[k := b']> (st_order_books s))
  (set_order_history h' (set_balances tb s)).
Hypothesis Hc : core n Q s.
Hypothesis Hl : listed s k b tp sc.
Hypothesis Hid : o_id o = ob_next_seq b.
Hypothesis Hnext : seqZ next = seqZ (ob_next_seq b) + 1.
Hypothesis Hready : book_ready (n + 1) b'.
Hypothesis Hvalid : valid_order b (o_price o) (o_remaining o).
Hypothesis Hsettles : settles (o_price o) (o_remaining o) sc.
Hypothesis Hrecord : or_side r = o_side o ∧ or_price r = o_price o ∧ or_quantity r = o_remaining o ∧
  or_status r = Pending ∧ or_filled_quantity r = Quantity_ZERO ∧ or_filled_quote r = Quantity_ZERO ∧
  or_filled_fee r = Quantity_ZERO ∧ users (st_user_registry s) !! or_owner r = Some uid.
Hypothesis Hlog : ∃ log, lockstep h' log ∧ Z.of_nat (length log) ≤ n + 1.
Hypothesis Hget : ∀ id, history_get h' id =
  if decide (id = oid) then Some r else history_get (st_order_history s) id.
Hypothesis Hreserved : ∀ t u,
  qval (reserved (amount_of (tb_balances tb) (t, u))) =
  qval (reserved (amount_of (tb_balances (st_balances s)) (t, u))) +
  at_key (t, u) (pair_token tp (pair_side (o_side o)), uid)
    (resZ (o_side o) (o_price o) (qval (o_remaining o)) sc).
Hypothesis Hsupply : ∀ t, supply t tb = supply t (st_balances s).

Lemma place_fresh : history_get (st_order_history s) oid = None.
Proof.
  destruct (history_get (st_order_history s) oid) as [r0|] eqn:E; [|done].
  destruct (co_order _ _ _ Hc _ _ E) as (b0 & tp0 & sc0 & Hl0 & Ho).
  destruct (listed_fun _ _ _ _ _ _ _ _ Hl Hl0) as (-> & _ & _).
  pose proof (oo_seq _ _ _ _ _ Ho) as Hs. simpl in Hs. rewrite Hid in Hs. lia.
Qed.

(** Nothing is queued for an order that has no record yet. *)
Lemma place_unqueued pt : queued Q oid pt = 0.
Proof.
  unfold queued. rewrite (sum_over_ext _ (λ _, 0)).
  - clear. induction Q as [|e Q' IH]; [done|]. rewrite sum_over_cons. lia.
  - intros e He. case_decide as Ek; [|done]. simpl in Ek.
    destruct (co_events _ _ _ Hc _ He) as (b0 & tp0 & sc0 & _ & Hops & _).
    rewrite Forall_forall in Hops. unfold released.
    assert (Hz : ∀ op, op ∈ se_balance_operations e → op_released (order_seq oid) pt op = 0).
    { intros op Hop. rewrite op_released_eq, decide_False; [done|]. intros [Ed _].
      destruct (op_ok_debtor _ _ _ (Hops op Hop)) as (r0 & Hr0 & _).
      rewrite Ek, Ed in Hr0. change (MkCompositeId k (order_seq oid)) with oid in Hr0.
      by rewrite place_fresh in Hr0. }
    revert Hz. clear. induction (se_balance_operations e) as [|op ops IH]; intros Hz; [done|].
    rewrite sum_over_cons, Hz by left. rewrite IH; [done|]. intros. apply Hz. by right.
Qed.

Lemma place_open seq :
  open_qty b' seq = open_qty b seq + qty_if seq (o_id o) (qval (o_remaining o)).
Proof.
  unfold open_qty, pending_qty. simpl. rewrite sum_over_app, sum_over_cons.
  change (sum_over _ []) with 0. change (resting_qty b' seq) with (resting_qty b seq). lia.
Qed.

Lemma place_old_open seq : seqZ seq < seqZ (ob_next_seq b) → open_qty b' seq = open_qty b seq.
Proof.
  intros Hlt. rewrite place_open. unfold qty_if. rewrite decide_False; [lia|].
  intros E. rewrite <-E, Hid in Hlt. lia.
Qed.

Lemma place_new_open : open_qty b' (o_id o) = qval (o_remaining o).
Proof.
  rewrite place_open. unfold qty_if. rewrite decide_True by done.
  assert (Hinv : book_inv b).
  { destruct (co_book _ _ _ Hc _ _ (li_book _ _ _ _ _ Hl)) as (? & ? & _ & Hr & _). apply Hr. }
  rewrite off_book_open; [lia|done|]. rewrite Hid. split.
  - destruct (ob_resting_orders b !! ob_next_seq b) as [[side p]|] eqn:E; [|done].
    apply (inv_index _ Hinv) in E as (x & Hx & Ex). exfalso.
    pose proof (inv_resting_seq _ Hinv _ _ Hx) as Hs. unfold FillPlan.x_id in Hs. simpl in Hs.
    rewrite Ex in Hs. lia.
  - intros o0 Ho0 E. destruct (inv_pending_valid _ Hinv _ Ho0) as [_ Hs]. rewrite E in Hs. lia.
Qed.

Lemma place_listed : listed s' k b' tp sc.
Proof. destruct Hl. split; [simpl; by rewrite lookup_insert_eq|done|done]. Qed.

Lemma place_listed_ne k0 b0 tp0 sc0 : k0 ≠ k → listed s k0 b0 tp0 sc0 → listed s' k0 b0 tp0 sc0.
Proof. intros Hne []. split; [simpl; by rewrite lookup_insert_ne|done|done]. Qed.

Lemma place_terms seq side p :
  has_terms b' seq side p →
  has_terms b seq side p ∨ seq = o_id o ∧ side = o_side o ∧ p = o_price o.
Proof.
  intros [Ht|(o0 & Ho0 & Ht)]; [left; by left|]. simpl in Ho0.
  apply elem_of_app in Ho0 as [Ho0|Ho0]; [left; right; eauto|].
  apply list_elem_of_singleton in Ho0 as ->. naive_solver.
Qed.

Lemma place_old_order seq r0 :
  order_ok s b sc (MkCompositeId k seq) r0 → order_ok s' b' sc (MkCompositeId k seq) r0.
Proof.
  intros [? Hseq ? ? Hf Hx Hst ? ?]. simpl in *.
  assert (Hopen := place_old_open seq Hseq).
  split; simpl; rewrite ?Hopen; try done; [rewrite Hnext; lia|].
  destruct (or_status r0); simpl in *; try done.
  2-4: destruct Hst as [? Hno]; split; [done|]; intros o0 Ho0; simpl in Ho0;
    apply elem_of_app in Ho0 as [Ho0|Ho0]; [by apply Hno|];
    apply list_elem_of_singleton in Ho0 as ->; intros E; rewrite <-E, Hid in Hseq; lia.
  destruct Hst as (o0 & ? & ?). exists o0. split; [|done]. apply elem_of_app. by left.
Qed.

Lemma place_new_order : order_ok s' b' sc oid r.
Proof.
  destruct Hrecord as (Es & Ep & Eq & Est & E1 & E2 & E3 & Hu).
  assert (0 ≤ seqZ (ob_next_fill b) * MAX_SUPPLY)
    by (pose proof (seqZ_range (ob_next_fill b)); unfold MAX_SUPPLY; lia).
  split; simpl; rewrite ?place_new_open, ?Ep, ?Eq, ?Est, ?E1, ?E2, ?E3;
    try change (qval Quantity_ZERO) with 0; try done; try lia.
  - rewrite Hid, Hnext. lia.
  - simpl. exists o. split; [|done]. apply elem_of_app. right. by apply list_elem_of_singleton.
Qed.

Lemma place_owed t u :
  owed s' Q t u = owed s Q t u +
    at_key (t, u) (pair_token tp (pair_side (o_side o)), uid)
      (resZ (o_side o) (o_price o) (qval (o_remaining o)) sc).
Proof.
  apply hsum_change with (k0 := oid). intros id. unfold weight_at.
  change (st_order_history s') with h'. rewrite Hget.
  destruct (decide (id = oid)) as [->|Hne].
  - rewrite place_fresh. simpl. destruct Hrecord as (Es & Ep & Eq & _ & _ & _ & _ & Hu).
    unfold share, row_of, held. rewrite place_unqueued. simpl.
    rewrite (li_pair _ _ _ _ _ Hl), Hu, Es, Ep. unfold book_open. simpl.
    rewrite lookup_insert_eq. simpl. rewrite place_new_open.
    change (scale_of s' k) with (scale_of s k). destruct (listed_scale _ _ _ _ _ Hl) as [_ ->].
    unfold at_key. destruct (decide (Some _ = Some _)) as [E|E], (decide (_ = _)) as [E'|E'];
      try lia; congruence.
  - destruct (history_get (st_order_history s) id) as [r0|] eqn:Er; simpl; [|done].
    change (share s' Q t u id r0 = share s Q t u id r0 + 0). rewrite Z.add_0_r.
    unfold share. change (row_of s' id r0) with (row_of s id r0).
    destruct (decide _) as [_|_]; [|done]. unfold held, book_open.
    change (scale_of s' (book_id id)) with (scale_of s (book_id id)). simpl.
    destruct (decide (book_id id = k)) as [E|E]; [|by rewrite lookup_insert_ne].
    rewrite E, lookup_insert_eq, (li_book _ _ _ _ _ Hl). simpl. rewrite place_old_open; [done|].
    destruct (co_order _ _ _ Hc _ _ Er) as (b0 & tp0 & sc0 & Hl0 & Ho). rewrite E in Hl0.
    destruct (listed_fun _ _ _ _ _ _ _ _ Hl Hl0) as (-> & _ & _). apply (oo_seq _ _ _ _ _ Ho).
Qed.

(** Queued settlements keep their records. *)
Lemma place_event e : event_ok s e → event_ok s' e.
Proof.
  assert (Hkeep : ∀ id r0, history_get (st_order_history s) id = Some r0 → history_get h' id = Some r0).
  { intros id r0 Hr0. rewrite Hget, decide_False; [done|]. intros ->. by rewrite place_fresh in Hr0. }
  intros (b0 & tp0 & sc0 & Hl0 & Hops & Hfs).
  assert (Hops' : Forall (op_ok h' (se_book_id e)) (se_balance_operations e)).
  { eapply Forall_impl; [exact Hops|]. intros op. destruct op; simpl; naive_solver. }
  assert (Hfe : ∀ f, f ∈ se_fills e → fill_event_ok h' (se_book_id e) b0 sc0 (se_balance_operations e) f).
  { rewrite Forall_forall in Hfs. intros f Hf. destruct (Hfs f Hf) as [? Hm ? Hs ?].
    split; try done. intros r0 Hr0. rewrite Hget in Hr0. case_decide as E; [|by apply Hs].
    exfalso. apply elem_of_concat in Hm as (l & Hin & Hl1).
    apply list_elem_of_fmap in Hl1 as (op & -> & Hop). rewrite Forall_forall in Hops.
    destruct (op_ok_seqs _ _ _ _ (Hops op Hop) Hin) as [r1 Hr1]. rewrite E in Hr1.
    by rewrite place_fresh in Hr1. }
  destruct (decide (se_book_id e = k)) as [E|Hne].
  - rewrite E in *. destruct (listed_fun _ _ _ _ _ _ _ _ Hl Hl0) as (-> & -> & ->).
    exists b', tp, sc. rewrite E. split_and!; [apply place_listed|done|].
    apply Forall_forall. intros f Hf. destruct (Hfe f Hf). by split.
  - exists b0, tp0, sc0. split_and!; [by apply place_listed_ne|done|]. by apply Forall_forall.
Qed.

Lemma place_orders id r0 : history_get h' id = Some r0 →
  ∃ b0 tp0 sc0, listed s' (book_id id) b0 tp0 sc0 ∧ order_ok s' b0 sc0 id r0.
Proof.
  destruct id as [k0 seq]. intros Hr0. rewrite Hget in Hr0. case_decide as E.
  - injection E as -> ->. injection Hr0 as <-. exists b', tp, sc.
    split; [apply place_listed|apply place_new_order].
  - destruct (co_order _ _ _ Hc _ _ Hr0) as (b0 & tp0 & sc0 & Hl0 & Ho). simpl in Hl0. simpl.
    destruct (decide (k0 = k)) as [->|Hne].
    + destruct (listed_fun _ _ _ _ _ _ _ _ Hl Hl0) as (-> & -> & ->). exists b', tp, sc.
      split; [apply place_listed|by apply place_old_order].
    + exists b0, tp0, sc0. split; [by apply place_listed_ne|]. destruct Ho. by split.
Qed.

Lemma place_on_book k0 b0 seq side p :
  st_order_books s' !! k0 = Some b0 → has_terms b0 seq side p →
  ∃ r0, history_get h' (MkCompositeId k0 seq) = Some r0 ∧ or_side r0 = side ∧ or_price r0 = p.
Proof.
  intros Hb0 Ht. simpl in Hb0. pose proof place_fresh as Hfresh.
  assert (Hkeep : ∀ id r0, history_get (st_order_history s) id = Some r0 → history_get h' id = Some r0).
  { intros id r0 Hr0. rewrite Hget, decide_False; [done|]. intros ->. congruence. }
  apply lookup_insert_Some in Hb0 as [[<- <-]|[Hne Hb0]].
  - apply place_terms in Ht as [Ht|(-> & -> & ->)].
    + destruct (co_on_book _ _ _ Hc _ _ _ _ _ (li_book _ _ _ _ _ Hl) Ht) as (r0 & ? & ? & ?).
      exists r0. auto.
    + exists r. rewrite Hget, decide_True by done. naive_solver.
  - destruct (co_on_book _ _ _ Hc _ _ _ _ _ Hb0 Ht) as (r0 & ? & ? & ?). exists r0. auto.
Qed.

Lemma place_core : core (n + 1) Q s'.
Proof.
  apply (core_mono n (n + 1)) in Hc as Hc1; [|lia]. pose proof (li_book _ _ _ _ _ Hl) as Hlb.
  pose proof (insert_dom_present (st_order_books s) k b b') as Hdom.
  core_destruct Hc1. split; try done; [| | |apply place_orders|apply place_on_book|..].
  - intros k0 b0 Hb0. simpl in Hb0. apply lookup_insert_Some in Hb0 as [[<- <-]|[Hne Hb0]].
    + destruct (Cbook k b Hlb) as (tp0 & sc0 & Hl0 & _ & Hmod & Hbid).
      destruct (listed_fun _ _ _ _ _ _ _ _ Hl Hl0) as (_ & -> & ->).
      exists tp, sc. split_and!; [apply place_listed|done|done|done].
    + destruct (Cbook k0 b0 Hb0) as (tp0 & sc0 & ? & ? & ? & ?). exists tp0, sc0.
      split_and!; [by apply place_listed_ne|done..].
  - intros k0 p Hp. apply Hdom; [done|]. by eapply Cpair.
  - intros k0 Hk0. apply Cbook_id. by apply Hdom.
  - intros e He. apply place_event. auto.
  - destruct Ctrades as (log & ? & ?). exists log. split; [done|].
    unfold total_fills in *. simpl. rewrite map_sum_insert, Hlb. simpl. lia.
  - unfold total_orders. simpl. rewrite map_sum_insert, Hlb. simpl.
    pose proof (co_orders _ _ _ Hc) as Ho. unfold total_orders in Ho. lia.
  - intros tid Htid. destruct (Ctraded tid Htid) as (? & b0 & Hb0 & ?). split; [done|]. simpl.
    destruct (decide (book_id (trade_order_id tid) = k)) as [E|Hne].
    + rewrite E in *. exists b'. rewrite lookup_insert_eq. split; [done|].
      rewrite Hlb in Hb0. by simplify_eq.
    + exists b0. by rewrite lookup_insert_ne.
  - intros t u. simpl. rewrite Hreserved, place_owed, Creserved. done.
  - intros t. unfold state_supply. simpl. rewrite Hsupply. apply Csupply.
Qed.
End place.
