(* ===== verification/InvFunds.v ===== *)
(** * Deposits, withdrawals, accounts and listings keep the invariant *)

From stdpp Require Import prelude gmap.
From Stdlib Require Import ZArith Lia.
From S2P Require Import Prelude Word BTree Quantity Ids Fees OrderTypes.
From S2P Require Import Tokens Balance WriteBack BalanceTotals OrderQueue.
From S2P Require Import OrderBook BookInv BookPending BookRound BookCancel.
From S2P Require Import History OrderHistory UserRegistry UserRegistryInv.
From S2P Require Import Settlement SettlementSpec Permissions PairMap Events.
From S2P Require Import State Replay Accounting StateInv InvSettle.
Open Scope Z_scope.

Section inv_funds.
Context `{PrincipalType} `{!BiBTreeMap TradingPair OrderBookId}.
Implicit Types (s : State) (id : OrderId) (r : OrderRecord) (k : OrderBookId).
Implicit Types (Q : list SettlingEvent) (t : TokenId) (u : UserId).

(** ** Registries and balances *)

(** [s'] has more users, other balances and the same orders, trades and books. *)
Record refunded (n' : Z) s s' : Prop := {
  rf_registry : registry_inv (st_user_registry s');
  rf_size : Z.of_nat (size (users (st_user_registry s'))) ≤ n';
  rf_users p : is_Some (users (st_user_registry s) !! p) →
    users (st_user_registry s') !! p = users (st_user_registry s) !! p;
  rf_next : st_next_book_id s' = st_next_book_id s;
  rf_tokens : st_tokens s' = st_tokens s;
  rf_pairs : st_trading_pairs s' = st_trading_pairs s;
  rf_books : st_order_books s' = st_order_books s;
  rf_orders : st_order_history s' = st_order_history s;
  rf_trades : st_trade_history s' = st_trade_history s;
  rf_reserved key : reserved (amount_of (tb_balances (st_balances s')) key) =
    reserved (amount_of (tb_balances (st_balances s)) key);
  rf_supply t : state_supply t s' ≤ MAX_SUPPLY
}.

Lemma core_refunded n n' Q s s' : core n Q s → n ≤ n' → refunded n' s s' → core n' Q s'.
Proof.
  intros Hc Hn Hr. pose proof (core_row n Q s) as Hrow.
  apply (core_mono n n') in Hc; [|done].
  assert (Howed : ∀ t u, owed s' Q t u = owed s Q t u).
  { intros t u. apply owed_ext. intros id. unfold weight_at. rewrite (rf_orders _ _ _ Hr).
    destruct (history_get (st_order_history s) id) as [r|] eqn:Er; simpl; [|done].
    destruct (co_order _ _ _ Hc _ _ Er) as (b & tp & sc & Hl & Ho).
    unfold share, row_of. rewrite (rf_pairs _ _ _ Hr), (rf_users _ _ _ Hr) by apply Ho.
    destruct (decide _); [|done]. unfold held, book_open, scale_of, base_scale_for_book, base_scale,
      token_metadata. by rewrite (rf_books _ _ _ Hr), (rf_pairs _ _ _ Hr), (rf_tokens _ _ _ Hr). }
  destruct Hr as [Rr Rn Ru Rx Rt Rp Rb Ro Rtr Rres Rs]. core_destruct Hc.
  assert (Hlisted : ∀ k b tp sc, listed s k b tp sc → listed s' k b tp sc).
  { intros k b tp sc []. split; [by rewrite Rb|by rewrite Rp|].
    unfold base_scale, token_metadata in *. by rewrite Rt. }
  split; rewrite ?Rx, ?Rb, ?Rp, ?Ro, ?Rtr; try done.
  - intros k b Hb. destruct (Cbook k b Hb) as (tp & sc & ? & ? & ? & ?). exists tp, sc. auto.
  - intros id r Er. destruct (Corder id r Er) as (b & tp & sc & Hl & []).
    exists b, tp, sc. split; [by apply Hlisted|]. split; try done. by rewrite Ru.
  - intros e He. destruct (Cevents e He) as (b & tp & sc & Hl & ? & ?). exists b, tp, sc.
    rewrite Ro. auto.
  - unfold total_fills. by rewrite Rb.
  - unfold total_orders. by rewrite Rb.
  - intros t u. by rewrite Rres, Howed, Creserved.
Qed.

Lemma refunded_balances n Q s tb :
  core n Q s →
  (∀ key, reserved (amount_of (tb_balances tb) key) =
          reserved (amount_of (tb_balances (st_balances s)) key)) →
  (∀ t, supply t tb ≤ MAX_SUPPLY) → refunded n s (set_balances tb s).
Proof. intros Hc Hres Hs. by split; [apply Hc|apply Hc|..]. Qed.

Lemma tb_deposit_total tb u t a :
  supply t tb + qval a < 2 ^ 256 → ∃ tb', tb_deposit tb u t a = Done tb'.
Proof.
  intros Hs. unfold tb_deposit, with_write_back, wb_deposit, load_or_create.
  match goal with |- context [row_balance (buffered_row ?w ?k)] =>
    change (row_balance (buffered_row w k)) with (view w k) end.
  rewrite view_new. unfold bal_deposit. pose proof (qval_range a).
  pose proof (users_total_bound t (tb_balances tb) u u) as Hb.
  pose proof (fees_at_nonneg (tb_fee_pool tb) t). unfold supply in Hs.
  pose proof (qval_range (reserved (amount_of (tb_balances tb) (t, u)))).
  pose proof (qval_range (free (amount_of (tb_balances tb) (t, u)))).
  rewrite checked_add_eq, q_checked_in by lia. simpl. eauto.
Qed.

(** A deposit, and the refund of a failed withdrawal. *)
Lemma deposit_core n Q s user t amount :
  core n Q s → n < MAX_STEPS →
  trading_accounts (st_user_registry s) !! user = None →
  state_supply t s + qval amount ≤ MAX_SUPPLY →
  ∃ reg tb, state_deposit s user t amount Write = Done (set_balances tb (set_user_registry reg s)) ∧
    core (n + 1) Q (set_balances tb (set_user_registry reg s)) ∧
    trading_accounts reg = trading_accounts (st_user_registry s).
Proof.
  intros Hc Hn Hta Hs. pose proof (co_users _ _ _ Hc) as Hsize.
  destruct (get_or_register_spec (st_user_registry s) user (co_registry _ _ _ Hc) Hta)
    as (Hreg & Huser & Hother & Hold); [unfold MAX_STEPS in Hn; lia|].
  assert (Hsz : Z.of_nat (size (users (get_or_register (st_user_registry s) user).2)) ≤ n + 1 ∧
    trading_accounts (get_or_register (st_user_registry s) user).2 =
    trading_accounts (st_user_registry s)).
  { unfold get_or_register. destruct (users (st_user_registry s) !! user) eqn:E; simpl;
      (split; [|done]); [lia|]. rewrite map_size_insert_None by done. lia. }
  destruct Hsz as [Hsz Hta']. unfold state_deposit.
  destruct (get_or_register (st_user_registry s) user) as [uid reg] eqn:Er. simpl in *.
  destruct (tb_deposit_total (st_balances s) uid t amount) as [tb Etb].
  { unfold state_supply, MAX_SUPPLY in Hs. assert (2 ^ 192 < 2 ^ 256) by done. lia. }
  exists reg, tb. rewrite Etb. split_and!; [done| |done].
  apply tb_deposit_Done in Etb as (Hres & _ & Hsup & _).
  eapply (core_refunded n); [done|lia|]. split; try done.
  intros t'. unfold state_supply. simpl. rewrite Hsup. pose proof (co_supply _ _ _ Hc t').
  unfold state_supply in *. case_decide; subst; lia.
Qed.

Lemma withdraw_core n Q s user t amount :
  core n Q s →
  ∃ res tb, state_withdraw s user t amount = Done (res, set_balances tb s) ∧
    core n Q (set_balances tb s) ∧
    state_supply t (set_balances tb s) = state_supply t s - (if res is Ok _ then qval amount else 0) ∧
    (∀ t', t' ≠ t → state_supply t' (set_balances tb s) = state_supply t' s) ∧
    (is_ok res = true → is_Some (users (st_user_registry s) !! user)).
Proof.
  intros Hc. unfold state_withdraw.
  assert (Hnop : core n Q (set_balances (st_balances s) s)) by (eapply core_same; [|done]; done).
  rewrite lookup_funding_id_eq by apply (co_registry _ _ _ Hc).
  destruct (users (st_user_registry s) !! user) as [uid|] eqn:Eu.
  - destruct (tb_withdraw_total (st_balances s) uid t amount) as (res & tb & E). rewrite E.
    exists res, tb. split; [done|]. apply tb_withdraw_Done in E.
    destruct res as [[]|e].
    + destruct E as (_ & Hres & _ & Hsup). split_and!.
      * eapply core_refunded; [exact Hc|lia|]. eapply refunded_balances; [exact Hc|done|].
        intros t'. rewrite Hsup. pose proof (co_supply _ _ _ Hc t') as Hs. unfold state_supply in Hs.
        pose proof (qval_range amount). case_decide; lia.
      * unfold state_supply. simpl. rewrite Hsup, decide_True by done. done.
      * intros t' Hne. unfold state_supply. simpl. rewrite Hsup, decide_False by done. lia.
      * done.
    + destruct E as (-> & _ & _). split_and!; [done| | |done].
      * unfold state_supply. simpl. lia.
      * done.
  - exists (Err (MkInsufficient Quantity_ZERO amount)), (st_balances s). split.
    + by destruct s.
    + split_and!; [done| |done|done]. unfold state_supply. simpl. lia.
Qed.

(** Granting and revoking trading accounts. *)
Lemma registry_core n Q s reg :
  core n Q s → registry_inv reg → users reg = users (st_user_registry s) →
  core n Q (set_user_registry reg s).
Proof.
  intros Hc Hreg Hu. eapply core_refunded; [exact Hc|lia|]. split; try done; simpl.
  - rewrite Hu. apply Hc.
  - intros p _. by rewrite Hu.
  - intros t. apply Hc.
Qed.
(** ** Listing a pair *)

Definition consistent s t (m : TokenMetadata) : Prop := ∀ m', st_tokens s !! t = Some m' → m' = m.

Lemma record_token_spec s t m :
  consistent s t m →
  ∃ tokens, record_token s t m = Done (set_tokens tokens s) ∧ tokens !! t = Some m ∧
    (∀ t', t' ≠ t → tokens !! t' = st_tokens s !! t') ∧
    (∀ t' m', st_tokens s !! t' = Some m' → tokens !! t' = Some m').
Proof.
  intros Hm. unfold record_token. destruct (st_tokens s !! t) as [m0|] eqn:E.
  - assert (m0 = m) as -> by by apply Hm. exists (st_tokens s). rewrite bool_decide_eq_true_2 by done. simpl.
    split_and!; [by destruct s|done..].
  - exists (<[t := m]> (st_tokens s)). split_and!; [done|by rewrite lookup_insert_eq| |].
    + intros t' Hne. by rewrite lookup_insert_ne.
    + intros t' m' Hm'. rewrite lookup_insert_ne; [done|]. intros ->. congruence.
Qed.

Definition pair_listed s k (book : OrderBook) (tp : TradingPair) tokens pairs next : State :=
  set_next_book_id next (set_order_books (<[k := book]> (st_order_books s))
    (set_trading_pairs pairs (set_tokens tokens s))).

Section listing.
Context (n : Z) (Q : list SettlingEvent) (s : State) (tp : TradingPair).
Context (tokens : gmap TokenId TokenMetadata) (pairs : TradingPairMap) (next : OrderBookId).
Context (book : OrderBook) (sc : nonzero 64).
Let k : OrderBookId := st_next_book_id s.
Let s' : State := pair_listed s k book tp tokens pairs next.
Hypothesis Hc : core n Q s.
Hypothesis Htokens : ∀ t m, st_tokens s !! t = Some m → tokens !! t = Some m.
Hypothesis Hscale : base_scale s' (base tp) = Done sc.
Hypothesis Hpairs : pairs_insert (st_trading_pairs s) tp k = Done pairs.
Hypothesis Hnext : seqZ next = seqZ k + 1.
Hypothesis Hready : book_ready 0 book.
Hypothesis Hcounts : seqZ (ob_next_seq book) = 0 ∧ seqZ (ob_next_fill book) = 0.
Hypothesis Hempty : ∀ seq side p, ¬ has_terms book seq side p.
Hypothesis Hmod : ob_tick_size book * ob_lot_size book mod sc = 0.
Hypothesis Hbook_id : ob_id book = k.

Lemma listing_fresh : st_order_books s !! k = None.
Proof.
  destruct (st_order_books s !! k) eqn:E; [|done].
  pose proof (co_book_id _ _ _ Hc k ltac:(by rewrite E)). unfold k in *. lia.
Qed.

Lemma listing_get_pair k0 : k0 ≠ k → get_pair pairs k0 = get_pair (st_trading_pairs s) k0.
Proof. intros. rewrite (pairs_insert_get_pair _ _ _ _ _ Hpairs). by rewrite decide_False. Qed.

Lemma listing_listed k0 b0 tp0 sc0 : listed s k0 b0 tp0 sc0 → listed s' k0 b0 tp0 sc0.
Proof.
  intros [Hb Hp Hs]. assert (k0 ≠ k) by (intros ->; by rewrite listing_fresh in Hb). split; simpl.
  - by rewrite lookup_insert_ne.
  - by rewrite listing_get_pair.
  - unfold base_scale, token_metadata in *. simpl.
    destruct (st_tokens s !! base tp0) as [m|] eqn:E; [|done]. by rewrite (Htokens _ _ E).
Qed.

Lemma listing_new : listed s' k book tp sc.
Proof.
  split; simpl; [by rewrite lookup_insert_eq| |done].
  rewrite (pairs_insert_get_pair _ _ _ _ _ Hpairs). by rewrite decide_True.
Qed.

Lemma listing_owed t u : owed s' Q t u = owed s Q t u.
Proof.
  apply owed_ext. intros id. unfold weight_at. change (st_order_history s') with (st_order_history s).
  destruct (history_get (st_order_history s) id) as [r|] eqn:Er; simpl; [|done].
  destruct (co_order _ _ _ Hc _ _ Er) as (b & tp0 & sc0 & Hl & _).
  pose proof (listing_listed _ _ _ _ Hl) as Hl'.
  unfold share, row_of. rewrite (li_pair _ _ _ _ _ Hl'), (li_pair _ _ _ _ _ Hl).
  change (st_user_registry s') with (st_user_registry s). case_decide; [|done]. unfold held, book_open.
  rewrite (li_book _ _ _ _ _ Hl'), (li_book _ _ _ _ _ Hl).
  destruct (listed_scale _ _ _ _ _ Hl) as [_ ->]. by destruct (listed_scale _ _ _ _ _ Hl') as [_ ->].
Qed.

Lemma listing_core : core (n + 1) Q s'.
Proof.
  pose proof listing_owed as Howed. pose proof listing_fresh as Hfresh.
  pose proof listing_new as Hnew. pose proof listing_listed as Hkeep.
  apply (core_mono n (n + 1)) in Hc as Hc1; [|lia]. core_destruct Hc1.
  assert (Hn0 : 0 ≤ n + 1) by lia.
  split; try done.
  - intros k0 b0 Hb0. simpl in Hb0. apply lookup_insert_Some in Hb0 as [[<- <-]|[Hne Hb0]].
    + exists tp, sc. split_and!; [done|by eapply book_ready_mono|done|done].
    + destruct (Cbook k0 b0 Hb0) as (tp0 & sc0 & ? & ? & ? & ?). exists tp0, sc0. auto.
  - intros k0 p Hp. simpl in *. destruct (decide (k0 = k)) as [->|Hne];
      [by rewrite lookup_insert_eq|]. rewrite lookup_insert_ne by done.
    rewrite listing_get_pair in Hp by done. by eapply Cpair.
  - intros k0 Hk0. simpl in *. rewrite Hnext. destruct (decide (k0 = k)) as [->|Hne]; [lia|].
    rewrite lookup_insert_ne in Hk0 by done. specialize (Cbook_id _ Hk0). unfold k. lia.
  - simpl. rewrite Hnext. pose proof (co_next_book _ _ _ Hc). unfold k. lia.
  - intros id r Er. destruct (Corder id r Er) as (b & tp0 & sc0 & Hl & []).
    exists b, tp0, sc0. split; [by apply Hkeep|by split].
  - intros k0 b0 seq side p Hb0 Ht. simpl in Hb0.
    apply lookup_insert_Some in Hb0 as [[<- <-]|[Hne Hb0]]; [by apply Hempty in Ht|].
    by eapply Con_book.
  - intros e He. destruct (Cevents e He) as (b & tp0 & sc0 & Hl & ? & ?).
    exists b, tp0, sc0. split; [by apply Hkeep|done].
  - destruct Ctrades as (log & ? & ?). exists log. split; [done|].
    unfold total_fills in *. simpl. rewrite map_sum_insert_new by done. lia.
  - unfold total_orders in *. simpl. rewrite map_sum_insert_new by done. lia.
  - intros tid Htid. destruct (Ctraded tid Htid) as (? & b0 & Hb0 & ?). split; [done|].
    exists b0. simpl. rewrite lookup_insert_ne; [done|]. intros E. rewrite <-E in Hb0. congruence.
  - intros t u. rewrite Howed. apply Creserved.
Qed.
End listing.

Lemma book_new_empty k tick lot mn mx fees seq side p :
  ¬ has_terms (book_new k tick lot mn mx fees) seq side p.
Proof.
  intros [Ht|(o & Ho & _)]; simpl in *; [by rewrite lookup_empty in Ht|by apply not_elem_of_nil in Ho].
Qed.

Lemma pair_core n Q s tp bm qm (tick : TickSize) (lot : LotSize) mn mx fees (scale : u64) :
  core n Q s → n < MAX_STEPS → get_book_id (st_trading_pairs s) tp = None → base tp ≠ quote tp →
  consistent s (base tp) bm → consistent s (quote tp) qm →
  pow10_u64 (decimals bm) = Some scale → tick * lot mod scale = 0 →
  ∃ tokens pairs next book,
    record_trading_pair s (st_next_book_id s) tp bm qm tick lot mn mx fees =
      Done (pair_listed s (st_next_book_id s) book tp tokens pairs next) ∧
    core (n + 1) Q (pair_listed s (st_next_book_id s) book tp tokens pairs next) ∧
    book = book_new (st_next_book_id s) tick lot mn mx fees ∧
    pairs_insert (st_trading_pairs s) tp (st_next_book_id s) = Done pairs ∧ tokens !! base tp = Some bm.
Proof.
  intros Hc Hn Hpair Hne Hb Hq Hpow Hmod. set (k := st_next_book_id s).
  destruct (record_token_spec s (base tp) bm Hb) as (tk1 & E1 & Hb1 & Hother1 & Hkeep1).
  destruct (record_token_spec (set_tokens tk1 s) (quote tp) qm) as (tk2 & E2 & Hq2 & Hother2 & Hkeep2).
  { intros m'. simpl. rewrite Hother1 by done. apply Hq. }
  set (book := book_new k tick lot mn mx fees).
  assert (Hfree : get_pair (st_trading_pairs s) k = None).
  { destruct (get_pair (st_trading_pairs s) k) as [p|] eqn:E; [|done].
    pose proof (co_book_id _ _ _ Hc k (co_pair _ _ _ Hc _ _ E)). unfold k in *. lia. }
  destruct (insert_fresh (st_trading_pairs s) tp k Hpair Hfree) as (pairs & Ep & _).
  assert (Hpi : pairs_insert (st_trading_pairs s) tp k = Done pairs) by (unfold pairs_insert; by rewrite Ep).
  destruct (increment_total k) as (next & Einc & Hnext).
  { pose proof (co_next_book _ _ _ Hc). unfold MAX_STEPS in Hn. fold k in H0.
    change (uint_max 64) with (2 ^ 64 - 1). lia. }
  assert (Hpos : uval scale ≠ 0).
  { unfold pow10_u64 in Hpow. apply checked_Some in Hpow. rewrite Hpow.
    pose proof (u8_range (decimals bm)). pose proof (Z.pow_pos_nonneg 10 (decimals bm)). lia. }
  destruct (nz_new scale) as [sc|] eqn:Esc;
    [|by apply nz_new_None in Esc]. pose proof (proj1 (nz_new_Some _ _) Esc) as Hsc.
  assert (Hfresh : st_order_books s !! k = None) by by eapply listing_fresh.
  exists tk2, pairs, next, book. split_and!; [| |done|done|by apply Hkeep2].
  - unfold record_trading_pair. rewrite E1. cbn [ebind]. rewrite E2. cbn [ebind].
    change (st_next_book_id (set_tokens tk2 (set_tokens tk1 s))) with k.
    rewrite (bool_decide_eq_true_2 (k = k)) by done. cbn [assert ebind].
    change (st_trading_pairs (set_tokens tk2 (set_tokens tk1 s))) with (st_trading_pairs s).
    rewrite Hpi. cbn [ebind]. simpl. rewrite bool_decide_eq_true_2 by done. simpl.
    fold k. by rewrite Einc.
  - apply (listing_core n Q s tp tk2 pairs next book sc); try done.
    + intros t m Hm. apply Hkeep2, Hkeep1, Hm.
    + unfold base_scale, token_metadata. simpl. rewrite (Hkeep2 _ _ Hb1). cbn [expect ebind].
      rewrite Hpow. cbn [expect ebind]. by rewrite Esc.
    + apply book_new_ready.
    + intros. apply book_new_empty.
    + simpl. by rewrite Hsc.
Qed.
End inv_funds.
