(* ===== verification/Snapshot.v ===== *)
(** * Upgrade snapshots (src/canister/src/state/snapshot/mod.rs)

    [StateSnapshot::from_state] and [into_state]: the heap part of the state,
    written before an upgrade and restored after it.
    At the end, installation and upgrades (src/canister/src/lifecycle/mod.rs): [init]
    creates the world with its first event; an upgrade drops the heap, and
    [post_upgrade] starts from the snapshot written by [pre_upgrade] and the stable
    maps. The timers both set up are the callers of the executor. *)

From stdpp Require Import prelude gmap.
From Stdlib Require Import ZArith Lia.
From S2P Require Import Prelude Word BTree Quantity Ids Fees OrderTypes.
From S2P Require Import Tokens Balance WriteBack OrderBook BookInv.
From S2P Require Import BookSnapshot History OrderHistory UserRegistry.
From S2P Require Import Settlement Permissions PairMap Events.
From S2P Require Import State EventAudit.

Section snapshot.
Context `{PrincipalType} `{!BiBTreeMap TradingPair OrderBookId}.

Record TokenEntry : Type := MkTokenEntry { te_token : TokenId; te_metadata : TokenMetadata }.
Record TradingPairEntry : Type := MkTradingPairEntry {
  tpe_pair : TradingPair; tpe_book_id : OrderBookId
}.
Record LedgerFeeEntry : Type := MkLedgerFeeEntry { lfe_token : TokenId; lfe_fee : N }.

Record StateSnapshot : Type := MkStateSnapshot {
  ss_mode : Mode;
  ss_next_book_id : OrderBookId;
  ss_tokens : list TokenEntry;
  ss_trading_pairs : list TradingPairEntry;
  ss_order_books : list OrderBookSnapshot;
  ss_ledger_fee_cache : list LedgerFeeEntry;
  ss_pending_settling_events : option (list SettlingEvent);
  ss_max_orders_per_chunk : option u32;
  ss_instruction_budget : option u64;
  ss_fee_pool : option (list FeeEntry);
  ss_permissions : option PermissionsSnapshot;
  ss_max_settlement_units_per_event : option u32
}.

Definition from_state (state : State) : StateSnapshot :=
  let policy := st_execution_policy state in
  MkStateSnapshot (st_mode state) (st_next_book_id state)
    ((λ kv, MkTokenEntry kv.1 kv.2) <$> btree_iter (st_tokens state))
    ((λ kv, MkTradingPairEntry kv.1 kv.2) <$> pairs_iter (st_trading_pairs state))
    ((λ kv, to_snapshot kv.2) <$> btree_iter (st_order_books state))
    ((λ kv, MkLedgerFeeEntry kv.1 kv.2) <$> btree_iter (st_ledger_fee_cache state))
    (match st_pending_settling_events state with [] => None | events => Some events end)
    (Some (nzval (ep_max_orders_per_chunk policy)))
    (Some (nzval (ep_instruction_budget policy)))
    (match fee_pool_snapshot (tb_fee_pool (st_balances state)) with
     | [] => None | snapshot => Some snapshot end)
    (if bool_decide (st_permissions state = permissions_default) then None
     else Some (permissions_to_snapshot (st_permissions state)))
    (Some (nzval (ep_max_settlement_units_per_event policy))).

(** [assert!(map.insert(k, v).is_none())]. *)
Definition insert_unique {K V} `{Countable K} (m : gmap K V) (k : K) (v : V) : exec (gmap K V) :=
  let! _ := assert (bool_decide (m !! k = None)) in Done (<[k := v]> m).

(** The loop over the books: the key is the snapshot's own id. *)
Definition restore_book (books : gmap OrderBookId OrderBook) (snapshot : OrderBookSnapshot) :
    exec (gmap OrderBookId OrderBook) :=
  let! book := from_snapshot snapshot in
  insert_unique books (bs_id snapshot) book.

Definition policy_from_snapshot (max : option u32) (budget : option u64)
    (settlement_units : option u32) : exec ExecutionPolicy :=
  match max, budget, settlement_units with
  | Some max, Some budget, Some settlement_units =>
      match policy_try_new max budget settlement_units with Ok p => Done p | Err _ => Trap end
  | Some max, Some budget, None =>
      match policy_try_new max budget DEFAULT_MAX_SETTLEMENT_UNITS_PER_EVENT with
      | Ok p => Done p | Err _ => Trap end
  | None, None, None => policy_default
  | _, _, _ => Trap
  end.

Definition into_state (self : StateSnapshot) (order_history : OrderHistory)
    (trade_history : TradeHistory) (balances : TokenBalance) (user_registry : UserRegistry) :
    exec State :=
  let! tokens := exec_fold (λ m e, insert_unique m (te_token e) (te_metadata e)) ∅
    (ss_tokens self) in
  let! trading_pairs := exec_fold (λ m e, pairs_insert m (tpe_pair e) (tpe_book_id e)) pairs_default
    (ss_trading_pairs self) in
  let! order_books := exec_fold restore_book ∅ (ss_order_books self) in
  let! ledger_fee_cache := exec_fold (λ m e, insert_unique m (lfe_token e) (lfe_fee e)) ∅
    (ss_ledger_fee_cache self) in
  let pending_settling_events := default [] (ss_pending_settling_events self) in
  let! balances := restore_fee_pool balances (default [] (ss_fee_pool self)) in
  let permissions := from_option permissions_from_snapshot permissions_default
    (ss_permissions self) in
  let! execution_policy := policy_from_snapshot (ss_max_orders_per_chunk self)
    (ss_instruction_budget self) (ss_max_settlement_units_per_event self) in
  Done (MkState (ss_mode self) execution_policy (ss_next_book_id self) tokens trading_pairs
          order_books user_registry balances order_history trade_history ledger_fee_cache
          pending_settling_events ∅ ∅ permissions).

(** ** The round trip *)

Lemma exec_fold_fmap {A B C} (f : C → B → exec C) (g : A → B) c (l : list A) :
  exec_fold f c (g <$> l) = exec_fold (λ c a, f c (g a)) c l.
Proof.
  revert c. induction l as [|a l IH]; intros c; [done|].
  rewrite fmap_cons. cbn [exec_fold]. destruct (f c (g a)); [apply IH|done].
Qed.

Lemma exec_fold_ext {A C} (f g : C → A → exec C) c (l : list A) :
  (∀ c a, a ∈ l → f c a = g c a) → exec_fold f c l = exec_fold g c l.
Proof.
  revert c. induction l as [|a l IH]; intros c Hfg; [done|]. cbn [exec_fold].
  rewrite Hfg by left. destruct (g c a); [|done]. cbn [ebind]. apply IH. intros. apply Hfg. by right.
Qed.

(** Inserting the entries of a map one by one rebuilds it. *)
Lemma rebuild_map {K V} `{Countable K, !Ord K, !OrdLaws K} (m : gmap K V) :
  exec_fold (λ m kv, insert_unique m kv.1 kv.2) ∅ (btree_iter m) = Done m.
Proof.
  assert (Hl : ∀ l (acc : gmap K V), NoDup l.*1 → (∀ k, k ∈ l.*1 → acc !! k = None) →
    exec_fold (λ m kv, insert_unique m kv.1 kv.2) acc l = Done (list_to_map l ∪ acc)).
  { induction l as [|[k v] l IH]; intros acc Hnd Hacc; [simpl; by rewrite (left_id_L ∅ (∪))|].
    rewrite fmap_cons in *. apply NoDup_cons in Hnd as [Hk Hnd]. cbn [exec_fold fst snd].
    unfold insert_unique at 1. rewrite bool_decide_eq_true_2 by (apply Hacc; left).
    cbn [ebind assert]. rewrite IH; [|done|].
    - f_equal. cbn [list_to_map foldr fst snd]. rewrite <-insert_union_l, <-insert_union_r; [done|].
      by apply not_elem_of_list_to_map.
    - intros k' Hk'. rewrite lookup_insert_ne; [apply Hacc; by right|]. intros ->. done. }
  rewrite Hl by (apply btree_iter_keys_NoDup || done).
  by rewrite list_to_map_btree_iter, (right_id_L ∅ (∪)).
Qed.

(** The heap state the snapshot relies on. *)
Record snapshot_ok (s : State) : Prop := {
  so_books id b : st_order_books s !! id = Some b → book_inv b ∧ ob_id b = id;
  so_policy : policy_ok (st_execution_policy s)
}.

Lemma restore_books s : snapshot_ok s →
  exec_fold restore_book ∅ ((λ kv, to_snapshot kv.2) <$> btree_iter (st_order_books s)) =
    Done (st_order_books s).
Proof.
  intros [Hb _]. rewrite exec_fold_fmap.
  rewrite (exec_fold_ext _ (λ m kv, insert_unique m kv.1 kv.2)).
  - apply rebuild_map.
  - intros m [id b] Hin%btree_iter_elem. destruct (Hb id b Hin) as [Hinv <-].
    unfold restore_book. cbn [snd fst]. by rewrite from_to_snapshot.
Qed.

(** What an upgrade keeps: everything but the guards, which are reset. *)
Definition after_upgrade (s : State) : State := set_active_tasks ∅ (set_in_flight_user_ops ∅ s).

Lemma into_from_state s pool :
  snapshot_ok s →
  into_state (from_state s) (st_order_history s) (st_trade_history s)
    (MkTokenBalance (tb_balances (st_balances s)) pool) (st_user_registry s) =
    Done (after_upgrade s).
Proof.
  intros Hs. unfold into_state.
  cbn [from_state ss_mode ss_next_book_id ss_tokens ss_trading_pairs ss_order_books
    ss_ledger_fee_cache ss_pending_settling_events ss_max_orders_per_chunk ss_instruction_budget
    ss_fee_pool ss_permissions ss_max_settlement_units_per_event].
  rewrite restore_books, !exec_fold_fmap by done. cbn [te_token te_metadata tpe_pair tpe_book_id
    lfe_token lfe_fee].
  rewrite rebuild_map. cbn [ebind]. rewrite pairs_rebuild. cbn [ebind].
  rewrite rebuild_map. cbn [ebind]. unfold restore_fee_pool.
  assert (Ef : default [] (match fee_pool_snapshot (tb_fee_pool (st_balances s)) with
     | [] => None | snapshot => Some snapshot end) = fee_pool_snapshot (tb_fee_pool (st_balances s)))
    by (by destruct (fee_pool_snapshot _)).
  rewrite Ef, fee_pool_restore_snapshot. cbn [ebind tb_balances policy_from_snapshot].
  rewrite policy_try_new_ok by apply Hs. cbn [ebind].
  assert (Ep : from_option permissions_from_snapshot permissions_default
    (if bool_decide (st_permissions s = permissions_default) then None
     else Some (permissions_to_snapshot (st_permissions s))) = st_permissions s).
  { case_bool_decide as E; simpl; [done|apply permissions_from_to]. }
  assert (Eq : default [] (match st_pending_settling_events s with
     | [] => None | events => Some events end) = st_pending_settling_events s)
    by (by destruct (st_pending_settling_events s)).
  rewrite Ep, Eq. destruct s as [? ? ? ? ? ? ? [? ?]]. done.
Qed.
End snapshot.

(** ** Installation and upgrades *)

Section lifecycle.
Context `{PrincipalType} `{!BiBTreeMap TradingPair OrderBookId}.

Inductive OisyTradeArg : Type :=
| ArgInit (arg : InitArg)
| ArgUpgrade (arg : option UpgradeArg).

Definition init (arg : OisyTradeArg) (runtime : Runtime) : exec World :=
  match arg with
  | ArgUpgrade _ => Trap
  | ArgInit init_arg =>
      match state_new init_arg history_new history_new registry_new
              (MkTokenBalance ∅ fee_pool_default) with
      | Err _ => Trap
      | Ok state => Done (MkWorld state (storage_record_event [] (rt_time runtime) (EInit init_arg)))
      end
  end.

(** What survives an upgrade: the stable maps, the log and the snapshot cell. *)
Record StableMemory : Type := MkStableMemory {
  sm_order_history : OrderHistory;
  sm_trade_history : TradeHistory;
  sm_balances : gmap (TokenId * UserId) Balance;
  sm_user_registry : UserRegistry;
  sm_log : list Event;
  sm_snapshot : option StateSnapshot
}.

Definition pre_upgrade (w : World) : StableMemory :=
  let s := w_state w in
  MkStableMemory (st_order_history s) (st_trade_history s) (tb_balances (st_balances s))
    (st_user_registry s) (w_log w) (Some (from_state s)).

Definition post_upgrade (m : StableMemory) (arg : option OisyTradeArg) (runtime : Runtime) :
    exec World :=
  let! snapshot := expect (sm_snapshot m) in
  let! state := into_state snapshot (sm_order_history m) (sm_trade_history m)
    (MkTokenBalance (sm_balances m) fee_pool_default) (sm_user_registry m) in
  let w := MkWorld state (sm_log m) in
  match arg with
  | Some (ArgInit _) => Trap
  | Some (ArgUpgrade (Some upgrade_arg)) =>
      process_event w (EUpgrade upgrade_arg) (PermitSync (permit_admin (st_permissions state))) runtime
  | Some (ArgUpgrade None) | None => Done w
  end.

Lemma upgrade_plain w arg rt :
  snapshot_ok (w_state w) → arg = None ∨ arg = Some (ArgUpgrade None) →
  post_upgrade (pre_upgrade w) arg rt = Done (MkWorld (after_upgrade (w_state w)) (w_log w)).
Proof.
  intros Hs Harg. unfold post_upgrade, pre_upgrade; cbn [sm_snapshot sm_order_history
    sm_trade_history sm_balances sm_user_registry sm_log expect ebind].
  rewrite into_from_state by done. cbn [ebind]. by destruct Harg as [-> | ->].
Qed.

(** A second upgrade restores the same state. *)
Lemma after_upgrade_idem s : after_upgrade (after_upgrade s) = after_upgrade s.
Proof. done. Qed.
End lifecycle.
