(* ===== verification/Codecs.v ===== *)
(** * Encodings in stable memory

    The [minicbor] codecs of everything the canister keeps across upgrades, field
    by field with the indices the sources annotate, and the [Storable]
    implementations built on them: the records and keys of the stable maps, the
    events of the log, the upgrade snapshot. The codecs of principals and of
    arbitrary-precision numbers are the [icrc_cbor] crate's: a parameter. *)

From stdpp Require Import prelude gmap.
From Stdlib Require Import ZArith Lia.
From S2P Require Import Prelude Word BTree Bytes Cbor Quantity QuantityCodec.
From S2P Require Import Ids Fees OrderTypes Tokens Balance WriteBack.
From S2P Require Import OrderBook BookSnapshot History OrderHistory UserRegistry.
From S2P Require Import Settlement Permissions PairMap Events State Snapshot.
Open Scope Z_scope.

(** [icrc_cbor::principal] and [icrc_cbor::nat]. *)
Class IcrcCbor `{PrincipalType} : Type := {
  c_principal : Codec Principal;
  c_nat : Codec N;
  c_principal_fits : ∀ p, cbor_fits (c_enc c_principal p)
}.

(** The index of a variant. *)
Definition idx (k : Z) : u32 := mk_uint 32 k.

(** ** Numbers and identifiers *)

Definition c_quantity : Codec Quantity :=
  MkCodec encode (λ x, match decode x with Ok q => Some q | Err _ => None end)
    (λ q, f_equal (λ r, match r with Ok q => Some q | Err _ => None end) (decode_encode q)).
Definition c_u128_via_quantity : Codec u128 :=
  MkCodec encode_u128 (λ x, match decode_u128 x with Ok v => Some v | Err _ => None end)
    (λ v, f_equal (λ r, match r with Ok v => Some v | Err _ => None end) (decode_encode_u128 v)).
Definition c_non_zero_u128 : Codec (nonzero 128) :=
  MkCodec encode_non_zero_u128
    (λ x, match decode_non_zero_u128 x with Ok v => Some v | Err _ => None end)
    (λ v, f_equal (λ r, match r with Ok v => Some v | Err _ => None end)
            (decode_encode_non_zero_u128 v)).
Definition c_non_zero_u64 : Codec (nonzero 64) :=
  MkCodec encode_non_zero_u64
    (λ x, match decode_non_zero_u64 x with Ok v => Some v | Err _ => None end)
    (λ v, f_equal (λ r, match r with Ok v => Some v | Err _ => None end)
            (decode_encode_non_zero_u64 v)).

(** [Encode] and [Decode] for [Seq]: the plain number. *)
Definition c_seq {M} : Codec (Seq M) :=
  c_iso c_u64 seq_get (λ n, Some (MkSeq n)) ltac:(by intros []).

Section codecs.
Context `{IcrcCbor} `{Minicbor}.

Definition c_composite {A B} (a : Codec A) (b : Codec B) : Codec (CompositeId A B) :=
  c_struct (f_cons a (f_cons b f_nil))
    (λ '(MkCompositeId x y), (x, (y, ()))) (λ '(x, (y, ())), MkCompositeId x y) ltac:(by intros []).
Definition c_order_id : Codec OrderId := c_composite c_seq c_seq.

Definition c_timestamp : Codec Timestamp := c_newtype c_u64 id id (λ _, eq_refl).
Definition c_price : Codec Price := c_newtype c_u128_via_quantity id id (λ _, eq_refl).
Definition c_tick_size : Codec TickSize := c_newtype c_non_zero_u128 id id (λ _, eq_refl).
Definition c_lot_size : Codec LotSize := c_newtype c_non_zero_u64 id id (λ _, eq_refl).

(** The derived decoder does not validate the rate; a [BasisPoint] of the model is
    valid by construction, so a rate out of range does not decode. *)
Lemma basis_point_new_bps b : match BasisPoint_new (bps b) with Ok b => Some b | Err _ => None end = Some b.
Proof.
  destruct b as [v Hv]. cbn [bps]. unfold BasisPoint_new.
  generalize (eq_refl (v <=? 10000)). generalize (v <=? 10000) at 2 3.
  intros [|] E; [|congruence]. f_equal. by apply BasisPoint_eq.
Qed.
Definition c_basis_point : Codec BasisPoint :=
  c_iso (c_newtype c_u16 id id (λ _, eq_refl)) bps
    (λ v, match BasisPoint_new v with Ok b => Some b | Err _ => None end) basis_point_new_bps.
Definition c_fee_rates : Codec FeeRates :=
  c_struct (f_cons c_basis_point (f_cons c_basis_point f_nil))
    (λ '(MkFeeRates m t), (m, (t, ()))) (λ '(m, (t, ())), MkFeeRates m t) ltac:(by intros []).

(** ** Enumerations *)

Definition unit_variants2 : Variants (() + (() + Empty_set)) :=
  v_cons (idx 0) f_nil (v_cons (idx 1) f_nil v_nil eq_refl) eq_refl.

Definition c_pair_token : Codec PairToken :=
  c_enum unit_variants2
    (λ p, match p with Base => inl () | Quote => inr (inl ()) end)
    (λ x, match x with inl _ => Base | inr _ => Quote end) ltac:(by intros []).
Definition c_side : Codec Side :=
  c_enum unit_variants2
    (λ s, match s with Buy => inl () | Sell => inr (inl ()) end)
    (λ x, match x with inl _ => Buy | inr _ => Sell end) ltac:(by intros []).
Definition c_time_in_force : Codec TimeInForce :=
  c_enum unit_variants2
    (λ t, match t with GoodTilCanceled => inl () | FillOrKill => inr (inl ()) end)
    (λ x, match x with inl _ => GoodTilCanceled | inr _ => FillOrKill end) ltac:(by intros []).
Definition c_order_status : Codec OrderStatus :=
  c_enum (v_cons (idx 0) f_nil (v_cons (idx 1) f_nil (v_cons (idx 2) f_nil
           (v_cons (idx 3) f_nil (v_cons (idx 4) f_nil v_nil eq_refl) eq_refl) eq_refl) eq_refl) eq_refl)
    (λ s, match s with
          | Pending => inl ()
          | Open => inr (inl ())
          | Filled => inr (inr (inl ()))
          | Canceled => inr (inr (inr (inl ())))
          | Expired => inr (inr (inr (inr (inl ()))))
          end)
    (λ x, match x with
          | inl _ => Pending
          | inr (inl _) => Open
          | inr (inr (inl _)) => Filled
          | inr (inr (inr (inl _))) => Canceled
          | inr (inr (inr (inr _))) => Expired
          end) ltac:(by intros []).

(** ** Tokens *)

Definition c_token_id : Codec TokenId := c_newtype c_principal ledger_id MkTokenId ltac:(by intros []).
Definition c_token_metadata : Codec TokenMetadata :=
  c_struct (f_cons c_text (f_cons c_u8 f_nil))
    (λ '(MkTokenMetadata s d), (s, (d, ()))) (λ '(s, (d, ())), MkTokenMetadata s d)
    ltac:(by intros []).
Definition c_trading_pair : Codec TradingPair :=
  c_struct (f_cons c_token_id (f_cons c_token_id f_nil))
    (λ '(MkTradingPair b q), (b, (q, ()))) (λ '(b, (q, ())), MkTradingPair b q) ltac:(by intros []).

(** ** Balances *)

Definition c_balance : Codec Balance :=
  c_struct (f_cons c_quantity (f_cons c_quantity f_nil))
    (λ '(MkBalance f r), (f, (r, ()))) (λ '(f, (r, ())), MkBalance f r) ltac:(by intros []).
Definition c_balance_key : Codec (TokenId * UserId) :=
  c_struct (f_cons c_token_id (f_cons c_seq f_nil))
    (λ '(t, u), (t, (u, ()))) (λ '(t, (u, ())), (t, u)) ltac:(by intros []).
Definition c_fee_entry : Codec FeeEntry :=
  c_struct (f_cons c_token_id (f_cons c_quantity f_nil))
    (λ '(MkFeeEntry t a), (t, (a, ()))) (λ '(t, (a, ())), MkFeeEntry t a) ltac:(by intros []).

(** ** Users *)

(** [cbor::vec_principal] and [cbor::btreeset_principal]. *)
Definition c_vec_principal : Codec (list Principal) := c_vec c_principal.
Definition c_btreeset_principal : Codec (gset Principal) :=
  c_iso (c_vec c_principal) bset_iter (λ l, Some (list_to_set l))
    (λ s, f_equal Some (list_to_set_bset_iter s)).

Definition c_principal_key : Codec Principal := c_newtype c_principal id id (λ _, eq_refl).
Definition c_trading_grant : Codec TradingGrant :=
  c_newtype c_principal tg_funding MkTradingGrant ltac:(by intros []).
Definition c_trading_account_list : Codec TradingAccountList :=
  c_struct (f_cons c_vec_principal (f_cons c_timestamp f_nil))
    (λ '(MkTradingAccountList a t), (a, (t, ()))) (λ '(a, (t, ())), MkTradingAccountList a t)
    ltac:(by intros []).
Definition c_funding_account : Codec FundingAccount :=
  c_newtype c_principal funding_principal MkFundingAccount ltac:(by intros []).
Definition c_trading_account : Codec TradingAccount :=
  c_newtype c_principal trading_principal MkTradingAccount ltac:(by intros []).

(** ** Orders and trades *)

Definition c_order : Codec Order :=
  c_struct (f_cons c_seq (f_cons c_side (f_cons c_price (f_cons c_quantity
             (f_cons c_time_in_force f_nil)))))
    (λ '(MkOrder i s p q t), (i, (s, (p, (q, (t, ()))))))
    (λ '(i, (s, (p, (q, (t, ()))))), MkOrder i s p q t) ltac:(by intros []).
Definition c_resting_order : Codec RestingOrder :=
  c_struct (f_cons c_seq (f_cons c_quantity (f_cons c_time_in_force f_nil)))
    (λ '(MkRestingOrder i q t), (i, (q, (t, ()))))
    (λ '(i, (q, (t, ()))), MkRestingOrder i q t) ltac:(by intros []).
Definition c_order_record : Codec OrderRecord :=
  c_struct (f_cons c_principal (f_cons c_side (f_cons c_price (f_cons c_quantity
             (f_cons c_order_status (f_cons c_timestamp (f_cons c_quantity (f_opt c_timestamp
             (f_cons c_time_in_force (f_cons c_quantity (f_cons c_quantity (f_opt c_principal
             (f_opt c_principal f_nil)))))))))))))
    (λ '(MkOrderRecord a b c d e f g h i j k l m),
       (a, (b, (c, (d, (e, (f, (g, (h, (i, (j, (k, (l, (m, ()))))))))))))))
    (λ '(a, (b, (c, (d, (e, (f, (g, (h, (i, (j, (k, (l, (m, ()))))))))))))),
       MkOrderRecord a b c d e f g h i j k l m) ltac:(by intros []).
Definition c_trade_record : Codec TradeRecord :=
  c_struct (f_cons c_side (f_cons c_price (f_cons c_quantity (f_cons c_quantity
             (f_cons c_quantity (f_cons c_pair_token (f_cons c_bool (f_cons c_timestamp f_nil))))))))
    (λ '(MkTradeRecord a b c d e f g h), (a, (b, (c, (d, (e, (f, (g, (h, ())))))))))
    (λ '(a, (b, (c, (d, (e, (f, (g, (h, ())))))))), MkTradeRecord a b c d e f g h)
    ltac:(by intros []).
Definition c_seq_record {V} (v : Codec V) : Codec (SeqRecord V) :=
  c_struct (f_cons c_seq (f_cons v f_nil))
    (λ '(MkSeqRecord s r), (s, (r, ()))) (λ '(s, (r, ())), MkSeqRecord s r) ltac:(by intros []).

(** ** Arguments and events *)

Definition c_mode : Codec Mode :=
  c_enum (v_cons (idx 0) f_nil (v_cons (idx 1) (f_cons c_btreeset_principal f_nil) v_nil eq_refl) eq_refl)
    (λ m, match m with GeneralAvailability => inl () | RestrictedTo s => inr (inl (s, ())) end)
    (λ x, match x with
          | inr (inl (s, ())) => RestrictedTo s
          | _ => GeneralAvailability
          end) ltac:(by intros []).
Definition c_init_arg : Codec InitArg :=
  c_struct (f_cons c_mode (f_cons c_u32 (f_cons c_u64 (f_opt c_u32 f_nil))))
    (λ '(MkInitArg m o i s), (m, (o, (i, (s, ()))))) (λ '(m, (o, (i, (s, ())))), MkInitArg m o i s)
    ltac:(by intros []).
Definition c_upgrade_arg : Codec UpgradeArg :=
  c_struct (f_opt c_mode (f_opt c_u32 (f_opt c_u64 (f_opt c_u32 f_nil))))
    (λ '(MkUpgradeArg m o i s), (m, (o, (i, (s, ())))))
    (λ '(m, (o, (i, (s, ())))), MkUpgradeArg m o i s) ltac:(by intros []).
Definition c_add_trading_pair_event : Codec AddTradingPairEvent :=
  c_struct (f_cons c_seq (f_cons c_token_id (f_cons c_token_id (f_cons c_tick_size
             (f_cons c_lot_size (f_cons c_token_metadata (f_cons c_token_metadata
             (f_cons c_fee_rates (f_cons c_quantity (f_opt c_quantity f_nil))))))))))
    (λ '(MkAddTradingPairEvent a b c d e f g h i j), (a, (b, (c, (d, (e, (f, (g, (h, (i, (j, ())))))))))))
    (λ '(a, (b, (c, (d, (e, (f, (g, (h, (i, (j, ())))))))))), MkAddTradingPairEvent a b c d e f g h i j)
    ltac:(by intros []).
Definition c_deposit_event : Codec DepositEvent :=
  c_struct (f_cons c_principal (f_cons c_token_id (f_cons c_quantity f_nil)))
    (λ '(MkDepositEvent u t a), (u, (t, (a, ())))) (λ '(u, (t, (a, ()))), MkDepositEvent u t a)
    ltac:(by intros []).
Definition c_withdraw_event : Codec WithdrawEvent :=
  c_struct (f_cons c_u64 (f_cons c_principal (f_cons c_token_id (f_cons c_quantity f_nil))))
    (λ '(MkWithdrawEvent b u t a), (b, (u, (t, (a, ())))))
    (λ '(b, (u, (t, (a, ())))), MkWithdrawEvent b u t a) ltac:(by intros []).
Definition c_add_limit_order_event : Codec AddLimitOrderEvent :=
  c_struct (f_cons c_principal (f_cons c_order_id (f_cons c_side (f_cons c_price
             (f_cons c_quantity (f_cons c_time_in_force (f_opt c_principal f_nil)))))))
    (λ '(MkAddLimitOrderEvent a b c d e f g), (a, (b, (c, (d, (e, (f, (g, ()))))))))
    (λ '(a, (b, (c, (d, (e, (f, (g, ()))))))), MkAddLimitOrderEvent a b c d e f g)
    ltac:(by intros []).
Definition c_matching_event : Codec MatchingEvent :=
  c_struct (f_cons c_seq (f_cons (c_vec c_seq) f_nil))
    (λ '(MkMatchingEvent b o), (b, (o, ()))) (λ '(b, (o, ())), MkMatchingEvent b o)
    ltac:(by intros []).
Definition c_balance_operation : Codec BalanceOperation :=
  c_enum (v_cons (idx 0) (f_cons c_seq (f_cons c_seq (f_cons c_pair_token (f_cons c_quantity
            (f_opt c_quantity f_nil)))))
         (v_cons (idx 1) (f_cons c_seq (f_cons c_pair_token (f_cons c_quantity f_nil)))
            v_nil eq_refl) eq_refl)
    (λ o, match o with
          | Transfer a b c d e => inl (a, (b, (c, (d, (e, ())))))
          | Unreserve a b c => inr (inl (a, (b, (c, ()))))
          end)
    (λ x, match x with
          | inl (a, (b, (c, (d, (e, ()))))) => Transfer a b c d e
          | inr (inl (a, (b, (c, ())))) => Unreserve a b c
          | inr (inr e) => match e with end
          end) ltac:(by intros []).
Definition c_fill_event : Codec FillEvent :=
  c_struct (f_cons c_seq (f_cons c_seq (f_cons c_seq (f_cons c_quantity (f_cons c_fee_rates f_nil)))))
    (λ '(MkFillEvent a b c d e), (a, (b, (c, (d, (e, ()))))))
    (λ '(a, (b, (c, (d, (e, ()))))), MkFillEvent a b c d e) ltac:(by intros []).
Definition c_settling_event : Codec SettlingEvent :=
  c_struct (f_cons c_seq (f_cons (c_vec c_balance_operation) (f_cons (c_vec c_fill_event) f_nil)))
    (λ '(MkSettlingEvent b o f), (b, (o, (f, ())))) (λ '(b, (o, (f, ()))), MkSettlingEvent b o f)
    ltac:(by intros []).
Definition c_cancel_limit_order_event : Codec CancelLimitOrderEvent :=
  c_struct (f_cons c_order_id (f_opt c_principal f_nil))
    (λ '(MkCancelLimitOrderEvent o c), (o, (c, ()))) (λ '(o, (c, ())), MkCancelLimitOrderEvent o c)
    ltac:(by intros []).
Definition c_set_halt_event : Codec SetHaltEvent :=
  c_struct (f_opt (c_vec c_seq) (f_cons c_bool f_nil))
    (λ '(MkSetHaltEvent b h), (b, (h, ()))) (λ '(b, (h, ())), MkSetHaltEvent b h)
    ltac:(by intros []).
Definition c_add_trading_account_event : Codec AddTradingAccountEvent :=
  c_struct (f_cons c_funding_account (f_cons c_trading_account f_nil))
    (λ '(MkAddTradingAccountEvent f t), (f, (t, ()))) (λ '(f, (t, ())), MkAddTradingAccountEvent f t)
    ltac:(by intros []).
Definition c_remove_trading_account_event : Codec RemoveTradingAccountEvent :=
  c_struct (f_cons c_funding_account (f_cons c_trading_account f_nil))
    (λ '(MkRemoveTradingAccountEvent f t), (f, (t, ())))
    (λ '(f, (t, ())), MkRemoveTradingAccountEvent f t) ltac:(by intros []).

(** A variant with one field. *)
Definition v1 {A B} (k : Z) (c : Codec A) (vs : Variants B)
    (fresh : fresh_index (idx k) (v_indices vs) = true) : Variants ((A * ()) + B) :=
  v_cons (idx k) (f_cons c f_nil) vs fresh.

Definition event_variants :=
  v1 0 c_init_arg (v1 1 c_upgrade_arg (v1 2 c_add_trading_pair_event (v1 3 c_deposit_event
  (v1 4 c_add_limit_order_event (v1 5 c_settling_event (v1 6 c_matching_event
  (v1 7 c_withdraw_event (v1 8 c_cancel_limit_order_event (v1 9 c_set_halt_event
  (v1 10 c_add_trading_account_event (v1 11 c_remove_trading_account_event v_nil
  eq_refl) eq_refl) eq_refl) eq_refl) eq_refl) eq_refl) eq_refl) eq_refl) eq_refl) eq_refl)
  eq_refl) eq_refl.

Definition c_event_type : Codec EventType :=
  c_enum event_variants
    (λ e, match e with
          | EInit a => inl (a, ())
          | EUpgrade a => inr (inl (a, ()))
          | EAddTradingPair a => inr (inr (inl (a, ())))
          | EDeposit a => inr (inr (inr (inl (a, ()))))
          | EAddLimitOrder a => inr (inr (inr (inr (inl (a, ())))))
          | ESettling a => inr (inr (inr (inr (inr (inl (a, ()))))))
          | EMatching a => inr (inr (inr (inr (inr (inr (inl (a, ())))))))
          | EWithdraw a => inr (inr (inr (inr (inr (inr (inr (inl (a, ()))))))))
          | ECancelLimitOrder a => inr (inr (inr (inr (inr (inr (inr (inr (inl (a, ())))))))))
          | ESetHalt a => inr (inr (inr (inr (inr (inr (inr (inr (inr (inl (a, ()))))))))))
          | EAddTradingAccount a =>
              inr (inr (inr (inr (inr (inr (inr (inr (inr (inr (inl (a, ())))))))))))
          | ERemoveTradingAccount a =>
              inr (inr (inr (inr (inr (inr (inr (inr (inr (inr (inr (inl (a, ()))))))))))))
          end)
    (λ x, match x with
          | inl (a, _) => EInit a
          | inr (inl (a, _)) => EUpgrade a
          | inr (inr (inl (a, _))) => EAddTradingPair a
          | inr (inr (inr (inl (a, _)))) => EDeposit a
          | inr (inr (inr (inr (inl (a, _))))) => EAddLimitOrder a
          | inr (inr (inr (inr (inr (inl (a, _)))))) => ESettling a
          | inr (inr (inr (inr (inr (inr (inl (a, _))))))) => EMatching a
          | inr (inr (inr (inr (inr (inr (inr (inl (a, _)))))))) => EWithdraw a
          | inr (inr (inr (inr (inr (inr (inr (inr (inl (a, _))))))))) => ECancelLimitOrder a
          | inr (inr (inr (inr (inr (inr (inr (inr (inr (inl (a, _)))))))))) => ESetHalt a
          | inr (inr (inr (inr (inr (inr (inr (inr (inr (inr (inl (a, _))))))))))) =>
              EAddTradingAccount a
          | inr (inr (inr (inr (inr (inr (inr (inr (inr (inr (inr (inl (a, _)))))))))))) =>
              ERemoveTradingAccount a
          | inr (inr (inr (inr (inr (inr (inr (inr (inr (inr (inr (inr e))))))))))) =>
              match e with end
          end) ltac:(by intros []).
Definition c_event : Codec Event :=
  c_struct (f_cons c_timestamp (f_cons c_event_type f_nil))
    (λ '(MkEvent t p), (t, (p, ()))) (λ '(t, (p, ())), MkEvent t p) ltac:(by intros []).

(** ** The upgrade snapshot *)

Definition c_price_level : Codec PriceLevel :=
  c_struct (f_cons c_price (f_cons (c_vec c_resting_order) f_nil))
    (λ '(MkPriceLevel p o), (p, (o, ()))) (λ '(p, (o, ())), MkPriceLevel p o) ltac:(by intros []).
Definition c_order_book_snapshot : Codec OrderBookSnapshot :=
  c_struct (f_cons c_seq (f_cons c_seq (f_cons c_tick_size (f_cons c_lot_size
             (f_cons (c_vec c_order) (f_cons (c_vec c_price_level) (f_cons (c_vec c_price_level)
             (f_cons (c_vec c_seq) (f_cons c_fee_rates (f_cons c_quantity (f_opt c_quantity
             (f_cons c_seq f_nil))))))))))))
    (λ '(MkOrderBookSnapshot a b c d e f g h i j k l),
       (a, (b, (c, (d, (e, (f, (g, (h, (i, (j, (k, (l, ())))))))))))))
    (λ '(a, (b, (c, (d, (e, (f, (g, (h, (i, (j, (k, (l, ())))))))))))),
       MkOrderBookSnapshot a b c d e f g h i j k l) ltac:(by intros []).
Definition c_permissions_snapshot : Codec PermissionsSnapshot :=
  c_struct (f_cons c_bool (f_cons (c_vec c_seq) f_nil))
    (λ '(MkPermissionsSnapshot t h), (t, (h, ()))) (λ '(t, (h, ())), MkPermissionsSnapshot t h)
    ltac:(by intros []).
Definition c_token_entry : Codec TokenEntry :=
  c_struct (f_cons c_token_id (f_cons c_token_metadata f_nil))
    (λ '(MkTokenEntry t m), (t, (m, ()))) (λ '(t, (m, ())), MkTokenEntry t m) ltac:(by intros []).
Definition c_trading_pair_entry : Codec TradingPairEntry :=
  c_struct (f_cons c_trading_pair (f_cons c_seq f_nil))
    (λ '(MkTradingPairEntry p b), (p, (b, ()))) (λ '(p, (b, ())), MkTradingPairEntry p b)
    ltac:(by intros []).
Definition c_ledger_fee_entry : Codec LedgerFeeEntry :=
  c_struct (f_cons c_token_id (f_cons c_nat f_nil))
    (λ '(MkLedgerFeeEntry t f), (t, (f, ()))) (λ '(t, (f, ())), MkLedgerFeeEntry t f)
    ltac:(by intros []).
Definition c_state_snapshot : Codec StateSnapshot :=
  c_struct (f_cons c_mode (f_cons c_seq (f_cons (c_vec c_token_entry)
             (f_cons (c_vec c_trading_pair_entry) (f_cons (c_vec c_order_book_snapshot)
             (f_cons (c_vec c_ledger_fee_entry) (f_opt (c_vec c_settling_event) (f_opt c_u32
             (f_opt c_u64 (f_opt (c_vec c_fee_entry) (f_opt c_permissions_snapshot
             (f_opt c_u32 f_nil))))))))))))
    (λ '(MkStateSnapshot a b c d e f g h i j k l),
       (a, (b, (c, (d, (e, (f, (g, (h, (i, (j, (k, (l, ())))))))))))))
    (λ '(a, (b, (c, (d, (e, (f, (g, (h, (i, (j, (k, (l, ())))))))))))),
       MkStateSnapshot a b c d e f g h i j k l) ltac:(by intros []).
End codecs.

(** ** An implementation of the [IcrcCbor] interface

    For the numbers that stand for principals in the examples: one tag for each
    binary digit. *)
Fixpoint enc_positive (p : positive) : cbor :=
  match p with
  | xH => CUint (mk_uint 64 1)
  | xO p => CTag (mk_uint 64 0) (enc_positive p)
  | xI p => CTag (mk_uint 64 1) (enc_positive p)
  end.
Fixpoint dec_positive (c : cbor) : option positive :=
  match c with
  | CUint _ => Some xH
  | CTag t c => let? p := dec_positive c in Some (if uval t =? 0 then xO p else xI p)
  | _ => None
  end.
Lemma dec_enc_positive p : dec_positive (enc_positive p) = Some p.
Proof. induction p as [p IH|p IH|]; cbn; rewrite ?IH; done. Qed.

Definition c_number : Codec N :=
  c_iso (MkCodec enc_positive dec_positive dec_enc_positive) N.succ_pos
    (λ p, Some (Pos.pred_N p)) (λ n, f_equal Some (N.pos_pred_succ n)).

#[export] Program Instance icrc_cbor_N : @IcrcCbor principal_N := {|
  c_principal := c_number : Codec (@Principal principal_N);
  c_nat := c_number
|}.
Next Obligation.
  intros p. cbn. generalize (N.succ_pos p). intros q. by induction q.
Qed.
