(* ===== verification/Storage.v ===== *)
(** * Stable memory (src/canister/src/storage/mod.rs, the state cell of state/mod.rs)

    The [Storable] implementations, the regions of stable memory with the bytes they
    hold, the event log, the snapshot cell that carries the heap across an upgrade,
    and the cell that holds the running state. *)

From stdpp Require Import prelude gmap.
From Stdlib Require Import ZArith Lia.
From S2P Require Import Prelude Word BTree Bytes Cbor Quantity QuantityCodec.
From S2P Require Import Ids Fees OrderTypes.
From S2P Require Import Tokens Balance WriteBack OrderBook BookInv BookSnapshot.
From S2P Require Import History OrderHistory UserRegistry Settlement Permissions.
From S2P Require Import PairMap Events State EventAudit Snapshot Codecs.
Open Scope Z_scope.

(** ** Regions *)

Inductive Region : Set :=
| EventLogIndex
| EventLogData
| OrderHistoryRegion
| BalancesRegion
| StateSnapshotRegion
| UserRegistryRegion
| UserOrdersRegion
| TradesRegion
| TradesByUserRegion
| TradingAccountsRegion
| TradingAccountsByFundingRegion.

Definition memory_id (r : Region) : u8 :=
  mk_uint 8 match r with
            | EventLogIndex => 0
            | EventLogData => 1
            | OrderHistoryRegion => 2
            | BalancesRegion => 3
            | StateSnapshotRegion => 4
            | UserRegistryRegion => 5
            | UserOrdersRegion => 6
            | TradesRegion => 7
            | TradesByUserRegion => 8
            | TradingAccountsRegion => 9
            | TradingAccountsByFundingRegion => 10
            end.

(** No two structures share a region. *)
#[export] Instance memory_id_inj : Inj (=) (=) memory_id.
Proof. intros a b E. by destruct a, b. Qed.

(** ** [Storable] *)

(** [to_bytes] and [from_bytes] of a type, which panics on bytes it cannot decode;
    [s_fits]: the lengths in the encoding fit their headers. *)
Record Storable (A : Type) : Type := MkStorable {
  s_to_bytes : A → list u8;
  s_from_bytes : list u8 → exec A;
  s_fits : A → bool;
  s_ok a : s_fits a → s_from_bytes (s_to_bytes a) = Done a
}.
Arguments MkStorable {A} s_to_bytes s_from_bytes s_fits s_ok.
Arguments s_to_bytes {A} s a.
Arguments s_from_bytes {A} s bytes.
Arguments s_fits {A} s a.
Arguments s_ok {A} s a.

(** The implementations by [minicbor::encode] and [minicbor::decode]. *)
Definition cbor_to_bytes `{Minicbor} {A} (c : Codec A) (self : A) : list u8 := mc_write (c_enc c self).
Definition cbor_from_bytes `{Minicbor} {A} (c : Codec A) (bytes : list u8) : exec A :=
  expect (let? x := mc_read bytes in c_dec c x).

Lemma cbor_bytes_ok `{Minicbor} {A} (c : Codec A) a :
  cbor_fits (c_enc c a) → cbor_from_bytes c (cbor_to_bytes c a) = Done a.
Proof.
  intros Ha. unfold cbor_from_bytes, cbor_to_bytes. rewrite mc_read_write by done.
  cbn [obind]. by rewrite c_ok.
Qed.

Definition s_cbor `{Minicbor} {A} (c : Codec A) : Storable A :=
  MkStorable (cbor_to_bytes c) (cbor_from_bytes c) (λ a, cbor_fits (c_enc c a)) (cbor_bytes_ok c).

Lemma from_to_bytes `{FixedWidthIdLaws A} (a : A) : from_bytes (to_bytes a) = Done a.
Proof.
  unfold from_bytes. rewrite to_bytes_length, Nat.eqb_refl. cbn [assert ebind].
  by rewrite id_from_to_bytes.
Qed.

(** Fixed-width identifiers are stored as their big-endian bytes. *)
Definition s_id A `{FixedWidthIdLaws A} : Storable A :=
  MkStorable to_bytes from_bytes (λ _, true) (λ a _, from_to_bytes a).

(** ** Stable maps *)

(** A [StableBTreeMap] keeps the bytes of its keys and of its values. *)
Abbreviation stable_map := (gmap (list u8) (list u8)).

Section stable_map.
Context {K V : Type} `{Countable K} (sk : Storable K) (sv : Storable V).

Definition sm_bytes (m : gmap K V) : stable_map :=
  list_to_map ((λ kv, (s_to_bytes sk kv.1, s_to_bytes sv kv.2)) <$> map_to_list m).

Definition sm_read_entry (m : gmap K V) (entry : list u8 * list u8) : exec (gmap K V) :=
  let! k := s_from_bytes sk entry.1 in
  let! v := s_from_bytes sv entry.2 in
  Done (<[k := v]> m).
Definition sm_read (bytes : stable_map) : exec (gmap K V) :=
  exec_fold sm_read_entry ∅ (map_to_list bytes).

Definition sm_fits (m : gmap K V) : Prop := map_Forall (λ k v, s_fits sk k ∧ s_fits sv v) m.

Definition entry_bytes (kv : K * V) : list u8 * list u8 := (s_to_bytes sk kv.1, s_to_bytes sv kv.2).
Definition entry_fits (kv : K * V) : Prop := s_fits sk kv.1 ∧ s_fits sv kv.2.

(** Distinct keys have distinct bytes. *)
Lemma entry_keys_NoDup (l : list (K * V)) :
  Forall entry_fits l → NoDup l.*1 → NoDup (entry_bytes <$> l).*1.
Proof.
  induction l as [|[k v] l IH]; intros Hf Hnd; [constructor|].
  apply Forall_cons in Hf as [[Hk Hv] Hf]. rewrite !fmap_cons in *.
  apply NoDup_cons in Hnd as [Hnot Hnd]. apply NoDup_cons. split; [|by apply IH].
  intros Hin. apply list_elem_of_fmap in Hin as ([b1 b2] & E & Hin).
  apply list_elem_of_fmap in Hin as ([k' v'] & [= -> ->] & Hin). cbn in *.
  rewrite Forall_forall in Hf. destruct (Hf _ Hin) as [Hk' _]. cbn in Hk'.
  pose proof (s_ok sk k Hk) as E1. rewrite E, (s_ok sk k' Hk') in E1. simplify_eq.
  apply Hnot. by apply (list_elem_of_fmap_2 fst _ (k, v')).
Qed.

Lemma read_entries (l : list (K * V)) :
  Forall entry_fits l → NoDup l.*1 →
  exec_fold sm_read_entry ∅ (entry_bytes <$> l) = Done (list_to_map l).
Proof.
  induction l as [|[k v] l IH] using rev_ind; intros Hf Hnd; [done|].
  apply Forall_app in Hf as [Hf [[Hk Hv] _]%Forall_cons]. rewrite fmap_app. rewrite fmap_app in Hnd.
  apply NoDup_app in Hnd as (Hnd & Hnot & _). rewrite exec_fold_app, IH by done.
  cbn in *. unfold sm_read_entry. cbn. rewrite !s_ok by done. cbn [ebind].
  rewrite list_to_map_snoc; [done|]. intros Hin. by apply (Hnot k Hin), list_elem_of_singleton.
Qed.

Lemma sm_read_bytes m : sm_fits m → sm_read (sm_bytes m) = Done m.
Proof.
  intros Hm. unfold sm_read, sm_bytes. change (λ kv, _) with entry_bytes.
  assert (Hf : Forall entry_fits (map_to_list m)).
  { apply Forall_forall. intros [k v] Hin%elem_of_map_to_list. by apply Hm. }
  assert (Hnd : NoDup (map_to_list m).*1) by apply NoDup_fst_map_to_list.
  pose proof (entry_keys_NoDup _ Hf Hnd) as Hkeys.
  pose proof (map_to_list_to_map _ Hkeys) as Hperm.
  destruct (Permutation_map_inv _ _ Hperm) as (l & -> & Hl).
  change (List.map entry_bytes l) with (entry_bytes <$> l).
  assert (Hl' : NoDup l.*1) by by rewrite Hl in Hnd.
  rewrite read_entries, <- (list_to_map_to_list m); [|by rewrite <- Hl|done].
  f_equal. symmetry. by apply list_to_map_proper.
Qed.
End stable_map.

Section storage.
Context `{PrincipalType} `{!BiBTreeMap TradingPair OrderBookId} `{!IcrcCbor} `{Minicbor}.
Implicit Types (w : World) (rt : Runtime).

(** ** The structures in stable memory *)

Definition s_event : Storable Event := s_cbor c_event.
Definition s_balance : Storable Balance := s_cbor c_balance.
Definition s_balance_key : Storable (TokenId * UserId) := s_cbor c_balance_key.
Definition s_principal_key : Storable Principal := s_cbor c_principal_key.
Definition s_trading_grant : Storable TradingGrant := s_cbor c_trading_grant.
Definition s_trading_account_list : Storable TradingAccountList := s_cbor c_trading_account_list.
Definition s_seq_record {V} (c : Codec V) : Storable (SeqRecord V) := s_cbor (c_seq_record c).
Definition s_user_id : Storable UserId := s_id UserId.

(** Nothing of variable length is in these. *)
#[local] Instance principal_fits : CodecFits c_principal := c_principal_fits.
#[local] Instance quantity_fits : CodecFits c_quantity.
Proof.
  intros q. cbn [c_enc c_quantity]. unfold encode. case_match; [done|]. cbn [cbor_fits]. unfold len_fits.
  rewrite length_drop, to_be_bytes_length. apply Is_true_true, Z.ltb_lt. lia.
Qed.
#[local] Instance price_fits : CodecFits c_price.
Proof. unfold c_price. apply newtype_fits. intros v. apply (quantity_fits (from_u128 v)). Qed.

Lemma stable_values_fit :
  (∀ b, s_fits s_balance b) ∧ (∀ k, s_fits s_balance_key k) ∧ (∀ p, s_fits s_principal_key p) ∧
  (∀ g, s_fits s_trading_grant g) ∧ (∀ r, s_fits (s_seq_record c_order_record) r) ∧
  (∀ r, s_fits (s_seq_record c_trade_record) r).
Proof.
  assert (Ht : CodecFits c_token_id) by (unfold c_token_id; apply _).
  assert (Hs : CodecFits c_side) by (unfold c_side, unit_variants2; apply _).
  assert (Hp : CodecFits c_pair_token) by (unfold c_pair_token, unit_variants2; apply _).
  assert (Hf : CodecFits c_time_in_force) by (unfold c_time_in_force, unit_variants2; apply _).
  assert (Ho : CodecFits c_order_status) by (unfold c_order_status; apply _).
  assert (Hm : CodecFits c_timestamp) by (unfold c_timestamp; apply _).
  assert (CodecFits c_order_record) by (unfold c_order_record; apply _).
  assert (CodecFits c_trade_record) by (unfold c_trade_record; apply _).
  assert (Hq : ∀ M, CodecFits (@c_seq M)) by (intros M; unfold c_seq; apply _).
  split_and!; intros x; cbn [s_fits s_cbor];
    [unfold c_balance|unfold c_balance_key|unfold c_principal_key|unfold c_trading_grant
    |unfold c_seq_record..]; apply codec_fits.
Qed.

(** ** The state cell *)

Definition with_state {R} (cell : option State) (f : State → exec R) : exec R :=
  let! s := expect cell in f s.
Definition with_state_mut {R} (cell : option State) (f : State → exec (R * State)) :
    exec (R * option State) :=
  let! s := expect cell in let! (r, s) := f s in Done (r, Some s).
Definition init_state (cell : option State) (state : State) : exec (option State) :=
  let! _ := assert (bool_decide (cell = None)) in
  Done (Some state).

(** ** The event log *)

(** A [StableLog] keeps the bytes of its entries. *)
Definition record_event_bytes (log : list (list u8)) (timestamp : Timestamp) (payload : EventType) :
    list (list u8) :=
  log ++ [s_to_bytes s_event (MkEvent timestamp payload)].
Definition total_event_count (log : list (list u8)) : u64 := mk_uint 64 (Z.of_nat (length log)).
Definition get_event (log : list (list u8)) (idx : u64) : exec (option Event) :=
  match log !! Z.to_nat idx with
  | None => Done None
  | Some bytes => let! e := s_from_bytes s_event bytes in Done (Some e)
  end.
Definition with_event_iter (log : list (list u8)) : exec (list Event) :=
  exec_map (s_from_bytes s_event) log.

Definition log_fits (log : list Event) : bool := forallb (s_fits s_event) log.

Lemma log_fits_Forall log : log_fits log → Forall (λ e, s_fits s_event e) log.
Proof. unfold log_fits. by rewrite forallb_True. Qed.

Lemma event_iter_bytes log :
  log_fits log → with_event_iter (s_to_bytes s_event <$> log) = Done log.
Proof.
  intros Hl%log_fits_Forall. induction Hl as [|e log He Hlog IH]; [done|]. rewrite fmap_cons. unfold with_event_iter in *.
  cbn [exec_map]. rewrite (s_ok s_event e He). cbn [ebind]. by rewrite IH.
Qed.

Lemma get_event_bytes log idx :
  log_fits log → get_event (s_to_bytes s_event <$> log) idx = Done (log !! Z.to_nat idx).
Proof.
  intros Hl%log_fits_Forall. unfold get_event. rewrite list_lookup_fmap.
  destruct (log !! Z.to_nat idx) as [e|] eqn:E; [|done]. cbn [fmap option_fmap option_map].
  rewrite (s_ok s_event e) by (by apply (Forall_lookup_1 _ _ _ _ Hl E)). done.
Qed.

(** ** What survives a restart *)

Record Disk : Type := MkDisk {
  dk_log : list (list u8);
  dk_order_history : stable_map;
  dk_user_orders : stable_map;
  dk_trades : stable_map;
  dk_trades_by_user : stable_map;
  dk_balances : stable_map;
  dk_users : stable_map;
  dk_trading_accounts : stable_map;
  dk_trading_accounts_by_funding : stable_map;
  dk_snapshot : list u8
}.
Definition set_snapshot (bytes : list u8) (d : Disk) : Disk :=
  MkDisk (dk_log d) (dk_order_history d) (dk_user_orders d) (dk_trades d) (dk_trades_by_user d)
    (dk_balances d) (dk_users d) (dk_trading_accounts d) (dk_trading_accounts_by_funding d) bytes.

(** [History::new] on its two regions. *)
Definition open_history {K V} `{Countable K, FixedWidthIdLaws K} (c : Codec V)
    (primary_memory by_user_memory : stable_map) : exec (History K V) :=
  let! primary := sm_read (s_id K) (s_seq_record c) primary_memory in
  let! by_user := sm_read (s_id ByUserKey) (s_id K) by_user_memory in
  Done (MkHistory primary by_user).

(** [UserRegistry::new]. *)
Definition open_registry (users_memory accounts_memory by_funding_memory : stable_map) :
    exec UserRegistry :=
  let! users := sm_read s_principal_key s_user_id users_memory in
  let! accounts := sm_read s_principal_key s_trading_grant accounts_memory in
  let! by_funding := sm_read s_user_id s_trading_account_list by_funding_memory in
  Done (MkUserRegistry users accounts by_funding).

(** The structures of stable memory, opened. The maps decode an entry when it is
    read; reading all of them at once is the same as long as every entry decodes. *)
Definition stable_of (d : Disk) (snapshot : option StateSnapshot) : exec StableMemory :=
  let! orders := open_history (K:=OrderId) c_order_record (dk_order_history d) (dk_user_orders d) in
  let! trades := open_history (K:=TradeId) c_trade_record (dk_trades d) (dk_trades_by_user d) in
  let! balances := sm_read s_balance_key s_balance (dk_balances d) in
  let! registry := open_registry (dk_users d) (dk_trading_accounts d)
    (dk_trading_accounts_by_funding d) in
  let! log := with_event_iter (dk_log d) in
  Done (MkStableMemory orders trades balances registry log snapshot).

(** The bytes under a running canister. *)
Definition disk_of w (snapshot : list u8) : Disk :=
  let s := w_state w in
  MkDisk (s_to_bytes s_event <$> w_log w)
    (sm_bytes (s_id OrderId) (s_seq_record c_order_record) (primary (st_order_history s)))
    (sm_bytes (s_id ByUserKey) (s_id OrderId) (by_user (st_order_history s)))
    (sm_bytes (s_id TradeId) (s_seq_record c_trade_record) (primary (st_trade_history s)))
    (sm_bytes (s_id ByUserKey) (s_id TradeId) (by_user (st_trade_history s)))
    (sm_bytes s_balance_key s_balance (tb_balances (st_balances s)))
    (sm_bytes s_principal_key s_user_id (users (st_user_registry s)))
    (sm_bytes s_principal_key s_trading_grant (trading_accounts (st_user_registry s)))
    (sm_bytes s_user_id s_trading_account_list (trading_accounts_by_funding (st_user_registry s)))
    snapshot.

(** The vectors and strings in stable memory have lengths below 2^64. *)
Record disk_fits w : Prop := {
  df_log : log_fits (w_log w);
  df_lists : map_Forall (λ _ l, s_fits s_trading_account_list l)
    (trading_accounts_by_funding (st_user_registry (w_state w)));
  df_snapshot : cbor_fits (c_enc c_state_snapshot (from_state (w_state w)))
}.

Lemma open_history_bytes {K V} `{Countable K, FixedWidthIdLaws K} (c : Codec V) (h : History K V) :
  (∀ r, s_fits (s_seq_record c) r) →
  open_history c (sm_bytes (s_id K) (s_seq_record c) (primary h))
    (sm_bytes (s_id ByUserKey) (s_id K) (by_user h)) = Done h.
Proof.
  intros Hr. unfold open_history. rewrite !sm_read_bytes by done. cbn [ebind]. by destruct h.
Qed.

Lemma stable_of_disk w bytes snapshot :
  disk_fits w →
  stable_of (disk_of w bytes) snapshot =
    let s := w_state w in
    Done (MkStableMemory (st_order_history s) (st_trade_history s) (tb_balances (st_balances s))
            (st_user_registry s) (w_log w) snapshot).
Proof.
  intros [Hlog Hlists _]. destruct stable_values_fit as (Hb & Hk & Hp & Hg & Ho & Ht).
  unfold stable_of, disk_of. cbn [dk_log dk_order_history dk_user_orders dk_trades dk_trades_by_user
    dk_balances dk_users dk_trading_accounts dk_trading_accounts_by_funding].
  rewrite !open_history_bytes by done. cbn [ebind].
  rewrite sm_read_bytes by (by intros ???). cbn [ebind]. unfold open_registry.
  rewrite !sm_read_bytes by
    (intros k x Hx; split; (done || apply Hp || apply Hg || by eapply Hlists)).
  cbn [ebind].
  rewrite event_iter_bytes by done. by destruct (st_user_registry (w_state w)).
Qed.

(** ** The snapshot cell *)

(** The number of bytes written, and the disk. *)
Definition save (snapshot : StateSnapshot) (d : Disk) : nat * Disk :=
  let buf := cbor_to_bytes c_state_snapshot snapshot in (length buf, set_snapshot buf d).

Definition load (d : Disk) : exec (option StateSnapshot * Disk) :=
  match dk_snapshot d with
  | [] => Done (None, d)
  | bytes =>
      let! snapshot := cbor_from_bytes c_state_snapshot bytes in
      Done (Some snapshot, set_snapshot [] d)
  end.

Lemma load_save snapshot d :
  cbor_fits (c_enc c_state_snapshot snapshot) →
  load (save snapshot d).2 = Done (Some snapshot, set_snapshot [] d).
Proof.
  intros Hf. unfold load, save. cbn [snd dk_snapshot set_snapshot].
  pose proof (cbor_bytes_ok _ _ Hf) as Hd. pose proof (mc_write_nonempty (c_enc c_state_snapshot snapshot)).
  unfold cbor_to_bytes in *. destruct (mc_write _); [done|]. by rewrite Hd.
Qed.

(** ** A restart *)

(** [pre_upgrade] as it writes the cell. *)
Definition shut_down w (bytes : list u8) : Disk := (save (from_state (w_state w)) (disk_of w bytes)).2.

(** [post_upgrade] as it reads and clears the cell; the new canister's state cell is
    empty until [init_state]. *)
Definition start_up (d : Disk) (arg : option OisyTradeArg) rt : exec (World * Disk) :=
  let! (snapshot, d) := load d in
  let! m := stable_of d snapshot in
  let! w := post_upgrade m arg rt in
  let! cell := init_state None (w_state w) in
  let! s := expect cell in
  Done (MkWorld s (w_log w), disk_of (MkWorld s (w_log w)) (dk_snapshot d)).

(** The restart is [pre_upgrade] followed by [post_upgrade], and clears the cell. *)
Lemma restart_eq w bytes arg rt :
  disk_fits w →
  start_up (shut_down w bytes) arg rt =
    (let! w' := post_upgrade (pre_upgrade w) arg rt in Done (w', disk_of w' [])).
Proof.
  intros Hd. unfold start_up, shut_down. rewrite load_save by apply Hd. cbn [ebind].
  change (set_snapshot [] (disk_of w bytes)) with (disk_of w []). rewrite stable_of_disk by done.
  cbn [ebind]. unfold pre_upgrade. by destruct (post_upgrade _ arg rt) as [[s l]|].
Qed.

(** A cell that was not written since the last start is never restored from. *)
Lemma stale_start_traps w arg rt : start_up (disk_of w []) arg rt = Trap.
Proof.
  unfold start_up, stable_of. cbn [load disk_of dk_snapshot ebind].
  repeat match goal with |- context [let! _ := (let! _ := ?m in _) in _] =>
    destruct m; [cbn [ebind]|done] end.
  done.
Qed.
End storage.
