(* ===== verification/Executor.v ===== *)
(** * The chunked executor (src/canister/src/execute/mod.rs)

    [run_once] drives one bounded chunk of settling and matching. The executor's
    own state is the world and the number of readings of the instruction counter
    taken so far. *)

From stdpp Require Import prelude gmap sorting.
From Stdlib Require Import ZArith Lia.
From S2P Require Import Prelude Word BTree Quantity Ids Fees OrderTypes.
From S2P Require Import Tokens Balance WriteBack OrderBook History.
From S2P Require Import OrderHistory UserRegistry Settlement Permissions.
From S2P Require Import PairMap Events State EventAudit.

Inductive ExecutionStatus : Type := Complete | MoreWork | AlreadyRunning.

(** The comparison of [books_by_pending_order_count_desc]: more pending orders
    first, ties broken by ascending book id. *)
Definition busier (a b : OrderBookId * nat) : comparison :=
  match Nat.compare b.2 a.2 with Eq => ord_cmp a.1 b.1 | c => c end.
Definition busier_le (a b : OrderBookId * nat) : Prop := busier a b ≠ Gt.
#[export] Instance busier_le_dec : RelDecision busier_le.
Proof. intros a b. unfold busier_le. apply _. Defined.

Section executor.
Context `{PrincipalType} `{!BiBTreeMap TradingPair OrderBookId}.

Definition has_matchable_pending_orders (state : State) : bool :=
  existsb (λ kb : OrderBookId * OrderBook,
    (0 <? pending_orders_len kb.2)%nat && is_ok (permit_matching (st_permissions state) kb.1))
    (btree_iter (st_order_books state)).

Definition status_from_state (state : State) : ExecutionStatus :=
  if has_matchable_pending_orders state || has_pending_settling_events state
  then MoreWork else Complete.

(** [sort_unstable_by] on distinct keys: the one sorted arrangement. *)
Definition books_by_pending_order_count_desc (state : State) : list OrderBookId :=
  let counts := filter (λ kn : OrderBookId * nat, (0 < kn.2)%nat)
    ((λ kb : OrderBookId * OrderBook, (kb.1, pending_orders_len kb.2)) <$>
       btree_iter (st_order_books state)) in
  (merge_sort busier_le counts).*1.

(** The world and the readings of the instruction counter taken so far. *)
Record Exec : Type := MkExec { ex_world : World; ex_reads : nat }.

(** [runtime.instruction_counter() < instruction_budget], and one more reading. *)
Definition under_budget (runtime : Runtime) (budget : u64) (ex : Exec) : bool * Exec :=
  (rt_instruction_counter runtime (ex_reads ex) <? budget, MkExec (ex_world ex) (S (ex_reads ex))).

(** The [while] loop of [drain_settling]; an iteration removes an event from the
    queue, so a queue's length of iterations, and a last test, is enough. *)
Fixpoint drain_loop (fuel : nat) (runtime : Runtime) (budget : u64) (ex : Exec) : exec Exec :=
  match fuel with
  | O => Done ex
  | S fuel =>
      let '(under, ex) := under_budget runtime budget ex in
      if negb under then Done ex else
      let '(event, state) := take_next_pending_settling_event (w_state (ex_world ex)) in
      match event with
      | None => Done (MkExec (MkWorld state (w_log (ex_world ex))) (ex_reads ex))
      | Some event =>
          let! w := process_event (MkWorld state (w_log (ex_world ex))) (ESettling event)
            (PermitSync (permit_settling (st_permissions state))) runtime in
          drain_loop fuel runtime budget (MkExec w (ex_reads ex))
      end
  end.

Definition drain_settling (runtime : Runtime) (budget : u64) (ex : Exec) : exec Exec :=
  drain_loop (S (length (st_pending_settling_events (w_state (ex_world ex))))) runtime budget ex.

(** The [for] loop of [run_once] over the books; an early [return] and the end of
    the loop both report [ExecutionStatus::from_state]. *)
Fixpoint run_books (runtime : Runtime) (budget : u64) (order_budget : nat)
    (books : list OrderBookId) (ex : Exec) : exec Exec :=
  match books with
  | [] => Done ex
  | book_id :: books =>
      if (order_budget =? 0)%nat then Done ex else
      let '(under, ex) := under_budget runtime budget ex in
      if negb under then Done ex else
      match permit_matching (st_permissions (w_state (ex_world ex))) book_id with
      | Err _ => run_books runtime budget order_budget books ex
      | Ok permit =>
          let! book := expect (st_order_books (w_state (ex_world ex)) !! book_id) in
          let chunk := take order_budget (pending_order_seqs book) in
          match chunk with
          | [] => run_books runtime budget order_budget books ex
          | _ =>
              let! order_budget :=
                if (length chunk <=? order_budget)%nat
                then Done (order_budget - length chunk)%nat else Trap in
              let! w := process_event (ex_world ex) (EMatching (MkMatchingEvent book_id chunk))
                (PermitSync permit) runtime in
              let! ex := drain_settling runtime budget (MkExec w (ex_reads ex)) in
              run_books runtime budget order_budget books ex
          end
      end
  end.

Definition run_once (runtime : Runtime) (w : World) : exec (ExecutionStatus * World) :=
  let policy := st_execution_policy (w_state w) in
  let max_orders_per_chunk := Z.to_nat (ep_max_orders_per_chunk policy) in
  let budget := nzval (ep_instruction_budget policy) in
  let! ex := drain_settling runtime budget (MkExec w 0) in
  let '(under, ex) := under_budget runtime budget ex in
  let! ex :=
    if negb under then Done ex
    else run_books runtime budget max_orders_per_chunk
           (books_by_pending_order_count_desc (w_state (ex_world ex))) ex in
  Done (status_from_state (w_state (ex_world ex)), ex_world ex).

(** [process_pending_orders] of lib.rs: [run_once] under the [TimerGuard], which
    is released when the call returns. *)
Definition timer_guard_new (state : State) (task : Task) : option State :=
  if bool_decide (task ∈ st_active_tasks state) then None
  else Some (set_active_tasks ({[task]} ∪ st_active_tasks state) state).
Definition timer_guard_drop (state : State) (task : Task) : State :=
  set_active_tasks (st_active_tasks state ∖ {[task]}) state.

Definition drive_pending_orders (runtime : Runtime) (w : World) : exec (ExecutionStatus * World) :=
  match timer_guard_new (w_state w) ProcessPendingOrders with
  | None => Done (AlreadyRunning, w)
  | Some state =>
      let! (status, w) := run_once runtime (MkWorld state (w_log w)) in
      Done (status, MkWorld (timer_guard_drop (w_state w) ProcessPendingOrders) (w_log w))
  end.

(** [drive_matching] of lib.rs; the boolean says whether the call arms a
    zero-delay timer that drives matching again. *)
Definition drive_matching (runtime : Runtime) (w : World) : exec (bool * World) :=
  let! (status, w) := drive_pending_orders runtime w in
  Done (match status with MoreWork => true | Complete | AlreadyRunning => false end, w).
End executor.
