(* ===== verification/ExecutorSpec.v ===== *)
(** * What one run of the executor does

    The events a run appends to the log, the orders it matches and the halted
    books it leaves alone, and how far it drains the settling queue. *)

From stdpp Require Import prelude gmap sorting.
From Stdlib Require Import ZArith Lia.
From S2P Require Import Prelude Word BTree Quantity Ids Fees OrderTypes.
From S2P Require Import Tokens Balance WriteBack OrderBook History.
From S2P Require Import OrderHistory UserRegistry Settlement Permissions.
From S2P Require Import PairMap Events State EventAudit Executor.

Section executor_spec.
Context `{PrincipalType} `{!BiBTreeMap TradingPair OrderBookId}.

(** The orders an event matches. *)
Definition matched_orders (p : EventType) : nat :=
  match p with EMatching e => length (me_orders e) | _ => 0 end.

(** The events of a run: settlements, and matching of books that are not halted. *)
Definition run_event (perms : Permissions) (p : EventType) : Prop :=
  match p with
  | ESettling _ => True
  | EMatching e => is_halted perms (me_book_id e) = false ∧ me_orders e ≠ []
  | _ => False
  end.

(** [w'] is [w] after events of a run that match at most [n] orders. *)
Record ran (perms : Permissions) (n : nat) (w w' : World) : Prop := {
  rn_perms : st_permissions (w_state w') = st_permissions (w_state w);
  rn_log : ∃ evs, w_log w' = w_log w ++ evs ∧ Forall (run_event perms) (ev_payload <$> evs) ∧
    (list_sum (matched_orders <$> (ev_payload <$> evs)) ≤ n)%nat
}.

Lemma ran_refl perms n w : ran perms n w w.
Proof. split; [done|]. exists []. split; [by rewrite app_nil_r|]. split; [constructor|simpl; lia]. Qed.

Lemma ran_trans perms n m w1 w2 w3 :
  ran perms n w1 w2 → ran perms m w2 w3 → ran perms (n + m) w1 w3.
Proof.
  intros [P1 (e1 & L1 & F1 & S1)] [P2 (e2 & L2 & F2 & S2)]. split; [congruence|].
  exists (e1 ++ e2). rewrite L2, L1, app_assoc, !fmap_app, Forall_app, list_sum_app.
  split_and!; [done..|lia].
Qed.

Lemma ran_mono perms n m w w' : (n ≤ m)%nat → ran perms n w w' → ran perms m w w'.
Proof.
  intros Hn [P (e & L & F & S)]. split; [done|]. exists e. split_and!; [done..|lia].
Qed.

(** Settling touches neither the permissions nor the queue. *)
Lemma settling_frame s e ts s' :
  record_settling_event s e ts Write = Done s' →
  st_permissions s' = st_permissions s ∧
  st_pending_settling_events s' = st_pending_settling_events s.
Proof. unfold record_settling_event. intros E. exec_inv. destruct x3. by exec_inv. Qed.

Lemma matching_frame s e ts s' :
  record_matching_event s e ts Write = Done s' → st_permissions s' = st_permissions s.
Proof. unfold record_matching_event. intros E. exec_inv. destruct x1. by exec_inv. Qed.

Lemma process_event_ran perms w p permit rt w' :
  process_event w p permit rt = Done w' → run_event perms p → ran perms (matched_orders p) w w'.
Proof.
  unfold process_event. intros E Hp. exec_inv. split; simpl.
  - destruct p; simpl in Hp; try done.
    + by apply settling_frame in H0 as [? _].
    + by apply matching_frame in H0.
  - eexists. split; [done|]. split; [by repeat constructor|]. simpl. lia.
Qed.

Lemma queue_world_ran perms w q : ran perms 0 w (MkWorld (set_pending_settling_events q (w_state w)) (w_log w)).
Proof. split; [done|]. exists []. split; [by rewrite app_nil_r|]. split; [constructor|simpl; lia]. Qed.

Lemma drain_loop_ran perms fuel rt budget : ∀ ex ex',
  drain_loop fuel rt budget ex = Done ex' → ran perms 0 (ex_world ex) (ex_world ex').
Proof.
  induction fuel as [|fuel IH]; intros ex ex' E; cbn [drain_loop] in E.
  { injection E as <-. apply ran_refl. }
  unfold under_budget in E. destruct (_ <? _); cbn [negb] in E;
    [|injection E as <-; apply ran_refl]. cbn [ex_world ex_reads] in E.
  unfold take_next_pending_settling_event in E.
  destruct (st_pending_settling_events (w_state (ex_world ex))) as [|e q] eqn:Eq.
  - injection E as <-. simpl. destruct (ex_world ex). apply ran_refl.
  - apply bind_Done in E as (w & E1 & E). apply (process_event_ran perms) in E1; [|done].
    apply IH in E. apply (ran_trans perms 0 0 _ w); [|done].
    apply (ran_trans perms 0 0 _ _ _ (queue_world_ran perms (ex_world ex) q) E1).
Qed.

(** Draining stops only with an empty queue or an exhausted instruction budget. *)
Lemma drain_loop_drains fuel rt budget : ∀ ex ex',
  (length (st_pending_settling_events (w_state (ex_world ex))) < fuel)%nat →
  drain_loop fuel rt budget ex = Done ex' →
  st_pending_settling_events (w_state (ex_world ex')) = [] ∨
  budget ≤ rt_instruction_counter rt (ex_reads ex' - 1).
Proof.
  induction fuel as [|fuel IH]; intros ex ex' Hf E; [lia|]. cbn [drain_loop] in E.
  unfold under_budget in E.
  destruct (Z.ltb_spec (rt_instruction_counter rt (ex_reads ex)) budget) as [Hb|Hb]; cbn [negb] in E.
  - cbn [ex_world ex_reads] in E. unfold take_next_pending_settling_event in E.
    destruct (st_pending_settling_events (w_state (ex_world ex))) as [|e q] eqn:Eq.
    + injection E as <-. by left.
    + apply bind_Done in E as (w & E1 & E). apply IH in E; [done|].
      unfold process_event in E1. exec_inv. apply settling_frame in H0 as [_ Hq]. simpl.
      rewrite Hq. simpl in *. lia.
  - injection E as <-. right. simpl. by rewrite Nat.sub_0_r.
Qed.

Lemma run_books_ran rt budget books : ∀ n ex ex',
  run_books rt budget n books ex = Done ex' →
  ran (st_permissions (w_state (ex_world ex))) n (ex_world ex) (ex_world ex').
Proof.
  induction books as [|id books IH]; intros n ex ex' E; cbn [run_books] in E.
  { injection E as <-. apply ran_refl. }
  destruct (n =? 0)%nat; [injection E as <-; apply ran_refl|].
  unfold under_budget in E. destruct (_ <? _); cbn [negb] in E;
    [|injection E as <-; apply ran_refl]. cbn [ex_world ex_reads] in E.
  unfold permit_matching in E.
  destruct (is_halted (st_permissions (w_state (ex_world ex))) id) eqn:Eh; [by apply IH in E|].
  apply bind_Done in E as (book & _ & E).
  destruct (take n (pending_order_seqs book)) as [|c cs] eqn:Ec; [by apply IH in E|].
  rewrite <-Ec in E. set (chunk := take n (pending_order_seqs book)) in *.
  apply bind_Done in E as (n' & En & E). apply bind_Done in E as (w & Ew & E).
  apply bind_Done in E as (ex1 & Ed & E).
  destruct (Nat.leb_spec (length chunk) n) as [Hl|Hl]; [|done]. injection En as <-.
  apply (process_event_ran (st_permissions (w_state (ex_world ex)))) in Ew;
    [|split; [done|by rewrite Ec]].
  apply (drain_loop_ran (st_permissions (w_state (ex_world ex)))) in Ed. apply IH in E.
  pose proof (ran_trans _ _ _ _ _ _ Ew Ed) as R. rewrite (rn_perms _ _ _ _ R) in E.
  eapply ran_mono; [|by apply (ran_trans _ _ _ _ _ _ R E)]. simpl. lia.
Qed.

Lemma run_once_ran rt w st w' :
  run_once rt w = Done (st, w') →
  ran (st_permissions (w_state w))
    (Z.to_nat (ep_max_orders_per_chunk (st_execution_policy (w_state w)))) w w' ∧
  st = status_from_state (w_state w').
Proof.
  unfold run_once. intros E. apply bind_Done in E as (ex & Ed & E).
  apply (drain_loop_ran (st_permissions (w_state w))) in Ed. simpl in Ed.
  unfold under_budget in E. apply bind_Done in E as (ex1 & E1 & E). injection E as <- <-.
  split; [|done]. cbn [ex_world ex_reads] in E1.
  apply (ran_trans _ 0 _ _ _ _ Ed).
  destruct (_ <? _); cbn [negb] in E1; [|injection E1 as <-; apply ran_refl].
  apply run_books_ran in E1. simpl in E1. by rewrite (rn_perms _ _ _ _ Ed) in E1.
Qed.

(** With instructions to spare the queue is empty between chunks. *)
Lemma drain_settling_drains rt (budget : u64) ex ex' :
  (∀ k, rt_instruction_counter rt k < budget) →
  drain_settling rt budget ex = Done ex' → st_pending_settling_events (w_state (ex_world ex')) = [].
Proof.
  intros Hb E. apply drain_loop_drains in E as [?|Hx]; [done| |lia].
  specialize (Hb (ex_reads ex' - 1)%nat). lia.
Qed.

(** Draining writes trades and balances, never the orders' records. *)
Lemma settling_orders s e ts s' :
  record_settling_event s e ts Write = Done s' → st_order_history s' = st_order_history s.
Proof. unfold record_settling_event. intros E. exec_inv. destruct x3. by exec_inv. Qed.

Lemma drain_loop_orders fuel rt budget : ∀ ex ex',
  drain_loop fuel rt budget ex = Done ex' →
  st_order_history (w_state (ex_world ex')) = st_order_history (w_state (ex_world ex)).
Proof.
  induction fuel as [|fuel IH]; intros ex ex' E; cbn [drain_loop] in E; [by injection E as <-|].
  unfold under_budget in E. destruct (_ <? _); cbn [negb] in E; [|by injection E as <-].
  unfold take_next_pending_settling_event in E.
  destruct (st_pending_settling_events _) as [|e rest]; [by injection E as <-|].
  apply bind_Done in E as (w & Ew & E). rewrite (IH _ _ E). unfold process_event in Ew.
  apply bind_Done in Ew as (s & Es & Ew). injection Ew as <-. cbn [apply_state_transition] in Es.
  exact (settling_orders _ _ _ _ Es).
Qed.

Lemma run_books_drained rt (budget : u64) books : ∀ n ex ex',
  (∀ k, rt_instruction_counter rt k < budget) →
  st_pending_settling_events (w_state (ex_world ex)) = [] →
  run_books rt budget n books ex = Done ex' →
  st_pending_settling_events (w_state (ex_world ex')) = [].
Proof.
  induction books as [|id books IH]; intros n ex ex' Hb Hq E; cbn [run_books] in E.
  { by injection E as <-. }
  destruct (n =? 0)%nat; [by injection E as <-|].
  unfold under_budget in E. destruct (_ <? _); cbn [negb] in E; [|by injection E as <-].
  cbn [ex_world ex_reads] in E. destruct (permit_matching _ id) as [permit|]; [|by apply IH in E].
  apply bind_Done in E as (book & _ & E).
  destruct (take n (pending_order_seqs book)) as [|c cs] eqn:Ec; [by apply IH in E|].
  apply bind_Done in E as (n' & _ & E). apply bind_Done in E as (w & _ & E).
  apply bind_Done in E as (ex1 & Ed & E). apply drain_settling_drains in Ed; [|done].
  by apply IH in E.
Qed.

Lemma run_once_drained rt w st w' :
  (∀ k, rt_instruction_counter rt k < ep_instruction_budget (st_execution_policy (w_state w))) →
  run_once rt w = Done (st, w') → st_pending_settling_events (w_state w') = [].
Proof.
  unfold run_once. intros Hb E. apply bind_Done in E as (ex & Ed & E).
  apply drain_settling_drains in Ed; [|done].
  unfold under_budget in E. apply bind_Done in E as (ex1 & E1 & E). injection E as _ <-.
  cbn [ex_world ex_reads] in E1. destruct (_ <? _); cbn [negb] in E1; [|by injection E1 as <-].
  by apply run_books_drained in E1.
Qed.
End executor_spec.
