(* ===== verification/InvExecutor.v ===== *)
(** * The executor never traps

    A run of the executor on a world that satisfies the invariant finishes,
    whatever the instruction counter reads, and leaves the invariant, the users,
    the guards and the supply of every token as they were. *)

From stdpp Require Import prelude gmap sorting.
From Stdlib Require Import ZArith Lia.
From S2P Require Import Prelude Word BTree Quantity Ids Fees OrderTypes.
From S2P Require Import SettlementSpec.
From S2P Require Import Tokens Balance WriteBack BalanceTotals OrderQueue.
From S2P Require Import OrderBook BookInv BookPending BookRound History.
From S2P Require Import OrderHistory UserRegistry Settlement Permissions.
From S2P Require Import PairMap Events State EventAudit Replay.
From S2P Require Import Accounting StateInv InvSettle InvBook InvMatch.
From S2P Require Import Executor ExecutorSpec.
Open Scope Z_scope.

Section inv_executor.
Context `{PrincipalType} `{!BiBTreeMap TradingPair OrderBookId}.
Implicit Types (s : State) (w : World) (k : OrderBookId) (ex : Exec).

(** The invariant between messages: every outstanding settlement is queued. *)
Definition world_inv (n : Z) w : Prop := core n (st_pending_settling_events (w_state w)) (w_state w).

(** The pending orders of a book. *)
Definition backlog s k : nat := from_option pending_orders_len 0%nat (st_order_books s !! k).

(** What matching and settling leave alone. *)
Record internal s s' : Prop := {
  in_registry : st_user_registry s' = st_user_registry s;
  in_ops : st_in_flight_user_ops s' = st_in_flight_user_ops s;
  in_tasks : st_active_tasks s' = st_active_tasks s;
  in_permissions : st_permissions s' = st_permissions s;
  in_policy : st_execution_policy s' = st_execution_policy s;
  in_mode : st_mode s' = st_mode s;
  in_books k : is_Some (st_order_books s' !! k) ↔ is_Some (st_order_books s !! k);
  in_backlog k : (backlog s' k ≤ backlog s k)%nat;
  in_supply t : state_supply t s' = state_supply t s;
  in_tokens : st_tokens s' = st_tokens s;
  in_pairs : st_trading_pairs s' = st_trading_pairs s
}.

#[export] Instance internal_preorder : PreOrder internal.
Proof.
  split.
  - intros s. split; try done; intros; lia.
  - intros s1 s2 s3 H1 H2. destruct H1 as [???????????], H2 as [?????? Hb Hk ???]. split; try congruence.
    + intros k. by rewrite Hb.
    + intros k. etrans; [apply Hk|done].
Qed.

Lemma settle_internal s tb h e ts :
  record_settling_event s e ts Write = Done (set_balances tb (set_trade_history h s)) →
  internal s (set_balances tb (set_trade_history h s)).
Proof.
  intros E. split; try done. intros t. by eapply record_settling_supply.
Qed.

(** ** Draining the settling queue *)

(** Settling an event that has been taken off the queue. *)
Lemma settle_now_core n Q w e permit rt :
  core n (e :: Q) (w_state w) → n < MAX_STEPS →
  ∃ w', process_event w (ESettling e) permit rt = Done w' ∧ core n Q (w_state w') ∧
    internal (w_state w) (w_state w') ∧
    st_pending_settling_events (w_state w') = st_pending_settling_events (w_state w) ∧
    st_order_books (w_state w') = st_order_books (w_state w) ∧
    st_order_history (w_state w') = st_order_history (w_state w).
Proof.
  intros Hc Hn. destruct (settle_core n e Q (w_state w) (rt_time rt) Hc Hn) as (tb & h & E & Hc').
  unfold process_event. cbn [apply_state_transition]. rewrite E. cbn [ebind].
  eexists. split; [done|]. split_and!; [done|by eapply settle_internal|done..].
Qed.

Lemma drain_loop_core fuel rt budget : ∀ n ex,
  world_inv n (ex_world ex) → n < MAX_STEPS →
  ∃ ex', drain_loop fuel rt budget ex = Done ex' ∧ world_inv n (ex_world ex') ∧
    internal (w_state (ex_world ex)) (w_state (ex_world ex')) ∧
    st_order_books (w_state (ex_world ex')) = st_order_books (w_state (ex_world ex)).
Proof.
  induction fuel as [|fuel IH]; intros n ex Hw Hn; simpl; [by exists ex|].
  destruct (negb _); [by eexists|]. unfold take_next_pending_settling_event.
  unfold world_inv in Hw. simpl.
  destruct (st_pending_settling_events (w_state (ex_world ex))) as [|e rest] eqn:Eq.
  { eexists. split; [done|]. split; [|done]. unfold world_inv. simpl. by rewrite Eq. }
  set (w1 := MkWorld (set_pending_settling_events rest (w_state (ex_world ex))) (w_log (ex_world ex))).
  match goal with |- context [process_event ?w0 _ ?permit rt] =>
    change w0 with w1;
    destruct (settle_now_core n rest w1 e permit rt) as (w' & E & Hc' & Hi & Hq & Hb & _) end.
  { eapply core_same; [|exact Hw]. done. } { done. }
  rewrite E. cbn [ebind].
  match goal with |- context [drain_loop fuel rt budget ?ex1] =>
    destruct (IH n ex1) as (ex' & E' & Hw' & Hi' & Hb') end.
  { unfold world_inv. simpl. by rewrite Hq. } { done. }
  exists ex'. split; [done|]. split_and!; [done| |rewrite Hb'; exact Hb].
  etrans; [|exact Hi']. etrans; [|exact Hi]. done.
Qed.

Lemma drain_settling_core n rt budget ex :
  world_inv n (ex_world ex) → n < MAX_STEPS →
  ∃ ex', drain_settling rt budget ex = Done ex' ∧ world_inv n (ex_world ex') ∧
    internal (w_state (ex_world ex)) (w_state (ex_world ex')) ∧
    st_order_books (w_state (ex_world ex')) = st_order_books (w_state (ex_world ex)).
Proof. apply drain_loop_core. Qed.

(** ** Matching *)

Lemma match_now_core n w k b c permit rt :
  world_inv n w → n < MAX_STEPS → st_order_books (w_state w) !! k = Some b →
  ∃ w' b', process_event w (EMatching (MkMatchingEvent k (take c (pending_order_seqs b)))) permit rt =
      Done w' ∧ world_inv n w' ∧ internal (w_state w) (w_state w') ∧
    st_order_books (w_state w') = <[k := b']> (st_order_books (w_state w)) ∧
    ob_pending_orders b' = drop c (ob_pending_orders b) ∧
    ∃ out, process_pending_orders b (take c (pending_order_seqs b)) = Done (out, b') ∧
      ∀ seq r, history_get (st_order_history (w_state w)) (MkCompositeId k seq) = Some r →
        ∃ r', history_get (st_order_history (w_state w')) (MkCompositeId k seq) = Some r' ∧
          same_order r r' ∧ or_status r' = default (or_status r) (status_in out seq).
Proof.
  intros Hw Hn Hb. destruct (match_core n _ (w_state w) k b c (rt_time rt) Hw Hn Hb)
    as (N & b' & h' & E & Hc & Hp & Hout).
  unfold process_event. cbn [apply_state_transition]. rewrite E. cbn [ebind].
  eexists _, b'. split; [done|]. split_and!; [exact Hc| |done|done|exact Hout].
  split; try done.
  - intros k0. simpl. destruct (decide (k0 = k)) as [->|Hne].
    + by rewrite lookup_insert_eq, Hb.
    + by rewrite lookup_insert_ne.
  - intros k0. unfold backlog. simpl. destruct (decide (k0 = k)) as [->|Hne].
    + rewrite lookup_insert_eq, Hb. simpl. unfold pending_orders_len. rewrite Hp, length_drop. lia.
    + by rewrite lookup_insert_ne.
Qed.

Lemma run_books_core rt budget books : ∀ n order_budget ex,
  world_inv n (ex_world ex) → n < MAX_STEPS →
  (∀ k, k ∈ books → is_Some (st_order_books (w_state (ex_world ex)) !! k)) →
  ∃ ex', run_books rt budget order_budget books ex = Done ex' ∧ world_inv n (ex_world ex') ∧
    internal (w_state (ex_world ex)) (w_state (ex_world ex')).
Proof.
  induction books as [|k books IH]; intros n order_budget ex Hw Hn Hk; simpl; [by exists ex|].
  destruct (order_budget =? 0)%nat; [by exists ex|]. destruct (negb _); [by eexists|].
  assert (Hrest : ∀ k', k' ∈ books → is_Some (st_order_books (w_state (ex_world ex)) !! k')).
  { intros. apply Hk. by right. }
  pose proof (IH n order_budget (MkExec (ex_world ex) (S (ex_reads ex))) Hw Hn Hrest) as Hskip.
  simpl. destruct (permit_matching _ k) as [permit|]; [|exact Hskip].
  destruct (Hk k ltac:(left)) as [b Hb]. rewrite Hb. cbn [expect ebind].
  destruct (take order_budget (pending_order_seqs b)) as [|x l] eqn:Ec; [exact Hskip|].
  rewrite <-Ec. rewrite (proj2 (Nat.leb_le _ _)) by (rewrite length_take; lia). cbn [ebind].
  destruct (match_now_core n (ex_world ex) k b order_budget (PermitSync permit) rt Hw Hn Hb)
    as (w1 & b' & E & Hw1 & Hi1 & Hb1 & _). rewrite E. cbn [ebind].
  match goal with |- context [drain_settling rt budget ?ex1] =>
    destruct (drain_settling_core n rt budget ex1 Hw1 Hn) as (ex2 & E2 & Hw2 & Hi2 & Hb2) end.
  rewrite E2. cbn [ebind]. simpl in Hi2.
  match goal with |- context [run_books rt budget ?m books ex2] =>
    destruct (IH n m ex2) as (ex' & E' & Hw' & Hi') end; [done|done| |].
  { intros k' Hin. apply (in_books _ _ Hi2), (in_books _ _ Hi1). by apply Hrest. }
  exists ex'. split; [done|]. split; [done|]. etrans; [exact Hi1|]. by etrans.
Qed.

Lemma books_listed s k : k ∈ books_by_pending_order_count_desc s → is_Some (st_order_books s !! k).
Proof.
  unfold books_by_pending_order_count_desc. intros Hin.
  apply list_elem_of_fmap in Hin as ([k0 m] & -> & Hin). simpl.
  rewrite merge_sort_Permutation in Hin. apply list_elem_of_filter in Hin as [_ Hin].
  apply list_elem_of_fmap in Hin as ([k1 b] & E & Hin). injection E as -> ->.
  apply btree_iter_elem in Hin. by rewrite Hin.
Qed.

Lemma run_once_core n rt w :
  world_inv n w → n < MAX_STEPS →
  ∃ st w', run_once rt w = Done (st, w') ∧ world_inv n w' ∧ internal (w_state w) (w_state w').
Proof.
  intros Hw Hn. unfold run_once.
  destruct (drain_settling_core n rt (nzval (ep_instruction_budget (st_execution_policy (w_state w))))
    (MkExec w 0) Hw Hn) as (ex1 & -> & Hw1 & Hi1 & _). cbn [ebind]. simpl.
  destruct (negb _); cbn [ebind]; [by eexists _, _|].
  match goal with |- context [run_books rt ?bu ?ob ?bs ?ex] =>
    destruct (run_books_core rt bu bs n ob ex Hw1 Hn) as (ex2 & E & Hw2 & Hi2) end.
  { apply books_listed. }
  rewrite E. cbn [ebind]. eexists _, _. split; [done|]. split; [done|]. by etrans.
Qed.
End inv_executor.
