(* ===== verification/Ledger.v ===== *)
(** * Ledger transfers (src/canister/src/ledger/mod.rs)

    The token ledgers are other canisters: what a call to one returns is a
    parameter. [deposit_call] is the [icrc2_transfer_from] call of a deposit and
    [ledger_deposit] maps its reply; [ledger_withdraw] makes the one or two
    [icrc1_transfer] calls and returns them next to its outcome. *)

From stdpp Require Import prelude gmap.
From Stdlib Require Import ZArith NArith Lia.
From S2P Require Import Prelude Word BTree Bytes Quantity QuantityCodec Ids.
From S2P Require Import OrderTypes Tokens Events History OrderHistory ApiErrors Api.

(** What a call gives: it failed, its reply did not decode, or it replied. *)
Inductive CallReply (A : Type) : Type :=
| CallFails (reason : list u8)
| CandidDecodeFails (reason : list u8)
| Replied (a : A).
Arguments CallFails {A} reason.
Arguments CandidDecodeFails {A} reason.
Arguments Replied {A} a.

(** Subtraction of [Nat]s panics below zero. *)
Definition nat_sub (a b : N) : exec N := if (b <=? a)%N then Done (a - b)%N else Trap.

Section ledger.
Context `{PrincipalType} `{BigUint}.

(** ** Deposits *)

(** The arguments of [icrc2_transfer_from]: no subaccounts, fee, memo or time. *)
Record TransferFromArgs : Type := MkTransferFromArgs {
  tf_from : Principal;
  tf_to : Principal;
  tf_amount : N
}.

(** The ledger called and the transfer asked for. *)
Definition deposit_call (token : TokenId) (amount : Quantity) (runtime : Runtime) :
    Principal * TransferFromArgs :=
  (ledger_id token,
   MkTransferFromArgs (rt_msg_caller runtime) (rt_canister_self runtime) (to_nat amount)).

Definition to_ledger_error (e : TransferFromError) : DepositError :=
  match e with
  | TFInsufficientFunds balance => request_error (DepositInsufficientFunds balance)
  | TFInsufficientAllowance allowance => request_error (DepositInsufficientAllowance allowance)
  | TFTemporarilyUnavailable => temporary_error DepositLedgerTemporarilyUnavailable
  | TFBadFee _ | TFBadBurn | TFCreatedInFuture | TFDuplicate | TFGenericError | TFTooOld =>
      internal_error (DepositLedgerError e)
  end.

(** [ledger::deposit], given the reply. *)
Definition ledger_deposit (token : TokenId) (reply : CallReply (result N TransferFromError)) :
    result DepositResponse DepositError :=
  match reply with
  | CallFails reason => Err (temporary_error (DepositCallFailed (ledger_id token) reason))
  | CandidDecodeFails reason =>
      Err (internal_error (DepositCandidDecodeFailed (ledger_id token) reason))
  | Replied (Err e) => Err (to_ledger_error e)
  | Replied (Ok block_index) => Ok (MkDepositResponse block_index)
  end.

(** ** Withdrawals *)

Inductive Icrc1TransferError : Type :=
| BadFee (expected_fee : N)
| OtherError (e : WithdrawError).

Record WithdrawOutcome : Type := MkWithdrawOutcome {
  wo_result : result WithdrawResponse WithdrawError;
  wo_ledger_fee : option N
}.

(** [unreachable!] on [BadFee]. *)
Definition to_ledger_transfer_error (e : TransferError) : exec WithdrawError :=
  match e with
  | TEInsufficientFunds balance => Done (internal_error (WithdrawLedgerInsufficientFunds balance))
  | TETemporarilyUnavailable => Done (temporary_error WithdrawLedgerTemporarilyUnavailable)
  | TEBadFee _ => Trap
  | TEBadBurn | TECreatedInFuture | TEDuplicate | TEGenericError | TETooOld =>
      Done (internal_error (WithdrawLedgerError e))
  end.

(** A call of [icrc1_transfer]: the ledger, the recipient, the amount and the fee
    offered. *)
Record TransferCall : Type := MkTransferCall {
  tc_ledger : Principal;
  tc_to : Principal;
  tc_amount : N;
  tc_fee : N
}.

Definition icrc1_transfer (call : TransferCall) (reply : CallReply (result N TransferError)) :
    exec (result WithdrawResponse Icrc1TransferError) :=
  match reply with
  | CallFails reason =>
      Done (Err (OtherError (temporary_error (WithdrawCallFailed (tc_ledger call) reason))))
  | CandidDecodeFails reason =>
      Done (Err (OtherError (internal_error (WithdrawCandidDecodeFailed (tc_ledger call) reason))))
  | Replied (Ok block_index) => Done (Ok (MkWithdrawResponse block_index))
  | Replied (Err (TEBadFee expected_fee)) => Done (Err (BadFee expected_fee))
  | Replied (Err e) =>
      let! e := to_ledger_transfer_error e in
      Done (Err (OtherError e))
  end.

(** [ledger k c] is the reply to the [k]-th call, [c]. *)
Definition ledger_withdraw (token : TokenId) (to : Principal) (amount : Quantity) (cached_fee : N)
    (ledger : nat → TransferCall → CallReply (result N TransferError)) :
    exec (WithdrawOutcome * list TransferCall) :=
  let amount := to_nat amount in
  let! most := nat_sub amount 1 in
  let capped_fee := N.min cached_fee most in
  let! transfer_amount := nat_sub amount capped_fee in
  let call := MkTransferCall (ledger_id token) to transfer_amount capped_fee in
  let! response := icrc1_transfer call (ledger 0%nat call) in
  match response with
  | Ok response => Done (MkWithdrawOutcome (Ok response) None, [call])
  | Err (BadFee expected_fee) =>
      if (amount <=? expected_fee)%N then
        Done (MkWithdrawOutcome
                (Err (request_error (WithdrawAmountTooSmall (expected_fee + 1)%N)))
                (Some expected_fee), [call])
      else
        let! retry_transfer_amount := nat_sub amount expected_fee in
        let retry := MkTransferCall (ledger_id token) to retry_transfer_amount expected_fee in
        let! response := icrc1_transfer retry (ledger 1%nat retry) in
        Done (match response with
              | Ok response => MkWithdrawOutcome (Ok response) (Some expected_fee)
              | Err (BadFee latest_fee) =>
                  MkWithdrawOutcome (Err (temporary_error WithdrawLedgerFeeChanged)) (Some latest_fee)
              | Err (OtherError e) => MkWithdrawOutcome (Err e) (Some expected_fee)
              end, [call; retry])
  | Err (OtherError e) => Done (MkWithdrawOutcome (Err e) None, [call])
  end.

(** ** What the ledger is asked for *)

Lemma ledger_deposit_Ok token reply response :
  ledger_deposit token reply = Ok response → reply = Replied (Ok (dr_block_index response)).
Proof. destruct reply as [| |[b|[]]]; simpl; intros [=]; by subst. Qed.

Lemma icrc1_transfer_total call reply : ∃ r, icrc1_transfer call reply = Done r.
Proof. destruct reply as [| |[b|[]]]; simpl; eauto. Qed.

Lemma icrc1_transfer_Ok call reply response :
  icrc1_transfer call reply = Done (Ok response) → reply = Replied (Ok (wr_block_index response)).
Proof. destruct reply as [| |[b|[]]]; simpl; intros [=]; by subst. Qed.

Lemma icrc1_transfer_BadFee call reply fee :
  icrc1_transfer call reply = Done (Err (BadFee fee)) → reply = Replied (Err (TEBadFee fee)).
Proof. destruct reply as [| |[b|[]]]; simpl; intros [=]; by subst. Qed.

(** A transfer of a withdrawal: to the caller, on the token's ledger, for the
    amount withdrawn less the fee. *)
Definition pays (token : TokenId) (to : Principal) (amount : Quantity) (c : TransferCall) : Prop :=
  tc_ledger c = ledger_id token ∧ tc_to c = to ∧
  Z.of_N (tc_amount c + tc_fee c) = qval amount ∧ (0 < tc_amount c)%N.

Lemma ledger_withdraw_spec token to amount cached_fee ledger :
  0 < qval amount →
  ∃ outcome calls, ledger_withdraw token to amount cached_fee ledger = Done (outcome, calls) ∧
    (1 ≤ length calls ≤ 2)%nat ∧
    Forall (pays token to amount) calls ∧
    (∀ response, wo_result outcome = Ok response →
       ∃ c, last calls = Some c ∧
         ledger (length calls - 1)%nat c = Replied (Ok (wr_block_index response))) ∧
    (∀ fee, wo_ledger_fee outcome = Some fee →
       ∃ k c, calls !! k = Some c ∧
         (ledger k c = Replied (Err (TEBadFee fee)))).
Proof.
  intros Ha. unfold ledger_withdraw. pose proof (to_nat_val amount) as Ea.
  set (a := to_nat amount) in *.
  assert (Hpos : (0 < a)%N) by lia.
  unfold nat_sub at 1. rewrite (proj2 (N.leb_le 1 a)) by lia. cbn [ebind].
  set (fee := N.min cached_fee (a - 1)).
  assert (Hfee : (fee < a)%N) by lia.
  unfold nat_sub at 1. rewrite (proj2 (N.leb_le fee a)) by lia. cbn [ebind].
  set (c := MkTransferCall (ledger_id token) to (a - fee) fee).
  assert (Hc : pays token to amount c) by (split_and!; [done|done|simpl; lia|simpl; lia]).
  destruct (icrc1_transfer_total c (ledger 0%nat c)) as [r1 E1]. rewrite E1. cbn [ebind].
  destruct r1 as [b|[f|e]].
  - exists (MkWithdrawOutcome (Ok b) None), [c].
    split; [done|]. split; [simpl; lia|]. split; [by constructor|]. split; [|done].
    intros b' [= <-]. exists c. split; [done|]. by eapply icrc1_transfer_Ok.
  - pose proof (icrc1_transfer_BadFee _ _ _ E1) as Eb.
    destruct (N.leb_spec a f) as [Hle|Hlt].
    + eexists _, [c]. split; [done|]. split; [simpl; lia|]. split; [by constructor|].
      split; [done|]. intros f' [= <-]. by exists 0%nat, c.
    + unfold nat_sub. rewrite (proj2 (N.leb_le f a)) by lia. cbn [ebind].
      set (c2 := MkTransferCall (ledger_id token) to (a - f) f).
      assert (Hc2 : pays token to amount c2) by (split_and!; [done|done|simpl; lia|simpl; lia]).
      destruct (icrc1_transfer_total c2 (ledger 1%nat c2)) as [r2 E2]. rewrite E2. cbn [ebind].
      eexists _, [c; c2]. split; [done|]. split; [simpl; lia|]. split; [constructor; [done|]; by constructor|].
      destruct r2 as [b|[f2|e]]; (split; [intros b' [= <-] || done|]); simpl.
      * exists c2. split; [done|]. by eapply icrc1_transfer_Ok.
      * intros f' [= <-]. by exists 0%nat, c.
      * intros f' [= <-]. exists 1%nat, c2. split; [done|]. by eapply icrc1_transfer_BadFee.
      * intros f' [= <-]. by exists 0%nat, c.
  - eexists _, [c]. split; [done|]. split; [simpl; lia|]. split; [by constructor|]. by split.
Qed.
End ledger.
