(* ===== verification/Endpoints.v ===== *)
(** * The update endpoints (src/canister/src/lib.rs)

    Each handler takes the world and the runtime of its message. [deposit] and
    [withdraw] await a ledger: they are split at the await into the part before
    it, which takes the in-flight guard, and the part after it, which receives the
    reply and drops the guard. Any other message can run in between. *)

From stdpp Require Import prelude gmap.
From Stdlib Require Import ZArith NArith Lia.
From S2P Require Import Prelude Word BTree Bytes Quantity QuantityCodec.
From S2P Require Import Ids Fees OrderTypes Tokens Balance WriteBack.
From S2P Require Import OrderBook History OrderHistory UserRegistry.
From S2P Require Import Settlement Permissions PairMap Events.
From S2P Require Import State EventAudit ApiErrors Api Ledger.

(** [u128::try_from(&BigUint)] and [u64::try_from]. *)
Definition u128_try_from (n : N) : option u128 := checked 128 (Z.of_N n).
Definition u64_try_from (n : N) : option u64 := checked 64 (Z.of_N n).

Definition MAX_HALT_BOOKS : nat := 100.

Section endpoints.
Context `{PrincipalType} `{!BiBTreeMap TradingPair OrderBookId} `{BigUint}.

(** ** Orders *)

(** [TryFrom<LimitOrderRequest> for PendingOrder]. *)
Definition pending_try_from (request : LimitOrderRequest) : result PendingOrder QuantityOverflowError :=
  match u128_try_from (lr_price request) with
  | None => Err MkQuantityOverflowError
  | Some price =>
      match try_from_nat (lr_quantity request) with
      | Err e => Err e
      | Ok quantity =>
          Ok (MkPendingOrder (side_from (lr_side request)) price quantity
                (default GoodTilCanceled (tif_from <$> lr_time_in_force request)))
      end
  end.

(** [From<AddLimitOrderError>] of state/mod.rs. *)
Definition to_api_error (err : AddLimitOrderError) : AddLimitOrderApiError :=
  match err with
  | AmountExceedsMaximum => request_error ApiAmountExceedsMaximum
  | UnknownTradingPair => request_error ApiUnknownTradingPair
  | InvalidOrder (InvalidTickSize price tick_size) =>
      request_error (ApiInvalidPrice (nat_of_price price) (nat_of_tick tick_size))
  | InvalidOrder (InvalidLotSize quantity lot_size) =>
      request_error (ApiInvalidQuantity (to_nat quantity) (nat_of_lot lot_size))
  | InsufficientBalance token available required =>
      request_error (ApiInsufficientBalance (api_token_id token) (to_nat available) (to_nat required))
  | InvalidNotional e =>
      request_error (ApiInvalidNotional (to_nat (ne_notional e)) (to_nat (ne_min e))
                       (to_nat <$> ne_max e))
  | OrderTradingHalted => temporary_error ApiTradingHalted
  end.

(** [From<UnauthorizedError> for AddLimitOrderError]. *)
Definition unauthorized_order (e : UnauthorizedError) : exec AddLimitOrderError :=
  match e with TradingHalted => Done OrderTradingHalted | NotController => Trap end.

(** [(caller != owner).then_some(caller)]. *)
Definition acting_caller (caller owner : Principal) : option Principal :=
  if bool_decide (caller ≠ owner) then Some caller else None.

Definition add_limit_order (w : World) (request : LimitOrderRequest) (runtime : Runtime) :
    exec (result (list u8) AddLimitOrderApiError * World) :=
  let s := w_state w in
  let! _ := assert_caller_is_allowed s runtime in
  let caller := rt_msg_caller runtime in
  let owner := effective_account s caller in
  let placed_by := acting_caller caller owner in
  match pending_try_from request with
  | Err _ => Done (Err (request_error ApiAmountExceedsMaximum), w)
  | Ok pending =>
      let! validated := validate_limit_order s owner (pair_from (lr_pair request)) pending in
      match validated with
      | Err e => Done (Err (to_api_error e), w)
      | Ok (order_id, order) =>
          match permit_trading (st_permissions s) owner (book_id order_id) with
          | Err e =>
              let! e := unauthorized_order e in
              Done (Err (to_api_error e), w)
          | Ok permit =>
              let event := MkAddLimitOrderEvent owner order_id (o_side order) (o_price order)
                (o_remaining order) (o_tif order) placed_by in
              let! w := process_event w (EAddLimitOrder event) (PermitSync permit) runtime in
              Done (Ok (to_string order_id), w)
          end
      end
  end.

(** [From<CancelLimitOrderError>] of state/mod.rs. *)
Definition cancel_api_error (err : CancelLimitOrderError) : CancelLimitOrderApiError :=
  request_error match err with
                | OrderNotFound => ApiOrderNotFound
                | NotOrderOwner => ApiNotOrderOwner
                | OrderAlreadyTerminal => ApiOrderAlreadyTerminal
                end.

Definition cancel_limit_order_endpoint (w : World) (order_id : list u8) (runtime : Runtime) :
    exec (result ApiOrderRecord CancelLimitOrderApiError * World) :=
  let s := w_state w in
  let! _ := assert_caller_is_allowed s runtime in
  let caller := rt_msg_caller runtime in
  let owner := effective_account s caller in
  let canceled_by := acting_caller caller owner in
  match (from_str order_id : result OrderId ParseFixedWithIdError) with
  | Err _ => Done (Err (request_error ApiInvalidOrderId), w)
  | Ok id =>
      let! (r, w) := cancel_limit_order w owner canceled_by id runtime in
      match r with
      | Err e => Done (Err (cancel_api_error e), w)
      | Ok record => Done (Ok (api_order_record record), w)
      end
  end.

(** ** Trading accounts *)

(** [From<AddTradingAccountError>] and [From<RemoveTradingAccountError>] of
    state/mod.rs: several reasons collapse into one public leaf. *)
Definition add_account_api_error (err : AddTradingAccountError) : AddTradingAccountApiError :=
  match err with
  | AddGranterNotRegistered => RequestError (Some ApiFundingAccountNotFound)
  | AddGranterIsTradingAccount => RequestError (Some ApiFundingAccountNotFound)
  | AddSelfGrant => RequestError (Some ApiInvalidTradingAccount)
  | AddNonAuthenticatingTradingAccount => RequestError (Some ApiNonAuthenticatingTradingAccount)
  | AddAlreadyRegisteredUser => RequestError (Some ApiInvalidTradingAccount)
  | AddAlreadyTradingAccount => RequestError (Some ApiAlreadyTradingAccount)
  | AddTooManyTradingAccounts =>
      RequestError (Some (ApiTooManyTradingAccounts
        (mk_uint 32 (Z.of_nat MAX_TRADING_ACCOUNTS_PER_USER))))
  | AddFundingOperationInProgress => TemporaryError (Some ApiFundingOperationInProgress)
  | AddCooldownActive retry_after_ns => TemporaryError (Some (ApiRateLimit retry_after_ns))
  end.

Definition remove_account_api_error (err : RemoveTradingAccountError) : RemoveTradingAccountApiError :=
  match err with RemoveNotAllowed => request_error ApiNotAllowed end.

Definition add_trading_account (w : World) (trading : Principal) (runtime : Runtime) :
    exec (result unit AddTradingAccountApiError * World) :=
  let s := w_state w in
  let! _ := assert_caller_is_allowed s runtime in
  let funding := MkFundingAccount (rt_msg_caller runtime) in
  let trading := MkTradingAccount trading in
  match state_validate_add_trading_account s funding trading (rt_time runtime) with
  | Err e => Done (Err (add_account_api_error e), w)
  | Ok _ =>
      let permit := permit_add_trading_account (st_permissions s) in
      let! w := process_event w (EAddTradingAccount (MkAddTradingAccountEvent funding trading))
        (PermitSync permit) runtime in
      Done (Ok (), w)
  end.

Definition remove_trading_account (w : World) (trading : Principal) (runtime : Runtime) :
    exec (result unit RemoveTradingAccountApiError * World) :=
  let s := w_state w in
  let! _ := assert_caller_is_allowed s runtime in
  let funding := MkFundingAccount (rt_msg_caller runtime) in
  let trading := MkTradingAccount trading in
  match state_validate_remove_trading_account s funding trading with
  | Err e => Done (Err (remove_account_api_error e), w)
  | Ok _ =>
      let permit := permit_remove_trading_account (st_permissions s) in
      let! w := process_event w (ERemoveTradingAccount (MkRemoveTradingAccountEvent funding trading))
        (PermitSync permit) runtime in
      Done (Ok (), w)
  end.

(** ** Deposits *)

(** [UserOpGuard::new] and its [Drop]. *)
Definition user_op_guard_new (s : State) (caller : Principal) (token : TokenId) : option State :=
  if bool_decide ((caller, token) ∈ st_in_flight_user_ops s) then None
  else Some (set_in_flight_user_ops ({[(caller, token)]} ∪ st_in_flight_user_ops s) s).
Definition user_op_guard_drop (s : State) (caller : Principal) (token : TokenId) : State :=
  set_in_flight_user_ops (st_in_flight_user_ops s ∖ {[(caller, token)]}) s.

Definition is_trading_account (s : State) (caller : Principal) : bool :=
  match registry_lookup (st_user_registry s) caller with Some (Trading _ _) => true | _ => false end.

(** What a suspended deposit or withdrawal holds across the await. *)
Record PendingFunding : Type := MkPendingFunding {
  pf_caller : Principal;
  pf_token : TokenId;
  pf_amount : Quantity;
  pf_permit : PreAsyncPermit
}.

(** [deposit] up to the ledger call, with the call it makes. *)
Definition deposit_begin (w : World) (request : DepositRequest) (runtime : Runtime) :
    exec (result (PendingFunding * (Principal * TransferFromArgs)) DepositError * World) :=
  let s := w_state w in
  let! _ := assert_caller_is_allowed s runtime in
  match try_from_nat (dr_amount request) with
  | Err _ => Done (Err (request_error DepositAmountExceedsMaximum), w)
  | Ok amount =>
      let token_id := token_from (dr_token_id request) in
      if negb (is_known_token s token_id)
      then Done (Err (request_error (DepositUnsupportedToken (dr_token_id request))), w) else
      let caller := rt_msg_caller runtime in
      match permit_deposit (st_permissions s) caller (is_trading_account s caller) with
      | Err TradingAccountForbidden => Done (Err (request_error DepositTradingAccountForbidden), w)
      | Ok pre =>
          match user_op_guard_new s caller token_id with
          | None => Done (Err (temporary_error DepositOperationInProgress), w)
          | Some s' =>
              let existing := get_balance s' caller token_id in
              match (let? held := checked_add (free existing) (reserved existing) in
                     checked_add held amount) with
              | None =>
                  Done (Err (request_error DepositAmountExceedsMaximum),
                        MkWorld (user_op_guard_drop s' caller token_id) (w_log w))
              | Some _ =>
                  Done (Ok (MkPendingFunding caller token_id amount pre,
                            deposit_call token_id amount runtime),
                        MkWorld s' (w_log w))
              end
          end
      end
  end.

(** [deposit] after the ledger call. *)
Definition deposit_end (w : World) (pf : PendingFunding)
    (reply : CallReply (result N TransferFromError)) (runtime : Runtime) :
    exec (result DepositResponse DepositError * World) :=
  let! (r, w) :=
    match ledger_deposit (pf_token pf) reply with
    | Err e => Done (Err e, w)
    | Ok response =>
        let event := MkDepositEvent (pf_caller pf) (pf_token pf) (pf_amount pf) in
        let post := reconcile (pf_permit pf) in
        let! w := process_event w (EDeposit event) (PermitAsync post) runtime in
        Done (Ok response, w)
    end in
  Done (r, MkWorld (user_op_guard_drop (w_state w) (pf_caller pf) (pf_token pf)) (w_log w)).

(** ** Withdrawals *)

(** [withdraw] up to the ledger calls, with the cached fee they start from. *)
Definition withdraw_begin (w : World) (request : WithdrawRequest) (runtime : Runtime) :
    exec (result (PendingFunding * N) WithdrawError * World) :=
  let s := w_state w in
  let! _ := assert_caller_is_allowed s runtime in
  match try_from_nat (wr_amount request) with
  | Err _ => Done (Err (request_error WithdrawAmountExceedsMaximum), w)
  | Ok amount =>
      let token_id := token_from (wr_token_id request) in
      if negb (is_known_token s token_id)
      then Done (Err (request_error (WithdrawUnsupportedToken (wr_token_id request))), w) else
      let cached_fee := get_cached_ledger_fee s token_id in
      if is_zero amount
      then Done (Err (request_error (WithdrawAmountTooSmall (cached_fee + 1)%N)), w) else
      let caller := rt_msg_caller runtime in
      match permit_withdraw (st_permissions s) caller (is_trading_account s caller) with
      | Err TradingAccountForbidden => Done (Err (request_error WithdrawTradingAccountForbidden), w)
      | Ok pre =>
          match user_op_guard_new s caller token_id with
          | None => Done (Err (temporary_error WithdrawOperationInProgress), w)
          | Some s' =>
              let! (r, s'') := state_withdraw s' caller token_id amount in
              match r with
              | Err e =>
                  Done (Err (request_error (WithdrawInsufficientBalance (to_nat (available e)))),
                        MkWorld (user_op_guard_drop s'' caller token_id) (w_log w))
              | Ok _ =>
                  Done (Ok (MkPendingFunding caller token_id amount pre, cached_fee),
                        MkWorld s'' (w_log w))
              end
          end
      end
  end.

(** [withdraw] after the ledger calls. *)
Definition withdraw_end (w : World) (pf : PendingFunding) (outcome : WithdrawOutcome)
    (runtime : Runtime) : exec (result WithdrawResponse WithdrawError * World) :=
  let s := match wo_ledger_fee outcome with
           | Some fee => set_cached_ledger_fee (w_state w) (pf_token pf) fee
           | None => w_state w
           end in
  let w := MkWorld s (w_log w) in
  let! (r, w) :=
    match wo_result outcome with
    | Ok response =>
        let! block := expect (u64_try_from (wr_block_index response)) in
        let event := MkWithdrawEvent block (pf_caller pf) (pf_token pf) (pf_amount pf) in
        let post := reconcile (pf_permit pf) in
        Done (Ok response, record_event w (EWithdraw event) (PermitAsync post) runtime)
    | Err e =>
        let! s := state_deposit (w_state w) (pf_caller pf) (pf_token pf) (pf_amount pf) Write in
        Done (Err e, MkWorld s (w_log w))
    end in
  Done (r, MkWorld (user_op_guard_drop (w_state w) (pf_caller pf) (pf_token pf)) (w_log w)).

(** ** Administration *)

(** The checks of [add_trading_pair] that do not read the state. *)
Definition parse_trading_pair (request : AddTradingPairRequest) :
    result (TickSize * LotSize * FeeRates * Quantity * option Quantity) AddTradingPairError :=
  if bool_decide (at_id (tr_base request) = at_id (tr_quote request)) then Err BaseEqualsQuote else
  match u128_try_from (tr_tick_size request) ≫= nz_new with
  | None => Err InvalidTickSizeParam
  | Some tick_size =>
  match u64_try_from (tr_lot_size request) ≫= nz_new with
  | None => Err InvalidLotSizeParam
  | Some lot_size =>
  match BasisPoint_new (tr_maker_fee_bps request) with
  | Err _ => Err (PairInvalidBasisPoint (tr_maker_fee_bps request))
  | Ok maker =>
  match BasisPoint_new (tr_taker_fee_bps request) with
  | Err _ => Err (PairInvalidBasisPoint (tr_taker_fee_bps request))
  | Ok taker =>
      let invalid_notional :=
        Err (InvalidNotionalBounds (tr_min_notional request) (tr_max_notional request)) in
      match try_from_nat (tr_min_notional request) with
      | Err _ => invalid_notional
      | Ok min_notional =>
          if is_zero min_notional then invalid_notional else
          match tr_max_notional request with
          | None => Ok (tick_size, lot_size, MkFeeRates maker taker, min_notional, None)
          | Some max =>
              match try_from_nat max with
              | Err _ => invalid_notional
              | Ok max =>
                  if q_ltb max min_notional then invalid_notional
                  else Ok (tick_size, lot_size, MkFeeRates maker taker, min_notional, Some max)
              end
          end
      end
  end end end end.

(** The error [check_token_metadata_consistency] answers with. *)
Definition inconsistent_metadata (e : InconsistentTokenMetadata) : AddTradingPairError :=
  PairInconsistentTokenMetadata (api_token_id (itm_token e)) (api_metadata (itm_expected e))
    (api_metadata (itm_submitted e)).

Definition add_trading_pair (w : World) (request : AddTradingPairRequest) (runtime : Runtime) :
    exec (result unit AddTradingPairError * World) :=
  let s := w_state w in
  if negb (rt_is_controller runtime (rt_msg_caller runtime))
  then Done (Err PairNotController, w) else
  match parse_trading_pair request with
  | Err e => Done (Err e, w)
  | Ok (tick_size, lot_size, fee_rates, min_notional, max_notional) =>
      let trading_pair := MkTradingPair (token_from (at_id (tr_base request)))
        (token_from (at_id (tr_quote request))) in
      if has_trading_pair s trading_pair then Done (Err TradingPairAlreadyExists, w) else
      let base_metadata := metadata_from (at_metadata (tr_base request)) in
      let quote_metadata := metadata_from (at_metadata (tr_quote request)) in
      match check_token_metadata_consistency s (base trading_pair) base_metadata with
      | Err e => Done (Err (inconsistent_metadata e), w)
      | Ok _ =>
      match check_token_metadata_consistency s (quote trading_pair) quote_metadata with
      | Err e => Done (Err (inconsistent_metadata e), w)
      | Ok _ =>
      match pow10_u64 (decimals base_metadata) with
      | None => Done (Err (BaseDecimalsTooLarge (decimals base_metadata)), w)
      | Some base_scale =>
          let! tick_lot := expect (checked_mul_u64 (from_u128 tick_size) lot_size) in
          let! (_, remainder) := expect (checked_div_rem_u64 tick_lot base_scale) in
          if negb (remainder =? 0)
          then Done (Err (IndivisibleTickLotForBaseDecimals (nat_of_tick tick_size)
                            (nat_of_lot lot_size) (decimals base_metadata)), w)
          else
            let event := MkAddTradingPairEvent (st_next_book_id s) (base trading_pair)
              (quote trading_pair) tick_size lot_size base_metadata quote_metadata fee_rates
              min_notional max_notional in
            let permit := permit_add_trading_pair (st_permissions s) in
            let! w := process_event w (EAddTradingPair event) (PermitSync permit) runtime in
            Done (Ok (), w)
      end end end
  end.

Definition set_halt (w : World) (pairs : option (list ApiTradingPair)) (halted : bool)
    (runtime : Runtime) : exec (result unit ApiUnauthorizedError * World) :=
  let s := w_state w in
  if negb (rt_is_controller runtime (rt_msg_caller runtime)) then Done (Err ApiNotController, w) else
  let! book_ids :=
    match pairs with
    | None => Done None
    | Some pairs =>
        if (MAX_HALT_BOOKS <? length pairs)%nat then Trap else
        let! ids := exec_map (λ p, expect (get_book_id (st_trading_pairs s) (pair_from p))) pairs in
        Done (Some ids)
    end in
  let permit := permit_admin (st_permissions s) in
  let! w := process_event w (ESetHalt (MkSetHaltEvent book_ids halted)) (PermitSync permit) runtime in
  Done (Ok (), w).

Definition halt_trading (w : World) (pairs : option (list ApiTradingPair)) (runtime : Runtime) :
    exec (result unit ApiUnauthorizedError * World) := set_halt w pairs true runtime.
Definition resume_trading (w : World) (pairs : option (list ApiTradingPair)) (runtime : Runtime) :
    exec (result unit ApiUnauthorizedError * World) := set_halt w pairs false runtime.
End endpoints.
