(* ===== verification/EventSize.v ===== *)
(** * The size of events in stable memory (src/canister/src/test_fixtures/event.rs)

    Events are stored forever: the sources keep, for each kind of event, a worst
    case and its size in bytes. Here the encoding is RFC 8949's, and principals are
    byte strings of at most 29 bytes. *)

From stdpp Require Import prelude gmap.
From Stdlib Require Import ZArith Lia.
From S2P Require Import Prelude Word BTree Text Bytes Cbor Quantity QuantityCodec.
From S2P Require Import Ids Fees OrderTypes Tokens Balance WriteBack.
From S2P Require Import OrderBook BookSnapshot History OrderHistory UserRegistry.
From S2P Require Import Settlement Permissions PairMap Events State Snapshot Codecs.
From S2P Require Import EventAudit Storage Ledger Endpoints.
Open Scope Z_scope.

#[local] Existing Instance Rfc8949.minicbor.

(** ** The size of an item *)

Definition head_size (n : Z) : Z :=
  if n <? 24 then 1 else if n <? 2 ^ 8 then 2 else if n <? 2 ^ 16 then 3
  else if n <? 2 ^ 32 then 5 else 9.
Definition lenZ {A} (l : list A) : Z := Z.of_nat (length l).

Fixpoint item_size (c : cbor) : Z :=
  match c with
  | CUint n => head_size n
  | CBytes bs | CText bs => head_size (lenZ bs) + lenZ bs
  | CArray items =>
      head_size (lenZ items) +
      sum_over (λ x, match x with Some c => item_size c | None => 1 end) items
  | CTag t c => head_size t + item_size c
  | CBool _ => 1
  end.
Definition opt_size (x : option cbor) : Z := from_option item_size 1 x.

Lemma item_size_array items :
  item_size (CArray items) = head_size (lenZ items) + sum_over opt_size items.
Proof. done. Qed.

Lemma length_head major n : lenZ (Rfc8949.head major n) = head_size n.
Proof. unfold Rfc8949.head, head_size. by repeat case_match. Qed.

Lemma length_write c : lenZ (Rfc8949.write c) = item_size c.
Proof.
  unfold lenZ. induction c as [n|s|s|items IH|t c IH|b] using cbor_ind; cbn [Rfc8949.write item_size];
    rewrite ?length_app, ?Nat2Z.inj_add.
  - apply length_head.
  - by rewrite <- (length_head 2).
  - by rewrite <- (length_head 3).
  - rewrite <- (length_head 4 (lenZ items)). unfold lenZ at 1. f_equal.
    change (λ x, match x with Some c => item_size c | None => 1 end) with opt_size.
    change (λ x, match x with Some c => Rfc8949.write c | None => [Rfc8949.null] end)
      with Rfc8949.write_opt.
    induction IH as [|x items Hx _ IH]; [done|]. rewrite fmap_cons. cbn [concat].
    rewrite length_app, Nat2Z.inj_add, sum_over_cons, IH. f_equal. destruct x; [exact Hx|done].
  - by rewrite <- (length_head 6), IH.
  - done.
Qed.

Lemma head_size_range n : 1 ≤ head_size n ≤ 9.
Proof. unfold head_size. repeat case_match; lia. Qed.

Lemma item_size_pos c : 1 ≤ item_size c.
Proof.
  rewrite <- length_write. unfold lenZ. pose proof (Rfc8949.write_nonempty c). lia.
Qed.

(** Absent fields at the end only make a struct shorter. *)
Lemma strip_size fs : sum_over opt_size (Rfc8949.strip fs) ≤ sum_over opt_size fs.
Proof.
  induction fs as [|x fs IH]; [done|]. cbn [Rfc8949.strip]. rewrite sum_over_cons.
  destruct x as [c|]; [rewrite sum_over_cons; lia|].
  destruct (Rfc8949.strip fs) as [|y l]; [|rewrite sum_over_cons; lia].
  rewrite sum_over_nil in *. cbn. lia.
Qed.

Lemma head_size_mono n m : n ≤ m → head_size n ≤ head_size m.
Proof.
  unfold head_size. intros. repeat case_match; rewrite ?Z.ltb_lt, ?Z.ltb_ge in *; lia.
Qed.

Lemma struct_size fs : item_size (mc_struct fs) ≤ head_size (lenZ fs) + sum_over opt_size fs.
Proof.
  change (mc_struct fs) with (CArray (Rfc8949.strip fs)). rewrite item_size_array.
  pose proof (strip_size fs).
  pose proof (head_size_mono (lenZ (Rfc8949.strip fs)) (lenZ fs)).
  pose proof (Rfc8949.strip_length fs). unfold lenZ in *. lia.
Qed.

Lemma u_cast_32_64 (k : u32) : uval (u_cast 64 k) = uval k.
Proof.
  unfold u_cast. apply mk_uint_small. pose proof (uint_range k) as Hk.
  change (Z.of_N 32) with 32 in Hk. change (Z.of_N 64) with 64. lia.
Qed.
Lemma variant_size (k : u32) fs :
  item_size (mc_variant k fs) ≤ 1 + head_size k + head_size (lenZ fs) + sum_over opt_size fs.
Proof.
  change (mc_variant k fs) with (CArray [Some (CUint (u_cast 64 k)); Some (mc_struct fs)]).
  rewrite item_size_array, !sum_over_cons, sum_over_nil. pose proof (struct_size fs) as Hs.
  unfold opt_size at 1 2. cbn [from_option]. change (item_size (CUint ?n)) with (head_size n).
  change (head_size (lenZ [_; _])) with 1.
  rewrite u_cast_32_64. lia.
Qed.

Lemma vec_size {A} (c : Codec A) l n :
  (∀ a, a ∈ l → item_size (c_enc c a) ≤ n) →
  item_size (c_enc (c_vec c) l) ≤ head_size (lenZ l) + n * lenZ l.
Proof.
  intros Hn. change (c_enc (c_vec c) l) with (CArray ((λ a, Some (c_enc c a)) <$> l)).
  rewrite item_size_array. unfold lenZ at 1. rewrite length_fmap.
  change (Z.of_nat (length l)) with (lenZ l).
  assert (sum_over opt_size ((λ a, Some (c_enc c a)) <$> l) ≤ n * lenZ l); [|lia].
  unfold lenZ. induction l as [|a l IH]; [rewrite fmap_nil, sum_over_nil; cbn; lia|]. rewrite fmap_cons, sum_over_cons.
  cbn [opt_size from_option length]. pose proof (Hn a ltac:(left)).
  assert (sum_over opt_size ((λ a, Some (c_enc c a)) <$> l) ≤ n * Z.of_nat (length l)).
  { apply IH. intros b Hb. apply Hn. by right. }
  lia.
Qed.

(** ** Bounds *)

Definition c_le {A} (c : Codec A) (a : A) (n : Z) : Prop := item_size (c_enc c a) ≤ n.
Definition f_le {A} (fs : Fields A) (a : A) (n : Z) : Prop := sum_over opt_size (f_enc fs a) ≤ n.

Create HintDb size discriminated.
Create HintDb exact_size discriminated.
#[local] Hint Constants Opaque : size exact_size.

Lemma nil_le : f_le f_nil () 0.
Proof. done. Qed.
Lemma cons_le {A B} (c : Codec A) (fs : Fields B) a b n m :
  c_le c a n → f_le fs b m → f_le (f_cons c fs) (a, b) (n + m).
Proof.
  unfold c_le, f_le. intros Ha Hb.
  change (f_enc (f_cons c fs) (a, b)) with (Some (c_enc c a) :: f_enc fs b). rewrite sum_over_cons.
  change (opt_size (Some (c_enc c a))) with (item_size (c_enc c a)). lia.
Qed.
Lemma opt_le {A B} (c : Codec A) (fs : Fields B) a b n m :
  (∀ x, a = Some x → c_le c x n) → 1 ≤ n → f_le fs b m → f_le (f_opt c fs) (a, b) (n + m).
Proof.
  unfold c_le, f_le. intros Ha Hn Hb.
  change (f_enc (f_opt c fs) (a, b)) with ((c_enc c <$> a) :: f_enc fs b). rewrite sum_over_cons.
  assert (opt_size (c_enc c <$> a) ≤ n); [|lia]. destruct a as [x|]; [by apply Ha|done].
Qed.
Lemma struct_le {A B} (fs : Fields A) to from (inv : ∀ b : B, from (to b) = b) b n :
  f_le fs (to b) n → c_le (c_struct fs to from inv) b (head_size (Z.of_nat (f_width fs)) + n).
Proof.
  unfold f_le, c_le. intros Hf. pose proof (struct_size (f_enc fs (to b))) as Hs.
  unfold lenZ in Hs. rewrite f_width_ok in Hs.
  change (c_enc (c_struct fs to from inv) b) with (mc_struct (f_enc fs (to b))). lia.
Qed.
Lemma newtype_le {A B} (c : Codec A) to from (inv : ∀ b : B, from (to b) = b) b n :
  c_le c (to b) n → c_le (c_newtype c to from inv) b (1 + n).
Proof.
  intros Hc. unfold c_newtype.
  pose proof (struct_le (f_cons c f_nil) (λ b, (to b, ())) (λ p, from p.1) inv b (n + 0)
    (cons_le _ _ _ _ _ _ Hc nil_le)) as Hs.
  unfold c_le in *. change (head_size (Z.of_nat (f_width (f_cons c f_nil)))) with 1 in Hs. lia.
Qed.
Lemma enum_le {A B} (vs : Variants A) to from (inv : ∀ b : B, from (to b) = b) b k fs n :
  v_enc vs (to b) = (k, fs) → sum_over opt_size fs ≤ n →
  c_le (c_enum vs to from inv) b (1 + head_size k + head_size (lenZ fs) + n).
Proof.
  unfold c_le. intros E Hn. pose proof (variant_size k fs) as Hv.
  change (c_enc (c_enum vs to from inv) b) with
    (mc_variant (v_enc vs (to b)).1 (v_enc vs (to b)).2). rewrite E. cbn [fst snd]. lia.
Qed.

Lemma uint_le w Hw (v : uint w) n : head_size v ≤ n → c_le (c_uint w Hw) v n.
Proof.
  unfold c_le. intros Hn. pose proof (uint_range v) as Hv.
  change (item_size (c_enc (c_uint w Hw) v)) with (head_size (mk_uint 64 v)).
  rewrite mk_uint_small; [done|]. split; [lia|]. eapply Z.lt_le_trans; [apply Hv|].
  apply Z.pow_le_mono_r; [done|]. apply N.leb_le in Hw. change (Z.of_N 64) with 64. lia.
Qed.
Lemma u64_le (v : u64) : c_le c_u64 v 9.
Proof. apply uint_le, head_size_range. Qed.
Lemma u32_le (v : u32) : c_le c_u32 v 5.
Proof.
  apply uint_le. etrans; [apply (head_size_mono v (2 ^ 32 - 1)); pose proof (uint_range v) as Hv;
    change (Z.of_N 32) with 32 in Hv; lia|done].
Qed.
Lemma seq_le {M} (s : Seq M) : c_le c_seq s 9.
Proof. apply (u64_le (seq_get s)). Qed.
Lemma bool_le b : c_le c_bool b 1.
Proof. done. Qed.

(** A quantity of 128 bits takes at most 18 bytes, any quantity at most 35. *)
Definition small (q : Quantity) : Prop := qval q < 2 ^ 128.
#[local] Arguments small : simpl never.

Lemma leading_zeros_replicate n bs :
  leading_zeros (replicate n (mk_uint 8 0) ++ bs) = (n + leading_zeros bs)%nat.
Proof. induction n as [|n IH]; [done|]. cbn [replicate app leading_zeros]. rewrite IH. done. Qed.

Lemma be_bytes_zero n : be_bytes n 0 = replicate n (mk_uint 8 0).
Proof. induction n as [|n IH]; [done|]. cbn [be_bytes replicate]. rewrite IH, Z.div_0_l; [done|]. pose proof (pow_bytes_pos n). lia. Qed.

Lemma quantity_le q : c_le c_quantity q 35 ∧ (small q → c_le c_quantity q 18).
Proof.
  unfold c_le. cbn [c_enc c_quantity]. unfold encode. case_match eqn:Ez.
  { cbn [item_size]. pose proof (head_size_range (u_cast 64 (low q))). lia. }
  cbn [item_size]. change (head_size PosBignum) with 1. unfold lenZ.
  rewrite length_drop, to_be_bytes_length. split.
  - pose proof (head_size_mono (Z.of_nat (32 - leading_zeros (to_be_bytes q))) 32 ltac:(lia)) as Hh.
    change (head_size 32) with 2 in Hh. lia.
  - unfold small. intros Hq. assert (high q = mk_uint 128 0) as Eh.
    { apply uint_eq. unfold qval in Hq. pose proof (u128_range (high q)). pose proof (u128_range (low q)).
      change (uval (mk_uint 128 0)) with 0. lia. }
    assert (16 ≤ leading_zeros (to_be_bytes q))%nat.
    { unfold to_be_bytes. rewrite Eh. change (uval (mk_uint 128 0)) with 0.
      rewrite be_bytes_zero, leading_zeros_replicate. lia. }
    pose proof (head_size_mono (Z.of_nat (32 - leading_zeros (to_be_bytes q))) 16 ltac:(lia)) as Hh.
    change (head_size 16) with 1 in Hh. lia.
Qed.

(** Principals: [Principal::from_slice], and what [icrc_cbor::principal] writes. *)
Class PrincipalSlice `{IcrcCbor} : Type := {
  from_slice : list u8 → Principal;
  principal_item p : ∃ bs, c_enc c_principal p = CBytes bs ∧ (length bs ≤ 29)%nat;
  from_slice_item bs : (length bs ≤ 29)%nat → c_enc c_principal (from_slice bs) = CBytes bs
}.

Lemma c_le_weaken {A} (c : Codec A) a n m : c_le c a n → n ≤ m → c_le c a m.
Proof. unfold c_le. lia. Qed.
Lemma f_le_weaken {A} (fs : Fields A) a n m : f_le fs a n → n ≤ m → f_le fs a m.
Proof. unfold f_le. lia. Qed.

Ltac size_goal := vm_compute; by intros.
Ltac size_fields := cbv beta iota; eauto 40 with size nocore.
Ltac size_struct := eapply c_le_weaken; [apply struct_le; size_fields|size_goal].
Ltac size_newtype := eapply c_le_weaken; [apply newtype_le; size_fields|size_goal].
Ltac size_enum := eapply c_le_weaken; [eapply enum_le; [reflexivity|]|].

#[local] Hint Resolve nil_le cons_le opt_le u64_le u32_le seq_le bool_le : size.

#[local] Hint Extern 5 (_ ≤ _) => vm_compute; by intros : size.

Section event_size.
Context `{PrincipalSlice}.

Lemma principal_le p : c_le c_principal p 31.
Proof.
  destruct (principal_item p) as (bs & E & Hbs). unfold c_le. rewrite E. cbn [item_size]. unfold lenZ.
  pose proof (head_size_mono (Z.of_nat (length bs)) 29 ltac:(lia)) as Hh.
  change (head_size 29) with 2 in Hh. lia.
Qed.
#[local] Hint Resolve principal_le : size.

Lemma quantity_any_le q : c_le c_quantity q 35.
Proof. apply quantity_le. Qed.
Lemma u128_le v : c_le c_u128_via_quantity v 18.
Proof.
  apply (quantity_le (from_u128 v)). unfold small. rewrite qval_from_u128.
  pose proof (u128_range v). lia.
Qed.
#[local] Hint Resolve u128_le : size.

Lemma timestamp_le t : c_le c_timestamp t 10.
Proof. unfold c_timestamp. size_newtype. Qed.
Lemma price_le p : c_le c_price p 19.
Proof. unfold c_price. size_newtype. Qed.
Lemma tick_size_le p : c_le c_tick_size p 19.
Proof. unfold c_tick_size. eapply c_le_weaken; [apply newtype_le, (u128_le (nzval p))|done]. Qed.
Lemma lot_size_le p : c_le c_lot_size p 10.
Proof.
  unfold c_lot_size. apply (newtype_le c_non_zero_u64 id id _ p 9).
  apply (head_size_range (nzval p)).
Qed.
Lemma order_id_le i : c_le c_order_id i 19.
Proof. unfold c_order_id, c_composite. destruct i. size_struct. Qed.
Lemma token_id_le t : c_le c_token_id t 32.
Proof. unfold c_token_id. size_newtype. Qed.
Lemma funding_account_le t : c_le c_funding_account t 32.
Proof. unfold c_funding_account. size_newtype. Qed.
Lemma trading_account_le t : c_le c_trading_account t 32.
Proof. unfold c_trading_account. size_newtype. Qed.
Lemma basis_point_le b : c_le c_basis_point b 4.
Proof.
  change (c_le (c_newtype c_u16 id id (λ _, eq_refl)) (bps b) 4).
  eapply c_le_weaken; [apply newtype_le, uint_le, (head_size_mono _ 10000)|done].
  destruct b as [v Hv]. by apply Z.leb_le.
Qed.
Lemma pair_token_le t : c_le c_pair_token t 3.
Proof. by destruct t. Qed.
Lemma side_le s : c_le c_side s 3.
Proof. by destruct s. Qed.
Lemma time_in_force_le t : c_le c_time_in_force t 3.
Proof. by destruct t. Qed.
#[local] Hint Resolve timestamp_le price_le tick_size_le lot_size_le order_id_le token_id_le : size.
#[local] Hint Resolve funding_account_le trading_account_le basis_point_le pair_token_le : size.
#[local] Hint Resolve side_le time_in_force_le : size.

Lemma fee_rates_le f : c_le c_fee_rates f 9.
Proof. unfold c_fee_rates. destruct f. size_struct. Qed.
Lemma small_le q : small q → c_le c_quantity q 18.
Proof. apply quantity_le. Qed.
#[local] Hint Resolve fee_rates_le : size.
#[local] Hint Extern 1 (c_le c_quantity _ _) =>
  first [apply small_le; assumption | apply quantity_any_le] : size.

(** *** Strings and vectors *)

Lemma vec_le {A} (c : Codec A) (l : list A) (k : Z) n :
  (∀ a, a ∈ l → c_le c a n) → 0 ≤ n → lenZ l ≤ k → c_le (c_vec c) l (head_size k + n * k).
Proof.
  intros Hn Hpos Hk. unfold c_le. etrans; [apply (vec_size c l n Hn)|].
  pose proof (head_size_mono _ _ Hk). nia.
Qed.

Lemma metadata_le m : lenZ (symbol m) ≤ 10 → c_le c_token_metadata m 14.
Proof.
  intros Hs. unfold c_token_metadata. destruct m as [s d]. cbn [symbol] in Hs.
  eapply c_le_weaken; [apply struct_le; cbv beta iota; apply cons_le with (n := 11);
    [|apply cons_le with (n := 2); [|apply nil_le]]|size_goal].
  - unfold c_le. cbn [c_enc c_text item_size]. pose proof (head_size_mono _ _ Hs) as Hh.
    change (head_size 10) with 1 in Hh. lia.
  - apply uint_le. pose proof (uint_range d) as Hd. change (Z.of_N 8) with 8 in Hd.
    pose proof (head_size_mono d 255 ltac:(lia)) as Hh. change (head_size 255) with 2 in Hh. lia.
Qed.

Definition mode_within (m : Mode) : Prop :=
  match m with GeneralAvailability => True | RestrictedTo s => (size s ≤ 10)%nat end.

Lemma bset_iter_length (s : gset Principal) : length (bset_iter s) = size s.
Proof.
  unfold bset_iter. rewrite length_fmap, btree_iter_perm, length_map_to_list.
  by rewrite <- size_dom, dom_gset_to_gmap.
Qed.

Lemma mode_le m : mode_within m → c_le c_mode m 314.
Proof.
  unfold c_mode. destruct m as [|s]; intros Hs; [size_enum; [done|size_goal]|].
  cbn [mode_within] in Hs.
  size_enum; [apply (cons_le c_btreeset_principal f_nil s () 311 0); [|apply nil_le]|size_goal].
  change (c_le (c_vec c_principal) (bset_iter s) 311).
  eapply c_le_weaken; [apply (vec_le _ _ 10 31)|size_goal]; [auto using principal_le|done|].
  unfold lenZ. rewrite bset_iter_length. lia.
Qed.
#[local] Hint Resolve mode_le metadata_le : size.

(** ** The worst cases *)

Definition MAX_ORDERS_PER_MATCHING_ROUND : nat := 1000.

Inductive WorstCaseEvent : Set :=
| WInit
| WUpgrade
| WAddTradingPair
| WDeposit
| WWithdraw
| WAddLimitOrder
| WCancelLimitOrder
| WMatching
| WSettling
| WSetHalt
| WAddTradingAccount
| WRemoveTradingAccount.

(** [From<&EventType> for WorstCaseEvent]. *)
Definition worst_case_from (event : EventType) : WorstCaseEvent :=
  match event with
  | EInit _ => WInit
  | EUpgrade _ => WUpgrade
  | EAddTradingPair _ => WAddTradingPair
  | EDeposit _ => WDeposit
  | EWithdraw _ => WWithdraw
  | EAddLimitOrder _ => WAddLimitOrder
  | ECancelLimitOrder _ => WCancelLimitOrder
  | EMatching _ => WMatching
  | ESettling _ => WSettling
  | ESetHalt _ => WSetHalt
  | EAddTradingAccount _ => WAddTradingAccount
  | ERemoveTradingAccount _ => WRemoveTradingAccount
  end.

Definition expected_memory_size (self : WorstCaseEvent) : Z :=
  match self with
  | WInit => 348
  | WUpgrade => 348
  | WAddTradingPair => 224
  | WDeposit => 96
  | WWithdraw => 105
  | WAddLimitOrder => 139
  | WCancelLimitOrder => 65
  | WMatching => 9027
  | WSettling => 208030
  | WSetHalt => 918
  | WAddTradingAccount => 79
  | WRemoveTradingAccount => 79
  end.

Definition u_max (w : N) : uint w := mk_uint w (uint_max w).
Definition max_principal (seed : Z) : Principal := from_slice (replicate 29 (mk_uint 8 seed)).
Definition max_symbol : list u8 := replicate 10 (mk_uint 8 65).
Definition max_quantity : Quantity := from_u128 (u_max 128).
Definition max_timestamp (payload : EventType) : Event := MkEvent (u_max 64) payload.
Definition max_order_id : OrderId := MkCompositeId Seq_MAX Seq_MAX.
(** [Seq::new(u64::MAX - i)]. *)
Definition seq_below {M} (i : nat) : Seq M := MkSeq (mk_uint 64 (uint_max 64 - Z.of_nat i)).

Definition restricted_principals : gset Principal :=
  list_to_set ((λ i, max_principal (Z.of_nat i)) <$> seq 0 10).
Definition init_restricted : EventType :=
  EInit (MkInitArg (RestrictedTo restricted_principals) (u_max 32) (u_max 64) (Some (u_max 32))).
Definition upgrade_restricted : EventType :=
  EUpgrade (MkUpgradeArg (Some (RestrictedTo restricted_principals)) (Some (u_max 32))
    (Some (u_max 64)) (Some (u_max 32))).
Definition worst_add_trading_pair : EventType :=
  EAddTradingPair (MkAddTradingPairEvent Seq_MAX (MkTokenId (max_principal 0))
    (MkTokenId (max_principal 1)) (NonZero (u_max 128) eq_refl) (NonZero (u_max 64) eq_refl)
    (MkTokenMetadata max_symbol (u_max 8)) (MkTokenMetadata max_symbol (u_max 8))
    (MkFeeRates BasisPoint_MAX BasisPoint_MAX) Quantity_MAX (Some Quantity_MAX)).
Definition worst_add_limit_order : EventType :=
  EAddLimitOrder (MkAddLimitOrderEvent (max_principal 0) max_order_id Buy (u_max 128) max_quantity
    FillOrKill (Some (max_principal 1))).
Definition worst_cancel_limit_order : EventType :=
  ECancelLimitOrder (MkCancelLimitOrderEvent max_order_id (Some (max_principal 1))).
Definition worst_deposit (amount : Quantity) : EventType :=
  EDeposit (MkDepositEvent (max_principal 0) (MkTokenId (max_principal 1)) amount).
Definition worst_withdraw (amount : Quantity) : EventType :=
  EWithdraw (MkWithdrawEvent (u_max 64) (max_principal 0) (MkTokenId (max_principal 1)) amount).
Definition worst_matching (order_count : nat) : EventType :=
  EMatching (MkMatchingEvent Seq_MAX (seq_below <$> seq 0 order_count)).

Definition max_settled_fill (index : nat) : FillEvent :=
  MkFillEvent Seq_MAX (seq_below (2 * index)) (seq_below (2 * index + 1)) max_quantity
    (MkFeeRates BasisPoint_MAX BasisPoint_MAX).
(** The operations of the [i]-th fill: at most three. *)
Definition worst_operations (i : nat) : list BalanceOperation :=
  let taker := seq_below (2 * i) in
  let maker := seq_below (2 * i + 1) in
  [Transfer taker maker Quote max_quantity (Some max_quantity);
   Unreserve taker Quote max_quantity;
   Transfer maker taker Base max_quantity (Some max_quantity)].
Definition worst_settling (order_count : nat) : EventType :=
  ESettling (MkSettlingEvent Seq_MAX (concat (worst_operations <$> seq 0 order_count))
    (max_settled_fill <$> seq 0 order_count)).

Definition worst_case_memory_event (self : WorstCaseEvent) : Event :=
  max_timestamp
    match self with
    | WInit => init_restricted
    | WUpgrade => upgrade_restricted
    | WAddTradingPair => worst_add_trading_pair
    | WDeposit => worst_deposit max_quantity
    | WWithdraw => worst_withdraw max_quantity
    | WAddLimitOrder => worst_add_limit_order
    | WCancelLimitOrder => worst_cancel_limit_order
    | WMatching => worst_matching MAX_ORDERS_PER_MATCHING_ROUND
    | WSettling => worst_settling MAX_ORDERS_PER_MATCHING_ROUND
    | WSetHalt => ESetHalt (MkSetHaltEvent (Some (seq_below <$> seq 0 MAX_HALT_BOOKS)) true)
    | WAddTradingAccount => EAddTradingAccount (MkAddTradingAccountEvent
        (MkFundingAccount (max_principal 0)) (MkTradingAccount (max_principal 1)))
    | WRemoveTradingAccount => ERemoveTradingAccount (MkRemoveTradingAccountEvent
        (MkFundingAccount (max_principal 0)) (MkTradingAccount (max_principal 1)))
    end.
Definition worst_case_instructions_event (self : WorstCaseEvent) : Event :=
  worst_case_memory_event self.

(** ** What the worst cases assume *)

Definition is_transfer (op : BalanceOperation) : bool :=
  match op with Transfer _ _ _ _ _ => true | Unreserve _ _ _ => false end.
Definition op_small (op : BalanceOperation) : Prop :=
  match op with
  | Transfer _ _ _ amount fee => small amount ∧ (∀ f, fee = Some f → small f)
  | Unreserve _ _ amount => small amount
  end.

(** Amounts of 128 bits, at most ten principals in a restriction, symbols of ten
    bytes, and the stated numbers of orders, fills, operations and books. *)
Definition event_within (e : EventType) : Prop :=
  match e with
  | EInit a => mode_within (ia_mode a)
  | EUpgrade a => ∀ m, ua_mode a = Some m → mode_within m
  | EAddTradingPair a => lenZ (symbol (atp_base_metadata a)) ≤ 10 ∧
      lenZ (symbol (atp_quote_metadata a)) ≤ 10
  | EDeposit a => small (de_amount a)
  | EAddLimitOrder a => small (ale_quantity a)
  | ESettling a =>
      Forall op_small (se_balance_operations a) ∧ Forall (λ f, small (fv_quantity f)) (se_fills a) ∧
      lenZ (filter is_transfer (se_balance_operations a)) ≤ 2000 ∧
      lenZ (se_balance_operations a) ≤ 3000 ∧ lenZ (se_fills a) ≤ 1000
  | EMatching a => lenZ (me_orders a) ≤ 1000
  | EWithdraw a => small (we_amount a)
  | ESetHalt a => ∀ l, she_book_ids a = Some l → lenZ l ≤ 100
  | ECancelLimitOrder _ | EAddTradingAccount _ | ERemoveTradingAccount _ => True
  end.

(** ** The bound *)

Lemma init_arg_le a : event_within (EInit a) → c_le c_init_arg a 334.
Proof. intros Hm. unfold c_init_arg. destruct a. cbn in Hm. size_struct. Qed.
Lemma upgrade_arg_le a : event_within (EUpgrade a) → c_le c_upgrade_arg a 334.
Proof. intros Hm. unfold c_upgrade_arg. destruct a. cbn in Hm. size_struct. Qed.
Lemma add_trading_pair_event_le a :
  event_within (EAddTradingPair a) → c_le c_add_trading_pair_event a 210.
Proof. intros [? ?]. unfold c_add_trading_pair_event. destruct a. cbn in *. size_struct. Qed.
Lemma deposit_event_le a : event_within (EDeposit a) → c_le c_deposit_event a 82.
Proof. intros. unfold c_deposit_event. destruct a. cbn in *. size_struct. Qed.
Lemma withdraw_event_le a : event_within (EWithdraw a) → c_le c_withdraw_event a 91.
Proof. intros. unfold c_withdraw_event. destruct a. cbn in *. size_struct. Qed.
Lemma add_limit_order_event_le a : event_within (EAddLimitOrder a) → c_le c_add_limit_order_event a 125.
Proof. intros. unfold c_add_limit_order_event. destruct a. cbn in *. size_struct. Qed.
Lemma cancel_limit_order_event_le a : c_le c_cancel_limit_order_event a 51.
Proof. unfold c_cancel_limit_order_event. destruct a. size_struct. Qed.
Lemma add_trading_account_event_le a : c_le c_add_trading_account_event a 65.
Proof. unfold c_add_trading_account_event. destruct a. size_struct. Qed.
Lemma remove_trading_account_event_le a : c_le c_remove_trading_account_event a 65.
Proof. unfold c_remove_trading_account_event. destruct a. size_struct. Qed.

Lemma seqs_le {M} (l : list (Seq M)) k : lenZ l ≤ k → c_le (c_vec c_seq) l (head_size k + 9 * k).
Proof. intros. apply vec_le; [auto using seq_le|done..]. Qed.

Lemma matching_event_le a : event_within (EMatching a) → c_le c_matching_event a 9013.
Proof.
  intros Hl. unfold c_matching_event. destruct a as [b l]. cbn in Hl.
  pose proof (seqs_le l 1000 Hl). size_struct.
Qed.
Lemma set_halt_event_le a :
  event_within (ESetHalt a) → c_le c_set_halt_event a 904.
Proof.
  intros Hl. unfold c_set_halt_event. destruct a as [l h]. cbn in Hl.
  assert (∀ x, l = Some x → c_le (c_vec c_seq) x (head_size 100 + 9 * 100))
    by (intros x E; by apply seqs_le, Hl). size_struct.
Qed.

Lemma fill_event_le f : small (fv_quantity f) → c_le c_fill_event f 55.
Proof. intros. unfold c_fill_event. destruct f. cbn in *. size_struct. Qed.

Definition op_bound (op : BalanceOperation) : Z := if is_transfer op then 60 else 33.

Lemma op_le op : op_small op → c_le c_balance_operation op (op_bound op).
Proof.
  unfold c_balance_operation. destruct op as [a b t q fee|a t q]; cbn [op_small op_bound is_transfer].
  - intros [Hq Hf]. assert (∀ f, fee = Some f → c_le c_quantity f 18) by auto using small_le.
    size_enum; [apply (cons_le c_seq (f_cons c_seq (f_cons c_pair_token (f_cons c_quantity
      (f_opt c_quantity f_nil)))) a (b, (t, (q, (fee, ())))) 9 48); [apply seq_le|]|size_goal].
    eapply f_le_weaken; [size_fields|size_goal].
  - intros Hq.
    size_enum; [apply (cons_le c_seq (f_cons c_pair_token (f_cons c_quantity f_nil)) a (t, (q, ())) 9 21);
      [apply seq_le|]|size_goal].
    eapply f_le_weaken; [size_fields|size_goal].
Qed.

(** At most 2000 of at most 3000 operations are transfers, the larger ones. *)
Lemma ops_le l :
  Forall op_small l → lenZ (filter is_transfer l) ≤ 2000 → lenZ l ≤ 3000 →
  c_le (c_vec c_balance_operation) l 153003.
Proof.
  intros Hs Ht Hl. unfold c_le.
  change (c_enc (c_vec c_balance_operation) l) with
    (CArray ((λ a, Some (c_enc c_balance_operation a)) <$> l)).
  rewrite item_size_array. unfold lenZ at 1. rewrite length_fmap. change (Z.of_nat (length l)) with (lenZ l).
  pose proof (head_size_mono _ _ Hl) as Hh. change (head_size 3000) with 3 in Hh.
  assert (sum_over opt_size ((λ a, Some (c_enc c_balance_operation a)) <$> l) ≤
    33 * lenZ l + 27 * lenZ (filter is_transfer l)); [|lia].
  clear Ht Hl Hh. unfold lenZ. induction Hs as [|op l Hop Hs IH]; [done|].
  rewrite fmap_cons, sum_over_cons. pose proof (op_le op Hop) as Ho. unfold c_le, op_bound in Ho.
  change (opt_size (Some ?x)) with (item_size x).
  rewrite filter_cons. destruct (is_transfer op); simpl in *; lia.
Qed.

Lemma settling_event_le a : event_within (ESettling a) → c_le c_settling_event a 208016.
Proof.
  intros (Ho & Hf & Ht & Hl & Hn). unfold c_settling_event. destruct a as [b ops fills]. cbn in *.
  pose proof (ops_le ops Ho Ht Hl).
  assert (c_le (c_vec c_fill_event) fills (head_size 1000 + 55 * 1000)).
  { apply vec_le; [|done..]. intros f Hin. apply fill_event_le. rewrite Forall_forall in Hf. by apply Hf. }
  size_struct.
Qed.

#[local] Hint Resolve init_arg_le upgrade_arg_le add_trading_pair_event_le deposit_event_le : size.
#[local] Hint Resolve withdraw_event_le add_limit_order_event_le cancel_limit_order_event_le : size.
#[local] Hint Resolve add_trading_account_event_le remove_trading_account_event_le : size.
#[local] Hint Resolve matching_event_le set_halt_event_le settling_event_le : size.

(** A variant with one field. *)
Lemma variant_le {A B C} (vs : Variants A) to from (inv : ∀ b : B, from (to b) = b) b k
    (c : Codec C) a n :
  c_le c a n → v_enc vs (to b) = (k, [Some (c_enc c a)]) →
  c_le (c_enum vs to from inv) b (2 + head_size k + n).
Proof.
  intros Ha E. eapply c_le_weaken; [apply (enum_le vs to from inv b k _ n E)|].
  - rewrite sum_over_cons, sum_over_nil. unfold c_le in Ha. cbn. lia.
  - change (head_size (lenZ [_])) with 1. lia.
Qed.

Lemma event_type_le e :
  event_within e → c_le c_event_type e (expected_memory_size (worst_case_from e) - 11).
Proof.
  intros He. unfold c_event_type.
  destruct e;
    (eapply c_le_weaken; [eapply variant_le; [|reflexivity]; eauto with size nocore|size_goal]).
Qed.

Lemma event_le e :
  event_within (ev_payload e) →
  lenZ (s_to_bytes s_event e) ≤ expected_memory_size (worst_case_from (ev_payload e)).
Proof.
  intros He. cbn [s_to_bytes s_event s_cbor]. unfold cbor_to_bytes.
  change (mc_write ?c) with (Rfc8949.write c). rewrite length_write.
  pose proof (event_type_le _ He) as Ht. destruct e as [t p]. cbn [ev_payload] in *.
  change (c_le c_event (MkEvent t p) (expected_memory_size (worst_case_from p))).
  unfold c_event. eapply c_le_weaken; [apply struct_le; cbv beta iota; apply cons_le;
    [apply timestamp_le|apply cons_le; [exact Ht|apply nil_le]]|].
  change (head_size (Z.of_nat _)) with 1. lia.
Qed.

(** ** The worst cases reach it *)

Definition c_is {A} (c : Codec A) (a : A) (n : Z) : Prop := item_size (c_enc c a) = n.
Definition f_is {A} (fs : Fields A) (a : A) (n : Z) : Prop :=
  Rfc8949.strip (f_enc fs a) = f_enc fs a ∧ sum_over opt_size (f_enc fs a) = n.

Lemma nil_is : f_is f_nil () 0.
Proof. done. Qed.
Lemma cons_is {A B} (c : Codec A) (fs : Fields B) a b n m :
  c_is c a n → f_is fs b m → f_is (f_cons c fs) (a, b) (n + m).
Proof.
  intros Ha [Es Hb]. unfold f_is.
  change (f_enc (f_cons c fs) (a, b)) with (Some (c_enc c a) :: f_enc fs b).
  rewrite sum_over_cons. cbn [Rfc8949.strip]. rewrite Es, Hb. by rewrite <- Ha.
Qed.
Lemma some_is {A B} (c : Codec A) (fs : Fields B) a b n m :
  c_is c a n → f_is fs b m → f_is (f_opt c fs) (Some a, b) (n + m).
Proof. exact (cons_is c fs a b n m). Qed.
Lemma struct_is {A B} (fs : Fields A) to from (inv : ∀ b : B, from (to b) = b) b n :
  f_is fs (to b) n → c_is (c_struct fs to from inv) b (head_size (Z.of_nat (f_width fs)) + n).
Proof.
  intros [Es Hn]. unfold c_is.
  change (c_enc (c_struct fs to from inv) b) with (CArray (Rfc8949.strip (f_enc fs (to b)))).
  rewrite Es, item_size_array, Hn. unfold lenZ. by rewrite f_width_ok.
Qed.
Lemma newtype_is {A B} (c : Codec A) to from (inv : ∀ b : B, from (to b) = b) b n :
  c_is c (to b) n → c_is (c_newtype c to from inv) b (1 + (n + 0)).
Proof. intros Hc. apply (struct_is (f_cons c f_nil)). apply cons_is; [done|apply nil_is]. Qed.
Lemma enum_is {A B C} (vs : Variants A) to from (inv : ∀ b : B, from (to b) = b) b k
    (fs : Fields C) a n :
  f_is fs a n → v_enc vs (to b) = (k, f_enc fs a) →
  c_is (c_enum vs to from inv) b (1 + head_size k + head_size (Z.of_nat (f_width fs)) + n).
Proof.
  intros [Es Hn] E. unfold c_is.
  change (c_enc (c_enum vs to from inv) b) with
    (CArray [Some (CUint (u_cast 64 (v_enc vs (to b)).1));
             Some (CArray (Rfc8949.strip (v_enc vs (to b)).2))]).
  rewrite E. cbn [fst snd]. rewrite Es, item_size_array, !sum_over_cons, sum_over_nil.
  change (opt_size (Some ?c)) with (item_size c). rewrite item_size_array, Hn.
  change (item_size (CUint ?n)) with (head_size n). change (head_size (lenZ [_; _])) with 1.
  rewrite u_cast_32_64. unfold lenZ. rewrite f_width_ok. lia.
Qed.
Lemma vec_is {A} (c : Codec A) l f :
  (∀ a, a ∈ l → c_is c a (f a)) → c_is (c_vec c) l (head_size (lenZ l) + sum_over f l).
Proof.
  intros Hl. unfold c_is.
  change (c_enc (c_vec c) l) with (CArray ((λ a, Some (c_enc c a)) <$> l)).
  rewrite item_size_array. unfold lenZ at 1. rewrite length_fmap. f_equal.
  induction l as [|a l IH]; [done|]. rewrite fmap_cons, !sum_over_cons, IH by auto using list_elem_of_further.
  f_equal. apply (Hl a). left.
Qed.
Lemma sum_over_const {A} (l : list A) n : sum_over (λ _, n) l = n * lenZ l.
Proof. unfold lenZ. induction l as [|a l IH]; [rewrite sum_over_nil; cbn [length]; lia|]. rewrite sum_over_cons, IH. cbn [length]. lia. Qed.

Lemma c_is_eq {A} (c : Codec A) a n m : c_is c a n → n = m → c_is c a m.
Proof. by intros ? <-. Qed.
Lemma max_principal_is seed : c_is c_principal (max_principal seed) 31.
Proof. unfold c_is, max_principal. rewrite from_slice_item by (by rewrite length_replicate). done. Qed.
Lemma seq_is {M} i : (i < 4000)%nat → c_is c_seq (@seq_below M i) 9.
Proof.
  intros Hi. unfold c_is. change (item_size (c_enc c_seq ?s)) with (head_size (mk_uint 64 (seq_get s))).
  cbn [seq_get seq_below]. change (uint_max 64) with (2 ^ 64 - 1).
  rewrite !mk_uint_small by (rewrite ?mk_uint_small; change (Z.of_N 64) with 64; lia).
  unfold head_size. repeat case_match; rewrite ?Z.ltb_lt in *; lia.
Qed.
Lemma max_seq_is {M} : c_is c_seq (@Seq_MAX M) 9.
Proof. done. Qed.
Lemma max_quantity_is : c_is c_quantity max_quantity 18.
Proof. by vm_compute. Qed.
Lemma Quantity_MAX_is : c_is c_quantity Quantity_MAX 35.
Proof. by vm_compute. Qed.
Lemma max_order_id_is : c_is c_order_id max_order_id 19.
Proof. done. Qed.
Lemma max_rates_is : c_is c_fee_rates (MkFeeRates BasisPoint_MAX BasisPoint_MAX) 9.
Proof. by vm_compute. Qed.
Lemma max_metadata_is : c_is c_token_metadata (MkTokenMetadata max_symbol (u_max 8)) 14.
Proof. by vm_compute. Qed.
Lemma token_id_is seed : c_is c_token_id (MkTokenId (max_principal seed)) 32.
Proof. unfold c_token_id. eapply c_is_eq; [apply newtype_is, max_principal_is|done]. Qed.
Lemma funding_account_is seed : c_is c_funding_account (MkFundingAccount (max_principal seed)) 32.
Proof. unfold c_funding_account. eapply c_is_eq; [apply newtype_is, max_principal_is|done]. Qed.
Lemma trading_account_is seed : c_is c_trading_account (MkTradingAccount (max_principal seed)) 32.
Proof. unfold c_trading_account. eapply c_is_eq; [apply newtype_is, max_principal_is|done]. Qed.
Lemma pair_token_is t : c_is c_pair_token t 3.
Proof. by destruct t. Qed.
Lemma max_price_is : c_is c_price (u_max 128) 19.
Proof. by vm_compute. Qed.
Lemma max_tick_is : c_is c_tick_size (NonZero (u_max 128) eq_refl) 19.
Proof. by vm_compute. Qed.
Lemma max_lot_is : c_is c_lot_size (NonZero (u_max 64) eq_refl) 10.
Proof. by vm_compute. Qed.
Lemma max_u64_is : c_is c_u64 (u_max 64) 9.
Proof. done. Qed.
Lemma max_u32_is : c_is c_u32 (u_max 32) 5.
Proof. done. Qed.
Lemma max_timestamp_is : c_is c_timestamp (u_max 64) 10.
Proof. by vm_compute. Qed.

#[local] Hint Resolve nil_is cons_is some_is max_principal_is max_seq_is max_quantity_is : exact_size.
#[local] Hint Resolve Quantity_MAX_is max_order_id_is max_rates_is max_metadata_is token_id_is : exact_size.
#[local] Hint Resolve funding_account_is trading_account_is pair_token_is max_price_is : exact_size.
#[local] Hint Resolve max_tick_is max_lot_is max_u64_is max_u32_is max_timestamp_is seq_is : exact_size.


Ltac exact_struct := eapply c_is_eq; [apply struct_is; cbv beta iota; eauto 40 with exact_size nocore|by vm_compute].

Lemma variant_is {A B C} (vs : Variants A) to from (inv : ∀ b : B, from (to b) = b) b k
    (c : Codec C) a n :
  c_is c a n → v_enc vs (to b) = (k, [Some (c_enc c a)]) →
  c_is (c_enum vs to from inv) b (2 + head_size k + n).
Proof.
  intros Ha E. eapply c_is_eq; [apply (enum_is vs to from inv b k (f_cons c f_nil) (a, ()) (n + 0))|].
  - apply cons_is; [done|apply nil_is].
  - exact E.
  - change (head_size (Z.of_nat _)) with 1. lia.
Qed.

Lemma transfer_is from to token :
  c_is c_seq from 9 → c_is c_seq to 9 →
  c_is c_balance_operation (Transfer from to token max_quantity (Some max_quantity)) 60.
Proof.
  intros Hf Ht. unfold c_balance_operation.
  eapply c_is_eq; [apply (enum_is _ _ _ _ _ (idx 0) (f_cons c_seq (f_cons c_seq (f_cons c_pair_token
    (f_cons c_quantity (f_opt c_quantity f_nil))))) (from, (to, (token, (max_quantity, (Some max_quantity, ()))))));
    [eauto 40 with exact_size nocore|reflexivity]|by vm_compute].
Qed.
Lemma unreserve_is order token :
  c_is c_seq order 9 → c_is c_balance_operation (Unreserve order token max_quantity) 33.
Proof.
  intros Ho. unfold c_balance_operation.
  eapply c_is_eq; [apply (enum_is _ _ _ _ _ (idx 1) (f_cons c_seq (f_cons c_pair_token
    (f_cons c_quantity f_nil))) (order, (token, (max_quantity, ())))); 
    [eauto 40 with exact_size nocore|reflexivity]|by vm_compute].
Qed.

Lemma worst_operations_is i :
  (i < 1000)%nat → ∀ op, op ∈ worst_operations i → c_is c_balance_operation op (op_bound op).
Proof.
  intros Hi op Hop. unfold worst_operations in Hop.
  rewrite !elem_of_cons, elem_of_nil in Hop. 
  destruct Hop as [->|[->|[->|[]]]]; [apply transfer_is|apply unreserve_is|apply transfer_is];
    apply seq_is; lia.
Qed.
Lemma max_settled_fill_is i : (i < 1000)%nat → c_is c_fill_event (max_settled_fill i) 55.
Proof.
  intros Hi. unfold c_fill_event, max_settled_fill.
  pose proof (@seq_is OrderSeqMarker (2 * i) ltac:(lia)).
  pose proof (@seq_is OrderSeqMarker (2 * i + 1) ltac:(lia)). exact_struct.
Qed.

Lemma operations_total n :
  sum_over op_bound (concat (worst_operations <$> seq 0 n)) = 153 * Z.of_nat n.
Proof.
  generalize 0%nat. induction n as [|n IH]; intros k; [done|]. cbn [seq]. rewrite fmap_cons. cbn [concat].
  rewrite sum_over_app, IH. change (sum_over op_bound (worst_operations k)) with 153. lia.
Qed.
Lemma operations_count n :
  lenZ (concat (worst_operations <$> seq 0 n)) = 3 * Z.of_nat n.
Proof.
  unfold lenZ. generalize 0%nat. induction n as [|n IH]; intros k; [done|]. cbn [seq]. rewrite fmap_cons. cbn [concat].
  rewrite length_app, Nat2Z.inj_add, IH. cbn [worst_operations length]. lia.
Qed.

Lemma restricted_size : size restricted_principals = 10%nat.
Proof.
  unfold restricted_principals. rewrite size_list_to_set; [done|].
  apply NoDup_fmap_2_strong; [|apply NoDup_seq]. intros i j Hi Hj E.
  apply (f_equal (c_enc c_principal)) in E. unfold max_principal in E.
  rewrite !from_slice_item in E by (by rewrite length_replicate).
  apply elem_of_seq in Hi, Hj. inversion E as [E'].
  rewrite !Z.mod_small in E' by lia. lia.
Qed.

Lemma restricted_list_is : c_is c_btreeset_principal restricted_principals 311.
Proof.
  change (c_is (c_vec c_principal) (bset_iter restricted_principals) 311).
  eapply c_is_eq; [apply (vec_is _ _ (λ _, 31))|].
  - intros p Hp. apply bset_iter_elem in Hp.
    unfold restricted_principals in Hp. apply elem_of_list_to_set, list_elem_of_fmap in Hp as (i & -> & _).
    apply max_principal_is.
  - rewrite sum_over_const. unfold lenZ. by rewrite bset_iter_length, restricted_size.
Qed.
Lemma restricted_is : c_is c_mode (RestrictedTo restricted_principals) 314.
Proof.
  unfold c_mode. eapply c_is_eq; [eapply variant_is; [apply restricted_list_is|reflexivity]|done].
Qed.

Lemma seqs_is {M} n :
  (n ≤ 4000)%nat → c_is (c_vec c_seq) (@seq_below M <$> seq 0 n) (head_size (Z.of_nat n) + 9 * Z.of_nat n).
Proof.
  intros Hn. eapply c_is_eq; [apply (vec_is _ _ (λ _, 9))|].
  - intros s Hs. apply list_elem_of_fmap in Hs as (i & -> & Hi). apply elem_of_seq in Hi.
    apply seq_is. lia.
  - rewrite sum_over_const. unfold lenZ. by rewrite length_fmap, length_seq.
Qed.

Lemma operations_is :
  c_is (c_vec c_balance_operation) (concat (worst_operations <$> seq 0 MAX_ORDERS_PER_MATCHING_ROUND)) 153003.
Proof.
  eapply c_is_eq; [apply (vec_is _ _ op_bound)|].
  - intros op Hop. apply list_elem_of_In, in_concat in Hop as (l & Hl & Hop).
    apply list_elem_of_In in Hl, Hop. apply list_elem_of_fmap in Hl as (i & -> & Hi). apply elem_of_seq in Hi.
    change MAX_ORDERS_PER_MATCHING_ROUND with 1000%nat in Hi. apply (worst_operations_is i); [lia|done].
  - by rewrite operations_total, operations_count.
Qed.
Lemma fills_is : c_is (c_vec c_fill_event) (max_settled_fill <$> seq 0 MAX_ORDERS_PER_MATCHING_ROUND) 55003.
Proof.
  eapply c_is_eq; [apply (vec_is _ _ (λ _, 55))|].
  - intros f Hf. apply list_elem_of_fmap in Hf as (i & -> & Hi). apply elem_of_seq in Hi.
    change MAX_ORDERS_PER_MATCHING_ROUND with 1000%nat in Hi. apply max_settled_fill_is. lia.
  - rewrite sum_over_const. unfold lenZ. by rewrite length_fmap, length_seq.
Qed.
#[local] Hint Resolve restricted_is : exact_size.

Lemma orders_is : c_is (c_vec c_seq) (@seq_below OrderSeqMarker <$> seq 0 MAX_ORDERS_PER_MATCHING_ROUND) 9003.
Proof. eapply c_is_eq; [apply seqs_is; vm_compute; lia|done]. Qed.
Lemma books_is : c_is (c_vec c_seq) (@seq_below OrderBookMarker <$> seq 0 MAX_HALT_BOOKS) 902.
Proof. eapply c_is_eq; [apply seqs_is; vm_compute; lia|done]. Qed.
#[local] Opaque MAX_ORDERS_PER_MATCHING_ROUND MAX_HALT_BOOKS.

Lemma enums_is :
  c_is c_side Buy 3 ∧ c_is c_time_in_force FillOrKill 3 ∧ c_is c_bool true 1.
Proof. done. Qed.

Lemma matching_is book orders :
  c_is c_seq book 9 → c_is (c_vec c_seq) orders 9003 →
  c_is c_matching_event (MkMatchingEvent book orders) 9013.
Proof. intros. unfold c_matching_event. exact_struct. Qed.
Lemma settling_is book ops fills :
  c_is c_seq book 9 → c_is (c_vec c_balance_operation) ops 153003 →
  c_is (c_vec c_fill_event) fills 55003 →
  c_is c_settling_event (MkSettlingEvent book ops fills) 208016.
Proof. intros. unfold c_settling_event. exact_struct. Qed.
Lemma set_halt_is books :
  c_is (c_vec c_seq) books 902 → c_is c_set_halt_event (MkSetHaltEvent (Some books) true) 904.
Proof. intros. pose proof enums_is as (_ & _ & ?). unfold c_set_halt_event. exact_struct. Qed.

(** Every worst case is as large as expected. *)
Lemma worst_case_payload_is v :
  c_is c_event_type (ev_payload (worst_case_memory_event v)) (expected_memory_size v - 11).
Proof.
  destruct enums_is as (? & ? & ?).
  unfold c_event_type. destruct v; cbn [worst_case_memory_event max_timestamp ev_payload];
    unfold worst_matching, worst_settling; (eapply c_is_eq; [eapply variant_is; [|reflexivity]|]).
  all: lazymatch goal with
  | |- c_is c_matching_event _ _ => apply matching_is; [done|apply orders_is]
  | |- c_is c_settling_event _ _ => apply settling_is; [done|apply operations_is|apply fills_is]
  | |- c_is c_set_halt_event _ _ => apply set_halt_is, books_is
  | |- c_is _ _ _ => apply struct_is; cbv beta iota delta [fst]; eauto 40 with exact_size nocore
  | _ => idtac
  end.
  all: by vm_compute.
Qed.

Lemma worst_case_is v :
  lenZ (s_to_bytes s_event (worst_case_memory_event v)) = expected_memory_size v.
Proof.
  cbn [s_to_bytes s_event s_cbor]. unfold cbor_to_bytes.
  change (mc_write ?c) with (Rfc8949.write c). rewrite length_write.
  change (c_is c_event (worst_case_memory_event v) (expected_memory_size v)).
  pose proof (worst_case_payload_is v) as Hp. unfold worst_case_memory_event, max_timestamp in *.
  unfold c_event. eapply c_is_eq; [apply struct_is; cbv beta iota; apply cons_is;
    [apply max_timestamp_is|apply cons_is; [exact Hp|apply nil_is]]|].
  change (head_size (Z.of_nat _)) with 1. lia.
Qed.

(** The worst cases are within their own assumptions. *)
Lemma max_quantity_small : small max_quantity.
Proof. reflexivity. Qed.
Lemma worst_operations_small n :
  Forall op_small (concat (worst_operations <$> seq 0 n)) ∧
  lenZ (filter is_transfer (concat (worst_operations <$> seq 0 n))) = 2 * Z.of_nat n.
Proof.
  generalize 0%nat. induction n as [|n IH]; intros k; [done|]. destruct (IH (S k)) as [Hs Hl].
  cbn [seq]. rewrite fmap_cons. cbn [concat]. split.
  - apply Forall_app. split; [|done]. pose proof max_quantity_small.
    repeat constructor; try done; by intros f [= <-].
  - rewrite filter_app. unfold lenZ in *. rewrite length_app, Nat2Z.inj_add, Hl.
    change (length (filter is_transfer (worst_operations k))) with 2%nat. lia.
Qed.

Lemma restricted_within : mode_within (RestrictedTo restricted_principals).
Proof. cbn [mode_within]. by rewrite restricted_size. Qed.

Lemma worst_case_within v : event_within (ev_payload (worst_case_memory_event v)).
Proof.
  destruct v; cbn [worst_case_memory_event max_timestamp ev_payload]; try exact max_quantity_small;
    try exact I.
  - apply restricted_within.
  - intros m [= <-]. apply restricted_within.
  - done.
  - cbn [event_within worst_matching me_orders]. unfold lenZ. rewrite length_fmap, length_seq. done.
  - cbn [event_within worst_settling se_balance_operations se_fills].
    destruct (worst_operations_small MAX_ORDERS_PER_MATCHING_ROUND) as [Hs Hl].
    rewrite Hl, operations_count. split_and!; [done| |done..|].
    + apply Forall_forall. intros f Hf. apply list_elem_of_fmap in Hf as (i & -> & _).
      exact max_quantity_small.
    + unfold lenZ. by rewrite length_fmap, length_seq.
  - intros l [= <-]. unfold lenZ. by rewrite length_fmap, length_seq.
Qed.
End event_size.

(** ** Principals as byte strings *)

Module PrincipalBytes.
Fixpoint list_cmp (a b : list u8) : comparison :=
  match a, b with
  | [], [] => Eq
  | [], _ :: _ => Lt
  | _ :: _, [] => Gt
  | x :: a, y :: b => match ord_cmp x y with Eq => list_cmp a b | c => c end
  end.
#[export] Instance list_Ord : Ord (list u8) := list_cmp.
#[export] Instance list_OrdLaws : OrdLaws (list u8).
Proof.
  split; unfold ord_cmp, list_Ord.
  - intros a. induction a as [|x a IH]; intros [|y b]; try done. cbn [list_cmp].
    destruct (ord_cmp x y) eqn:E.
    + apply ord_eq in E as ->. rewrite IH. naive_solver.
    + split; [done|]. intros [= -> _]. by rewrite (proj2 (ord_eq y y) eq_refl) in E.
    + split; [done|]. intros [= -> _]. by rewrite (proj2 (ord_eq y y) eq_refl) in E.
  - intros a. induction a as [|x a IH]; intros [|y b]; try done. cbn [list_cmp].
    rewrite (ord_opp x y), IH. by destruct (ord_cmp x y).
  - intros a. induction a as [|x a IH]; intros [|y b] [|z c]; try done. cbn [list_cmp].
    destruct (ord_cmp x y) eqn:E1; [|intros _|done].
    + apply ord_eq in E1 as ->. destruct (ord_cmp y z); [apply IH|done..].
    + destruct (ord_cmp y z) eqn:E2; [|intros _|done].
      * apply ord_eq in E2 as <-. by rewrite E1.
      * by rewrite (ord_lt_trans _ _ _ E1 E2).
Qed.

Definition short (bs : list u8) : bool := (length bs <=? 29)%nat.
Definition slice : Type := { bs : list u8 | short bs }.
#[export] Instance slice_Ord : Ord slice := λ a b, ord_cmp (`a) (`b).
#[export] Instance slice_OrdLaws : OrdLaws slice.
Proof.
  split.
  - intros a b. split; [intros E; apply (sig_eq_pi _), ord_eq, E|intros ->; by apply (ord_eq (`b))].
  - intros a b. apply (ord_opp (`a) (`b)).
  - intros a b c. apply (ord_lt_trans (`a) (`b) (`c)).
Qed.

(** Longer slices are cut; [Principal::from_slice] panics on them. *)
Definition cut (bs : list u8) : slice.
Proof. exists (take 29 bs). unfold short. rewrite length_take. apply Is_true_true, Nat.leb_le. lia. Defined.

Definition principal_bytes : PrincipalType := {|
  Principal := slice;
  anonymous := cut [mk_uint 8 4];
  management_canister := cut []
|}.

Definition dec_slice (c : cbor) : option slice :=
  match c with
  | CBytes bs => if short bs then Some (cut bs) else None
  | _ => None
  end.
Lemma dec_slice_ok (p : slice) : dec_slice (CBytes (`p)) = Some p.
Proof.
  destruct p as [bs Hbs]. cbn [proj1_sig dec_slice]. rewrite (Is_true_true_1 _ Hbs). f_equal. apply (sig_eq_pi _). cbn [proj1_sig cut].
  apply take_ge. by apply Is_true_true, Nat.leb_le in Hbs.
Qed.

#[export] Program Instance icrc_cbor_bytes : @IcrcCbor principal_bytes := {|
  c_principal := MkCodec (A := @Principal principal_bytes) (λ p : slice, CBytes (`p)) dec_slice dec_slice_ok;
  c_nat := c_number
|}.
Next Obligation.
  intros [bs Hbs]. cbn. unfold short in Hbs. apply Is_true_true, Nat.leb_le in Hbs.
  apply Is_true_true. unfold len_fits. apply Z.ltb_lt. lia.
Qed.

#[export] Program Instance principal_slice_bytes : @PrincipalSlice principal_bytes icrc_cbor_bytes := {|
  from_slice := cut
|}.
Next Obligation.
  intros [bs Hbs]. exists bs. split; [done|]. by apply Is_true_true, Nat.leb_le in Hbs.
Qed.
Next Obligation. intros bs Hbs. cbn. f_equal. by apply take_ge. Qed.
End PrincipalBytes.
