(* ===== verification/EntryPoints.v ===== *)
(** * The update entry points (src/canister/src/main.rs)

    The exported endpoints wrap the handlers of lib.rs: they log what happened and
    arm a zero-delay timer where matching should run at once. [Effects] is what a
    wrapper does besides answering: the lines it logs and whether it arms a timer. *)

From Stdlib Require Import String.
From stdpp Require Import prelude gmap.
From Stdlib Require Import ZArith NArith Lia.
From S2P Require Import Prelude Word BTree Text Bytes Quantity QuantityCodec.
From S2P Require Import Ids Fees OrderTypes Tokens Balance WriteBack.
From S2P Require Import OrderBook History OrderHistory UserRegistry.
From S2P Require Import Settlement Permissions PairMap Events.
From S2P Require Import State EventAudit ApiErrors Api Ledger Endpoints.

(** Log priorities (src/libs/types-internal/src/log.rs). *)
Inductive Priority : Type := Info | Debug.

(** [Priority::from_str]: "info" and "debug" in any case. *)
Definition priority_from_str (s : list u8) : option Priority :=
  if eq_ignore_ascii_case s (text "info") then Some Info
  else if eq_ignore_ascii_case s (text "debug") then Some Debug
  else None.

Section entry_points.
Context `{PrincipalType} `{!BiBTreeMap TradingPair OrderBookId} `{BigUint}.

Inductive LogMessage : Type :=
| CreatedOrder (order_id : list u8) (request : LimitOrderRequest)
| CanceledOrder (order_id : list u8) (record : ApiOrderRecord)
| WhitelistedAccount (trading : Principal)
| RevokedAccount (trading : Principal)
| DepositSucceeded (request : DepositRequest) (block_index : N)
| DepositFailed (request : DepositRequest) (err : DepositError)
| WithdrawSucceeded (request : WithdrawRequest) (block_index : N)
| WithdrawFailed (request : WithdrawRequest) (err : WithdrawError).

Record Effects : Type := MkEffects {
  fx_log : list (Priority * LogMessage);
  fx_timer : bool
}.
Definition quiet : Effects := MkEffects [] false.
Definition logs (p : Priority) (m : LogMessage) : Effects := MkEffects [(p, m)] false.

(** ** What is logged *)

Definition should_log_deposit_error (err : DepositError) : bool :=
  match err with
  | InternalError _ => true
  | TemporaryError (Some leaf) =>
      match leaf with
      | DepositLedgerTemporarilyUnavailable | DepositCallFailed _ _ => true
      | DepositOperationInProgress => false
      end
  | TemporaryError None | RequestError _ => false
  end.

Definition should_log_withdraw_error (err : WithdrawError) : bool :=
  match err with
  | InternalError _ => true
  | TemporaryError (Some leaf) =>
      match leaf with
      | WithdrawLedgerTemporarilyUnavailable | WithdrawCallFailed _ _
      | WithdrawLedgerFeeChanged => true
      | WithdrawOperationInProgress => false
      end
  | TemporaryError None | RequestError _ => false
  end.

Definition deposit_effects (request : DepositRequest) (result : result DepositResponse DepositError) :
    Effects :=
  match result with
  | Ok response => logs Info (DepositSucceeded request (dr_block_index response))
  | Err err => if should_log_deposit_error err then logs Debug (DepositFailed request err) else quiet
  end.

Definition withdraw_effects (request : WithdrawRequest)
    (result : result WithdrawResponse WithdrawError) : Effects :=
  match result with
  | Ok response => logs Info (WithdrawSucceeded request (wr_block_index response))
  | Err err => if should_log_withdraw_error err then logs Debug (WithdrawFailed request err) else quiet
  end.

(** ** The wrappers *)

(** A handler, and what its wrapper does with the result. *)
Definition entry {A} (handler : exec (A * World)) (effects : A → Effects) :
    exec (A * World * Effects) :=
  let! (r, w) := handler in Done (r, w, effects r).

Definition main_add_limit_order (w : World) (request : LimitOrderRequest) (runtime : Runtime) :
    exec (result (list u8) AddLimitOrderApiError * World * Effects) :=
  entry (add_limit_order w request runtime) (λ r,
    match r with
    | Ok order_id => MkEffects [(Info, CreatedOrder order_id request)] true
    | Err _ => quiet
    end).

Definition main_cancel_limit_order (w : World) (order_id : list u8) (runtime : Runtime) :
    exec (result ApiOrderRecord CancelLimitOrderApiError * World * Effects) :=
  entry (cancel_limit_order_endpoint w order_id runtime) (λ r,
    match r with Ok record => logs Info (CanceledOrder order_id record) | Err _ => quiet end).

Definition main_add_trading_account (w : World) (trading : Principal) (runtime : Runtime) :
    exec (result unit AddTradingAccountApiError * World * Effects) :=
  entry (add_trading_account w trading runtime) (λ r,
    match r with Ok _ => logs Info (WhitelistedAccount trading) | Err _ => quiet end).

Definition main_remove_trading_account (w : World) (trading : Principal) (runtime : Runtime) :
    exec (result unit RemoveTradingAccountApiError * World * Effects) :=
  entry (remove_trading_account w trading runtime) (λ r,
    match r with Ok _ => logs Info (RevokedAccount trading) | Err _ => quiet end).

(** [deposit] and [withdraw] before and after their await; only a finished call
    has a result to log. *)
Definition main_deposit_begin (w : World) (request : DepositRequest) (runtime : Runtime) :
    exec (result (PendingFunding * (Principal * TransferFromArgs)) DepositError * World * Effects) :=
  entry (deposit_begin w request runtime) (λ r,
    match r with Ok _ => quiet | Err err => deposit_effects request (Err err) end).

Definition main_deposit_end (w : World) (request : DepositRequest) (pf : PendingFunding)
    (reply : CallReply (result N TransferFromError)) (runtime : Runtime) :
    exec (result DepositResponse DepositError * World * Effects) :=
  entry (deposit_end w pf reply runtime) (deposit_effects request).

Definition main_withdraw_begin (w : World) (request : WithdrawRequest) (runtime : Runtime) :
    exec (result (PendingFunding * N) WithdrawError * World * Effects) :=
  entry (withdraw_begin w request runtime) (λ r,
    match r with Ok _ => quiet | Err err => withdraw_effects request (Err err) end).

Definition main_withdraw_end (w : World) (request : WithdrawRequest) (pf : PendingFunding)
    (outcome : WithdrawOutcome) (runtime : Runtime) :
    exec (result WithdrawResponse WithdrawError * World * Effects) :=
  entry (withdraw_end w pf outcome runtime) (withdraw_effects request).

Definition main_add_trading_pair (w : World) (request : AddTradingPairRequest) (runtime : Runtime) :
    exec (result unit AddTradingPairError * World * Effects) :=
  entry (add_trading_pair w request runtime) (λ _, quiet).

Definition main_halt_trading (w : World) (pairs : option (list ApiTradingPair)) (runtime : Runtime) :
    exec (result unit ApiUnauthorizedError * World * Effects) :=
  entry (halt_trading w pairs runtime) (λ _, quiet).

Definition main_resume_trading (w : World) (pairs : option (list ApiTradingPair))
    (runtime : Runtime) : exec (result unit ApiUnauthorizedError * World * Effects) :=
  entry (resume_trading w pairs runtime) (λ r,
    match r with Ok _ => MkEffects [] true | Err _ => quiet end).

(** A wrapper only adds to its handler. *)
Lemma entry_Done {A} (handler : exec (A * World)) (effects : A → Effects) r w fx :
  entry handler effects = Done (r, w, fx) ↔ handler = Done (r, w) ∧ fx = effects r.
Proof.
  unfold entry. split.
  - intros E. apply bind_Done in E as ([r' w'] & E & E'). by simplify_eq.
  - by intros [-> ->].
Qed.
End entry_points.
