(* ===== verification/EndpointSpec.v ===== *)
(** * What the update endpoints do

    The two halves of deposits and withdrawals around the ledger call, the access
    checks, and the accounts on whose behalf an order is placed. *)

From stdpp Require Import prelude gmap.
From Stdlib Require Import ZArith NArith Lia.
From S2P Require Import Prelude Word BTree Bytes Quantity QuantityCodec.
From S2P Require Import Ids Fees OrderTypes Tokens Balance WriteBack.
From S2P Require Import BalanceTotals OrderBook History OrderHistory.
From S2P Require Import UserRegistry Settlement Permissions PairMap Events.
From S2P Require Import State EventAudit Replay Ledger.
From S2P Require Import ApiErrors Api Endpoints.

Section endpoint_spec.
Context `{PrincipalType} `{!BiBTreeMap TradingPair OrderBookId} `{BigUint}.

(** The balance of every row after crediting one of them. *)
Definition credited (s s' : State) (user : Principal) (token : TokenId) (amount : Quantity) : Prop :=
  ∃ id, users (st_user_registry s') !! user = Some id ∧
  (∀ k, reserved (amount_of (tb_balances (st_balances s')) k) =
        reserved (amount_of (tb_balances (st_balances s)) k)) ∧
  (∀ k, qval (free (amount_of (tb_balances (st_balances s')) k)) =
     qval (free (amount_of (tb_balances (st_balances s)) k)) + at_key k (token, id) (qval amount)) ∧
  tb_fee_pool (st_balances s') = tb_fee_pool (st_balances s).

Lemma get_or_register_lookup r p : users (get_or_register r p).2 !! p = Some (get_or_register r p).1.
Proof.
  unfold get_or_register. destruct (users r !! p) as [id|] eqn:E; simpl; [done|].
  apply lookup_insert_eq.
Qed.

Lemma state_deposit_credits s user token amount s' :
  state_deposit s user token amount Write = Done s' → credited s s' user token amount.
Proof.
  unfold state_deposit. pose proof (get_or_register_lookup (st_user_registry s) user) as Hu.
  destruct (get_or_register _ user) as [id reg]. intros E. exec_inv.
  apply tb_deposit_Done in H1 as (Hr & Hf & _ & Hp & _). by exists id.
Qed.

(** ** Deposits *)

Lemma deposit_begin_spec w request rt r w' :
  deposit_begin w request rt = Done (r, w') →
  w_log w' = w_log w ∧ st_balances (w_state w') = st_balances (w_state w) ∧
  match r with
  | Ok (pf, (ledger, args)) => pf_caller pf = rt_msg_caller rt ∧
      pf_token pf = token_from (dr_token_id request) ∧ ledger = ledger_id (pf_token pf) ∧
      tf_from args = rt_msg_caller rt ∧ tf_to args = rt_canister_self rt ∧
      tf_amount args = dr_amount request ∧ qval (pf_amount pf) = Z.of_N (dr_amount request) ∧
      is_trading_account (w_state w) (rt_msg_caller rt) = false ∧
      ((rt_msg_caller rt, pf_token pf) ∉ st_in_flight_user_ops (w_state w)) ∧
      (rt_msg_caller rt, pf_token pf) ∈ st_in_flight_user_ops (w_state w')
  | Err _ => st_in_flight_user_ops (w_state w') = st_in_flight_user_ops (w_state w)
  end.
Proof.
  unfold deposit_begin. intros E. exec_inv. rewrite try_from_nat_eq in E.
  destruct (Z.ltb_spec (Z.of_N (dr_amount request)) (2 ^ 256)) as [Hn|Hn]; [|by exec_inv].
  destruct (negb _) in E; [by exec_inv|].
  unfold permit_deposit in E. destruct (is_trading_account _ _) eqn:Et; [by exec_inv|].
  unfold user_op_guard_new in E. case_bool_decide as Eg; [by exec_inv|].
  destruct (let? held := _ in _); injection E as <- <-; simpl; (split; [done|]); (split; [done|]).
  - rewrite q_of_Z_val by lia. split_and!; try done; [|set_solver].
    apply N2Z.inj. rewrite to_nat_val, q_of_Z_val by lia. done.
  - set_solver.
Qed.

Lemma deposit_end_spec w pf reply rt r w' :
  deposit_end w pf reply rt = Done (r, w') →
  match r with
  | Ok response => reply = Replied (Ok (dr_block_index response)) ∧
      credited (w_state w) (w_state w') (pf_caller pf) (pf_token pf) (pf_amount pf) ∧
      w_log w' = w_log w ++ [MkEvent (rt_time rt)
        (EDeposit (MkDepositEvent (pf_caller pf) (pf_token pf) (pf_amount pf)))]
  | Err _ => st_balances (w_state w') = st_balances (w_state w) ∧ w_log w' = w_log w ∧
      ∀ block, reply ≠ Replied (Ok block)
  end ∧ (pf_caller pf, pf_token pf) ∉ st_in_flight_user_ops (w_state w').
Proof.
  unfold deposit_end. intros E. apply bind_Done in E as ([r0 w1] & E & E').
  injection E' as <- <-. split; [|simpl; set_solver].
  destruct (ledger_deposit _ reply) as [response|e] eqn:El.
  - apply bind_Done in E as (w2 & E & E'). injection E' as <- <-.
    apply ledger_deposit_Ok in El. split; [done|]. unfold process_event in E. exec_inv.
    apply state_deposit_credits in H1. by split.
  - injection E as <- <-. split_and!; [done..|]. intros block ->. done.
Qed.

(** ** Withdrawals *)

(** A withdrawal in flight has taken its amount out of the caller's balance. *)
Definition debited (s s' : State) (user : Principal) (token : TokenId) (amount : Quantity) : Prop :=
  ∃ id, lookup_funding_id (st_user_registry s) user = Some id ∧
  qval amount ≤ qval (free (amount_of (tb_balances (st_balances s)) (token, id))) ∧
  (∀ k, reserved (amount_of (tb_balances (st_balances s')) k) =
        reserved (amount_of (tb_balances (st_balances s)) k)) ∧
  (∀ k, qval (free (amount_of (tb_balances (st_balances s)) k)) =
     qval (free (amount_of (tb_balances (st_balances s')) k)) + at_key k (token, id) (qval amount)).

Lemma withdraw_begin_spec w request rt r w' :
  withdraw_begin w request rt = Done (r, w') →
  let token := token_from (wr_token_id request) in
  w_log w' = w_log w ∧
  match r with
  | Ok (pf, fee) => pf_caller pf = rt_msg_caller rt ∧ pf_token pf = token ∧
      qval (pf_amount pf) = Z.of_N (wr_amount request) ∧ 0 < qval (pf_amount pf) ∧
      is_trading_account (w_state w) (rt_msg_caller rt) = false ∧
      ((rt_msg_caller rt, token) ∉ st_in_flight_user_ops (w_state w)) ∧
      (rt_msg_caller rt, token) ∈ st_in_flight_user_ops (w_state w') ∧
      fee = get_cached_ledger_fee (w_state w) token ∧
      debited (w_state w) (w_state w') (pf_caller pf) token (pf_amount pf)
  | Err _ => st_balances (w_state w') = st_balances (w_state w) ∧
      st_in_flight_user_ops (w_state w') = st_in_flight_user_ops (w_state w)
  end.
Proof.
  intros E token. unfold withdraw_begin in E. exec_inv. rewrite try_from_nat_eq in E.
  destruct (Z.ltb_spec (Z.of_N (wr_amount request)) (2 ^ 256)) as [Hn|Hn]; [|by exec_inv].
  fold token in E. destruct (negb _) in E; [by exec_inv|].
  destruct (is_zero (q_of_Z (Z.of_N (wr_amount request)))) eqn:Ez; [by exec_inv|].
  rewrite is_zero_spec, q_of_Z_val in Ez by lia. apply Z.eqb_neq in Ez.
  unfold permit_withdraw in E. destruct (is_trading_account _ _) eqn:Et; [by exec_inv|].
  unfold user_op_guard_new in E. case_bool_decide as Eg; [by exec_inv|].
  apply bind_Done in E as ([r0 s''] & Ew & E). unfold state_withdraw in Ew; simpl in Ew.
  destruct (lookup_funding_id _ _) as [id|] eqn:El.
  - apply bind_Done in Ew as ([r1 tb'] & Ew & E'). injection E' as <- <-.
    apply tb_withdraw_Done in Ew. destruct r1 as [[]|e].
    + injection E as <- <-. destruct Ew as (Hle & Hr & Hf & _). simpl. rewrite q_of_Z_val by lia.
      split_and!; try done; [lia|set_solver|]. exists id. done.
    + injection E as <- <-. destruct Ew as (-> & _). simpl. split_and!; [done..|set_solver].
  - injection Ew as <- <-. injection E as <- <-. simpl. split_and!; [done..|set_solver].
Qed.

Lemma withdraw_end_spec w pf outcome rt r w' :
  withdraw_end w pf outcome rt = Done (r, w') →
  r = wo_result outcome ∧
  ((pf_caller pf, pf_token pf) ∉ st_in_flight_user_ops (w_state w')) ∧
  match r with
  | Ok _ => st_balances (w_state w') = st_balances (w_state w)
  | Err _ => credited (w_state w) (w_state w') (pf_caller pf) (pf_token pf) (pf_amount pf) ∧
      w_log w' = w_log w
  end.
Proof.
  unfold withdraw_end. intros E. apply bind_Done in E as ([r0 w1] & E & E').
  injection E' as <- <-. split_and!; [|simpl; set_solver|].
  - destruct (wo_result outcome); exec_inv; done.
  - destruct (wo_result outcome) as [block|e]; exec_inv.
    + simpl. by destruct (wo_ledger_fee outcome).
    + apply state_deposit_credits in H1. simpl in *. by destruct (wo_ledger_fee outcome).
Qed.

(** ** Trading accounts and funding *)

Lemma add_trading_account_guard w trading rt w' :
  add_trading_account w trading rt = Done (Ok (), w') →
  ∀ token, (trading, token) ∉ st_in_flight_user_ops (w_state w).
Proof.
  unfold add_trading_account, state_validate_add_trading_account. intros E token Hin. exec_inv.
  destruct (validate_add_trading_account _ _ _ _); [|by exec_inv].
  assert (existsb (λ pt : Principal * TokenId, bool_decide (pt.1 = trading))
    (elements (st_in_flight_user_ops (w_state w))) = true) as Hx.
  { apply existsb_exists. exists (trading, token). split; [|by apply bool_decide_eq_true_2].
    by apply list_elem_of_In, elem_of_elements. }
  simpl in E. rewrite Hx in E. by exec_inv.
Qed.

(** ** Orders *)

(** What a validated order satisfies: the pair is listed, price and quantity are
    whole ticks and lots, the notional is within the bounds, and the owner's free
    balance covers the amount to reserve. *)
Record validated (s : State) (user : Principal) (pair : TradingPair) (po : PendingOrder)
    (oid : OrderId) (o : Order) : Prop := {
  va_book : get_book_id (st_trading_pairs s) pair = Some (book_id oid);
  va_order : ∃ b, st_order_books s !! book_id oid = Some b ∧ order_seq oid = ob_next_seq b ∧
    validate_order b (po_price po) (po_quantity po) = Done (Ok ()) ∧
    ∃ scale amount, base_scale s (base pair) = Done scale ∧
      checked_mul_quantity_scaled (po_price po) (po_quantity po) scale = Done (Some amount) ∧
      check_notional b amount = Ok () ∧
      qval (match po_side po with Buy => amount | Sell => po_quantity po end) ≤
        qval (user_free_balance s user
                (match po_side po with Buy => quote pair | Sell => base pair end));
  va_into : o = into_order po (order_seq oid)
}.

Lemma validate_limit_order_Ok s user pair po oid o :
  validate_limit_order s user pair po = Done (Ok (oid, o)) → validated s user pair po oid o.
Proof.
  unfold validate_limit_order. destruct (get_book_id _ pair) as [id|] eqn:Eb; [|done]. simpl.
  destruct (st_order_books s !! id) as [b|] eqn:Ebk; [|done]. cbn [expect ebind].
  destruct (validate_order b _ _) as [[[]|e]|] eqn:Ev; [|done..]. cbn [ebind try_bind map_err].
  destruct (base_scale s (base pair)) as [scale|] eqn:Es; [|done]. cbn [ebind].
  destruct (checked_mul_quantity_scaled _ _ _) as [[amount|]|] eqn:Em; [|done..]. cbn [ebind try_bind ok_or].
  destruct (check_notional b amount) as [[]|e] eqn:En; [|done].
  cbn [ebind try_bind map_err].
  assert (E : (match po_side po with
    | Buy => (quote pair, amount) | Sell => (base pair, po_quantity po) end) =
    (match po_side po with Buy => quote pair | Sell => base pair end,
     match po_side po with Buy => amount | Sell => po_quantity po end)) by (by destruct (po_side po)).
  rewrite E. destruct (q_ltb _ _) eqn:El; [done|]. intros [= <- <-].
  rewrite q_ltb_spec in El. apply Z.ltb_ge in El.
  split; [done| |done]. exists b. split_and!; [done..|]. by exists scale, amount.
Qed.

(** A halted book takes no order. *)
Lemma add_limit_order_halted w request rt r w' id :
  add_limit_order w request rt = Done (r, w') →
  get_book_id (st_trading_pairs (w_state w)) (pair_from (lr_pair request)) = Some id →
  is_halted (st_permissions (w_state w)) id = true → (∀ x, r ≠ Ok x) ∧ w' = w.
Proof.
  unfold add_limit_order. intros E Hid Hh. apply bind_Done in E as (_ & _ & E).
  destruct (pending_try_from request) as [po|e]; [|by injection E as <- <-].
  apply bind_Done in E as (v & Ev & E). destruct v as [[oid o]|e]; [|by injection E as <- <-].
  apply validate_limit_order_Ok in Ev. pose proof (va_book _ _ _ _ _ _ Ev) as Hb.
  rewrite Hid in Hb. injection Hb as ->. unfold permit_trading in E. rewrite Hh in E.
  by injection E as <- <-.
Qed.

(** ** Access control *)

Lemma add_trading_pair_unauthorized w request rt :
  rt_is_controller rt (rt_msg_caller rt) = false →
  add_trading_pair w request rt = Done (Err PairNotController, w).
Proof. intros E. unfold add_trading_pair. by rewrite E. Qed.

Lemma set_halt_unauthorized w pairs halted rt :
  rt_is_controller rt (rt_msg_caller rt) = false →
  set_halt w pairs halted rt = Done (Err ApiNotController, w).
Proof. intros E. unfold set_halt. by rewrite E. Qed.

Lemma restricted_traps s rt allowed :
  st_mode s = RestrictedTo allowed → rt_msg_caller rt ∉ allowed →
  rt_is_controller rt (rt_msg_caller rt) = false → assert_caller_is_allowed s rt = Trap.
Proof.
  intros Em Hn Hc. unfold assert_caller_is_allowed. rewrite Em, Hc.
  by rewrite bool_decide_eq_false_2.
Qed.
End endpoint_spec.
