(* ===== verification/InvEndpoints.v ===== *)
(** * The update endpoints never trap

    On a world that satisfies the invariant every endpoint returns, with a result
    or an error, and the invariant holds again; apart from deposits and
    withdrawals, none of them changes the supply of a token or touches the guards
    of the calls that are suspended. *)

From stdpp Require Import prelude gmap.
From Stdlib Require Import ZArith NArith Lia.
From S2P Require Import Prelude Word BTree Quantity Bytes QuantityCodec Ids.
From S2P Require Import Fees OrderTypes OrderQueue OrderBook BookInv.
From S2P Require Import BookPending BookCancel Tokens Balance WriteBack.
From S2P Require Import BalanceTotals History OrderHistory ApiErrors Api.
From S2P Require Import Settlement SettlementSpec UserRegistry.
From S2P Require Import UserRegistryInv Permissions PairMap Events State.
From S2P Require Import EventAudit Replay Accounting StateInv.
From S2P Require Import InvSettle InvBook InvOrder InvFunds Executor.
From S2P Require Import ExecutorSpec InvExecutor Ledger Endpoints.
From S2P Require Import EndpointSpec.
Open Scope Z_scope.

(** ** A validated order is always recorded *)

Section inv_place.
Context `{PrincipalType} `{!BiBTreeMap TradingPair OrderBookId}.
Implicit Types (s : State) (Q : list SettlingEvent) (t : TokenId) (u : UserId).

(** A covered reservation goes through. *)
Lemma tb_reserve_covered tb u t a :
  qval a ≤ qval (free (amount_of (tb_balances tb) (t, u))) → supply t tb < 2 ^ 256 →
  ∃ tb', tb_reserve tb u t a = Done (Ok (), tb').
Proof.
  intros Ha Hs. pose proof (users_total_bound t (tb_balances tb) u u).
  pose proof (fees_at_nonneg (tb_fee_pool tb) t). unfold supply in Hs.
  destruct (tb_reserve_total tb u t a) as (r & tb' & E); [lia|]. exists tb'. rewrite E.
  apply tb_reserve_Done in E. destruct r as [[]|e]; [done|]. lia.
Qed.

(** The state after placing an order. *)
Definition order_placed s (k : OrderBookId) (b : OrderBook) (h : OrderHistory) (tb : TokenBalance) : State :=
  set_order_books (<[k := b]> (st_order_books s)) (set_order_history h (set_balances tb s)).

Lemma validated_registered n Q s user tp po oid o :
  core n Q s → validated s user tp po oid o →
  ∃ b sc uid, listed s (book_id oid) b tp sc ∧ users (st_user_registry s) !! user = Some uid ∧
    order_seq oid = ob_next_seq b ∧ valid_order b (po_price po) (po_quantity po) ∧
    settles (po_price po) (po_quantity po) sc ∧
    resZ (po_side po) (po_price po) (qval (po_quantity po)) sc ≤
      qval (free (amount_of (tb_balances (st_balances s))
        (pair_token tp (pair_side (po_side po)), uid))).
Proof.
  intros Hc [Hbook (b & Hb & Hseq & Hval & sc & amount & Hsc & Hmul & _ & Hfree) _].
  assert (Hpair : get_pair (st_trading_pairs s) (book_id oid) = Some tp) by by apply get_pair_iff.
  assert (Hl : listed s (book_id oid) b tp sc) by done.
  destruct (co_book _ _ _ Hc _ _ Hb) as (tp' & sc' & Hl' & _ & Hmod & Hbid).
  destruct (listed_fun _ _ _ _ _ _ _ _ Hl Hl') as (_ & _ & ->).
  assert (Hv : valid_order b (po_price po) (po_quantity po)).
  { destruct (validate_order_spec b (po_price po) (po_quantity po)) as [[? _]|[_ E]]; [done|].
    rewrite E in Hval. done. }
  destruct Hv as (Hp & Hpm & Hq & Hqm).
  pose proof (scale_exact_of_lots _ _ _ _ _ Hmod Hpm Hqm) as Hx.
  rewrite checked_mul_quantity_scaled_eq in Hmul by done.
  destruct (Z.ltb_spec (po_price po * qval (po_quantity po)) (2 ^ 256)) as [Hlt|]; [|done].
  assert (Hs : settles (po_price po) (po_quantity po) sc) by done.
  injection Hmul as <-.
  assert (Hreq : qval (match po_side po with
      | Buy => q_of_Z (scaledZ (po_price po) (po_quantity po) sc) | Sell => po_quantity po end) =
    resZ (po_side po) (po_price po) (qval (po_quantity po)) sc).
  { destruct (po_side po); simpl; [|done]. rewrite q_of_Z_val; [done|by apply scaledZ_range]. }
  rewrite Hreq in Hfree. unfold user_free_balance in Hfree.
  rewrite lookup_funding_id_eq in Hfree by apply (co_registry _ _ _ Hc).
  pose proof (u128_range (po_price po)). pose proof (qval_range (po_quantity po)).
  pose proof (resZ_positive (po_side po) (po_price po) (qval (po_quantity po)) sc
    ltac:(lia) ltac:(lia) Hx (nonzero_pos sc)) as Hpos.
  destruct (users (st_user_registry s) !! user) as [uid|] eqn:Eu; simpl in Hfree.
  2:{ change (qval Quantity_ZERO) with 0 in Hfree. lia. }
  exists b, sc, uid. split_and!; try done. etrans; [exact Hfree|].
  replace (pair_token tp (pair_side (po_side po)))
    with (match po_side po with Buy => quote tp | Sell => base tp end) by by destruct (po_side po).
  unfold tb_get_balance, amount_of.
  destruct (tb_balances (st_balances s) !! _) as [bal|]; simpl; [done|reflexivity].
Qed.

(** What an accepted order sets aside: its value at the limit price, or its quantity. *)
Definition order_required po (sc : nonzero 64) : Quantity :=
  match po_side po with
  | Buy => q_of_Z (scaledZ (po_price po) (po_quantity po) sc)
  | Sell => po_quantity po
  end.

Lemma order_required_val po sc :
  settles (po_price po) (po_quantity po) sc →
  qval (order_required po sc) = resZ (po_side po) (po_price po) (qval (po_quantity po)) sc.
Proof.
  unfold order_required. intros Hx. destruct (po_side po); simpl; [|done].
  rewrite q_of_Z_val; [done|by apply scaledZ_range].
Qed.

Definition placed_record user po placed_by now : OrderRecord :=
  MkOrderRecord user (po_side po) (po_price po) (po_quantity po) Pending now Quantity_ZERO
    None (po_tif po) Quantity_ZERO Quantity_ZERO placed_by None.

(** [record_limit_order] runs when each of its calls does. *)
Lemma record_limit_order_run s user po placed_by now k b b' tp sc uid tb h :
  let o := into_order po (ob_next_seq b) in
  registry_inv (st_user_registry s) → listed s k b tp sc →
  users (st_user_registry s) !! user = Some uid →
  settles (po_price po) (po_quantity po) sc →
  tb_reserve (st_balances s) uid (pair_token tp (pair_side (po_side po))) (order_required po sc) =
    Done (Ok (), tb) →
  history_insert_once (st_order_history s) uid (MkCompositeId k (ob_next_seq b))
    (placed_record user po placed_by now) = Done h →
  add_pending_order b o = Done b' →
  record_limit_order s user k o placed_by now Write = Done (order_placed s k b' h tb).
Proof.
  intros o Hreg Hl Hu Hx Etb Eh Eadd. unfold record_limit_order.
  rewrite (li_pair _ _ _ _ _ Hl). cbn [expect ebind].
  rewrite (li_scale _ _ _ _ _ Hl). cbn [ebind]. rewrite (li_book _ _ _ _ _ Hl). cbn [expect ebind].
  assert (Etok : (match o_side o with
      | Buy => let! amount := checked_mul_quantity_scaled (o_price o) (o_remaining o) sc in
               let! amount := expect amount in Done (quote tp, amount)
      | Sell => Done (base tp, o_remaining o) end) =
    Done (pair_token tp (pair_side (po_side po)), order_required po sc)).
  { unfold order_required, o. simpl. destruct (po_side po); [|done]. by rewrite settles_mul by done. }
  rewrite Etok. cbn [ebind]. rewrite lookup_funding_id_eq, Hu by done.
  cbn [expect ebind]. rewrite Etb. cbn [ebind is_ok assert].
  match goal with |- context [history_insert_once ?hh _ _ _] =>
    change hh with (st_order_history s) end.
  change (MkCompositeId k (o_id o)) with (MkCompositeId k (ob_next_seq b)).
  match goal with |- context [history_insert_once _ _ _ ?rr] =>
    change rr with (placed_record user po placed_by now) end.
  rewrite Eh. cbn [ebind]. by rewrite Eadd.
Qed.

Lemma order_core n Q s user tp po oid o placed_by now :
  core n Q s → n + 1 < MAX_STEPS → validated s user tp po oid o →
  ∃ b h tb r, record_limit_order s user (book_id oid) o placed_by now Write =
      Done (order_placed s (book_id oid) b h tb) ∧
    core (n + 1) Q (order_placed s (book_id oid) b h tb) ∧
    history_get h oid = Some r ∧ or_owner r = user ∧ or_status r = Pending ∧
    or_side r = po_side po ∧ or_price r = po_price po ∧ or_quantity r = po_quantity po ∧
    or_placed_by r = placed_by ∧
    (∃ b0 next, st_order_books s !! book_id oid = Some b0 ∧ seqZ next = seqZ (ob_next_seq b0) + 1 ∧
      b = with_next_seq next (with_pending (ob_pending_orders b0 ++ [o]) b0)) ∧
    ∀ id, history_get h id = if decide (id = oid) then Some r else history_get (st_order_history s) id.
Proof.
  intros Hc Hn Hva. pose proof (va_into _ _ _ _ _ _ Hva) as ->.
  destruct (validated_registered _ _ _ _ _ _ _ _ Hc Hva)
    as (b & sc & uid & Hl & Hu & Hseq & Hv & Hs & Hfree).
  destruct oid as [k seq]. simpl in *. subst seq. set (oid := MkCompositeId k (ob_next_seq b)).
  destruct (co_book _ _ _ Hc _ _ (li_book _ _ _ _ _ Hl)) as (_ & _ & _ & Hready & _).
  set (o := into_order po (ob_next_seq b)).
  assert (Hmax : n < uint_max 64) by (unfold MAX_STEPS in Hn; change (uint_max 64) with (2 ^ 64 - 1); lia).
  destruct (submit_ready n b po Hready Hmax Hv) as (b' & Eadd & Hready').
  destruct (add_pending_order_spec b o) as (next & Eadd' & Hnext & _);
    [apply Hready|done|done|destruct Hready; lia|].
  fold o in Eadd. rewrite Eadd' in Eadd. injection Eadd as <-.
  pose proof (order_required_val po sc Hs) as Hreq.
  set (tok := pair_token tp (pair_side (po_side po))).
  destruct (tb_reserve_covered (st_balances s) uid tok (order_required po sc)) as [tb Etb];
    [by rewrite Hreq| |].
  { pose proof (co_supply _ _ _ Hc tok) as Hsup. unfold state_supply, MAX_SUPPLY in Hsup.
    assert (2 ^ 128 < 2 ^ 256) by done. lia. }
  pose proof (tb_reserve_Done _ _ _ _ _ _ Etb) as (_ & _ & Hres & _ & Hsup & _).
  destruct (co_history _ _ _ Hc) as (log & Hlog & Hlen).
  assert (Hfresh : history_get (st_order_history s) oid = None).
  { by eapply (place_fresh n Q s k b tp sc o). }
  set (r := placed_record user po placed_by now).
  destruct (insert_once_spec (st_order_history s) log uid oid r Hlog) as (h & Eh & Hlog' & Hget).
  { unfold MAX_STEPS in Hn. lia. }
  { unfold history_get in Hfresh. by apply fmap_None in Hfresh. }
  exists (with_next_seq next (with_pending (ob_pending_orders b ++ [o]) b)), h, tb, r.
  split_and!; try done; [| |by rewrite Hget, decide_True|by exists b, next; destruct Hl].
  - by apply (record_limit_order_run s user po placed_by now k b _ tp sc uid tb h); [apply Hc|..].
  - apply (place_core n Q s k b tp sc o next r uid tb h); try done.
    + exists (log ++ [(uid, oid, r)]). split; [done|]. rewrite length_app. simpl. lia.
    + intros t u. rewrite Hres, Hreq. done.
Qed.
End inv_place.

Section inv_endpoints.
Context `{PrincipalType} `{!BiBTreeMap TradingPair OrderBookId} `{BigUint}.
Implicit Types (s : State) (w : World) (rt : Runtime).

(** What every endpoint but the funding ones keeps. *)
Record kept s s' : Prop := {
  kp_ops : st_in_flight_user_ops s' = st_in_flight_user_ops s;
  kp_tasks : st_active_tasks s' = st_active_tasks s;
  kp_policy : st_execution_policy s' = st_execution_policy s;
  kp_supply t : state_supply t s' = state_supply t s;
  kp_trading p t : (p, t) ∈ st_in_flight_user_ops s →
    trading_accounts (st_user_registry s) !! p = None →
    trading_accounts (st_user_registry s') !! p = None
}.

#[export] Instance kept_preorder : PreOrder kept.
Proof.
  split; [done|]. intros s1 s2 s3 [O1 T1 P1 S1 G1] [O2 T2 P2 S2 G2]. split;
    [congruence..|by intros t; rewrite S2, S1|].
  intros p t Hin Hp. eapply G2; [by rewrite O1|]. by eapply G1.
Qed.

Lemma internal_kept s s' : internal s s' → kept s s'.
Proof. intros [R O T _ P _ _ _ S]. split; try done. intros p t _. by rewrite R. Qed.

(** The world of a finished call, as the endpoints leave it. *)
Definition goes (n : Z) w {A} (c : exec (A * World)) : Prop :=
  ∃ r w', c = Done (r, w') ∧ world_inv n w' ∧ kept (w_state w) (w_state w').

Lemma goes_same n n' w {A} (a : A) : world_inv n w → n ≤ n' → goes n' w (Done (a, w)).
Proof. intros Hw Hn. exists a, w. split_and!; [done|by eapply core_mono|done]. Qed.

(** ** Orders *)

Lemma validate_limit_order_total n Q s user tp po :
  core n Q s → ∃ r, validate_limit_order s user tp po = Done r.
Proof.
  intros Hc. unfold validate_limit_order.
  destruct (get_book_id (st_trading_pairs s) tp) as [k|] eqn:Ek; [|by eexists].
  cbn [ok_or try_bind]. apply get_pair_iff in Ek.
  destruct (co_pair _ _ _ Hc _ _ Ek) as [b Hb]. rewrite Hb. cbn [expect ebind].
  destruct (co_book _ _ _ Hc _ _ Hb) as (tp' & sc & Hl & _ & Hmod & _).
  assert (tp' = tp) as -> by (pose proof (li_pair _ _ _ _ _ Hl); congruence).
  destruct (validate_order_spec b (po_price po) (po_quantity po)) as [[Hv ->]|[_ ->]];
    cbn [ebind map_err try_bind]; [|by eexists].
  destruct Hv as (_ & Hpm & _ & Hqm). rewrite (li_scale _ _ _ _ _ Hl). cbn [ebind].
  rewrite checked_mul_quantity_scaled_eq by by eapply scale_exact_of_lots.
  cbn [ebind]. destruct (_ <? _); cbn [ok_or try_bind]; [|by eexists].
  destruct (check_notional _ _); cbn [map_err try_bind]; [|by eexists].
  destruct (po_side po); destruct (q_ltb _ _); by eexists.
Qed.

Lemma add_limit_order_goes n w request rt :
  world_inv n w → n + 1 < MAX_STEPS → assert_caller_is_allowed (w_state w) rt = Done () →
  goes (n + 1) w (add_limit_order w request rt).
Proof.
  intros Hw Hn Ha. unfold add_limit_order. rewrite Ha. cbn [ebind].
  destruct (pending_try_from request) as [po|]; [|by apply goes_same with n; [|lia]].
  set (owner := effective_account _ _).
  destruct (validate_limit_order_total _ _ _ owner (pair_from (lr_pair request)) po Hw) as [v Ev].
  rewrite Ev. cbn [ebind]. destruct v as [[oid o]|e]; [|by apply goes_same with n; [|lia]].
  unfold permit_trading. destruct (is_halted _ _); [by apply goes_same with n; [|lia]|].
  apply validate_limit_order_Ok in Ev.
  destruct (order_core n (st_pending_settling_events (w_state w)) (w_state w) owner
    (pair_from (lr_pair request)) po oid o (acting_caller (rt_msg_caller rt) owner) (rt_time rt) Hw Hn Ev)
    as (b & h & tb & r & E & Hc' & _).
  assert (Hx : apply_state_transition (w_state w) (EAddLimitOrder (MkAddLimitOrderEvent owner oid
    (o_side o) (o_price o) (o_remaining o) (o_tif o) (acting_caller (rt_msg_caller rt) owner)))
    (rt_time rt) Write = Done (order_placed (w_state w) (book_id oid) b h tb)).
  { rewrite <- E. rewrite (va_into _ _ _ _ _ _ Ev). destruct oid. by destruct po. }
  unfold process_event. rewrite Hx. cbn [ebind]. eexists _, _. split; [done|].
  split; [exact Hc'|]. split; try done. intros t. simpl.
  by rewrite (transition_supply _ _ _ _ t Hx), Z.add_0_r.
Qed.

(** Settling what a canceled order releases moves it from reserved to free. *)
Lemma settle_unreserve s e ts s' seq (t0 : PairToken) a0 :
  se_balance_operations e = [Unreserve seq t0 a0] → record_settling_event s e ts Write = Done s' →
  ∀ k, qval (free (amount_of (tb_balances (st_balances s')) k)) +
         qval (reserved (amount_of (tb_balances (st_balances s')) k)) =
       qval (free (amount_of (tb_balances (st_balances s)) k)) +
         qval (reserved (amount_of (tb_balances (st_balances s)) k)).
Proof.
  intros Eo E k. unfold record_settling_event in E. rewrite Eo in E.
  apply bind_Done in E as (tp & _ & E). apply bind_Done in E as (sc & _ & E).
  apply bind_Done in E as (m & _ & E). apply bind_Done in E as (h & _ & E).
  apply bind_Done in E as ([[] tb] & Eb & [= <-]). cbn [st_balances set_balances].
  apply with_write_back_Done in Eb as (wb & Eb & ->). cbn [exec_fold settle_op] in Eb.
  apply bind_Done in Eb as (wb1 & Eb & [= <-]). apply bind_Done in Eb as (wb2 & Eb & [= <-]).
  apply bind_Done in Eb as (o & _ & Eb).
  pose proof (wb_new_ok (tb_balances (st_balances (set_trade_history h s)))
    (tb_fee_pool (st_balances (set_trade_history h s)))) as Hok.
  destruct (wb_unreserve_Done _ _ _ _ _ Hok Eb) as ([Hok' _] & _ & Hres & Hfree & _).
  cbn [tb_balances]. rewrite flush_view by done. specialize (Hres k). specialize (Hfree k).
  rewrite view_new in Hres, Hfree. simpl in *. lia.
Qed.

(** What a cancellation leaves: the record is canceled, what it had reserved is free
    again, and nothing else changed. *)
Record canceled_in s s' oid (r' : OrderRecord) : Prop := {
  ca_registry : st_user_registry s' = st_user_registry s;
  ca_mode : st_mode s' = st_mode s;
  ca_ops : st_in_flight_user_ops s' = st_in_flight_user_ops s;
  ca_tokens : st_tokens s' = st_tokens s;
  ca_queue : st_pending_settling_events s' = st_pending_settling_events s;
  ca_status : or_status r' = Canceled;
  ca_history id' : history_get (st_order_history s') id' =
    if decide (id' = oid) then Some r' else history_get (st_order_history s) id';
  ca_total k : qval (free (amount_of (tb_balances (st_balances s')) k)) +
      qval (reserved (amount_of (tb_balances (st_balances s')) k)) =
    qval (free (amount_of (tb_balances (st_balances s)) k)) +
      qval (reserved (amount_of (tb_balances (st_balances s)) k))
}.

Lemma cancel_live n w by_ oid r rt :
  world_inv n w → n < MAX_STEPS → history_get (st_order_history (w_state w)) oid = Some r →
  live (or_status r) →
  ∃ r' w', cancel_limit_order w (or_owner r) by_ oid rt = Done (Ok r', w') ∧ world_inv n w' ∧
    kept (w_state w) (w_state w') ∧ canceled_in (w_state w) (w_state w') oid r'.
Proof.
  intros Hw Hn Er Hlive. unfold cancel_limit_order, validate_cancel_limit_order.
  rewrite Er, bool_decide_eq_false_2 by (intros Hne; by apply Hne).
  destruct (cancel_core n _ _ oid r by_ (rt_time rt) Hw Er Hlive)
    as (e & b' & h' & r' & E & Hc & Hget & Hst & _ & t & a & Eo).
  set (Q := st_pending_settling_events (w_state w)) in *.
  set (s' := book_stepped (w_state w) (book_id oid) b' h' (Q ++ [e])) in *.
  assert (Hx : apply_state_transition (w_state w)
    (ECancelLimitOrder (MkCancelLimitOrderEvent oid by_)) (rt_time rt) Write = Done s') by exact E.
  match goal with |- context [match ?m with Ok _ => _ | Err _ => _ end] =>
    replace m with (@Ok unit CancelLimitOrderError ()) by by destruct Hlive as [-> | ->] end.
  unfold process_event at 1. rewrite Hx. cbn [ebind w_state w_log].
  change (st_pending_settling_events s') with (Q ++ [e]).
  rewrite drop_app_length, take_app_length. cbn [exec_fold].
  set (s1 := set_pending_settling_events Q s').
  destruct (settle_core n e Q s1 (rt_time rt)) as (tb & h & E2 & Hc2); [|done|].
  { eapply core_perm; [|eapply core_same; [|exact Hc]; done]. symmetry. apply Permutation_cons_append. }
  unfold settle_now, process_event. cbn [apply_state_transition w_state w_log]. rewrite E2. cbn [ebind w_state].
  change (st_order_history (w_state (MkWorld (set_balances tb (set_trade_history h s1)) _))) with h'.
  rewrite Hget, decide_True by done. cbn [expect ebind].
  rewrite bool_decide_eq_true_2 by done. cbn [assert ebind].
  eexists _, _. split; [done|]. split; [exact Hc2|]. split.
  - etrans; [|by eapply internal_kept, settle_internal]. done.
  - split; try done. intros k. exact (settle_unreserve _ _ _ _ _ _ _ Eo E2 k).
Qed.

Lemma cancel_goes n w owner by_ oid rt :
  world_inv n w → n < MAX_STEPS → goes n w (cancel_limit_order w owner by_ oid rt).
Proof.
  intros Hw Hn. assert (Hr : ∀ e, validate_cancel_limit_order (w_state w) owner oid = Err e →
    goes n w (cancel_limit_order w owner by_ oid rt)).
  { intros e E. unfold cancel_limit_order. rewrite E. by apply goes_same with n. }
  unfold validate_cancel_limit_order in Hr.
  destruct (history_get (st_order_history (w_state w)) oid) as [r|] eqn:Er; [|by eapply Hr].
  case_bool_decide as Hne; [by eapply Hr|]. subst owner.
  destruct (or_status r) eqn:Est; try by eapply Hr.
  1, 2: destruct (cancel_live n w by_ oid r rt Hw Hn Er) as (r' & w' & E & Hw' & Hk & _);
    [rewrite Est; unfold live; auto|exact (ex_intro _ _ (ex_intro _ _ (conj E (conj Hw' Hk))))].
Qed.

Lemma cancel_endpoint_goes n w id rt :
  world_inv n w → n < MAX_STEPS → assert_caller_is_allowed (w_state w) rt = Done () →
  goes n w (cancel_limit_order_endpoint w id rt).
Proof.
  intros Hw Hn Ha. unfold cancel_limit_order_endpoint. rewrite Ha. cbn [ebind].
  destruct (from_str id) as [oid|]; [|by apply goes_same with n].
  match goal with |- context [cancel_limit_order w ?o ?b oid rt] =>
    destruct (cancel_goes n w o b oid rt Hw Hn) as (r & w' & -> & Hw' & Hk) end.
  cbn [ebind]. by destruct r; eexists _, _.
Qed.

(** ** Trading accounts *)

Lemma registry_goes n w reg {A} (a : A) log :
  world_inv n w → registry_inv reg → users reg = users (st_user_registry (w_state w)) →
  (∀ p t, (p, t) ∈ st_in_flight_user_ops (w_state w) →
     trading_accounts (st_user_registry (w_state w)) !! p = None → trading_accounts reg !! p = None) →
  goes n w (Done (a, MkWorld (set_user_registry reg (w_state w)) log)).
Proof.
  intros Hw Hr Hu Ht. exists a. eexists. split; [done|]. split; [|done].
  by apply (registry_core _ _ _ _ Hw).
Qed.

Lemma add_trading_account_goes n w trading rt :
  world_inv n w → assert_caller_is_allowed (w_state w) rt = Done () →
  goes n w (add_trading_account w trading rt).
Proof.
  intros Hw Ha. pose proof (add_trading_account_guard w trading rt) as Hguard.
  revert Hguard. unfold add_trading_account. rewrite Ha. cbn [ebind].
  destruct (state_validate_add_trading_account _ _ _ _) as [[]|e] eqn:Ev;
    [|intros; by apply goes_same with n].
  unfold state_validate_add_trading_account in Ev.
  destruct (validate_add_trading_account _ _ _ _) as [[]|e] eqn:Ev'; [|done].
  pose proof (co_registry _ _ _ Hw) as Hreg.
  destruct (validate_add_Ok _ _ _ _ Hreg Ev') as (id & Hf & _ & Hanon & Hmg & Hu & Ht & Hlen & _).
  destruct (record_add_spec _ _ _ (rt_time rt) id Hreg Hf Hanon Hmg Hu Ht Hlen)
    as (reg & E & Hinv & Husers & Htr & _).
  unfold process_event. cbn [apply_state_transition state_record_add_trading_account
    atae_funding atae_trading]. rewrite E. cbn [ebind]. intros Hguard.
  apply registry_goes; try done. intros p t Hin Hp. rewrite Htr, lookup_insert_ne; [done|].
  intros ->. by eapply Hguard.
Qed.

Lemma remove_trading_account_goes n w trading rt :
  world_inv n w → assert_caller_is_allowed (w_state w) rt = Done () →
  goes n w (remove_trading_account w trading rt).
Proof.
  intros Hw Ha. unfold remove_trading_account. rewrite Ha. cbn [ebind].
  unfold state_validate_remove_trading_account.
  destruct (validate_remove_trading_account _ _ _) as [[]|e] eqn:Ev; [|by apply goes_same with n].
  cbn [map_err].
  destruct (record_remove_spec _ _ _ (co_registry _ _ _ Hw) Ev)
    as (reg & id & E & Hinv & Husers & _ & Htr & _).
  unfold process_event. cbn [apply_state_transition state_record_remove_trading_account
    rtae_funding rtae_trading]. rewrite E. cbn [ebind].
  apply registry_goes; try done. intros p t _ Hp. rewrite Htr. by apply lookup_delete_None; right.
Qed.

(** ** Administration *)

Lemma check_consistent s t m : check_token_metadata_consistency s t m = Ok () → consistent s t m.
Proof.
  unfold check_token_metadata_consistency, consistent. intros E m' Hm. rewrite Hm in E.
  by case_bool_decide.
Qed.

Lemma parse_trading_pair_Ok request v :
  parse_trading_pair request = Ok v →
  token_from (at_id (tr_base request)) ≠ token_from (at_id (tr_quote request)).
Proof.
  unfold parse_trading_pair. case_bool_decide as Hne; [done|]. intros _ E. apply Hne.
  destruct (at_id (tr_base request)), (at_id (tr_quote request)). by injection E as ->.
Qed.

Lemma add_trading_pair_goes n w request rt :
  world_inv n w → n + 1 < MAX_STEPS → goes (n + 1) w (add_trading_pair w request rt).
Proof.
  intros Hw Hn. unfold add_trading_pair.
  assert (Hsame : ∀ r : result unit AddTradingPairError, goes (n + 1) w (Done (r, w)))
    by (intros; apply goes_same with n; [done|lia]).
  destruct (negb _); [done|].
  destruct (parse_trading_pair request) as [[[[[tick lot] fees] mn] mx]|e] eqn:Ep; [|done].
  apply parse_trading_pair_Ok in Ep.
  set (tp := MkTradingPair _ _). destruct (has_trading_pair _ tp) eqn:Ehas; [done|].
  destruct (check_token_metadata_consistency _ (base tp) _) as [[]|] eqn:Eb; [|done].
  destruct (check_token_metadata_consistency _ (quote tp) _) as [[]|] eqn:Eq; [|done].
  apply check_consistent in Eb, Eq.
  destruct (pow10_u64 _) as [scale|] eqn:Es; [|done].
  assert (Hpow := Es). unfold pow10_u64 in Hpow. apply checked_Some in Hpow.
  pose proof (u8_range (decimals (metadata_from (at_metadata (tr_base request))))) as Hdec.
  assert (Hscale : 0 < scale) by (rewrite Hpow; apply Z.pow_pos_nonneg; lia).
  rewrite checked_mul_u64_eq, qval_from_u128.
  pose proof (u128_range tick). pose proof (u64_range lot). pose proof (u64_range scale).
  rewrite q_checked_in by nia. cbn [expect ebind].
  rewrite checked_div_rem_u64_eq, q_of_Z_val by nia.
  destruct (Z.eqb_spec scale 0); [lia|]. cbn [expect ebind].
  pose proof (Z.mod_pos_bound (tick * lot) scale Hscale) as Hmb.
  rewrite mk_uint_small by (simpl; lia).
  destruct (Z.eqb_spec (tick * lot mod scale) 0) as [Hdiv|]; [|apply Hsame]. cbn [negb].
  destruct (pair_core n (st_pending_settling_events (w_state w)) (w_state w) tp
    (metadata_from (at_metadata (tr_base request))) (metadata_from (at_metadata (tr_quote request))) tick lot mn mx fees scale Hw)
    as (tokens & pairs & next & book & E & Hc' & _); try done; [lia| |].
  { unfold has_trading_pair, pairs_contains in Ehas. by apply bool_decide_eq_false, eq_None_not_Some in Ehas. }
  unfold process_event. cbn [apply_state_transition atp_book_id atp_base atp_quote
    atp_base_metadata atp_quote_metadata atp_tick_size atp_lot_size atp_min_notional
    atp_max_notional atp_fee_rates]. change (MkTradingPair (base tp) (quote tp)) with tp.
  rewrite E. cbn [ebind]. by eexists _, _.
Qed.

(** A controller names at most [MAX_HALT_BOOKS] pairs, all of them listed. *)
Definition halt_ok s rt (pairs : option (list ApiTradingPair)) : Prop :=
  rt_is_controller rt (rt_msg_caller rt) = true → ∀ ps, pairs = Some ps →
    (length ps ≤ MAX_HALT_BOOKS)%nat ∧
    ∀ tp, tp ∈ ps → is_Some (get_book_id (st_trading_pairs s) (pair_from tp)).

Lemma set_halt_goes n w pairs halted rt :
  world_inv n w → halt_ok (w_state w) rt pairs → goes n w (set_halt w pairs halted rt).
Proof.
  intros Hw Hok. unfold set_halt.
  destruct (rt_is_controller rt (rt_msg_caller rt)) eqn:Ec; [|by apply goes_same with n].
  cbn [negb]. specialize (Hok Ec).
  assert (∃ ids, match pairs with
    | None => Done None
    | Some pairs => if (MAX_HALT_BOOKS <? length pairs)%nat then Trap else
        let! ids := exec_map (λ p, expect (get_book_id (st_trading_pairs (w_state w)) (pair_from p))) pairs in
        Done (Some ids) end = Done ids) as [ids ->].
  { destruct pairs as [ps|]; [|by eexists]. destruct (Hok ps eq_refl) as [Hlen Hall].
    rewrite (proj2 (Nat.ltb_ge _ _) Hlen).
    destruct (exec_map_total (λ _ _, True)
      (λ p, expect (get_book_id (st_trading_pairs (w_state w)) (pair_from p))) ps) as (ids & -> & _);
      [|by eexists].
    intros tp Htp. destruct (Hall tp Htp) as [k ->]. by eexists. }
  cbn [ebind]. unfold process_event. cbn [apply_state_transition ebind].
  eexists _, _. split; [done|]. split; [|done]. eapply core_same; [|exact Hw]. done.
Qed.

(** ** The timer *)

Lemma drive_matching_goes n w rt :
  world_inv n w → n < MAX_STEPS → st_active_tasks (w_state w) = ∅ →
  goes n w (drive_matching rt w).
Proof.
  intros Hw Hn Ht. unfold drive_matching, drive_pending_orders, timer_guard_new.
  rewrite bool_decide_eq_false_2 by (rewrite Ht; apply not_elem_of_empty).
  set (s1 := set_active_tasks _ _).
  destruct (run_once_core n rt (MkWorld s1 (w_log w))) as (st & w' & -> & Hw' & Hi);
    [eapply core_same; [|exact Hw]; done|done|].
  cbn [ebind]. eexists _, _. split; [done|]. split.
  { eapply core_same; [|exact Hw']. done. }
  assert (Hk : kept s1 (w_state w')) by by apply internal_kept.
  destruct Hk as [Hops Htasks Hpol Hsup Htr]. split; try done. simpl. unfold timer_guard_drop.
  cbn [st_active_tasks set_active_tasks w_state]. rewrite Htasks, Ht. set_solver.
Qed.
End inv_endpoints.
