(* ===== verification/System.v ===== *)
(** * The canister as a system of messages (src/canister/src/main.rs, lib.rs)

    The canister processes one message at a time: an update call, the reply of a
    ledger a deposit or withdrawal waits for, a timer, or an upgrade. [System] is
    the canister's world with what the platform keeps for it: the calls that are
    suspended, the zero-delay timers that are armed, and, per token, the record of
    the transfers into and out of the canister's ledger account. *)

From stdpp Require Import prelude gmap.
From Stdlib Require Import ZArith NArith Lia.
From S2P Require Import Prelude Word BTree Bytes Quantity QuantityCodec.
From S2P Require Import Ids Fees OrderTypes Tokens Balance WriteBack.
From S2P Require Import OrderQueue OrderBook History OrderHistory.
From S2P Require Import UserRegistry Settlement Permissions PairMap Events.
From S2P Require Import State EventAudit Snapshot Executor.
From S2P Require Import ApiErrors Api Ledger Endpoints EntryPoints.
Open Scope Z_scope.

Section system.
Context `{PrincipalType} `{!BiBTreeMap TradingPair OrderBookId} `{BigUint}.

(** A call at its [await]: a deposit with the transfer it asked for and the canister's
    own principal, a withdrawal with the ledger fee it starts from. *)
Inductive Suspended : Type :=
| AwaitDeposit (request : DepositRequest) (pf : PendingFunding) (call : Principal * TransferFromArgs)
    (self : Principal)
| AwaitWithdraw (request : WithdrawRequest) (pf : PendingFunding) (cached_fee : N).

Record System : Type := MkSystem {
  sys_world : World;
  sys_calls : list Suspended;
  sys_timers : nat;
  sys_flows : list (TokenId * Z)
}.

(** The replies of a ledger to the transfers of a withdrawal. *)
Definition LedgerReplies : Type := nat → TransferCall → CallReply (result N TransferError).

Inductive Message : Type :=
| AddLimitOrder (request : LimitOrderRequest)
| CancelLimitOrder (order_id : list u8)
| AddTradingAccount (trading : Principal)
| RemoveTradingAccount (trading : Principal)
| Deposit (request : DepositRequest)
| DepositReply (call : nat) (reply : CallReply (result N TransferFromError))
| Withdraw (request : WithdrawRequest)
| WithdrawReply (call : nat) (ledger : LedgerReplies)
| AddTradingPair (request : AddTradingPairRequest)
| HaltTrading (pairs : option (list ApiTradingPair))
| ResumeTrading (pairs : option (list ApiTradingPair))
| TimerFires
| IntervalFires
| Upgrade (arg : option OisyTradeArg).

Definition set_world (w : World) (sys : System) : System :=
  MkSystem w (sys_calls sys) (sys_timers sys) (sys_flows sys).
Definition suspend (c : Suspended) (sys : System) : System :=
  MkSystem (sys_world sys) (sys_calls sys ++ [c]) (sys_timers sys) (sys_flows sys).
Definition resume (i : nat) (sys : System) : System :=
  MkSystem (sys_world sys) (delete i (sys_calls sys)) (sys_timers sys) (sys_flows sys).
Definition set_timer (arm : bool) (sys : System) : System :=
  MkSystem (sys_world sys) (sys_calls sys) (sys_timers sys + Nat.b2n arm) (sys_flows sys).
Definition record_flow (flows : list (TokenId * Z)) (sys : System) : System :=
  MkSystem (sys_world sys) (sys_calls sys) (sys_timers sys) (sys_flows sys ++ flows).

(** The tokens that entered the canister's account with a reply: the transfer the
    ledger accepted, by its token and amount, if its recipient is the canister. *)
Definition deposit_flow (self : Principal) (call : Principal * TransferFromArgs)
    (reply : CallReply (result N TransferFromError)) : list (TokenId * Z) :=
  match reply with
  | Replied (Ok _) =>
      if decide (tf_to call.2 = self) then [(MkTokenId call.1, Z.of_N (tf_amount call.2))] else []
  | _ => []
  end.

(** The tokens that left it: an accepted [icrc1_transfer] debits its caller, the canister. *)
Definition withdraw_flow (outcome : WithdrawOutcome) (calls : list TransferCall) :
    list (TokenId * Z) :=
  match wo_result outcome, last calls with
  | Ok _, Some c => [(MkTokenId (tc_ledger c), - Z.of_N (tc_amount c + tc_fee c))]
  | _, _ => []
  end.

(** The state an update call leaves behind, with the timer it may have armed. *)
Definition after_call {A} (r : A * World * Effects) (sys : System) : System :=
  set_timer (fx_timer r.2) (set_world r.1.2 sys).

(** One message. A trap undoes it; the timer re-arms itself while there is work
    left. An upgrade waits for the suspended calls, and drops the timers. *)
Definition deliver (rt : Runtime) (sys : System) (m : Message) : exec System :=
  let w := sys_world sys in
  match m with
  | AddLimitOrder request =>
      let! r := main_add_limit_order w request rt in Done (after_call r sys)
  | CancelLimitOrder order_id =>
      let! r := main_cancel_limit_order w order_id rt in Done (after_call r sys)
  | AddTradingAccount trading =>
      let! r := main_add_trading_account w trading rt in Done (after_call r sys)
  | RemoveTradingAccount trading =>
      let! r := main_remove_trading_account w trading rt in Done (after_call r sys)
  | Deposit request =>
      let! r := main_deposit_begin w request rt in
      Done (match r.1.1 with
            | Ok (pf, call) => suspend (AwaitDeposit request pf call (rt_canister_self rt)) (after_call r sys)
            | Err _ => after_call r sys
            end)
  | DepositReply i reply =>
      match sys_calls sys !! i with
      | Some (AwaitDeposit request pf call self) =>
          let! r := main_deposit_end w request pf reply rt in
          Done (record_flow (deposit_flow self call reply) (resume i (after_call r sys)))
      | _ => Done sys
      end
  | Withdraw request =>
      let! r := main_withdraw_begin w request rt in
      Done (match r.1.1 with
            | Ok (pf, fee) => suspend (AwaitWithdraw request pf fee) (after_call r sys)
            | Err _ => after_call r sys
            end)
  | WithdrawReply i ledger =>
      match sys_calls sys !! i with
      | Some (AwaitWithdraw request pf fee) =>
          let! (outcome, calls) :=
            ledger_withdraw (pf_token pf) (pf_caller pf) (pf_amount pf) fee ledger in
          let! r := main_withdraw_end w request pf outcome rt in
          Done (record_flow (withdraw_flow outcome calls) (resume i (after_call r sys)))
      | _ => Done sys
      end
  | AddTradingPair request =>
      let! r := main_add_trading_pair w request rt in Done (after_call r sys)
  | HaltTrading pairs =>
      let! r := main_halt_trading w pairs rt in Done (after_call r sys)
  | ResumeTrading pairs =>
      let! r := main_resume_trading w pairs rt in Done (after_call r sys)
  | TimerFires =>
      match sys_timers sys with
      | O => Done sys
      | S timers =>
          let! (more, w) := drive_matching rt w in
          Done (set_timer more (MkSystem w (sys_calls sys) timers (sys_flows sys)))
      end
  | IntervalFires =>
      let! (more, w) := drive_matching rt w in Done (set_timer more (set_world w sys))
  | Upgrade arg =>
      match sys_calls sys with
      | [] => let! w := post_upgrade (pre_upgrade w) arg rt in Done (MkSystem w [] 0 (sys_flows sys))
      | _ => Done sys
      end
  end.

(** Installation. *)
Definition install (arg : InitArg) (rt : Runtime) : exec System :=
  let! w := init (ArgInit arg) rt in Done (MkSystem w [] 0 []).

(** What a suspended deposit asked for: its token's ledger to move exactly the amount
    to be credited from the user's account to the canister's. *)
Definition asks_for (self : Principal) (pf : PendingFunding) (call : Principal * TransferFromArgs) :
    Prop :=
  call = (ledger_id (pf_token pf),
    MkTransferFromArgs (pf_caller pf) self (to_nat (pf_amount pf))).

(** What the canister's account at the token's ledger holds. *)
Definition custody (t : TokenId) (sys : System) : Z :=
  sum_over (λ f : TokenId * Z, if decide (f.1 = t) then f.2 else 0) (sys_flows sys).

(** Withdrawals that are debited and not yet answered by the ledger. *)
Definition suspended_key (c : Suspended) : Principal * TokenId :=
  match c with
  | AwaitDeposit _ pf _ _ | AwaitWithdraw _ pf _ => (pf_caller pf, pf_token pf)
  end.
Definition leaving (t : TokenId) (c : Suspended) : Z :=
  match c with
  | AwaitWithdraw _ pf _ => if decide (pf_token pf = t) then qval (pf_amount pf) else 0
  | AwaitDeposit _ _ _ _ => 0
  end.
Definition in_transit (t : TokenId) (sys : System) : Z := sum_over (leaving t) (sys_calls sys).
End system.

(** Take apart an update call that has finished: [E] becomes the equation of the
    handler, with result [r] and world [w']. *)
Ltac call_inv E :=
  let E' := fresh "E'" in let fx := fresh "fx" in
  apply bind_Done in E as ([[r w'] fx] & E & E');
  unfold main_add_limit_order, main_cancel_limit_order, main_add_trading_account,
    main_remove_trading_account, main_deposit_begin, main_deposit_end, main_withdraw_begin,
    main_withdraw_end, main_add_trading_pair, main_halt_trading, main_resume_trading in E;
  apply entry_Done in E as [E ->]; cbn [fst snd] in E'; injection E' as <-.
