(* ===== verification/SystemInv.v ===== *)
(** * The canister keeps its invariant and never traps

    [sys_inv] is the invariant of the canister between two messages: the state's
    own, the guards of exactly the suspended calls, and custody: what the
    canister's ledger account holds of a token is what the users and the fee pool
    own plus the withdrawals on their way. Every message that the platform can
    deliver is processed to its end. *)

From stdpp Require Import prelude gmap.
From Stdlib Require Import ZArith NArith Lia.
From S2P Require Import Prelude Word BTree Bytes Quantity QuantityCodec Ids.
From S2P Require Import Fees OrderTypes Tokens Balance WriteBack BalanceTotals.
From S2P Require Import OrderQueue OrderBook BookInv BookCancel History OrderHistory.
From S2P Require Import UserRegistry UserRegistryInv Settlement SettlementSpec.
From S2P Require Import Permissions PairMap Events State EventAudit.
From S2P Require Import Replay Accounting StateInv InvSettle InvFunds.
From S2P Require Import Snapshot Executor ExecutorSpec InvExecutor.
From S2P Require Import ApiErrors Api Ledger Endpoints EntryPoints.
From S2P Require Import EndpointSpec InvEndpoints System.
Open Scope Z_scope.

Section system_inv.
Context `{PrincipalType} `{!BiBTreeMap TradingPair OrderBookId} `{BigUint}.
Implicit Types (sys : System) (rt : Runtime) (c : Suspended).

Record sys_inv (n : Z) sys : Prop := {
  si_world : world_inv n (sys_world sys);
  si_keys : NoDup (suspended_key <$> sys_calls sys);
  si_guards key : key ∈ st_in_flight_user_ops (w_state (sys_world sys)) ↔
    key ∈ suspended_key <$> sys_calls sys;
  si_callers c : c ∈ sys_calls sys →
    trading_accounts (st_user_registry (w_state (sys_world sys))) !! (suspended_key c).1 = None;
  si_amounts request pf fee : AwaitWithdraw request pf fee ∈ sys_calls sys → 0 < qval (pf_amount pf);
  si_asked request pf call self : AwaitDeposit request pf call self ∈ sys_calls sys →
    asks_for self pf call;
  si_tasks : st_active_tasks (w_state (sys_world sys)) = ∅;
  si_policy : policy_ok (st_execution_policy (w_state (sys_world sys)));
  si_custody t : custody t sys = state_supply t (w_state (sys_world sys)) + in_transit t sys;
  si_bound t : custody t sys ≤ MAX_SUPPLY
}.

(** The ledger's answers to a withdrawal: a block index fits 64 bits. *)
Definition replies_fit (ledger : LedgerReplies) : Prop :=
  ∀ k call block, ledger k call = Replied (Ok block) → is_Some (u64_try_from block).

(** An upgrade's new policy is one that [ExecutionPolicy::try_new] accepts. *)
Definition upgrade_ok (s : State) (arg : option OisyTradeArg) : Prop :=
  match arg with
  | None | Some (ArgUpgrade None) => True
  | Some (ArgUpgrade (Some a)) => ∃ s', apply_upgrade s a = Done s'
  | Some (ArgInit _) => False
  end.

(** What the environment promises: the callers of the user endpoints are admitted
    by the mode, the ledgers hold at most [MAX_SUPPLY] for the canister, and a
    controller names listed pairs and valid policies. *)
Definition message_ok sys rt (m : Message) : Prop :=
  let s := w_state (sys_world sys) in
  match m with
  | AddLimitOrder _ | CancelLimitOrder _ | AddTradingAccount _ | RemoveTradingAccount _
  | Deposit _ | Withdraw _ => assert_caller_is_allowed s rt = Done ()
  | DepositReply i reply =>
      ∀ request pf call self block, sys_calls sys !! i = Some (AwaitDeposit request pf call self) →
        reply = Replied (Ok block) →
        custody (pf_token pf) sys + qval (pf_amount pf) ≤ MAX_SUPPLY
  | WithdrawReply _ ledger => replies_fit ledger
  | HaltTrading pairs | ResumeTrading pairs => halt_ok s rt pairs
  | AddTradingPair _ | TimerFires | IntervalFires => True
  | Upgrade arg => upgrade_ok s arg
  end.

Definition steps (n : Z) (e : exec System) : Prop := ∃ sys', e = Done sys' ∧ sys_inv n sys'.

Lemma leaving_nonneg t (cs : list Suspended) c : c ∈ cs → 0 ≤ leaving t c.
Proof.
  intros _. destruct c as [|request pf fee]; [done|]. simpl. destruct (decide _); [apply qval_range|done].
Qed.

Lemma in_transit_nonneg t sys : 0 ≤ in_transit t sys.
Proof. apply sum_over_nonneg, leaving_nonneg. Qed.

Lemma sys_inv_mono n n' sys : n ≤ n' → sys_inv n sys → sys_inv n' sys.
Proof. intros Hn []. split; try done. by eapply core_mono. Qed.

(** ** Messages that leave the suspended calls alone *)

Lemma sys_kept n n' sys w' timers :
  sys_inv n sys → world_inv n' w' → kept (w_state (sys_world sys)) (w_state w') →
  sys_inv n' (MkSystem w' (sys_calls sys) timers (sys_flows sys)).
Proof.
  intros [Hw Hk Hg Hc Ha Hd Ht Hp Hcu Hb] Hw' [Kops Ktasks Kpol Ksup Ktr].
  split; try done; cbn [sys_world sys_calls].
  - intros key. by rewrite Kops.
  - intros c Hin. specialize (Hc _ Hin). destruct (suspended_key c) as [p t] eqn:Ek.
    apply (Ktr p t); [|done]. apply Hg. rewrite <- Ek. by apply list_elem_of_fmap_2.
  - by rewrite Ktasks.
  - by rewrite Kpol.
  - intros t. rewrite Ksup. apply Hcu.
Qed.

Lemma sys_goes n n' sys {A} (e : exec (A * World)) (fx : A → Effects) :
  sys_inv n sys → goes n' (sys_world sys) e →
  steps n' (let! r := entry e fx in Done (after_call r sys)).
Proof.
  intros Hs (r & w' & -> & Hw' & Hk). cbn [entry ebind]. eexists. split; [done|].
  exact (sys_kept n n' sys w' _ Hs Hw' Hk).
Qed.

Lemma sys_driven n sys rt timers :
  sys_inv n sys → n < MAX_STEPS →
  steps n (let! (more, w) := drive_matching rt (sys_world sys) in
           Done (set_timer more (MkSystem w (sys_calls sys) timers (sys_flows sys)))).
Proof.
  intros Hs Hn. destruct (drive_matching_goes n (sys_world sys) rt) as (more & w' & -> & Hw' & Hk);
    [apply Hs|done|apply (si_tasks _ _ Hs)|].
  cbn [ebind]. eexists. split; [done|]. exact (sys_kept n n sys w' _ Hs Hw' Hk).
Qed.

(** ** Suspending and resuming a call *)

Definition flow_of (t : TokenId) (flows : list (TokenId * Z)) : Z :=
  sum_over (λ f : TokenId * Z, if decide (f.1 = t) then f.2 else 0) flows.

(** What the two halves of a funding call leave alone. *)
Record funding_frame (s s' : State) : Prop := {
  ff_trading : trading_accounts (st_user_registry s') = trading_accounts (st_user_registry s);
  ff_tasks : st_active_tasks s' = st_active_tasks s;
  ff_policy : st_execution_policy s' = st_execution_policy s
}.

Lemma sys_suspend n sys w' c timers :
  sys_inv n sys → world_inv n w' → funding_frame (w_state (sys_world sys)) (w_state w') →
  st_in_flight_user_ops (w_state w') =
    {[suspended_key c]} ∪ st_in_flight_user_ops (w_state (sys_world sys)) →
  suspended_key c ∉ st_in_flight_user_ops (w_state (sys_world sys)) →
  trading_accounts (st_user_registry (w_state (sys_world sys))) !! (suspended_key c).1 = None →
  (∀ t, state_supply t (w_state w') = state_supply t (w_state (sys_world sys)) - leaving t c) →
  match c with
  | AwaitWithdraw _ pf _ => 0 < qval (pf_amount pf)
  | AwaitDeposit _ pf call self => asks_for self pf call
  end →
  sys_inv n (MkSystem w' (sys_calls sys ++ [c]) timers (sys_flows sys)).
Proof.
  intros [Hw Hk Hg Hc Ha Hd Ht Hp Hcu Hb] Hw' [Ftr Fta Fpo] Hops Hfresh Htr Hsup Hpos.
  split; try done; cbn [sys_world sys_calls].
  - rewrite fmap_app. apply NoDup_app. split_and!; [done| |apply NoDup_singleton].
    intros key Hin. cbn [fmap list_fmap]. rewrite list_elem_of_singleton. intros ->.
    apply Hfresh. by apply Hg.
  - intros key. rewrite Hops, fmap_app, elem_of_app, elem_of_union, elem_of_singleton, Hg.
    cbn [fmap list_fmap]. rewrite list_elem_of_singleton. tauto.
  - intros c'. rewrite Ftr, elem_of_app, list_elem_of_singleton. intros [Hin| ->]; [by apply Hc|done].
  - intros request pf fee. rewrite elem_of_app, list_elem_of_singleton.
    intros [Hin|E]; [by eapply Ha|]. by rewrite <- E in Hpos.
  - intros request pf call self. rewrite elem_of_app, list_elem_of_singleton.
    intros [Hin|E]; [by eapply Hd|]. by rewrite <- E in Hpos.
  - by rewrite Fta.
  - by rewrite Fpo.
  - intros t. unfold in_transit. simpl. rewrite sum_over_app, sum_over_cons, sum_over_nil, Hsup.
    specialize (Hcu t). unfold in_transit in Hcu. unfold custody in *. simpl. lia.
Qed.

Lemma sys_resume n n' sys w' i c flows timers :
  sys_inv n sys → sys_calls sys !! i = Some c → world_inv n' w' →
  funding_frame (w_state (sys_world sys)) (w_state w') →
  st_in_flight_user_ops (w_state w') =
    st_in_flight_user_ops (w_state (sys_world sys)) ∖ {[suspended_key c]} →
  (∀ t, flow_of t flows =
     state_supply t (w_state w') - state_supply t (w_state (sys_world sys)) - leaving t c) →
  (∀ t, custody t sys + flow_of t flows ≤ MAX_SUPPLY) →
  sys_inv n' (MkSystem w' (delete i (sys_calls sys)) timers (sys_flows sys ++ flows)).
Proof.
  intros [Hw Hk Hg Hc Ha Hd Ht Hp Hcu Hb] Hi Hw' [Ftr Fta Fpo] Hops Hflow Hmax.
  assert (Hperm : sys_calls sys ≡ₚ c :: delete i (sys_calls sys)) by by apply delete_Permutation.
  assert (Hsub : ∀ c', c' ∈ delete i (sys_calls sys) → c' ∈ sys_calls sys)
    by (intros c' Hin; rewrite Hperm; by right).
  assert (Hk' : NoDup (suspended_key c :: (suspended_key <$> delete i (sys_calls sys))))
    by (rewrite <-fmap_cons, <-Hperm; done).
  apply NoDup_cons in Hk' as [Hnot Hk'].
  assert (Hkeys : ∀ key, key ∈ suspended_key <$> sys_calls sys ↔
    key = suspended_key c ∨ key ∈ suspended_key <$> delete i (sys_calls sys)).
  { intros key. rewrite <- elem_of_cons, <- fmap_cons. by apply elem_of_Permutation_proper, fmap_Permutation. }
  assert (Hcust : ∀ t,
    custody t (MkSystem w' (delete i (sys_calls sys)) timers (sys_flows sys ++ flows)) =
    custody t sys + flow_of t flows)
    by (intros t; unfold custody, flow_of; simpl; by rewrite sum_over_app).
  split; simpl; try done.
  - intros key. rewrite Hops, elem_of_difference, elem_of_singleton, Hg, Hkeys.
    split; [tauto|]. intros Hin. split; [by right|]. by intros ->.
  - intros c' Hin. rewrite Ftr. by apply Hc, Hsub.
  - intros request pf fee Hin. by eapply Ha, Hsub.
  - intros request pf call self Hin. by eapply Hd, Hsub.
  - by rewrite Fta.
  - by rewrite Fpo.
  - intros t. rewrite Hcust, Hcu, Hflow. unfold in_transit. simpl.
    rewrite (sum_over_perm _ _ _ Hperm), sum_over_cons. lia.
  - intros t. rewrite Hcust. apply Hmax.
Qed.

Lemma not_trading s p : is_trading_account s p = false → trading_accounts (st_user_registry s) !! p = None.
Proof. unfold is_trading_account, registry_lookup. by destruct (trading_accounts _ !! p). Qed.

Lemma guard_new_Some s p t s' :
  user_op_guard_new s p t = Some s' →
  ((p, t) ∉ st_in_flight_user_ops s) ∧
  s' = set_in_flight_user_ops ({[(p, t)]} ∪ st_in_flight_user_ops s) s.
Proof. unfold user_op_guard_new. case_bool_decide; [done|]. by intros [= <-]. Qed.

(** A call that fails after taking its guard has dropped it. *)
Lemma guard_released n w s' p t log :
  world_inv n w → user_op_guard_new (w_state w) p t = Some s' →
  world_inv n (MkWorld (user_op_guard_drop s' p t) log) ∧
  kept (w_state w) (user_op_guard_drop s' p t).
Proof.
  intros Hw (Hfresh & ->)%guard_new_Some. split.
  - eapply core_same; [|exact Hw]. done.
  - split; try done. simpl. set_solver.
Qed.

(** ** Deposits *)

Lemma deposit_steps n sys request rt :
  sys_inv n sys → assert_caller_is_allowed (w_state (sys_world sys)) rt = Done () →
  steps n (deliver rt sys (Deposit request)).
Proof.
  intros Hs Ha. pose proof (si_world _ _ Hs) as Hw. cbn [deliver]. unfold main_deposit_begin, entry.
  destruct (deposit_begin (sys_world sys) request rt) as [[r w']|] eqn:E; cbn [ebind fst snd].
  2:{ exfalso. unfold deposit_begin in E. rewrite Ha in E. cbn [ebind] in E.
      repeat case_match; discriminate. }
  pose proof (deposit_begin_spec _ _ _ _ _ E) as (Hlog & Hbal & Hcase).
  unfold deposit_begin in E. rewrite Ha in E. cbn [ebind] in E.
  destruct r as [[pf [ledger args]]|err]; eexists; (split; [done|]).
  - destruct Hcase as (Hpc & Hpt & Hledger & Hfrom & Hto & Hasked & Hamt & Htr & Hfresh & _).
    apply not_trading in Htr. rewrite <- Hpc in Htr, Hfresh.
    assert (Ew : w' = MkWorld (set_in_flight_user_ops ({[(pf_caller pf, pf_token pf)]} ∪
      st_in_flight_user_ops (w_state (sys_world sys))) (w_state (sys_world sys))) (w_log (sys_world sys))).
    { clear Hlog Hbal. unfold user_op_guard_new in E. repeat case_match; by simplify_eq/=. }
    subst w'. apply (sys_suspend n sys _ (AwaitDeposit request pf (ledger, args) (rt_canister_self rt))); try done.
    + eapply core_same; [|exact Hw]. done.
    + intros t. unfold state_supply. simpl. lia.
    + unfold asks_for. destruct args as [from to a]. simpl in *. rewrite Hledger, Hfrom, Hto, Hpc.
      do 2 f_equal. apply N2Z.inj. by rewrite to_nat_val, Hasked, Hamt.
  - assert (Hw' : w' = sys_world sys ∨ ∃ p t s1,
      user_op_guard_new (w_state (sys_world sys)) p t = Some s1 ∧
      w' = MkWorld (user_op_guard_drop s1 p t) (w_log (sys_world sys))).
    { clear Hlog Hbal Hcase. repeat case_match; simplify_eq; eauto 10. }
    destruct Hw' as [->|(p & t & s1 & Eg & ->)]; [exact (sys_kept n n sys _ _ Hs Hw ltac:(done))|].
    destruct (guard_released n _ _ _ _ (w_log (sys_world sys)) Hw Eg) as [Hw' Hk].
    exact (sys_kept n n sys _ _ Hs Hw' Hk).
Qed.

Lemma deposit_reply_steps n sys i reply rt :
  sys_inv n sys → n + 1 < MAX_STEPS → message_ok sys rt (DepositReply i reply) →
  steps (n + 1) (deliver rt sys (DepositReply i reply)).
Proof.
  intros Hs Hn Hok. cbn [deliver].
  destruct (sys_calls sys !! i) as [[request pf call self|]|] eqn:Ei;
    [|by exists sys; split; [|apply sys_inv_mono with n; [lia|]]..].
  pose proof (si_world _ _ Hs) as Hw. pose proof (list_elem_of_lookup_2 _ _ _ Ei) as Hin.
  pose proof (si_asked _ _ Hs _ _ _ _ Hin) as Hasked.
  unfold main_deposit_end, entry, deposit_end.
  destruct (ledger_deposit (pf_token pf) reply) as [response|e] eqn:El.
  - apply ledger_deposit_Ok in El as Er. specialize (Hok request pf call self _ Ei Er).
    pose proof (si_callers _ _ Hs _ Hin) as Htr.
    pose proof (si_custody _ _ Hs (pf_token pf)) as Hcu.
    pose proof (in_transit_nonneg (pf_token pf) sys) as Hpos.
    destruct (deposit_core n _ _ (pf_caller pf) (pf_token pf) (pf_amount pf) Hw)
      as (reg & tb & E & Hc' & Htr'); [lia|exact Htr|lia|].
    unfold process_event. cbn [apply_state_transition de_user de_token de_amount].
    rewrite E. cbn [ebind]. eexists. split; [done|].
    assert (Hflow : ∀ t, flow_of t (deposit_flow self call reply) =
      if decide (pf_token pf = t) then qval (pf_amount pf) else 0).
    { intros t. rewrite Er, Hasked. unfold flow_of, deposit_flow. cbn [fst snd tf_to tf_amount].
      rewrite decide_True by done. rewrite sum_over_cons, sum_over_nil. cbn [fst snd].
      rewrite to_nat_val. destruct (pf_token pf). simpl. lia. }
    apply (sys_resume n (n + 1) sys _ i (AwaitDeposit request pf call self)); try done.
    + eapply core_same; [|exact Hc']. done.
    + intros t. rewrite Hflow. simpl.
      pose proof (state_deposit_supply _ _ _ _ _ t E) as Hsup.
      unfold state_supply in *. simpl in *. lia.
    + intros t. rewrite Hflow. pose proof (si_bound _ _ Hs t).
      destruct (decide _) as [<-|]; lia.
  - cbn [ebind]. eexists. split; [done|].
    assert (Hnil : deposit_flow self call reply = []) by (by destruct reply as [| |[]]; simplify_eq/=).
    rewrite Hnil. apply (sys_resume n (n + 1) sys _ i (AwaitDeposit request pf call self)); try done.
    + eapply core_same; [|eapply core_mono; [|exact Hw]]; [done|lia].
    + intros t. simpl. unfold flow_of. rewrite sum_over_nil. unfold state_supply. simpl. lia.
    + intros t. unfold flow_of. rewrite sum_over_nil. pose proof (si_bound _ _ Hs t). lia.
Qed.

(** ** Withdrawals *)

Lemma withdraw_steps n sys request rt :
  sys_inv n sys → assert_caller_is_allowed (w_state (sys_world sys)) rt = Done () →
  steps n (deliver rt sys (Withdraw request)).
Proof.
  intros Hs Ha. pose proof (si_world _ _ Hs) as Hw. cbn [deliver].
  unfold main_withdraw_begin.
  match goal with |- context [entry _ ?f] => set (fx := f); clearbody fx end.
  unfold entry, withdraw_begin. rewrite Ha. cbn [ebind].
  assert (Hsame : ∀ (e : WithdrawError), steps n (let! r :=
      (let! (r, w) := Done (@Err (PendingFunding * N) _ e, sys_world sys) in Done (r, w, fx r)) in
      Done (match r.1.1 with Ok (pf, fee) => suspend (AwaitWithdraw request pf fee) (after_call r sys)
            | Err _ => after_call r sys end))).
  { intros e. cbn [ebind]. eexists. split; [done|]. exact (sys_kept n n sys _ _ Hs Hw ltac:(done)). }
  destruct (try_from_nat (wr_amount request)) as [q|]; [|apply Hsame].
  destruct (negb _); [apply Hsame|].
  destruct (is_zero q) eqn:Ez; [apply Hsame|]. rewrite is_zero_spec in Ez. apply Z.eqb_neq in Ez.
  pose proof (qval_range q) as Hq.
  unfold permit_withdraw. destruct (is_trading_account _ _) eqn:Etr; [apply Hsame|].
  apply not_trading in Etr.
  destruct (user_op_guard_new _ _ _) as [s'|] eqn:Eg; [|apply Hsame].
  apply guard_new_Some in Eg as [Hfresh ->]. set (s' := set_in_flight_user_ops _ _).
  set (token := token_from (wr_token_id request)) in *.
  assert (Hc' : core n (st_pending_settling_events (w_state (sys_world sys))) s')
    by (eapply core_same; [|exact Hw]; done).
  destruct (withdraw_core n _ s' (rt_msg_caller rt) token q Hc')
    as (res & tb & -> & Hc2 & Hsup & Hoth & _).
  destruct res as [[]|e]; cbn [ebind fst snd]; eexists; (split; [done|]).
  - match goal with |- context [suspend ?c _] => apply (sys_suspend n sys _ c) end; simpl; try done.
    + intros t. destruct (decide (token = t)) as [<-|Hne].
      * exact Hsup.
      * rewrite (Hoth t) by done. unfold state_supply. simpl. lia.
    + lia.
  - match goal with |- context [after_call (_, ?w', _) sys] => apply (sys_kept n n sys w' _ Hs) end.
    { eapply core_same; [|exact Hc2]; done. }
    split; try done; simpl.
    + set_solver.
    + intros t. destruct (decide (t = token)) as [->|Hne].
      * etrans; [exact Hsup|]. unfold state_supply. simpl. lia.
      * exact (Hoth t Hne).
Qed.

(** The reply of the ledger: [s1] is the state once its fee is cached. *)
Section withdraw_reply.
Context (n : Z) (sys : System) (i : nat) (request : WithdrawRequest) (pf : PendingFunding) (fee : N).
Context (s1 : State).
Let s := w_state (sys_world sys).
Hypothesis Hs : sys_inv n sys.
Hypothesis Ei : sys_calls sys !! i = Some (AwaitWithdraw request pf fee).
Hypothesis Hsame : same_core s s1.
Hypothesis Hframe : funding_frame s s1.
Hypothesis Hops : st_in_flight_user_ops s1 = st_in_flight_user_ops s.
Hypothesis Hpend : st_pending_settling_events s1 = st_pending_settling_events s.

Lemma reply_core : core n (st_pending_settling_events s1) s1.
Proof. rewrite Hpend. eapply core_same; [exact Hsame|apply (si_world _ _ Hs)]. Qed.

Lemma reply_supply t : state_supply t s1 = state_supply t s.
Proof. unfold state_supply. by rewrite (sc_balances _ _ Hsame). Qed.

(** The ledger paid: the amount has left the custody. *)
Lemma withdraw_paid log timers :
  sys_inv (n + 1) (MkSystem (MkWorld (user_op_guard_drop s1 (pf_caller pf) (pf_token pf)) log)
    (delete i (sys_calls sys)) timers (sys_flows sys ++ [(pf_token pf, - qval (pf_amount pf))])).
Proof.
  destruct Hframe as [F1 F2 F3]. pose proof reply_core as Hc1.
  apply (sys_resume n (n + 1) sys _ i (AwaitWithdraw request pf fee)); try done.
  - eapply core_mono; [|eapply core_same; [|exact Hc1]; done]. lia.
  - simpl. by rewrite Hops.
  - intros t. unfold flow_of. rewrite sum_over_cons, sum_over_nil. simpl.
    change (state_supply t (user_op_guard_drop s1 _ _)) with (state_supply t s1).
    rewrite reply_supply. subst s. destruct (decide _); lia.
  - intros t. unfold flow_of. rewrite sum_over_cons, sum_over_nil. simpl.
    pose proof (si_bound _ _ Hs t). pose proof (qval_range (pf_amount pf)). destruct (decide _); lia.
Qed.

(** The ledger refused: the amount in transit is credited back, which cannot fail. *)
Lemma withdraw_refunded log :
  n + 1 < MAX_STEPS →
  ∃ s2, state_deposit s1 (pf_caller pf) (pf_token pf) (pf_amount pf) Write = Done s2 ∧
    ∀ timers, sys_inv (n + 1) (MkSystem (MkWorld (user_op_guard_drop s2 (pf_caller pf) (pf_token pf)) log)
      (delete i (sys_calls sys)) timers (sys_flows sys ++ [])).
Proof.
  intros Hn. pose proof (list_elem_of_lookup_2 _ _ _ Ei) as Hin. destruct Hframe as [F1 F2 F3].
  pose proof (si_callers _ _ Hs _ Hin) as Htr. simpl in Htr.
  pose proof (si_custody _ _ Hs (pf_token pf)) as Hcu.
  pose proof (si_bound _ _ Hs (pf_token pf)) as Hbd.
  assert (Hle : qval (pf_amount pf) ≤ in_transit (pf_token pf) sys).
  { etrans; [|apply (sum_over_elem_le (leaving (pf_token pf)) _ _ (leaving_nonneg _ _) Hin)].
    simpl. by rewrite decide_True. }
  destruct (deposit_core n _ s1 (pf_caller pf) (pf_token pf) (pf_amount pf) reply_core)
    as (reg & tb & E & Hc' & Htr');
    [lia|by rewrite (sc_registry _ _ Hsame)|rewrite reply_supply; subst s; lia|].
  eexists. split; [exact E|]. intros timers.
  apply (sys_resume n (n + 1) sys _ i (AwaitWithdraw request pf fee)); try done.
  - eapply core_same; [|exact Hc']. done.
  - split; simpl; [by rewrite Htr'|done|done].
  - simpl. by rewrite Hops.
  - intros t. unfold flow_of. rewrite sum_over_nil. simpl.
    pose proof (state_deposit_supply _ _ _ _ _ t E) as Hsup. rewrite reply_supply in Hsup.
    unfold state_supply in *. simpl in *. subst s. lia.
  - intros t. unfold flow_of. rewrite sum_over_nil. pose proof (si_bound _ _ Hs t). lia.
Qed.
End withdraw_reply.

Lemma withdraw_reply_steps n sys i ledger rt :
  sys_inv n sys → n + 1 < MAX_STEPS → replies_fit ledger →
  steps (n + 1) (deliver rt sys (WithdrawReply i ledger)).
Proof.
  intros Hs Hn Hok. cbn [deliver].
  destruct (sys_calls sys !! i) as [[|request pf fee]|] eqn:Ei;
    [by exists sys; split; [|apply sys_inv_mono with n; [lia|]]| |
     by exists sys; split; [|apply sys_inv_mono with n; [lia|]]].
  pose proof (si_amounts _ _ Hs _ _ _ (list_elem_of_lookup_2 _ _ _ Ei)) as Hpos.
  destruct (ledger_withdraw_spec (pf_token pf) (pf_caller pf) (pf_amount pf) fee ledger Hpos)
    as (outcome & calls & -> & _ & Hcalls & Hres & _).
  cbn [ebind]. unfold main_withdraw_end, entry, withdraw_end.
  set (s1 := match wo_ledger_fee outcome with Some _ => _ | None => _ end).
  assert (Hfee : same_core (w_state (sys_world sys)) s1 ∧ funding_frame (w_state (sys_world sys)) s1 ∧
    st_in_flight_user_ops s1 = st_in_flight_user_ops (w_state (sys_world sys)) ∧
    st_pending_settling_events s1 = st_pending_settling_events (w_state (sys_world sys)))
    by (subst s1; by destruct (wo_ledger_fee outcome)).
  clearbody s1. destruct Hfee as (Hsame & Hframe & Hops & Hpend).
  unfold withdraw_flow. destruct (wo_result outcome) as [response|e] eqn:Eres.
  - destruct (Hres response eq_refl) as (call & Hlast & Hrep).
    destruct (Hok _ _ _ Hrep) as [b64 ->]. cbn [expect ebind]. eexists. split; [done|].
    rewrite Hlast. rewrite last_lookup in Hlast. rewrite Forall_lookup in Hcalls.
    destruct (Hcalls _ _ Hlast) as (-> & _ & -> & _).
    match goal with |- context [(?tok, - _)] =>
      replace tok with (pf_token pf) by by destruct (pf_token pf) end.
    exact (withdraw_paid n sys i request pf fee s1 Hs Ei Hsame Hframe Hops Hpend _ _).
  - destruct (withdraw_refunded n sys i request pf fee s1 Hs Ei Hsame Hframe Hops Hpend
      (w_log (sys_world sys)) Hn) as (s2 & E & Hs2).
    cbn [w_state w_log]. rewrite E. cbn [ebind]. eexists. split; [done|]. exact (Hs2 _).
Qed.

(** ** Upgrades *)

Lemma sys_snapshot_ok n sys : sys_inv n sys → snapshot_ok (w_state (sys_world sys)).
Proof.
  intros Hs. split; [|apply (si_policy _ _ Hs)]. intros k b Hb.
  destruct (co_book _ _ _ (si_world _ _ Hs) _ _ Hb) as (tp & sc & _ & Hready & _ & Hid).
  split; [apply Hready|done].
Qed.

Lemma apply_upgrade_frame s a s' :
  apply_upgrade s a = Done s' → policy_ok (st_execution_policy s) →
  ∃ mode policy, s' = set_mode mode (set_execution_policy policy s) ∧ policy_ok policy.
Proof.
  unfold apply_upgrade. intros E Hp.
  set (s1 := match ua_mode a with Some m => set_mode m s | None => s end) in E.
  assert (H1 : ∃ mode, s1 = set_mode mode s)
    by (subst s1; destruct (ua_mode a) as [m|]; [by exists m|exists (st_mode s); by destruct s]).
  destruct H1 as [mode ->]. destruct (_ || _ || _).
  - destruct (policy_try_new _ _ _) as [policy|] eqn:Et; [|done]. injection E as <-.
    exists mode, policy. split; [done|]. by apply policy_try_new_Ok in Et as (_ & _ & _ & ?).
  - injection E as <-. exists mode, (st_execution_policy s). by destruct s.
Qed.

Lemma upgrade_steps n sys arg rt :
  sys_inv n sys → upgrade_ok (w_state (sys_world sys)) arg →
  steps n (deliver rt sys (Upgrade arg)).
Proof.
  intros Hs Hok. cbn [deliver]. destruct (sys_calls sys) as [|c cs] eqn:Ecalls; [|by exists sys].
  pose proof (sys_snapshot_ok _ _ Hs) as Hsn.
  destruct Hs as [Hw Hk Hg Hc Ha Hd Ht Hp Hcu Hb]. rewrite Ecalls in *.
  assert (Hinv : ∀ w', world_inv n w' → st_balances (w_state w') = st_balances (w_state (sys_world sys)) →
    st_in_flight_user_ops (w_state w') = ∅ → st_active_tasks (w_state w') = ∅ →
    policy_ok (st_execution_policy (w_state w')) → steps n (Done (MkSystem w' [] 0 (sys_flows sys)))).
  { intros w' Hw' Hbal Hops Htasks Hpol. eexists. split; [done|].
    split; cbn [sys_world sys_calls]; [done..| | | | |done|done| |done].
    - intros key. rewrite Hops. set_solver.
    - by intros c ?%not_elem_of_nil.
    - by intros request pf fee ?%not_elem_of_nil.
    - by intros request pf call self ?%not_elem_of_nil.
    - intros t. etrans; [apply (Hcu t)|]. unfold state_supply. rewrite Hbal.
      unfold in_transit. by rewrite Ecalls. }
  unfold post_upgrade, pre_upgrade. cbn [sm_snapshot sm_order_history sm_trade_history sm_balances
    sm_user_registry sm_log expect ebind]. rewrite into_from_state by done. cbn [ebind].
  set (s1 := after_upgrade _).
  assert (Hc1 : core n (st_pending_settling_events s1) s1) by (eapply core_same; [|exact Hw]; done).
  destruct arg as [[arg|[arg|]]|]; [done| |by apply Hinv..].
  unfold process_event. cbn [apply_state_transition w_state w_log].
  assert (Hup : ∃ s', apply_upgrade s1 arg = Done s').
  { destruct Hok as [s' E]. revert E. unfold apply_upgrade, s1, after_upgrade.
    destruct (ua_mode arg); destruct (_ || _ || _); simpl;
      try (by eexists); by destruct (policy_try_new _ _ _); eexists. }
  destruct Hup as [s' E]. rewrite E. cbn [ebind].
  destruct (apply_upgrade_frame _ _ _ E Hp) as (mode & policy & -> & Hpol).
  apply Hinv; try done. eapply core_same; [|exact Hc1]. done.
Qed.

(** ** Every message *)

Lemma deliver_steps n sys rt m :
  sys_inv n sys → n + 1 < MAX_STEPS → message_ok sys rt m → steps (n + 1) (deliver rt sys m).
Proof.
  intros Hs Hn Hok. pose proof (si_world _ _ Hs) as Hw.
  assert (Hup : ∀ e, steps n e → steps (n + 1) e).
  { intros e (sys' & -> & Hs'). exists sys'. split; [done|]. apply sys_inv_mono with n; [lia|done]. }
  destruct m; cbn [message_ok] in Hok.
  - apply (sys_goes n (n + 1) sys _ _ Hs). by apply add_limit_order_goes.
  - apply Hup, (sys_goes n n sys _ _ Hs). apply cancel_endpoint_goes; [done|lia|done].
  - apply Hup, (sys_goes n n sys _ _ Hs). by apply add_trading_account_goes.
  - apply Hup, (sys_goes n n sys _ _ Hs). by apply remove_trading_account_goes.
  - by apply Hup, deposit_steps.
  - by apply deposit_reply_steps.
  - by apply Hup, withdraw_steps.
  - by apply withdraw_reply_steps.
  - apply (sys_goes n (n + 1) sys _ _ Hs). by apply add_trading_pair_goes.
  - apply Hup, (sys_goes n n sys _ _ Hs). by apply set_halt_goes.
  - apply Hup, (sys_goes n n sys _ _ Hs). by apply set_halt_goes.
  - apply Hup. cbn [deliver]. destruct (sys_timers sys) as [|timers]; [by exists sys|].
    apply sys_driven; [done|lia].
  - apply Hup. apply (sys_driven n sys rt (sys_timers sys)); [done|lia].
  - by apply Hup, upgrade_steps.
Qed.
End system_inv.
