(* ===== verification/SystemRun.v ===== *)
(** * Runs of the canister

    The systems the canister reaches from its installation, message by message.
    Every message is a sequence of the elementary steps that event sourcing
    accounts for, so what holds of the worlds those steps reach (Replay.v) holds of
    every system the canister reaches. *)

From stdpp Require Import prelude gmap relations.
From Stdlib Require Import ZArith NArith Lia.
From S2P Require Import Prelude Word BTree Quantity Bytes QuantityCodec Ids.
From S2P Require Import Fees OrderTypes OrderQueue OrderBook BookInv.
From S2P Require Import BookPending BookRound Tokens Balance WriteBack.
From S2P Require Import BalanceTotals History OrderHistory ApiErrors Api.
From S2P Require Import Settlement UserRegistry UserRegistryInv Permissions.
From S2P Require Import PairMap Events State EventAudit Replay.
From S2P Require Import Accounting StateInv InvSettle Snapshot.
From S2P Require Import Executor ExecutorSpec InvExecutor Ledger Endpoints.
From S2P Require Import EntryPoints EndpointSpec InvEndpoints.
From S2P Require Import System SystemInv.
Open Scope Z_scope.

Section system_run.
Context `{PrincipalType} `{!BiBTreeMap TradingPair OrderBookId} `{BigUint}.
Implicit Types (sys : System) (rt : Runtime).

(** ** Installation *)

Lemma empty_supply t : supply t (MkTokenBalance ∅ fee_pool_default) = 0.
Proof. reflexivity. Qed.

Lemma new_core arg s :
  state_new arg history_new history_new registry_new (MkTokenBalance ∅ fee_pool_default) = Ok s →
  core 0 [] s ∧ policy_ok (st_execution_policy s).
Proof.
  unfold state_new. intros E.
  destruct (policy_try_new _ _ _) as [policy|] eqn:Ep; [|done]. injection E as <-.
  split; [|by apply policy_try_new_Ok in Ep as (_ & _ & _ & ?)].
  split; simpl.
  - apply registry_new_inv.
  - done.
  - intros k b. by rewrite lookup_empty.
  - intros k tp Hk. apply get_pair_iff in Hk. unfold get_book_id, pairs_default in Hk.
    by rewrite get_by_left_default in Hk.
  - intros k. rewrite lookup_empty. by intros [].
  - done.
  - exists []. split; [apply history_new_lockstep|done].
  - intros id r. unfold history_get. simpl. by rewrite lookup_empty.
  - intros k b seq side p. by rewrite lookup_empty.
  - by intros e ?%not_elem_of_nil.
  - constructor.
  - exists []. split; [apply history_new_lockstep|done].
  - done.
  - intros tid. unfold history_get. simpl. rewrite lookup_empty. by intros [].
  - intros t u. reflexivity.
  - intros t. unfold state_supply. simpl. rewrite empty_supply. unfold MAX_SUPPLY. lia.
Qed.

Lemma install_inv arg rt sys : install arg rt = Done sys → sys_inv 0 sys.
Proof.
  unfold install, init. destruct (state_new _ _ _ _ _) as [s|] eqn:E; [|done].
  cbn [ebind]. intros [= <-]. pose proof (new_core _ _ E) as [Hc Hp].
  unfold state_new in E. destruct (policy_try_new _ _ _); [|done]. injection E as <-.
  split; cbn [sys_world sys_calls w_state]; [done|apply NoDup_nil_2|set_solver|..|done|done|done|done].
  - by intros c ?%not_elem_of_nil.
  - by intros request pf fee ?%not_elem_of_nil.
  - by intros request pf call self ?%not_elem_of_nil.
Qed.

(** ** Reached systems *)

(** The messages that are not the continuation of a suspended call: when one of
    them traps, the platform undoes it whole. *)
Definition ingress (m : Message) : bool :=
  match m with DepositReply _ _ | WithdrawReply _ _ => false | _ => true end.

Inductive reached : nat → System → Prop :=
| reached_install arg rt sys : install arg rt = Done sys → reached 0 sys
| reached_message k sys rt m sys' :
    reached k sys → message_ok sys rt m → deliver rt sys m = Done sys' → reached (S k) sys'
| reached_trap k sys rt m :
    reached k sys → ingress m = true → deliver rt sys m = Trap → reached (S k) sys.

Lemma reached_inv k sys :
  reached k sys → Z.of_nat k < MAX_STEPS → sys_inv (Z.of_nat k) sys.
Proof.
  induction 1 as [arg rt sys E|k sys rt m sys' Hr IH Hok E|k sys rt m Hr IH _ _]; intros Hk.
  - by eapply install_inv.
  - destruct (deliver_steps (Z.of_nat k) sys rt m) as (sys1 & E1 & Hs1);
      [apply IH; lia|lia|done|].
    rewrite E1 in E. injection E as ->. by replace (Z.of_nat (S k)) with (Z.of_nat k + 1) by lia.
  - apply sys_inv_mono with (Z.of_nat k); [lia|]. apply IH. lia.
Qed.
End system_run.

Section system_replay.
Context `{PrincipalType} `{!BiBTreeMap TradingPair OrderBookId} `{BigUint}.
Implicit Types (w : World) (sys : System) (rt : Runtime).

Abbreviation evolves := (rtc world_step).

Lemma evolves_event w p permit rt w' : process_event w p permit rt = Done w' → evolves w w'.
Proof. intros E. by eapply rtc_once, step_event. Qed.

Lemma evolves_queue w q : evolves w (MkWorld (set_pending_settling_events q (w_state w)) (w_log w)).
Proof. apply rtc_once, step_settling_queue. Qed.

(** ** The executor *)

Lemma drain_loop_evolves fuel rt budget : ∀ ex ex',
  drain_loop fuel rt budget ex = Done ex' → evolves (ex_world ex) (ex_world ex').
Proof.
  induction fuel as [|fuel IH]; intros ex ex' E; simpl in E; [by injection E as <-|].
  destruct (negb _); [by injection E as <-|]. unfold take_next_pending_settling_event in E.
  destruct (st_pending_settling_events (w_state (ex_world ex))) as [|e rest].
  - injection E as <-. simpl. by destruct (ex_world ex).
  - apply bind_Done in E as (w1 & E1 & E). apply IH in E. simpl in E.
    etrans; [|exact E]. etrans; [apply (evolves_queue _ rest)|]. by eapply evolves_event.
Qed.

Lemma run_books_evolves rt budget books : ∀ n ex ex',
  run_books rt budget n books ex = Done ex' → evolves (ex_world ex) (ex_world ex').
Proof.
  induction books as [|k books IH]; intros n ex ex' E; simpl in E; [by injection E as <-|].
  destruct (n =? 0)%nat; [by injection E as <-|]. destruct (negb _); [by injection E as <-|].
  destruct (permit_matching _ k); [|by apply IH in E].
  apply bind_Done in E as (b & _ & E). destruct (take n _); [by apply IH in E|].
  apply bind_Done in E as (n' & _ & E). apply bind_Done in E as (w1 & E1 & E).
  apply bind_Done in E as (ex1 & E2 & E). apply drain_loop_evolves in E2. apply IH in E.
  etrans; [by eapply evolves_event|]. etrans; [exact E2|exact E].
Qed.

Lemma drive_evolves rt w more w' : drive_matching rt w = Done (more, w') → evolves w w'.
Proof.
  unfold drive_matching, drive_pending_orders. intros E. apply bind_Done in E as ([st w1] & E & E').
  injection E' as _ <-. unfold timer_guard_new in E. case_bool_decide; [by injection E as _ <-|].
  apply bind_Done in E as ([st' w2] & E & E'). injection E' as _ <-.
  etrans; [apply rtc_once, step_guard_tasks|].
  etrans; [|apply rtc_once, (step_guard_tasks w2)]. unfold run_once in E.
  apply bind_Done in E as (ex1 & E1 & E). apply drain_loop_evolves in E1. simpl in E.
  apply bind_Done in E as (ex2 & E2 & E). injection E as _ <-.
  etrans; [exact E1|]. destruct (negb _); [by injection E2 as <-|]. by apply run_books_evolves in E2.
Qed.

(** ** The endpoints *)

Lemma settle_all_evolves rt es : ∀ w w',
  exec_fold (λ w e, settle_now w e rt) w es = Done w' → evolves w w'.
Proof.
  induction es as [|e es IH]; intros w w' E; simpl in E; [by injection E as <-|].
  apply bind_Done in E as (w1 & E1 & E). unfold settle_now in E1.
  etrans; [by eapply evolves_event|]. by apply IH.
Qed.

Lemma cancel_evolves w id rt r w' :
  cancel_limit_order_endpoint w id rt = Done (r, w') → evolves w w'.
Proof.
  unfold cancel_limit_order_endpoint. intros E. apply bind_Done in E as ([] & _ & E).
  destruct (from_str id) as [oid|]; [|by injection E as _ <-].
  apply bind_Done in E as ([r1 w1] & E & E1).
  assert (w' = w1) as -> by (by destruct r1; injection E1). unfold cancel_limit_order in E.
  destruct (validate_cancel_limit_order _ _ _); [|by injection E as _ <-].
  apply bind_Done in E as (w2 & E2 & E). apply bind_Done in E as (w3 & E3 & E).
  apply bind_Done in E as (o & _ & E). apply bind_Done in E as (_ & _ & E). injection E as _ <-.
  etrans; [by eapply evolves_event|]. etrans; [apply evolves_queue|]. by eapply settle_all_evolves.
Qed.

(** A handler that ends in one event, or in none. *)
Ltac one_event :=
  repeat match goal with
  | E : ebind _ _ = Done _ |- _ => apply bind_Done in E as (? & ? & E)
  | E : Done _ = Done _ |- _ => injection E as ? <-
  | E : context [match ?x with _ => _ end] |- _ => destruct x
  end; try done; try (by eapply evolves_event).

Lemma order_evolves w request rt r w' : add_limit_order w request rt = Done (r, w') → evolves w w'.
Proof. unfold add_limit_order. intros E. one_event. Qed.

Lemma accounts_evolve w trading rt w' :
  (∃ r, add_trading_account w trading rt = Done (r, w')) ∨
  (∃ r, remove_trading_account w trading rt = Done (r, w')) → evolves w w'.
Proof. unfold add_trading_account, remove_trading_account. intros [[r E]|[r E]]; one_event. Qed.

Lemma pair_evolves w request rt r w' : add_trading_pair w request rt = Done (r, w') → evolves w w'.
Proof. unfold add_trading_pair. intros E. one_event. Qed.

Lemma set_halt_evolves w pairs halted rt r w' : set_halt w pairs halted rt = Done (r, w') → evolves w w'.
Proof.
  unfold set_halt. intros E. destruct (negb _); [by injection E as _ <-|].
  apply bind_Done in E as (ids & _ & E). one_event.
Qed.

Lemma evolves_guard w ops : evolves w (MkWorld (set_in_flight_user_ops ops (w_state w)) (w_log w)).
Proof. apply rtc_once, step_guard_ops. Qed.

Lemma deposit_begin_evolves w request rt r w' : deposit_begin w request rt = Done (r, w') → evolves w w'.
Proof.
  unfold deposit_begin, permit_deposit, user_op_guard_new. intros E.
  apply bind_Done in E as ([] & _ & E). repeat case_match; simplify_eq; try done.
  - apply evolves_guard.
  - exact (evolves_guard _ _).
Qed.

Lemma deposit_end_evolves w pf reply rt r w' : deposit_end w pf reply rt = Done (r, w') → evolves w w'.
Proof.
  unfold deposit_end. intros E. apply bind_Done in E as ([r1 w1] & E1 & E). injection E as _ <-.
  etrans; [|apply evolves_guard]. destruct (ledger_deposit _ reply); one_event.
Qed.

Lemma withdraw_begin_evolves w request rt r w' : withdraw_begin w request rt = Done (r, w') → evolves w w'.
Proof.
  unfold withdraw_begin, permit_withdraw. intros E. apply bind_Done in E as ([] & _ & E).
  destruct (try_from_nat (wr_amount request)) as [q|]; [|by injection E as _ <-].
  destruct (negb _); [by injection E as _ <-|]. destruct (is_zero q); [by injection E as _ <-|].
  destruct (is_trading_account _ _); [by injection E as _ <-|].
  destruct (user_op_guard_new _ _ _) as [s1|] eqn:Eg; [|by injection E as _ <-].
  apply guard_new_Some in Eg as [_ ->]. apply bind_Done in E as ([r1 s2] & Ew & E).
  etrans; [apply evolves_guard|]. etrans; [eapply rtc_once, step_withdraw_debit; exact Ew|].
  destruct r1; injection E as _ <-; [done|]. exact (evolves_guard (MkWorld s2 _) _).
Qed.

Lemma withdraw_end_evolves w pf outcome rt r w' :
  withdraw_end w pf outcome rt = Done (r, w') → evolves w w'.
Proof.
  unfold withdraw_end. intros E. apply bind_Done in E as ([r1 w1] & E1 & E). injection E as _ <-.
  etrans; [|apply evolves_guard].
  set (s1 := match wo_ledger_fee outcome with Some _ => _ | None => _ end) in E1.
  assert (H1 : evolves w (MkWorld s1 (w_log w))).
  { subst s1. destruct (wo_ledger_fee outcome); [apply rtc_once, step_fee_cache|by destruct w]. }
  etrans; [exact H1|]. destruct (wo_result outcome).
  - apply bind_Done in E1 as (block & _ & E1). injection E1 as _ <-.
    apply rtc_once, step_withdraw_record.
  - apply bind_Done in E1 as (s2 & Es & E1). injection E1 as _ <-.
    exact (rtc_once _ _ (step_withdraw_refund (MkWorld s1 (w_log w)) _ _ _ _ Es)).
Qed.

Lemma upgrade_evolves n sys arg rt w' :
  sys_inv n sys → post_upgrade (pre_upgrade (sys_world sys)) arg rt = Done w' →
  evolves (sys_world sys) w'.
Proof.
  intros Hs. unfold post_upgrade, pre_upgrade. cbn [sm_snapshot sm_order_history sm_trade_history
    sm_balances sm_user_registry sm_log expect ebind].
  rewrite into_from_state by by eapply sys_snapshot_ok. cbn [ebind]. intros E.
  assert (H1 : evolves (sys_world sys)
    (MkWorld (after_upgrade (w_state (sys_world sys))) (w_log (sys_world sys)))).
  { etrans; [apply evolves_guard|]. exact (rtc_once _ _ (step_guard_tasks (MkWorld _ _) _)). }
  etrans; [exact H1|]. destruct arg as [[|[a|]]|]; [done| |by injection E as <-..].
  by eapply evolves_event.
Qed.

Lemma deliver_evolves n sys rt m sys' :
  sys_inv n sys → deliver rt sys m = Done sys' → evolves (sys_world sys) (sys_world sys').
Proof.
  intros Hs E. destruct m; cbn [deliver] in E.
  - call_inv E. by eapply order_evolves.
  - call_inv E. by eapply cancel_evolves.
  - call_inv E. eapply accounts_evolve. left. by eexists.
  - call_inv E. eapply accounts_evolve. right. by eexists.
  - call_inv E. apply deposit_begin_evolves in E. by destruct r as [[]|].
  - destruct (sys_calls sys !! call) as [[request pf args|]|]; [|by injection E as <-..].
    call_inv E. by eapply deposit_end_evolves.
  - call_inv E. apply withdraw_begin_evolves in E. by destruct r as [[]|].
  - destruct (sys_calls sys !! call) as [[|request pf fee]|]; [by injection E as <-| |by injection E as <-].
    apply bind_Done in E as ([o calls] & _ & E). call_inv E. by eapply withdraw_end_evolves.
  - call_inv E. by eapply pair_evolves.
  - call_inv E. by eapply set_halt_evolves.
  - call_inv E. by eapply set_halt_evolves.
  - destruct (sys_timers sys) as [|timers]; [by injection E as <-|].
    apply bind_Done in E as ([more w'] & E & E'). injection E' as <-. by eapply drive_evolves.
  - apply bind_Done in E as ([more w'] & E & E'). injection E' as <-. by eapply drive_evolves.
  - destruct (sys_calls sys); [|by injection E as <-].
    apply bind_Done in E as (w' & E & E'). injection E' as <-. by eapply upgrade_evolves.
Qed.

Lemma reachable_evolves arg start w w' :
  evolves w w' → reachable arg start w → reachable arg start w'.
Proof. induction 1; [done|]. intros R. apply IHrtc. by eapply reach_step. Qed.

Lemma reached_reachable k sys :
  reached k sys → Z.of_nat k < MAX_STEPS → ∃ arg start, reachable arg start (sys_world sys).
Proof.
  induction 1 as [arg rt sys E|k sys rt m sys' Hr IH Hok E|k sys rt m Hr IH _ _]; intros Hk.
  - unfold install, init in E. destruct (state_new _ _ _ _ _) as [s|] eqn:Es; [|done].
    injection E as <-. exists arg, (rt_time rt). by apply reach_init.
  - destruct IH as (arg & start & R); [lia|]. exists arg, start.
    eapply reachable_evolves; [|exact R]. eapply deliver_evolves; [|exact E].
    apply reached_inv; [done|lia].
  - apply IH. lia.
Qed.
End system_replay.
