(* ===== verification/SystemLive.v ===== *)
(** * Timers and liveness

    With instructions to spare, a run of the executor that finds an order it may
    match matches at least one. The canister is never left with work and no timer: a message that creates work
    arms one, and with instructions to spare the timers that are armed run out,
    with no matchable order and no outstanding settlement left. *)

From stdpp Require Import prelude gmap sorting.
From Stdlib Require Import ZArith NArith Lia.
From S2P Require Import Prelude Word BTree Quantity Bytes QuantityCodec Ids.
From S2P Require Import Fees OrderTypes OrderQueue OrderBook BookInv.
From S2P Require Import BookPending BookRound Tokens Balance WriteBack.
From S2P Require Import BalanceTotals History OrderHistory ApiErrors Api.
From S2P Require Import Settlement UserRegistry Permissions PairMap Events.
From S2P Require Import State EventAudit Replay Accounting StateInv.
From S2P Require Import InvSettle InvBook InvMatch Snapshot.
From S2P Require Import Executor ExecutorSpec InvExecutor Ledger Endpoints.
From S2P Require Import EntryPoints EndpointSpec InvEndpoints System.
From S2P Require Import SystemInv.
Open Scope Z_scope.

(** ** The executor makes progress *)

Lemma map_sum_dom_le {K V} `{Countable K} (f g : K → V → Z) (m m' : gmap K V) :
  (∀ k, is_Some (m' !! k) ↔ is_Some (m !! k)) →
  (∀ k v v', m !! k = Some v → m' !! k = Some v' → g k v' ≤ f k v) →
  map_sum g m' ≤ map_sum f m.
Proof.
  revert m'. induction m as [|k v m Hk IH] using map_ind; intros m' Hdom Hle.
  - assert (m' = ∅) as ->; [|done]. apply map_eq. intros k. rewrite lookup_empty.
    apply eq_None_not_Some. rewrite Hdom, lookup_empty. by intros [].
  - destruct (proj2 (Hdom k)) as [v' Hv']; [by rewrite lookup_insert_eq|].
    rewrite map_sum_insert_new by done. rewrite (map_sum_delete g m' k v') by done.
    assert (g k v' ≤ f k v) by (apply Hle; [by rewrite lookup_insert_eq|done]).
    assert (map_sum g (delete k m') ≤ map_sum f m); [|lia]. apply IH.
    + intros k0. destruct (decide (k0 = k)) as [->|Hne].
      * rewrite lookup_delete_eq, Hk. done.
      * rewrite lookup_delete_ne, Hdom, lookup_insert_ne by done. done.
    + intros k0 v0 v1 Hv0 Hv1. destruct (decide (k0 = k)) as [->|Hne]; [congruence|].
      rewrite lookup_delete_ne in Hv1 by done. apply Hle; [by rewrite lookup_insert_ne|done].
Qed.

Lemma map_sum_zero {K V} `{Countable K} (m : gmap K V) : map_sum (λ _ _, 0) m = 0.
Proof.
  induction m as [|k v m Hk IH] using map_ind; [done|]. rewrite map_sum_insert_new by done. lia.
Qed.

Lemma map_sum_sign {K V} `{Countable K, !Ord K} (f : K → V → Z) (m : gmap K V) :
  ((∀ k v, m !! k = Some v → 0 ≤ f k v) → 0 ≤ map_sum f m) ∧
  ((∀ k v, m !! k = Some v → f k v ≤ 0) → map_sum f m ≤ 0).
Proof. split; intros Hf; rewrite <- (map_sum_zero m); by apply map_sum_le. Qed.

Section progress.
Context `{PrincipalType} `{!BiBTreeMap TradingPair OrderBookId}.
Implicit Types (s : State) (w : World) (k : OrderBookId) (ex : Exec) (rt : Runtime).

(** The orders that wait on books that are not halted. *)
Definition matchable s : Z :=
  map_sum (λ k b, if is_halted (st_permissions s) k then 0 else Z.of_nat (pending_orders_len b))
    (st_order_books s).

(** The instruction counter never reaches the budget. *)
Definition ample rt s : Prop :=
  ∀ i, rt_instruction_counter rt i < ep_instruction_budget (st_execution_policy s).

Lemma matchable_nonneg s : 0 ≤ matchable s.
Proof.
  apply map_sum_sign. intros k b _. destruct (is_halted _ k); lia.
Qed.

Lemma internal_matchable s s' : internal s s' → matchable s' ≤ matchable s.
Proof.
  intros Hi. unfold matchable. apply map_sum_dom_le; [apply Hi|].
  intros k b b' Hb Hb'. rewrite (in_permissions _ _ Hi). destruct (is_halted _ k); [done|].
  pose proof (in_backlog _ _ Hi k) as Hl. unfold backlog in Hl. rewrite Hb, Hb' in Hl. simpl in Hl. lia.
Qed.

Lemma internal_matchable_lt s s' k :
  internal s s' → is_halted (st_permissions s) k = false → (backlog s' k < backlog s k)%nat →
  matchable s' < matchable s.
Proof.
  intros Hi Hh Hlt. unfold backlog in Hlt.
  destruct (st_order_books s !! k) as [b|] eqn:Eb; simpl in Hlt; [|lia].
  destruct (proj2 (in_books _ _ Hi k)) as [b' Eb']; [done|]. rewrite Eb' in Hlt. simpl in Hlt.
  unfold matchable. rewrite (map_sum_delete _ _ k b Eb), (map_sum_delete _ _ k b' Eb').
  rewrite (in_permissions _ _ Hi), Hh.
  match goal with |- ?x + ?m < ?y + ?m' => assert (m ≤ m'); [|lia] end.
  apply map_sum_dom_le.
  - intros k0. destruct (decide (k0 = k)) as [->|Hne]; [by rewrite !lookup_delete_eq|].
    rewrite !lookup_delete_ne by done. apply Hi.
  - intros k0 c c' Hc Hc'. destruct (decide (k0 = k)) as [->|Hne];
      [by rewrite lookup_delete_eq in Hc|].
    rewrite lookup_delete_ne in Hc, Hc' by done. destruct (is_halted _ k0); [done|].
    pose proof (in_backlog _ _ Hi k0) as Hl. unfold backlog in Hl. rewrite Hc, Hc' in Hl. simpl in Hl. lia.
Qed.

Lemma matchable_pos s :
  0 < matchable s → ∃ k, is_halted (st_permissions s) k = false ∧ (0 < backlog s k)%nat.
Proof.
  intros Hpos. destruct (decide (Exists (λ kb : OrderBookId * OrderBook,
      is_halted (st_permissions s) kb.1 = false ∧ (0 < pending_orders_len kb.2)%nat)
    (map_to_list (st_order_books s)))) as [Hex|Hno].
  - apply Exists_exists in Hex as ([k b] & Hin & Hh & Hp). apply elem_of_map_to_list in Hin.
    exists k. split; [done|]. unfold backlog. by rewrite Hin.
  - exfalso. assert (matchable s ≤ 0); [|lia]. apply map_sum_sign.
    intros k b Hb. destruct (is_halted _ k) eqn:Eh; [done|].
    destruct (decide (0 < pending_orders_len b)%nat) as [Hp|]; [|lia].
    destruct Hno. apply Exists_exists. exists (k, b). split; [by apply elem_of_map_to_list|done].
Qed.

Lemma matchable_ge s k :
  is_halted (st_permissions s) k = false → Z.of_nat (backlog s k) ≤ matchable s.
Proof.
  intros Hh. unfold backlog. destruct (st_order_books s !! k) as [b|] eqn:Eb; simpl;
    [|apply matchable_nonneg].
  unfold matchable. rewrite (map_sum_delete _ _ k b Eb), Hh.
  match goal with |- _ ≤ _ + ?m => assert (0 ≤ m); [|lia] end.
  apply map_sum_sign. intros k0 b0 _. destruct (is_halted _ k0); lia.
Qed.

(** The executor's own test for work. *)
Lemma has_matchable_iff s : has_matchable_pending_orders s = true ↔ 0 < matchable s.
Proof.
  unfold has_matchable_pending_orders. rewrite existsb_exists. split.
  - intros ([k b] & Hin & Hb). apply list_elem_of_In, btree_iter_elem in Hin. simpl in Hin, Hb.
    apply andb_true_iff in Hb as [Hp Hok]. apply Nat.ltb_lt in Hp.
    unfold permit_matching in Hok. destruct (is_halted _ k) eqn:Eh; [done|].
    pose proof (matchable_ge s k Eh) as Hge. unfold backlog in Hge. rewrite Hin in Hge. simpl in Hge. lia.
  - intros (k & Hh & Hb)%matchable_pos. unfold backlog in Hb.
    destruct (st_order_books s !! k) as [b|] eqn:Eb; simpl in Hb; [|lia].
    exists (k, b). split; [by apply list_elem_of_In, btree_iter_elem|].
    simpl. unfold permit_matching. rewrite Hh. simpl. rewrite andb_true_r. by apply Nat.ltb_lt.
Qed.

Lemma status_complete s :
  status_from_state s = Complete ↔ matchable s = 0 ∧ st_pending_settling_events s = [].
Proof.
  unfold status_from_state, has_pending_settling_events. pose proof (matchable_nonneg s).
  pose proof (has_matchable_iff s) as Hm.
  destruct (has_matchable_pending_orders s); simpl.
  - split; [done|]. intros [E _]. pose proof (proj1 Hm eq_refl). lia.
  - assert (matchable s = 0) by (destruct (decide (matchable s = 0)); [done|];
      assert (false = true) by (apply Hm; lia); done).
    by destruct (st_pending_settling_events s); simpl; split; intros; destruct_and?.
Qed.

(** ** One run *)

Lemma books_by_pending_elem s k :
  k ∈ books_by_pending_order_count_desc s ↔ (0 < backlog s k)%nat.
Proof.
  unfold books_by_pending_order_count_desc. rewrite list_elem_of_fmap. split.
  - intros ([k0 m] & -> & Hin). rewrite merge_sort_Permutation in Hin.
    apply list_elem_of_filter in Hin as [Hm Hin]. apply list_elem_of_fmap in Hin as ([k1 b] & E & Hin).
    injection E as -> ->. apply btree_iter_elem in Hin. unfold backlog. simpl in *. by rewrite Hin.
  - unfold backlog. destruct (st_order_books s !! k) as [b|] eqn:Eb; simpl; [|lia]. intros Hp.
    exists (k, pending_orders_len b). split; [done|]. rewrite merge_sort_Permutation.
    apply list_elem_of_filter. split; [done|]. apply list_elem_of_fmap. exists (k, b).
    split; [done|]. by apply btree_iter_elem.
Qed.

Lemma run_books_progress rt (budget : u64) books : ∀ n order_budget ex,
  (∀ i, rt_instruction_counter rt i < budget) →
  world_inv n (ex_world ex) → n < MAX_STEPS → (0 < order_budget)%nat →
  (∀ k, k ∈ books → (0 < backlog (w_state (ex_world ex)) k)%nat) →
  (∃ k, k ∈ books ∧ is_halted (st_permissions (w_state (ex_world ex))) k = false) →
  ∃ ex', run_books rt budget order_budget books ex = Done ex' ∧
    matchable (w_state (ex_world ex')) < matchable (w_state (ex_world ex)).
Proof.
  induction books as [|k books IH]; intros n order_budget ex Hample Hw Hn Ho Hk (k0 & Hin & Hh0);
    [by apply not_elem_of_nil in Hin|].
  simpl. rewrite (proj2 (Nat.eqb_neq _ _)) by lia.
  rewrite (proj2 (Z.ltb_lt _ _)) by apply Hample. cbn [negb].
  unfold permit_matching. destruct (is_halted _ k) eqn:Eh.
  - apply (IH n order_budget (MkExec (ex_world ex) (S (ex_reads ex)))); try done.
    + intros k' Hk'. apply Hk. by right.
    + exists k0. split; [|done]. apply elem_of_cons in Hin as [->|]; [simpl in *; congruence|done].
  - pose proof (Hk k ltac:(left)) as Hpos. cbn [ex_world].
    destruct (st_order_books (w_state (ex_world ex)) !! k) as [b|] eqn:Eb;
      [|unfold backlog in Hpos; rewrite Eb in Hpos; simpl in Hpos; lia].
    assert (Hlen : (0 < length (ob_pending_orders b))%nat)
      by (unfold backlog in Hpos; rewrite Eb in Hpos; exact Hpos).
    cbn [expect ebind].
    destruct (take order_budget (pending_order_seqs b)) as [|x l] eqn:Ec.
    { apply (f_equal length) in Ec. rewrite length_take in Ec. unfold pending_order_seqs in Ec.
      rewrite length_fmap in Ec. simpl in Ec. lia. }
    rewrite <-Ec. rewrite (proj2 (Nat.leb_le _ _)) by (rewrite length_take; lia). cbn [ebind].
    destruct (match_now_core n (ex_world ex) k b order_budget (PermitSync MkSyncPermit) rt Hw Hn Eb)
      as (w1 & b' & E & Hw1 & Hi1 & Hb1 & Hp1 & _). rewrite E. cbn [ebind].
    match goal with |- context [drain_settling rt budget ?ex1] =>
      destruct (drain_settling_core n rt budget ex1 Hw1 Hn) as (ex2 & E2 & Hw2 & Hi2 & Hb2) end.
    rewrite E2. cbn [ebind]. simpl in Hi2.
    match goal with |- context [run_books rt budget ?m books ex2] =>
      destruct (run_books_core rt budget books n m ex2 Hw2 Hn) as (ex' & E' & _ & Hi') end.
    { intros k' Hin'. apply (in_books _ _ Hi2), (in_books _ _ Hi1).
      specialize (Hk k' ltac:(by right)). unfold backlog in Hk.
      destruct (st_order_books _ !! k'); [done|simpl in Hk; lia]. }
    exists ex'. split; [done|].
    eapply Z.le_lt_trans; [apply internal_matchable; etrans; [exact Hi2|exact Hi']|].
    apply (internal_matchable_lt _ _ k); [done|done|].
    unfold backlog. rewrite Hb1, lookup_insert_eq, Eb. simpl. unfold pending_orders_len.
    rewrite Hp1, length_drop. lia.
Qed.

Lemma run_once_progress n rt w :
  world_inv n w → n < MAX_STEPS → ample rt (w_state w) →
  ∃ st w', run_once rt w = Done (st, w') ∧ world_inv n w' ∧ internal (w_state w) (w_state w') ∧
    st_pending_settling_events (w_state w') = [] ∧
    (matchable (w_state w) = 0 ∨ matchable (w_state w') < matchable (w_state w)) ∧
    st = status_from_state (w_state w').
Proof.
  intros Hw Hn Hample. destruct (run_once_core n rt w Hw Hn) as (st & w' & E & Hw' & Hi).
  exists st, w'. split_and!; [done..| | |].
  - eapply run_once_drained; [apply Hample|exact E].
  - destruct (decide (matchable (w_state w) = 0)) as [|Hne]; [by left|right].
    pose proof (matchable_nonneg (w_state w)) as Hnn.
    revert E. unfold run_once.
    destruct (drain_settling_core n rt (nzval (ep_instruction_budget (st_execution_policy (w_state w))))
      (MkExec w 0) Hw Hn) as (ex1 & -> & Hw1 & Hi1 & Hb1). cbn [ebind]. simpl in Hi1, Hb1 |- *.
    rewrite (proj2 (Z.ltb_lt _ _)) by apply Hample. cbn [negb].
    assert (Hm1 : matchable (w_state (ex_world ex1)) = matchable (w_state w)).
    { unfold matchable. by rewrite Hb1, (in_permissions _ _ Hi1). }
    destruct (matchable_pos (w_state (ex_world ex1)) ltac:(lia)) as (k & Hh & Hb).
    match goal with |- context [run_books rt ?bu ?ob ?bs ?ex] =>
      destruct (run_books_progress rt bu bs n ob ex) as (ex2 & E & Hlt) end; try done.
    + pose proof (nonzero_pos (ep_max_orders_per_chunk (st_execution_policy (w_state w)))). lia.
    + intros k' Hk'. by apply books_by_pending_elem.
    + exists k. split; [by apply books_by_pending_elem|done].
    + rewrite E. cbn [ebind]. intros [= _ <-]. simpl in Hlt. lia.
  - by apply run_once_ran in E as [_ ->].
Qed.
End progress.

Section system_live.
Context `{PrincipalType} `{!BiBTreeMap TradingPair OrderBookId} `{BigUint}.
Implicit Types (sys : System) (rt : Runtime) (s : State) (k : OrderBookId).

(** ** No lost wake-up *)

Definition idle s : Prop := matchable s = 0 ∧ st_pending_settling_events s = [].
Definition wakeful sys : Prop := sys_timers sys = 0%nat → idle (w_state (sys_world sys)).

Lemma matchable_zero s :
  matchable s = 0 ↔
  ∀ k b, st_order_books s !! k = Some b → is_halted (st_permissions s) k = false →
    ob_pending_orders b = [].
Proof.
  split.
  - intros Hz k b Hb Hh. pose proof (matchable_ge s k Hh) as Hle. unfold backlog in Hle.
    rewrite Hb in Hle. simpl in Hle. unfold pending_orders_len in Hle.
    destruct (ob_pending_orders b); [done|simpl in Hle; lia].
  - intros Hall. pose proof (matchable_nonneg s). destruct (decide (matchable s = 0)); [done|].
    destruct (matchable_pos s ltac:(lia)) as (k & Hh & Hb). unfold backlog in Hb.
    destruct (st_order_books s !! k) as [b|] eqn:Eb; simpl in Hb; [|lia].
    unfold pending_orders_len in Hb. rewrite (Hall k b Eb Hh) in Hb. simpl in Hb. lia.
Qed.

Lemma idle_intro s s' :
  (∀ k b', st_order_books s' !! k = Some b' → is_halted (st_permissions s') k = false →
     ob_pending_orders b' = [] ∨ is_halted (st_permissions s) k = false ∧
       ∃ b, st_order_books s !! k = Some b ∧ (ob_pending_orders b = [] → ob_pending_orders b' = [])) →
  (st_pending_settling_events s = [] → st_pending_settling_events s' = []) →
  idle s → idle s'.
Proof.
  intros Hb Hq [Hm He]. split; [|by apply Hq]. rewrite matchable_zero in *. intros k b' Hb' Hh.
  destruct (Hb k b' Hb' Hh) as [?|(Hh0 & b & Hb0 & Himp)]; [done|]. eauto.
Qed.

(** The work lives in three fields. *)
Record same_work s s' : Prop := {
  sw_books : st_order_books s' = st_order_books s;
  sw_permissions : st_permissions s' = st_permissions s;
  sw_queue : st_pending_settling_events s' = st_pending_settling_events s
}.

Lemma same_work_idle s s' : same_work s s' → idle s → idle s'.
Proof. unfold idle, matchable. intros [-> -> ->]. done. Qed.

Lemma settling_same_work s e ts s' : record_settling_event s e ts Write = Done s' → same_work s s'.
Proof. unfold record_settling_event. intros E. exec_inv. destruct x3. by exec_inv. Qed.

Lemma settle_all_same_work rt es : ∀ w w',
  exec_fold (λ w e, settle_now w e rt) w es = Done w' → same_work (w_state w) (w_state w').
Proof.
  induction es as [|e es IH]; intros w w' E; simpl in E; [by injection E as <-|].
  apply bind_Done in E as (w1 & E1 & E). unfold settle_now, process_event in E1.
  apply bind_Done in E1 as (s1 & Es & E1). injection E1 as <-. apply settling_same_work in Es.
  destruct Es as [? ? ?], (IH _ _ E) as [? ? ?]. simpl in *. split; congruence.
Qed.

Lemma remove_order_pending b seq r b' :
  remove_order b seq = Done (r, b') → ob_pending_orders b = [] → ob_pending_orders b' = [].
Proof.
  unfold remove_order. intros E Hp. destruct (ob_resting_orders b !! seq) as [[side price]|].
  - destruct side; [destruct (queue_remove (ob_bids _) _ _)|destruct (queue_remove (ob_asks _) _ _)];
      exec_inv; done.
  - rewrite Hp in E. simpl in E. by injection E as <- <-.
Qed.

Lemma cancel_idle w owner by_ oid rt r w' :
  cancel_limit_order w owner by_ oid rt = Done (r, w') → idle (w_state w) → idle (w_state w').
Proof.
  unfold cancel_limit_order. intros E.
  destruct (validate_cancel_limit_order _ _ _) as [[]|]; [|by injection E as <- <-].
  apply bind_Done in E as (w1 & E1 & E). apply bind_Done in E as (w2 & E2 & E).
  apply bind_Done in E as (o & _ & E). apply bind_Done in E as (_ & _ & E). injection E as _ <-.
  intros Hidle. eapply same_work_idle; [by eapply settle_all_same_work|]. unfold process_event in E1.
  apply bind_Done in E1 as (s1 & Es & E1). injection E1 as <-.
  cbn [apply_state_transition] in Es. unfold record_cancel_limit_order in Es. simpl in Es.
  apply bind_Done in Es as (sc & _ & Es). apply bind_Done in Es as (b & Eb & Es).
  apply expect_Done in Eb. apply bind_Done in Es as ([ro b'] & Er & Es).
  apply bind_Done in Es as (ro' & _ & Es). apply bind_Done in Es as (h & _ & Es).
  apply bind_Done in Es as (st & _ & Es). injection Es as <-.
  revert Hidle. apply idle_intro.
  - intros k b0 Hb0 Hh. simpl in Hb0, Hh. right. split; [done|].
    destruct (decide (k = book_id oid)) as [->|Hne].
    + rewrite lookup_insert_eq in Hb0. injection Hb0 as <-. exists b. split; [done|].
      by eapply remove_order_pending.
    + rewrite lookup_insert_ne in Hb0 by done. by exists b0.
  - simpl. intros ->. done.
Qed.

Lemma record_token_same_work s t m s' : record_token s t m = Done s' → same_work s s'.
Proof. unfold record_token. intros E. destruct (st_tokens s !! t); by exec_inv. Qed.

Lemma add_trading_pair_idle w request rt r w' :
  add_trading_pair w request rt = Done (r, w') → idle (w_state w) → idle (w_state w').
Proof.
  unfold add_trading_pair. intros E.
  assert (Hsame : ∀ r0 : result unit AddTradingPairError,
    Done (r0, w) = Done (r, w') → idle (w_state w) → idle (w_state w')) by by intros r0 [= _ <-].
  destruct (negb _); [by eapply Hsame|].
  destruct (parse_trading_pair request) as [[[[[tick lot] fees] mn] mx]|e]; [|by eapply Hsame].
  destruct (has_trading_pair _ _); [by eapply Hsame|].
  destruct (check_token_metadata_consistency _ _ _); [|by eapply Hsame].
  destruct (check_token_metadata_consistency _ _ _); [|by eapply Hsame].
  destruct (pow10_u64 _); [|by eapply Hsame].
  apply bind_Done in E as (tl & _ & E). apply bind_Done in E as ([q rem] & _ & E).
  destruct (negb _); [by eapply Hsame|].
  apply bind_Done in E as (w1 & E1 & E). injection E as _ <-. unfold process_event in E1.
  apply bind_Done in E1 as (s1 & Es & E1). injection E1 as <-.
  cbn [apply_state_transition] in Es. unfold record_trading_pair in Es.
  apply bind_Done in Es as (s2 & E2 & Es). apply bind_Done in Es as (s3 & E3 & Es).
  apply bind_Done in Es as (u0 & _ & Es). apply bind_Done in Es as (pairs & _ & Es).
  apply bind_Done in Es as (u1 & _ & Es). apply bind_Done in Es as (next & _ & Es).
  injection Es as <-. intros Hidle.
  assert (Hidle3 : idle s3).
  { eapply same_work_idle; [by eapply record_token_same_work|].
    by eapply same_work_idle; [by eapply record_token_same_work|]. }
  revert Hidle3. apply idle_intro; [|done]. simpl. intros k b' Hb' Hh.
  match type of Hb' with <[?i := _]> _ !! k = _ => destruct (decide (i = k)) as [<-|Hne] end.
  - rewrite lookup_insert_eq in Hb'. injection Hb' as <-. by left.
  - rewrite lookup_insert_ne in Hb' by done. right. split; [done|]. by exists b'.
Qed.

(** Halting only takes work away. *)
Lemma apply_halt_monotone perms ids k :
  is_halted perms k = true → is_halted (apply_set_halt perms (MkSetHaltEvent ids true)) k = true.
Proof.
  intros Hh. destruct ids as [ids|]; [|done]. simpl. revert perms Hh.
  induction ids as [|i ids IH]; intros perms Hh; simpl; [done|]. apply IH.
  cbn [she_halted]. rewrite is_halted_halt, Hh. apply orb_true_r.
Qed.

Lemma halt_idle w pairs rt r w' :
  halt_trading w pairs rt = Done (r, w') → idle (w_state w) → idle (w_state w').
Proof.
  unfold halt_trading, set_halt. intros E.
  destruct (negb _); [by injection E as <- <-|]. apply bind_Done in E as (ids & _ & E).
  unfold process_event in E. cbn [apply_state_transition ebind] in E. injection E as _ <-.
  apply idle_intro; [|done].
  simpl. intros k b Hb Hh. right. split; [|by exists b].
  destruct (is_halted (st_permissions (w_state w)) k) eqn:Eh; [|done].
  pose proof (apply_halt_monotone _ ids _ Eh). congruence.
Qed.

Lemma resume_refused w pairs rt e w' : resume_trading w pairs rt = Done (Err e, w') → w' = w.
Proof.
  unfold resume_trading, set_halt. intros E. destruct (negb _); [by injection E as _ <-|].
  apply bind_Done in E as (ids & _ & E). by exec_inv.
Qed.

Lemma order_refused w request rt e w' : add_limit_order w request rt = Done (Err e, w') → w' = w.
Proof.
  unfold add_limit_order. intros E. apply bind_Done in E as ([] & _ & E).
  destruct (pending_try_from request); [|by injection E as _ <-].
  apply bind_Done in E as (v & _ & E). destruct v as [[oid o]|]; [|by injection E as _ <-].
  destruct (permit_trading _ _ _).
  - apply bind_Done in E as (w1 & _ & E). done.
  - apply bind_Done in E as (e' & _ & E). by injection E as _ <-.
Qed.

(** Deposits, withdrawals and accounts create no work. *)
Lemma state_deposit_same_work s u t a s' : state_deposit s u t a Write = Done s' → same_work s s'.
Proof. unfold state_deposit. intros E. exec_inv. repeat case_match; by exec_inv. Qed.

Lemma deposit_begin_same_work w request rt r w' :
  deposit_begin w request rt = Done (r, w') → same_work (w_state w) (w_state w').
Proof.
  unfold deposit_begin, permit_deposit, user_op_guard_new. intros E.
  apply bind_Done in E as ([] & _ & E). repeat case_match; by simplify_eq.
Qed.

Lemma deposit_end_same_work w pf reply rt r w' :
  deposit_end w pf reply rt = Done (r, w') → same_work (w_state w) (w_state w').
Proof.
  unfold deposit_end. intros E. apply bind_Done in E as ([r1 w1] & E1 & E). injection E as _ <-.
  destruct (ledger_deposit _ reply); [|by injection E1 as _ <-].
  unfold process_event in E1.
  apply bind_Done in E1 as (w2 & E1 & E2). apply bind_Done in E1 as (s1 & Es & E1).
  injection E1 as <-. injection E2 as _ <-. by apply state_deposit_same_work in Es as [? ? ?].
Qed.

Lemma withdraw_begin_same_work w request rt r w' :
  withdraw_begin w request rt = Done (r, w') → same_work (w_state w) (w_state w').
Proof.
  unfold withdraw_begin, permit_withdraw, user_op_guard_new, state_withdraw. intros E.
  apply bind_Done in E as ([] & _ & E). repeat case_match; exec_inv; repeat case_match; by exec_inv.
Qed.

Lemma withdraw_end_same_work w pf outcome rt r w' :
  withdraw_end w pf outcome rt = Done (r, w') → same_work (w_state w) (w_state w').
Proof.
  unfold withdraw_end. intros E. apply bind_Done in E as ([r1 w1] & E1 & E). injection E as _ <-.
  set (s1 := match wo_ledger_fee outcome with Some _ => _ | None => _ end) in E1.
  assert (H1 : same_work (w_state w) s1) by (subst s1; by destruct (wo_ledger_fee outcome)).
  clearbody s1. destruct H1 as [? ? ?].
  destruct (wo_result outcome).
  - apply bind_Done in E1 as (block & _ & E1). injection E1 as _ <-. by split.
  - apply bind_Done in E1 as (s2 & Es & E1). injection E1 as _ <-.
    apply state_deposit_same_work in Es as [? ? ?]. simpl in *. split; simpl; congruence.
Qed.

Lemma accounts_same_work w trading rt r w' :
  add_trading_account w trading rt = Done (r, w') ∨
  (∃ r', remove_trading_account w trading rt = Done (r', w')) → same_work (w_state w) (w_state w').
Proof.
  unfold add_trading_account, remove_trading_account, process_event.
  intros [E|[r' E]]; apply bind_Done in E as ([] & _ & E);
    (case_match; [|by simplify_eq]); simpl in E; by exec_inv.
Qed.

(** ** The timer *)

Lemma drive_idle n w rt more w' :
  world_inv n w → n < MAX_STEPS → st_active_tasks (w_state w) = ∅ →
  drive_matching rt w = Done (more, w') → more = false → idle (w_state w').
Proof.
  intros Hw Hn Ht. unfold drive_matching, drive_pending_orders, timer_guard_new.
  rewrite bool_decide_eq_false_2 by (rewrite Ht; apply not_elem_of_empty).
  intros E Hm. apply bind_Done in E as ([st w1] & E & E1). apply bind_Done in E as ([st' w2] & E & E2).
  apply run_once_ran in E as [_ ->]. injection E2 as <- <-. injection E1 as <- <-.
  eapply same_work_idle; [|apply status_complete].
  2:{ destruct (status_from_state (w_state w2)) eqn:Es; [exact Es|done|].
      unfold status_from_state in Es. by destruct (_ || _). }
  done.
Qed.

(** A message that arms no timer and creates no work. *)
Lemma wakeful_called sys w' calls flows (armed : bool) :
  armed = false → (idle (w_state (sys_world sys)) → idle (w_state w')) → wakeful sys →
  wakeful (MkSystem w' calls (sys_timers sys + Nat.b2n armed) flows).
Proof. intros -> Hi Hw Ht. simpl in Ht. apply Hi, Hw. lia. Qed.

(** A message that arms one unless it is refused. *)
Lemma wakeful_armed sys w' calls flows (armed : bool) :
  (armed = false → w' = sys_world sys) → wakeful sys →
  wakeful (MkSystem w' calls (sys_timers sys + Nat.b2n armed) flows).
Proof.
  intros Hr Hw Ht. simpl in Ht. destruct armed; simpl in Ht; [lia|]. rewrite (Hr eq_refl).
  apply Hw. lia.
Qed.

Lemma deposit_timer request r : fx_timer (deposit_effects request r) = false.
Proof. destruct r; simpl; [done|]. by destruct (should_log_deposit_error _). Qed.
Lemma withdraw_timer request r : fx_timer (withdraw_effects request r) = false.
Proof. destruct r; simpl; [done|]. by destruct (should_log_withdraw_error _). Qed.

Lemma wakeful_driven n sys rt more w' timers calls flows :
  sys_inv n sys → n < MAX_STEPS → drive_matching rt (sys_world sys) = Done (more, w') →
  wakeful (MkSystem w' calls (timers + Nat.b2n more) flows).
Proof.
  intros Hs Hn E Ht. simpl in Ht. destruct more; simpl in Ht; [lia|].
  eapply drive_idle; [apply Hs|done|apply (si_tasks _ _ Hs)|exact E|done].
Qed.

Lemma deliver_wakeful n sys rt m sys' :
  sys_inv n sys → n < MAX_STEPS → deliver rt sys m = Done sys' → (∀ arg, m ≠ Upgrade arg) →
  wakeful sys → wakeful sys'.
Proof.
  intros Hs Hn E Hup. destruct m; cbn [deliver] in E; try (exfalso; by eapply Hup).
  - call_inv E. apply (wakeful_armed sys w'). destruct r; [done|]. intros _. by eapply order_refused.
  - call_inv E. apply (wakeful_called sys w'); [by destruct r|].
    unfold cancel_limit_order_endpoint in E. apply bind_Done in E as ([] & _ & E).
    destruct (from_str order_id); [|by injection E as _ <-].
    apply bind_Done in E as ([r1 w1] & E & E1).
    assert (w' = w1) as -> by (by destruct r1; injection E1). by eapply cancel_idle.
  - call_inv E. apply (wakeful_called sys w'); [by destruct r|].
    apply same_work_idle. eapply accounts_same_work. by left.
  - call_inv E. apply (wakeful_called sys w'); [by destruct r|].
    apply same_work_idle. eapply (accounts_same_work _ _ _ (Ok ())). right. by eexists.
  - call_inv E. apply deposit_begin_same_work in E. pose proof (same_work_idle _ _ E) as Hi.
    destruct r as [[]|err]; apply (wakeful_called sys w'); try done. exact (deposit_timer request (Err err)).
  - destruct (sys_calls sys !! call) as [[request pf args|]|]; [|by injection E as <-..].
    call_inv E. apply deposit_end_same_work in E. pose proof (same_work_idle _ _ E) as Hi.
    apply (wakeful_called sys w'); [apply deposit_timer|done].
  - call_inv E. apply withdraw_begin_same_work in E. pose proof (same_work_idle _ _ E) as Hi.
    destruct r as [[]|err]; apply (wakeful_called sys w'); try done. exact (withdraw_timer request (Err err)).
  - destruct (sys_calls sys !! call) as [[|request pf fee]|]; [by injection E as <-| |by injection E as <-].
    apply bind_Done in E as ([o calls] & _ & E). call_inv E.
    apply withdraw_end_same_work in E. pose proof (same_work_idle _ _ E) as Hi.
    apply (wakeful_called sys w'); [apply withdraw_timer|done].
  - call_inv E. apply (wakeful_called sys w'); [done|]. by eapply add_trading_pair_idle.
  - call_inv E. apply (wakeful_called sys w'); [done|]. by eapply halt_idle.
  - call_inv E. apply (wakeful_armed sys w'). destruct r; [done|]. intros _. by eapply resume_refused.
  - destruct (sys_timers sys) as [|timers]; [by injection E as <-|].
    apply bind_Done in E as ([more w'] & E & E'). injection E' as <-. intros _.
    by eapply wakeful_driven.
  - apply bind_Done in E as ([more w'] & E & E'). injection E' as <-. intros _.
    by eapply wakeful_driven.
Qed.

(** ** The timers run out *)

(** [k] zero-delay timers, each in a message of its own. *)
Fixpoint fire (k : nat) (rts : nat → Runtime) (sys : System) : exec System :=
  match k with
  | O => Done sys
  | S k => let! sys := deliver (rts 0%nat) sys TimerFires in fire k (λ i, rts (S i)) sys
  end.

Lemma timer_progress n sys rt timers :
  sys_inv n sys → n < MAX_STEPS → sys_timers sys = S timers →
  ample rt (w_state (sys_world sys)) →
  ∃ sys', deliver rt sys TimerFires = Done sys' ∧ sys_inv n sys' ∧
    st_execution_policy (w_state (sys_world sys')) = st_execution_policy (w_state (sys_world sys)) ∧
    Z.of_nat (sys_timers sys') + matchable (w_state (sys_world sys')) <
      Z.of_nat (sys_timers sys) + matchable (w_state (sys_world sys)) ∧
    (sys_timers sys' = 0%nat → idle (w_state (sys_world sys'))).
Proof.
  intros Hs Hn Ht Ha. pose proof (si_world _ _ Hs) as Hw.
  destruct (drive_matching_goes n _ rt Hw Hn (si_tasks _ _ Hs)) as (more & w' & E & Hw' & Hk).
  cbn [deliver]. rewrite Ht, E. cbn [ebind]. eexists. split; [done|].
  split; [exact (sys_kept n n sys w' _ Hs Hw' Hk)|]. split; [exact (kp_policy _ _ Hk)|].
  split; [|exact (wakeful_driven n sys rt more w' timers (sys_calls sys) (sys_flows sys) Hs Hn E)].
  revert E. unfold drive_matching, drive_pending_orders, timer_guard_new.
  rewrite bool_decide_eq_false_2 by (rewrite (si_tasks _ _ Hs); apply not_elem_of_empty).
  set (s1 := set_active_tasks _ _).
  destruct (run_once_progress n rt (MkWorld s1 (w_log (sys_world sys))))
    as (st & w2 & -> & _ & Hi & Hq & Hm & ->);
    [eapply core_same; [|exact Hw]; done|done|exact Ha|].
  cbn [ebind]. intros [= <- <-]. simpl.
  assert (Em : matchable (timer_guard_drop (w_state w2) ProcessPendingOrders) = matchable (w_state w2)) by done.
  rewrite Em. pose proof (internal_matchable _ _ Hi) as Hle. simpl in Hm, Hle.
  change (matchable s1) with (matchable (w_state (sys_world sys))) in Hm, Hle.
  pose proof (matchable_nonneg (w_state w2)).
  destruct (status_from_state (w_state w2)) eqn:Es; simpl; try lia.
  destruct Hm as [Hz|Hlt]; [|lia]. exfalso.
  assert (status_from_state (w_state w2) = Complete) as Hc; [|congruence].
  apply status_complete. split; [lia|done].
Qed.

Lemma timers_run_out m : ∀ n sys (rts : nat → Runtime),
  sys_inv n sys → n < MAX_STEPS → (0 < sys_timers sys)%nat →
  (∀ i, ample (rts i) (w_state (sys_world sys))) →
  Z.of_nat (sys_timers sys) + matchable (w_state (sys_world sys)) ≤ Z.of_nat m →
  ∃ (k : nat) sys', (k ≤ m)%nat ∧ fire k rts sys = Done sys' ∧ sys_inv n sys' ∧
    sys_timers sys' = 0%nat ∧ idle (w_state (sys_world sys')).
Proof.
  induction m as [|m IH]; intros n sys rts Hs Hn Ht Ha Hm.
  { pose proof (matchable_nonneg (w_state (sys_world sys))). lia. }
  destruct (sys_timers sys) as [|timers] eqn:Et; [lia|].
  destruct (timer_progress n sys (rts 0%nat) timers Hs Hn Et (Ha 0%nat))
    as (sys1 & E & Hs1 & Hp & Hlt & Hidle).
  destruct (sys_timers sys1) as [|t1] eqn:Et1.
  - exists 1%nat, sys1. split; [lia|]. split; [|auto]. cbn [fire]. rewrite E. done.
  - destruct (IH n sys1 (λ i, rts (S i))) as (k & sys' & Hk & E' & Hrest); [done|done|lia| |lia|].
    { intros i. unfold ample. rewrite Hp. apply Ha. }
    exists (S k), sys'. split; [lia|]. split; [|done]. cbn [fire]. rewrite E. exact E'.
Qed.
End system_live.
