(* ===== verification/Queries.v ===== *)
(** * Queries (src/canister/src/state/mod.rs and lib.rs)

    The read-only operations: a user's orders, trades and balances, the fee pool,
    the book depth and the registered pairs. *)

From stdpp Require Import prelude gmap.
From Stdlib Require Import ZArith NArith Lia.
From S2P Require Import Prelude Word BTree Bytes Quantity QuantityCodec.
From S2P Require Import Ids Fees OrderTypes Tokens Balance WriteBack.
From S2P Require Import OrderBook History OrderHistory UserRegistry.
From S2P Require Import Settlement Permissions PairMap Events.
From S2P Require Import State ApiErrors Api Ledger Endpoints.

Section queries.
Context `{PrincipalType} `{!BiBTreeMap TradingPair OrderBookId} `{BigUint}.

(** ** Orders and trades *)

Definition get_user_orders (self : State) (owner : Principal) (after : option OrderId)
    (length : nat) : exec (result (list (OrderId * TradingPair * OrderRecord)) CursorNotFound) :=
  match lookup_funding_id (st_user_registry self) owner with
  | None => Done (match after with Some _ => Err MkCursorNotFound | None => Ok [] end)
  | Some user_id =>
      match orders_after (st_order_history self) user_id after length with
      | Err e => Done (Err e)
      | Ok ids =>
          let! orders := exec_map (λ id,
            let! record := expect (history_get (st_order_history self) id) in
            let! trading_pair := expect (get_pair (st_trading_pairs self) (book_id id)) in
            Done (id, trading_pair, record)) ids in
          Done (Ok orders)
      end
  end.

Definition get_user_order (self : State) (owner : Principal) (id : OrderId) :
    exec (option (OrderId * TradingPair * OrderRecord)) :=
  match history_get (st_order_history self) id with
  | None => Done None
  | Some record =>
      if bool_decide (or_owner record ≠ owner) then Done None else
      let! trading_pair := expect (get_pair (st_trading_pairs self) (book_id id)) in
      Done (Some (id, trading_pair, record))
  end.

Inductive GetUserOrderTradesError : Type := TradesOrderNotFound | TradesCursorNotFound.

Definition get_user_order_trades (self : State) (owner : Principal) (order_id : OrderId)
    (after : option TradeId) (length : nat) :
    result (list (FillSeq * TradeRecord)) GetUserOrderTradesError :=
  let owns := match history_get (st_order_history self) order_id with
              | Some record => bool_decide (or_owner record = owner)
              | None => false
              end in
  if negb owns then Err TradesOrderNotFound
  else map_err (λ _, TradesCursorNotFound)
         (trades_for_order (st_trade_history self) order_id after length).

Definition get_user_trades (self : State) (owner : Principal) (after : option TradeId)
    (length : nat) : exec (result (list (TradeId * TradeRecord)) CursorNotFound) :=
  match lookup_funding_id (st_user_registry self) owner with
  | None => Done (Ok [])
  | Some user_id => trades_after (st_trade_history self) user_id after length
  end.

(** [get_my_orders] of lib.rs; the answers are those of the interface. *)
Inductive GetMyOrdersError : Type :=
| MyOrdersInvalidOrderId (e : ParseFixedWithIdError)
| MyOrdersOrderNotFound.

(** [after.map(|id| id.parse()).transpose()]. *)
Definition parse_cursor {A} `{FixedWidthId A} (after : option (list u8)) :
    result (option A) ParseFixedWithIdError :=
  match after with
  | None => Ok None
  | Some s => match from_str s with Ok id => Ok (Some id) | Err e => Err e end
  end.

Definition get_my_orders (s : State) (args : option GetMyOrdersArgs) (caller : Principal) :
    exec (result (list UserOrder) GetMyOrdersError) :=
  let filter := mo_filter (default args_default args) in
  let! results :=
    match filter with
    | OrderById id =>
        match (from_str id : result OrderId ParseFixedWithIdError) with
        | Err e => Done (Err (MyOrdersInvalidOrderId e))
        | Ok id =>
            let! order := get_user_order s (effective_account s caller) id in
            Done (match order with Some order => Ok [order] | None => Err MyOrdersOrderNotFound end)
        end
    | OrdersByPage page =>
        match (parse_cursor (mp_after page) : result (option OrderId) ParseFixedWithIdError) with
        | Err e => Done (Err (MyOrdersInvalidOrderId e))
        | Ok after =>
            let length := Z.to_nat (Z.min (mp_length page) MAX_ORDERS_PER_RESPONSE) in
            let! orders := get_user_orders s (effective_account s caller) after length in
            Done (map_err (λ _, MyOrdersOrderNotFound) orders)
        end
    end in
  match results with
  | Err e => Done (Err e)
  | Ok orders =>
      Done (Ok ((λ o : OrderId * TradingPair * OrderRecord,
                   MkUserOrder (to_string o.1.1) (api_pair o.1.2) (api_order_record o.2)) <$> orders))
  end.

(** The exported query maps the reasons to the interface's. *)
Definition main_get_my_orders (s : State) (args : option GetMyOrdersArgs) (caller : Principal) :
    exec (result (list UserOrder) GetMyOrdersApiError) :=
  let! r := get_my_orders s args caller in
  Done (map_err (λ err, request_error
    match err with
    | MyOrdersInvalidOrderId _ => OrdersInvalidOrderId
    | MyOrdersOrderNotFound => OrdersOrderNotFound
    end) r).

(** [get_my_trades] of lib.rs. *)
Inductive GetMyTradesError : Type :=
| MyTradesInvalidOrderId (e : ParseFixedWithIdError)
| MyTradesInvalidTradeId (e : ParseFixedWithIdError)
| MyTradesOrderNotFound.

Definition get_my_trades (s : State) (args : GetMyTradesArgs) (caller : Principal) :
    exec (result (list Trade) GetMyTradesError) :=
  match mt_filter args with
  | ByOrder by_order =>
      match (from_str (bo_order_id by_order) : result OrderId ParseFixedWithIdError) with
      | Err e => Done (Err (MyTradesInvalidOrderId e))
      | Ok order_id =>
          match (parse_cursor (bo_after by_order) : result (option TradeId) ParseFixedWithIdError) with
          | Err e => Done (Err (MyTradesInvalidTradeId e))
          | Ok after =>
              let length := Z.to_nat (Z.min (bo_length by_order) MAX_TRADES_PER_RESPONSE) in
              Done (match get_user_order_trades s (effective_account s caller) order_id after length with
                    | Ok trades =>
                        Ok ((λ st : FillSeq * TradeRecord,
                               into_public st.2 (MkCompositeId order_id st.1)) <$> trades)
                    | Err TradesOrderNotFound => Err MyTradesOrderNotFound
                    | Err TradesCursorNotFound => Ok []
                    end)
          end
      end
  | ByAccount by_account =>
      match (parse_cursor (ba_after by_account) : result (option TradeId) ParseFixedWithIdError) with
      | Err e => Done (Err (MyTradesInvalidTradeId e))
      | Ok after =>
          let length := Z.to_nat (Z.min (ba_length by_account) MAX_TRADES_PER_RESPONSE) in
          let! trades := get_user_trades s (effective_account s caller) after length in
          Done (match trades with
                | Ok trades => Ok ((λ it : TradeId * TradeRecord, into_public it.2 it.1) <$> trades)
                | Err _ => Ok []
                end)
      end
  end.

Definition main_get_my_trades (s : State) (args : GetMyTradesArgs) (caller : Principal) :
    exec (result (list Trade) GetMyTradesApiError) :=
  let! r := get_my_trades s args caller in
  Done (map_err (λ err, request_error
    match err with
    | MyTradesInvalidOrderId _ => TradesInvalidOrderId
    | MyTradesInvalidTradeId _ => TradesInvalidTradeId
    | MyTradesOrderNotFound => TradesOrderUnknown
    end) r).

(** ** Balances *)

Definition api_token (t : TokenId) (metadata : TokenMetadata) : ApiToken :=
  MkApiToken (api_token_id t) (api_metadata metadata).

Definition to_api_balance (b : Balance) : ApiBalance :=
  MkApiBalance (to_nat (free b)) (to_nat (reserved b)).
Definition fee_only_balance (amount : Quantity) : ApiBalance := MkApiBalance (to_nat amount) 0.

(** The [filter(|ft| seen.insert(..))] of [apply_filter]: the first occurrences. *)
Definition filter_token (filter : FilterToken) : TokenId :=
  match filter with ById id => token_from id end.
Fixpoint dedup (seen : gset TokenId) (filter : list FilterToken) : list TokenId :=
  match filter with
  | [] => []
  | ft :: filter =>
      let t := filter_token ft in
      if bool_decide (t ∈ seen) then dedup seen filter else t :: dedup ({[t]} ∪ seen) filter
  end.

(** [collect] into a [Result] stops at the first error. *)
Fixpoint lookup_all (self : State) (balance_lookup : TokenId → ApiBalance) (ts : list TokenId) :
    result (list UserTokenBalance) GetBalancesError :=
  match ts with
  | [] => Ok []
  | t :: ts =>
      match st_tokens self !! t with
      | None => Err (request_error (TokenNotSupported (ById (api_token_id t))))
      | Some metadata =>
          match lookup_all self balance_lookup ts with
          | Err e => Err e
          | Ok rest => Ok (MkUserTokenBalance (api_token t metadata) (balance_lookup t) :: rest)
          end
      end
  end.

Definition apply_filter (self : State) (filter : list FilterToken)
    (balance_lookup : TokenId → ApiBalance) : result (list UserTokenBalance) GetBalancesError :=
  lookup_all self balance_lookup (dedup ∅ filter).

Definition state_get_balances (self : State) (user : Principal) (filter : option (list FilterToken)) :
    result (list UserTokenBalance) GetBalancesError :=
  let user_id := lookup_funding_id (st_user_registry self) user in
  match filter with
  | Some entries =>
      apply_filter self entries (λ t,
        to_api_balance (default balance_zero (user_id ≫= λ u, tb_get_balance (st_balances self) u t)))
  | None =>
      match user_id with
      | None => Ok []
      | Some user_id =>
          Ok (omap (λ tm : TokenId * TokenMetadata,
                match tb_get_balance (st_balances self) user_id tm.1 with
                | Some b =>
                    if bal_is_zero b then None
                    else Some (MkUserTokenBalance (api_token tm.1 tm.2) (to_api_balance b))
                | None => None
                end) (btree_iter (st_tokens self)))
      end
  end.

Definition state_get_fee_balances (self : State) (filter : option (list FilterToken)) :
    exec (result (list UserTokenBalance) GetBalancesError) :=
  match filter with
  | Some entries =>
      Done (apply_filter self entries (λ t,
              fee_only_balance (default Quantity_ZERO (fee_balance (st_balances self) t))))
  | None =>
      let entries := base.filter (λ ta : TokenId * Quantity, negb (is_zero ta.2))
        (fee_pool_iter (tb_fee_pool (st_balances self))) in
      let! out := exec_map (λ ta : TokenId * Quantity,
        let! metadata := expect (st_tokens self !! ta.1) in
        Done (MkUserTokenBalance (api_token ta.1 metadata) (fee_only_balance ta.2))) entries in
      Done (Ok out)
  end.

Definition validate_filter_len (filter : option (list FilterToken)) : result unit GetBalancesError :=
  match filter with
  | Some f =>
      let len : u32 := mk_uint 32 (Z.of_nat (length f)) in
      if MAX_FILTER_LEN <? len then Err (request_error (FilterTooLarge len MAX_FILTER_LEN)) else Ok ()
  | None => Ok ()
  end.

Definition get_balances (s : State) (filter : option (list FilterToken)) (caller : Principal) :
    result (list UserTokenBalance) GetBalancesError :=
  match validate_filter_len filter with
  | Err e => Err e
  | Ok _ => state_get_balances s (effective_account s caller) filter
  end.

Definition get_fee_balances (s : State) (filter : option (list FilterToken)) :
    exec (result (list UserTokenBalance) GetBalancesError) :=
  match validate_filter_len filter with
  | Err e => Done (Err e)
  | Ok _ => state_get_fee_balances s filter
  end.

(** ** Market data *)

Definition to_price_level (pq : Price * Quantity) : ApiPriceLevel :=
  MkApiPriceLevel (nat_of_price pq.1) (to_nat pq.2).

Definition get_order_book_ticker (s : State) (trading_pair : ApiTradingPair) :
    result OrderBookTicker GetOrderBookTickerError :=
  match get_order_book s (pair_from trading_pair) with
  | None => Err (request_error TickerUnknownTradingPair)
  | Some book =>
      Ok (MkOrderBookTicker (to_price_level <$> head (bid_levels book 1))
            (to_price_level <$> head (ask_levels book 1)))
  end.

Definition get_order_book_depth (s : State) (request : GetOrderBookDepthRequest) :
    result OrderBookDepth GetOrderBookDepthError :=
  match (match gd_limit request with
         | None => Ok DEFAULT_DEPTH_LIMIT
         | Some n =>
             if n <=? MAX_DEPTH_LIMIT then Ok n
             else Err (request_error (DepthLimitTooLarge n MAX_DEPTH_LIMIT))
         end) with
  | Err e => Err e
  | Ok limit =>
      match get_order_book s (pair_from (gd_trading_pair request)) with
      | None => Err (request_error DepthUnknownTradingPair)
      | Some book =>
          let limit := Z.to_nat limit in
          Ok (MkOrderBookDepth (to_price_level <$> bid_levels book limit)
                (to_price_level <$> ask_levels book limit))
      end
  end.

(** The entry of one pair. *)
Definition trading_pair_info (s : State) (pair : TradingPair) (book_id : OrderBookId) :
    exec TradingPairInfo :=
  let! book := expect (st_order_books s !! book_id) in
  let! base_meta := expect (token_metadata s (base pair)) in
  let! quote_meta := expect (token_metadata s (quote pair)) in
  Done (MkTradingPairInfo (api_token (base pair) base_meta) (api_token (quote pair) quote_meta)
          (if is_halted (st_permissions s) book_id then StatusHalted else StatusTrading)
          (nat_of_tick (ob_tick_size book)) (nat_of_lot (ob_lot_size book))
          (bps (maker (ob_fee_rates book))) (bps (taker (ob_fee_rates book)))
          (to_nat (ob_min_notional book)) (to_nat <$> ob_max_notional book)).
Definition get_trading_pairs (s : State) : exec (list TradingPairInfo) :=
  exec_map (λ pb : TradingPair * OrderBookId, trading_pair_info s pb.1 pb.2)
    (pairs_iter (st_trading_pairs s)).

Definition list_supported_tokens (s : State) : list ApiToken :=
  (λ tm : TokenId * TokenMetadata, api_token tm.1 tm.2) <$> btree_iter (st_tokens s).
Definition get_my_trading_accounts (s : State) (caller : Principal) :
    result (list Principal) GetMyTradingAccountsError :=
  Ok (trading_accounts_of (st_user_registry s) caller).
End queries.
