(* ===== verification/Client.v ===== *)
(** * The client library (src/libs/client/src/lib.rs)

    [OisyTradeClient] calls the canister by method name over a [Runtime]: on the
    Internet Computer ([IcRuntime]) or in a test environment ([PocketIcRuntime] of
    src/integration_tests/src/lib.rs). Arguments and replies travel as Candid blobs.
    [exports] is the canister's side: the methods of main.rs by name, each with the
    types its wrapper decodes and encodes. *)

From Stdlib Require Import String.
From stdpp Require Import prelude gmap.
From Stdlib Require Import ZArith NArith Lia.
From S2P Require Import Prelude Word BTree Text Bytes Quantity QuantityCodec.
From S2P Require Import Ids Fees OrderTypes Tokens Balance WriteBack.
From S2P Require Import OrderBook History OrderHistory UserRegistry.
From S2P Require Import Settlement Permissions PairMap Events.
From S2P Require Import State EventAudit ApiErrors Api Ledger Endpoints EntryPoints.
From S2P Require Import System Queries.

(** ** The interface's types *)

Inductive ty : Set :=
| TNull
| TText
| TPrincipal
| TTradingPair
| TLimitOrderRequest
| TGetMyOrdersArgs
| TGetMyTradesArgs
| TDepthRequest
| TDepositRequest
| TWithdrawRequest
| TFilterToken
| TAddTradingPairRequest
| TOrderRecord
| TUserOrder
| TTrade
| TTradingPairInfo
| TTicker
| TDepth
| TDepositResponse
| TWithdrawResponse
| TUserTokenBalance
| TToken
| TAddLimitOrderError
| TCancelLimitOrderError
| TGetMyOrdersError
| TGetMyTradesError
| TAddTradingAccountError
| TRemoveTradingAccountError
| TGetMyTradingAccountsError
| TTickerError
| TDepthError
| TDepositError
| TWithdrawError
| TGetBalancesError
| TAddTradingPairError
| TUnauthorizedError
| TVec (t : ty)
| TOpt (t : ty)
| TResult (t e : ty).

#[export] Instance ty_eq_dec : EqDecision ty.
Proof. solve_decision. Defined.

Section client.
Context `{PrincipalType} `{!BiBTreeMap TradingPair OrderBookId} `{BigUint}.

Fixpoint denote (t : ty) : Type :=
  match t with
  | TNull => unit
  | TText => list u8
  | TPrincipal => Principal
  | TTradingPair => ApiTradingPair
  | TLimitOrderRequest => LimitOrderRequest
  | TGetMyOrdersArgs => GetMyOrdersArgs
  | TGetMyTradesArgs => GetMyTradesArgs
  | TDepthRequest => GetOrderBookDepthRequest
  | TDepositRequest => DepositRequest
  | TWithdrawRequest => WithdrawRequest
  | TFilterToken => FilterToken
  | TAddTradingPairRequest => AddTradingPairRequest
  | TOrderRecord => ApiOrderRecord
  | TUserOrder => UserOrder
  | TTrade => Trade
  | TTradingPairInfo => TradingPairInfo
  | TTicker => OrderBookTicker
  | TDepth => OrderBookDepth
  | TDepositResponse => DepositResponse
  | TWithdrawResponse => WithdrawResponse
  | TUserTokenBalance => UserTokenBalance
  | TToken => ApiToken
  | TAddLimitOrderError => AddLimitOrderApiError
  | TCancelLimitOrderError => CancelLimitOrderApiError
  | TGetMyOrdersError => GetMyOrdersApiError
  | TGetMyTradesError => GetMyTradesApiError
  | TAddTradingAccountError => AddTradingAccountApiError
  | TRemoveTradingAccountError => RemoveTradingAccountApiError
  | TGetMyTradingAccountsError => GetMyTradingAccountsError
  | TTickerError => GetOrderBookTickerError
  | TDepthError => GetOrderBookDepthError
  | TDepositError => DepositError
  | TWithdrawError => WithdrawError
  | TGetBalancesError => GetBalancesError
  | TAddTradingPairError => AddTradingPairError
  | TUnauthorizedError => ApiUnauthorizedError
  | TVec t => list (denote t)
  | TOpt t => option (denote t)
  | TResult t e => result (denote t) (denote e)
  end.

(** Candid: blobs that decode at the type they were encoded at. A decoding error is
    its text. *)
Class Candid : Type := {
  Blob : Type;
  encode_args : ∀ t, denote t → Blob;
  decode_args : ∀ t, Blob → result (denote t) (list u8);
  decode_encode t (a : denote t) : decode_args t (encode_args t a) = Ok a
}.

Inductive RejectCode : Set :=
| SysFatal | SysTransient | DestinationInvalid | CanisterReject | CanisterError | SysUnknown.

(** [ic_cdk::call::CallFailed]; [cr_code] is what [reject_code()] makes of the code. *)
Record CallRejected : Type := MkCallRejected { cr_code : option RejectCode; cr_message : list u8 }.
Inductive CallFailed : Type :=
| InsufficientLiquidCycleBalance
| CallPerformFailed
| FailedRejected (rejected : CallRejected).

(** The texts that the platform's libraries choose. *)
Class Platform : Type := {
  trap_message : list u8;
  no_such_method : list u8;
  no_such_canister : list u8;
  display_call_failed : CallFailed → list u8;
  type_name : ty → list u8
}.

Context `{Candid} `{Platform}.

(** ** The canister's side *)

(** What surrounds one call: the context its message runs in, and for a call that
    waits for a ledger the messages delivered meanwhile, the ledger's answers and the
    context of the reply. *)
Record Env : Type := MkEnv {
  env_rt : Runtime;
  env_between : list (Runtime * Message);
  env_deposit : CallReply (result N TransferFromError);
  env_ledger : LedgerReplies;
  env_resume : Runtime
}.

(** The canister's own principal. *)
Definition self_id (env : Env) : Principal := rt_canister_self (env_rt env).

(** A message that traps changes nothing. *)
Definition deliver_or (sys : System) (m : Runtime * Message) : System :=
  match deliver m.1 sys m.2 with Done sys' => sys' | Trap => sys end.
Definition deliver_all (ms : list (Runtime * Message)) (sys : System) : System :=
  foldl deliver_or sys ms.

(** The answer of a method, or a trap, and the system it leaves. *)
Definition Answer (t : ty) : Type := exec (denote t) * System.

Definition update {A} (sys : System) (r : exec (A * World * Effects)) : exec A * System :=
  match r with Done r => (Done r.1.1, after_call r sys) | Trap => (Trap, sys) end.
Definition query {A} (sys : System) (r : exec A) : exec A * System := (r, sys).

(** The suspended call of an account and token: there is at most one. *)
Definition position (pf : PendingFunding) (sys : System) : nat :=
  default (length (sys_calls sys))
    (fst <$> list_find (λ c, suspended_key c = (pf_caller pf, pf_token pf)) (sys_calls sys)).

Definition deposit_call_answer (env : Env) (sys : System) (request : DepositRequest) :
    Answer (TResult TDepositResponse TDepositError) :=
  match main_deposit_begin (sys_world sys) request (env_rt env) with
  | Trap => (Trap, sys)
  | Done r =>
      let sys := after_call r sys in
      match r.1.1 with
      | Err e => (Done (Err e), sys)
      | Ok (pf, call) =>
          let sys := deliver_all (env_between env) 
            (suspend (AwaitDeposit request pf call (self_id env)) sys) in
          match main_deposit_end (sys_world sys) request pf (env_deposit env) (env_resume env) with
          | Trap => (Trap, sys)
          | Done r =>
              (Done r.1.1, record_flow (deposit_flow (self_id env) call (env_deposit env))
                             (resume (position pf sys) (after_call r sys)))
          end
      end
  end.

Definition withdraw_call_answer (env : Env) (sys : System) (request : WithdrawRequest) :
    Answer (TResult TWithdrawResponse TWithdrawError) :=
  match main_withdraw_begin (sys_world sys) request (env_rt env) with
  | Trap => (Trap, sys)
  | Done r =>
      let sys := after_call r sys in
      match r.1.1 with
      | Err e => (Done (Err e), sys)
      | Ok (pf, fee) =>
          let sys := deliver_all (env_between env) (suspend (AwaitWithdraw request pf fee) sys) in
          match (let! (outcome, calls) := ledger_withdraw (pf_token pf) (pf_caller pf) (pf_amount pf)
                   fee (env_ledger env) in
                 let! r := main_withdraw_end (sys_world sys) request pf outcome (env_resume env) in
                 Done (r, withdraw_flow outcome calls)) with
          | Trap => (Trap, sys)
          | Done (r, flow) =>
              (Done r.1.1, record_flow flow (resume (position pf sys) (after_call r sys)))
          end
      end
  end.

(** An exported method: the type of its argument, of its reply, and its body. *)
Record Method : Type := MkMethod {
  m_in : ty;
  m_out : ty;
  m_body : Env → System → denote m_in → Answer m_out
}.

Definition st (sys : System) : State := w_state (sys_world sys).
Definition caller (env : Env) : Principal := rt_msg_caller (env_rt env).

(** The methods of main.rs, in the order of the file: up to [withdraw], and after the
    helpers that decide which errors are logged. *)
Definition trading_exports : list (list u8 * Method) :=
  [(text "add_limit_order", MkMethod TLimitOrderRequest (TResult TText TAddLimitOrderError)
      (λ env sys a, update sys (main_add_limit_order (sys_world sys) a (env_rt env))));
   (text "cancel_limit_order", MkMethod TText (TResult TOrderRecord TCancelLimitOrderError)
      (λ env sys a, update sys (main_cancel_limit_order (sys_world sys) a (env_rt env))));
   (text "add_trading_account", MkMethod TPrincipal (TResult TNull TAddTradingAccountError)
      (λ env sys a, update sys (main_add_trading_account (sys_world sys) a (env_rt env))));
   (text "remove_trading_account", MkMethod TPrincipal (TResult TNull TRemoveTradingAccountError)
      (λ env sys a, update sys (main_remove_trading_account (sys_world sys) a (env_rt env))));
   (text "get_my_trading_accounts",
      MkMethod TNull (TResult (TVec TPrincipal) TGetMyTradingAccountsError)
      (λ env sys _, query sys (Done (get_my_trading_accounts (st sys) (caller env)))));
   (text "get_trading_pairs", MkMethod TNull (TVec TTradingPairInfo)
      (λ env sys _, query sys (get_trading_pairs (st sys))));
   (text "get_order_book_ticker", MkMethod TTradingPair (TResult TTicker TTickerError)
      (λ env sys a, query sys (Done (get_order_book_ticker (st sys) a))));
   (text "get_order_book_depth", MkMethod TDepthRequest (TResult TDepth TDepthError)
      (λ env sys a, query sys (Done (get_order_book_depth (st sys) a))));
   (text "deposit", MkMethod TDepositRequest (TResult TDepositResponse TDepositError)
      deposit_call_answer);
   (text "withdraw", MkMethod TWithdrawRequest (TResult TWithdrawResponse TWithdrawError)
      withdraw_call_answer)].

Definition account_exports : list (list u8 * Method) :=
  [(text "get_balances",
      MkMethod (TOpt (TVec TFilterToken)) (TResult (TVec TUserTokenBalance) TGetBalancesError)
      (λ env sys a, query sys (Done (get_balances (st sys) a (caller env)))));
   (text "get_fee_balances",
      MkMethod (TOpt (TVec TFilterToken)) (TResult (TVec TUserTokenBalance) TGetBalancesError)
      (λ env sys a, query sys (get_fee_balances (st sys) a)));
   (text "get_my_orders",
      MkMethod (TOpt TGetMyOrdersArgs) (TResult (TVec TUserOrder) TGetMyOrdersError)
      (λ env sys a, query sys (main_get_my_orders (st sys) a (caller env))));
   (text "get_my_trades", MkMethod TGetMyTradesArgs (TResult (TVec TTrade) TGetMyTradesError)
      (λ env sys a, query sys (main_get_my_trades (st sys) a (caller env))));
   (text "list_supported_tokens", MkMethod TNull (TVec TToken)
      (λ env sys _, query sys (Done (list_supported_tokens (st sys)))));
   (text "add_trading_pair", MkMethod TAddTradingPairRequest (TResult TNull TAddTradingPairError)
      (λ env sys a, update sys (main_add_trading_pair (sys_world sys) a (env_rt env))));
   (text "halt_trading", MkMethod (TOpt (TVec TTradingPair)) (TResult TNull TUnauthorizedError)
      (λ env sys a, update sys (main_halt_trading (sys_world sys) a (env_rt env))));
   (text "resume_trading", MkMethod (TOpt (TVec TTradingPair)) (TResult TNull TUnauthorizedError)
      (λ env sys a, update sys (main_resume_trading (sys_world sys) a (env_rt env))))].

Definition exports : list (list u8 * Method) := trading_exports ++ account_exports.

Definition find_method (name : list u8) : option Method :=
  snd <$> (snd <$> list_find (λ e : list u8 * Method, e.1 = name) exports).

(** The answer to a message: the wrapper decodes, runs the method, and encodes. *)
Definition serve (env : Env) (id : Principal) (method : list u8) (args : Blob) (sys : System) :
    result Blob (RejectCode * list u8) * System :=
  if bool_decide (id = rt_canister_self (env_rt env)) then
    match find_method method with
    | None => (Err (DestinationInvalid, no_such_method), sys)
    | Some m =>
        match decode_args (m_in m) args with
        | Err e => (Err (CanisterError, e), sys)
        | Ok a =>
            let (r, sys) := m_body m env sys a in
            match r with
            | Trap => (Err (CanisterError, trap_message), sys)
            | Done r => (Ok (encode_args (m_out m) r), sys)
            end
        end
    end
  else (Err (DestinationInvalid, no_such_canister), sys).

(** ** The runtimes *)

(** The trait [Runtime] of the client: a call at the argument's and reply's types. *)
Record ClientRuntime : Type := MkClientRuntime {
  rt_call : ∀ tin tout, Principal → list u8 → denote tin → u128 → System →
    result (denote tout) (RejectCode * list u8) * System
}.

(** What becomes of a bounded-wait call, as the platform documents it: it may refuse to
    send the call, or give up on the reply. *)
Inductive Fate : Type :=
| Delivered
| NotSent (e : CallFailed)
| ReplyLost (e : CallFailed).

Definition bounded_wait (env : Env) (fate : Fate) (id : Principal) (method : list u8) (args : Blob)
    (cycles : u128) (sys : System) : result Blob CallFailed * System :=
  match fate with
  | NotSent e => (Err e, sys)
  | ReplyLost e => (Err e, (serve env id method args sys).2)
  | Delivered =>
      let (r, sys) := serve env id method args sys in
      (map_err (λ e : RejectCode * list u8, FailedRejected (MkCallRejected (Some e.1) e.2)) r, sys)
  end.

Definition call_failed_to_reject (err : CallFailed) : RejectCode * list u8 :=
  match err with
  | FailedRejected rejected => (default SysUnknown (cr_code rejected), cr_message rejected)
  | other => (CanisterError, display_call_failed other)
  end.

(** [impl Runtime for IcRuntime]. *)
Definition ic_runtime (env : Env) (fate : Fate) : ClientRuntime :=
  MkClientRuntime (λ tin tout id method args cycles sys,
    let (r, sys) := bounded_wait env fate id method (encode_args tin args) cycles sys in
    (match r with
     | Err e => Err (call_failed_to_reject e)
     | Ok response => map_err (λ e, (CanisterError, e)) (decode_args tout response)
     end, sys)).

(** [impl Runtime for PocketIcRuntime]: the caller is part of the runtime. *)
Inductive PocketIcRejectCode : Set :=
| PSysFatal | PSysTransient | PDestinationInvalid | PCanisterReject | PCanisterError | PSysUnknown.
Definition rejection_code (c : PocketIcRejectCode) : RejectCode :=
  match c with
  | PSysFatal => SysFatal
  | PSysTransient => SysTransient
  | PDestinationInvalid => DestinationInvalid
  | PCanisterReject => CanisterReject
  | PCanisterError => CanisterError
  | PSysUnknown => SysUnknown
  end.
Definition pocket_code (c : RejectCode) : PocketIcRejectCode :=
  match c with
  | SysFatal => PSysFatal
  | SysTransient => PSysTransient
  | DestinationInvalid => PDestinationInvalid
  | CanisterReject => PCanisterReject
  | CanisterError => PCanisterError
  | SysUnknown => PSysUnknown
  end.

Definition set_caller (who : Principal) (env : Env) : Env :=
  let rt := env_rt env in
  MkEnv (MkRuntime who (rt_canister_self rt) (rt_is_controller rt) (rt_instruction_counter rt)
           (rt_time rt))
    (env_between env) (env_deposit env) (env_ledger env) (env_resume env).

(** [PocketIc::update_call]. *)
Definition update_call (env : Env) (id who : Principal) (method : list u8) (args_raw : Blob)
    (sys : System) : result Blob (PocketIcRejectCode * list u8) * System :=
  let (r, sys) := serve (set_caller who env) id method args_raw sys in
  (map_err (λ e : RejectCode * list u8, (pocket_code e.1, e.2)) r, sys).

Definition pocket_ic_runtime (env : Env) (who : Principal) : ClientRuntime :=
  MkClientRuntime (λ tin tout id method args _ sys,
    let (r, sys) := update_call env id who method (encode_args tin args) sys in
    (match r with
     | Ok bytes =>
         map_err (λ e, (CanisterError, text "failed to decode canister response as " ++
                          type_name tout ++ text ": " ++ e)) (decode_args tout bytes)
     | Err e => Err (rejection_code e.1, e.2)
     end, sys)).

(** ** The client *)

Record OisyTradeClient : Type := MkOisyTradeClient {
  runtime : ClientRuntime;
  oisy_trade_canister : Principal
}.
Definition client_new (runtime : ClientRuntime) (oisy_trade_canister : Principal) : OisyTradeClient :=
  MkOisyTradeClient runtime oisy_trade_canister.
Definition new_for_ic (env : Env) (fate : Fate) (oisy_trade_canister : Principal) : OisyTradeClient :=
  MkOisyTradeClient (ic_runtime env fate) oisy_trade_canister.

Definition unwrap {A E} (r : result A E * System) : exec (A * System) :=
  match r with (Ok a, sys) => Done (a, sys) | (Err _, _) => Trap end.

(** [self.runtime.call(self.oisy_trade_canister, method, args, 0).await.unwrap()]. *)
Definition client_call (self : OisyTradeClient) (tin tout : ty) (method : list u8) (args : denote tin)
    (sys : System) : exec (denote tout * System) :=
  unwrap (rt_call (runtime self) tin tout (oisy_trade_canister self) method args (mk_uint 128 0) sys).

Definition client_add_limit_order (self : OisyTradeClient) (request : LimitOrderRequest)
    (sys : System) :
    exec (denote (TResult TText TAddLimitOrderError) * System) :=
  client_call self TLimitOrderRequest (TResult TText TAddLimitOrderError)
    (text "add_limit_order") request sys.
Definition client_cancel_limit_order (self : OisyTradeClient) (order_id : list u8) (sys : System) :
    exec (denote (TResult TOrderRecord TCancelLimitOrderError) * System) :=
  client_call self TText (TResult TOrderRecord TCancelLimitOrderError)
    (text "cancel_limit_order") order_id sys.
Definition client_get_my_orders (self : OisyTradeClient) (args : GetMyOrdersArgs) (sys : System) :
    exec (denote (TResult (TVec TUserOrder) TGetMyOrdersError) * System) :=
  client_call self (TOpt TGetMyOrdersArgs) (TResult (TVec TUserOrder) TGetMyOrdersError)
    (text "get_my_orders") (Some args) sys.
Definition client_get_my_trades (self : OisyTradeClient) (args : GetMyTradesArgs) (sys : System) :
    exec (denote (TResult (TVec TTrade) TGetMyTradesError) * System) :=
  client_call self TGetMyTradesArgs (TResult (TVec TTrade) TGetMyTradesError)
    (text "get_my_trades") args sys.
Definition client_add_trading_account (self : OisyTradeClient) (trading : Principal)
    (sys : System) :
    exec (denote (TResult TNull TAddTradingAccountError) * System) :=
  client_call self TPrincipal (TResult TNull TAddTradingAccountError)
    (text "add_trading_account") trading sys.
Definition client_remove_trading_account (self : OisyTradeClient) (trading : Principal)
    (sys : System) :
    exec (denote (TResult TNull TRemoveTradingAccountError) * System) :=
  client_call self TPrincipal (TResult TNull TRemoveTradingAccountError)
    (text "remove_trading_account") trading sys.
Definition client_get_my_trading_accounts (self : OisyTradeClient) (sys : System) :
    exec (denote (TResult (TVec TPrincipal) TGetMyTradingAccountsError) * System) :=
  client_call self TNull (TResult (TVec TPrincipal) TGetMyTradingAccountsError)
    (text "get_my_trading_accounts") () sys.
Definition client_get_trading_pairs (self : OisyTradeClient) (sys : System) :
    exec (denote (TVec TTradingPairInfo) * System) :=
  client_call self TNull (TVec TTradingPairInfo) (text "get_trading_pairs") () sys.
Definition client_get_order_book_ticker (self : OisyTradeClient) (pair : ApiTradingPair)
    (sys : System) :
    exec (denote (TResult TTicker TTickerError) * System) :=
  client_call self TTradingPair (TResult TTicker TTickerError)
    (text "get_order_book_ticker") pair sys.
Definition client_get_order_book_depth (self : OisyTradeClient) (request : GetOrderBookDepthRequest)
    (sys : System) :
    exec (denote (TResult TDepth TDepthError) * System) :=
  client_call self TDepthRequest (TResult TDepth TDepthError)
    (text "get_order_book_depth") request sys.
Definition client_deposit (self : OisyTradeClient) (request : DepositRequest) (sys : System) :
    exec (denote (TResult TDepositResponse TDepositError) * System) :=
  client_call self TDepositRequest (TResult TDepositResponse TDepositError)
    (text "deposit") request sys.
Definition client_withdraw (self : OisyTradeClient) (request : WithdrawRequest) (sys : System) :
    exec (denote (TResult TWithdrawResponse TWithdrawError) * System) :=
  client_call self TWithdrawRequest (TResult TWithdrawResponse TWithdrawError)
    (text "withdraw") request sys.
Definition client_get_balances (self : OisyTradeClient) (filter : option (list FilterToken))
    (sys : System) :
    exec (denote (TResult (TVec TUserTokenBalance) TGetBalancesError) * System) :=
  client_call self (TOpt (TVec TFilterToken)) (TResult (TVec TUserTokenBalance) TGetBalancesError)
    (text "get_balances") filter sys.
Definition client_get_fee_balances (self : OisyTradeClient) (filter : option (list FilterToken))
    (sys : System) :
    exec (denote (TResult (TVec TUserTokenBalance) TGetBalancesError) * System) :=
  client_call self (TOpt (TVec TFilterToken)) (TResult (TVec TUserTokenBalance) TGetBalancesError)
    (text "get_fee_balances") filter sys.
Definition client_list_supported_tokens (self : OisyTradeClient) (sys : System) :
    exec (denote (TVec TToken) * System) :=
  client_call self TNull (TVec TToken) (text "list_supported_tokens") () sys.
Definition client_add_trading_pair (self : OisyTradeClient) (request : AddTradingPairRequest)
    (sys : System) :
    exec (denote (TResult TNull TAddTradingPairError) * System) :=
  client_call self TAddTradingPairRequest (TResult TNull TAddTradingPairError)
    (text "add_trading_pair") request sys.
Definition client_halt_trading (self : OisyTradeClient) (pairs : option (list ApiTradingPair))
    (sys : System) :
    exec (denote (TResult TNull TUnauthorizedError) * System) :=
  client_call self (TOpt (TVec TTradingPair)) (TResult TNull TUnauthorizedError)
    (text "halt_trading") pairs sys.
Definition client_resume_trading (self : OisyTradeClient) (pairs : option (list ApiTradingPair))
    (sys : System) :
    exec (denote (TResult TNull TUnauthorizedError) * System) :=
  client_call self (TOpt (TVec TTradingPair)) (TResult TNull TUnauthorizedError)
    (text "resume_trading") pairs sys.

(** [GetMyOrdersArgs::by_id] and [by_page]. *)
Definition by_id (id : list u8) : GetMyOrdersArgs := MkGetMyOrdersArgs (OrderById id).
Definition by_page (after : option (list u8)) (length : u32) : GetMyOrdersArgs :=
  MkGetMyOrdersArgs (OrdersByPage (MkGetMyOrdersPage after length)).

(** The two conveniences on top: one order, and one balance. *)
Definition client_get_my_order (self : OisyTradeClient) (order_id : list u8) (sys : System) :
    exec (result UserOrder GetMyOrdersApiError * System) :=
  let! (r, sys) := client_get_my_orders self (by_id order_id) sys in
  match r with
  | Err e => Done (Err e, sys)
  | Ok orders => let! order := expect (head orders) in Done (Ok order, sys)
  end.
Definition client_get_balance (self : OisyTradeClient) (token_id : ApiTokenId) (sys : System) :
    exec (result ApiBalance GetBalancesError * System) :=
  let! (r, sys) := client_get_balances self (Some [ById token_id]) sys in
  match r with
  | Err e => Done (Err e, sys)
  | Ok result => let! first := expect (head result) in Done (Ok (utb_balance first), sys)
  end.

(** ** The calls of the client, and what the canister answers to each *)

Inductive ClientCall : ty → Type :=
| CAddLimitOrder (request : LimitOrderRequest) : ClientCall (TResult TText TAddLimitOrderError)
| CCancelLimitOrder (order_id : list u8) : ClientCall (TResult TOrderRecord TCancelLimitOrderError)
| CGetMyTrades (args : GetMyTradesArgs) : ClientCall (TResult (TVec TTrade) TGetMyTradesError)
| CAddTradingAccount (trading : Principal) : ClientCall (TResult TNull TAddTradingAccountError)
| CRemoveTradingAccount (trading : Principal) :
    ClientCall (TResult TNull TRemoveTradingAccountError)
| CGetMyTradingAccounts : ClientCall (TResult (TVec TPrincipal) TGetMyTradingAccountsError)
| CGetTradingPairs : ClientCall (TVec TTradingPairInfo)
| CGetOrderBookTicker (pair : ApiTradingPair) : ClientCall (TResult TTicker TTickerError)
| CGetOrderBookDepth (request : GetOrderBookDepthRequest) : ClientCall (TResult TDepth TDepthError)
| CDeposit (request : DepositRequest) : ClientCall (TResult TDepositResponse TDepositError)
| CWithdraw (request : WithdrawRequest) : ClientCall (TResult TWithdrawResponse TWithdrawError)
| CGetBalances (filter : option (list FilterToken)) :
    ClientCall (TResult (TVec TUserTokenBalance) TGetBalancesError)
| CGetFeeBalances (filter : option (list FilterToken)) :
    ClientCall (TResult (TVec TUserTokenBalance) TGetBalancesError)
| CListSupportedTokens : ClientCall (TVec TToken)
| CAddTradingPair (request : AddTradingPairRequest) :
    ClientCall (TResult TNull TAddTradingPairError)
| CHaltTrading (pairs : option (list ApiTradingPair)) :
    ClientCall (TResult TNull TUnauthorizedError)
| CResumeTrading (pairs : option (list ApiTradingPair)) :
    ClientCall (TResult TNull TUnauthorizedError)
| CGetMyOrders (args : GetMyOrdersArgs) : ClientCall (TResult (TVec TUserOrder) TGetMyOrdersError).

Definition client_run {t} (c : ClientCall t) (self : OisyTradeClient) (sys : System) :
    exec (denote t * System) :=
  match c with
  | CAddLimitOrder a => client_add_limit_order self a sys
  | CCancelLimitOrder a => client_cancel_limit_order self a sys
  | CGetMyTrades a => client_get_my_trades self a sys
  | CAddTradingAccount a => client_add_trading_account self a sys
  | CRemoveTradingAccount a => client_remove_trading_account self a sys
  | CGetMyTradingAccounts => client_get_my_trading_accounts self sys
  | CGetTradingPairs => client_get_trading_pairs self sys
  | CGetOrderBookTicker a => client_get_order_book_ticker self a sys
  | CGetOrderBookDepth a => client_get_order_book_depth self a sys
  | CDeposit a => client_deposit self a sys
  | CWithdraw a => client_withdraw self a sys
  | CGetBalances a => client_get_balances self a sys
  | CGetFeeBalances a => client_get_fee_balances self a sys
  | CListSupportedTokens => client_list_supported_tokens self sys
  | CAddTradingPair a => client_add_trading_pair self a sys
  | CHaltTrading a => client_halt_trading self a sys
  | CResumeTrading a => client_resume_trading self a sys
  | CGetMyOrders a => client_get_my_orders self a sys
  end.

Definition canister_run {t} (c : ClientCall t) (env : Env) (sys : System) : Answer t :=
  let w := sys_world sys in
  let rt := env_rt env in
  match c with
  | CAddLimitOrder a => update sys (main_add_limit_order w a rt)
  | CCancelLimitOrder a => update sys (main_cancel_limit_order w a rt)
  | CGetMyTrades a => query sys (main_get_my_trades (st sys) a (caller env))
  | CAddTradingAccount a => update sys (main_add_trading_account w a rt)
  | CRemoveTradingAccount a => update sys (main_remove_trading_account w a rt)
  | CGetMyTradingAccounts => query sys (Done (get_my_trading_accounts (st sys) (caller env)))
  | CGetTradingPairs => query sys (get_trading_pairs (st sys))
  | CGetOrderBookTicker a => query sys (Done (get_order_book_ticker (st sys) a))
  | CGetOrderBookDepth a => query sys (Done (get_order_book_depth (st sys) a))
  | CDeposit a => deposit_call_answer env sys a
  | CWithdraw a => withdraw_call_answer env sys a
  | CGetBalances a => query sys (Done (get_balances (st sys) a (caller env)))
  | CGetFeeBalances a => query sys (get_fee_balances (st sys) a)
  | CListSupportedTokens => query sys (Done (list_supported_tokens (st sys)))
  | CAddTradingPair a => update sys (main_add_trading_pair w a rt)
  | CHaltTrading a => update sys (main_halt_trading w a rt)
  | CResumeTrading a => update sys (main_resume_trading w a rt)
  | CGetMyOrders a => query sys (main_get_my_orders (st sys) (Some a) (caller env))
  end.

(** ** A runtime that gets the calls through *)

Definition ok {A E} (r : result A E) : option A := match r with Ok a => Some a | Err _ => None end.

(** What the client relies on: a call to the canister's id is the message [serve]
    answers, and the reply decoded; which error the caller sees is left open. *)
Class Answers (rt : ClientRuntime) (env : Env) : Prop := answers tin tout method args sys :
  let (r, sys') := serve env (self_id env) method (encode_args tin args) sys in
  let (r', sys'') := rt_call rt tin tout (self_id env) method args (mk_uint 128 0) sys in
  sys'' = sys' ∧ ok r' = (b ← ok r; ok (decode_args tout b)).

#[export] Instance ic_runtime_answers env : Answers (ic_runtime env Delivered) env.
Proof.
  intros tin tout method args sys. cbn. destruct (serve _ _ _ _ _) as [r sys'].
  destruct r as [b|e]; cbn; [|done]. by destruct (decode_args tout b).
Qed.

#[export] Instance pocket_ic_runtime_answers env who :
  Answers (pocket_ic_runtime env who) (set_caller who env).
Proof.
  intros tin tout method args sys. unfold pocket_ic_runtime, update_call. cbn [rt_call].
  change (self_id (set_caller who env)) with (self_id env).
  destruct (serve _ _ _ _ _) as [r sys'].
  destruct r as [b|e]; cbn; [|done]. by destruct (decode_args tout b).
Qed.

(** A call of the client is the method's body. *)
Definition finish {t} (r : Answer t) : exec (denote t * System) := let! a := r.1 in Done (a, r.2).

Lemma client_call_eq rt env name m a sys :
  Answers rt env → find_method name = Some m →
  client_call (client_new rt (self_id env)) (m_in m) (m_out m) name a sys = finish (m_body m env sys a).
Proof.
  intros Ha Hm. unfold client_call. cbn [runtime oisy_trade_canister client_new].
  specialize (Ha (m_in m) (m_out m) name a sys). unfold serve in Ha.
  rewrite bool_decide_eq_true_2, Hm, decode_encode in Ha by done.
  destruct (rt_call _ _ _ _ _ _ _ _) as [r' sys''], (m_body m env sys a) as [[r|] sys'];
    destruct Ha as [-> Ha]; cbn in *.
  - rewrite decode_encode in Ha. cbn in Ha. destruct r'; cbn in *; [by simplify_eq|done].
  - by destruct r'.
Qed.

Lemma find_method_at i name m : exports !! i = Some (name, m) → find_method name = Some m.
Proof.
  intros Hi. unfold find_method.
  assert (NoDup exports.*1) as Hn by (apply (bool_decide_unpack _); by vm_compute).
  destruct (list_find _ exports) as [[j [n m']]|] eqn:E; cbn.
  - apply list_find_Some in E as (Hj & Hname & _). cbn in Hname. subst n.
    assert (i = j) as ->.
    { apply (NoDup_lookup _ i j name Hn); by rewrite list_lookup_fmap, ?Hi, ?Hj. }
    by simplify_eq.
  - apply list_find_None in E. rewrite Forall_forall in E. exfalso.
    apply (E _ (list_elem_of_lookup_2 _ _ _ Hi)). done.
Qed.

Lemma client_call_at i rt env name tin tout body a sys :
  Answers rt env → exports !! i = Some (name, MkMethod tin tout body) →
  client_call (client_new rt (self_id env)) tin tout name a sys = finish (body env sys a).
Proof.
  intros Ha Hi. apply find_method_at in Hi.
  exact (client_call_eq rt env name (MkMethod tin tout body) a sys Ha Hi).
Qed.

(** The number of a call's method among the exports. *)
Definition method_index {t} (c : ClientCall t) : nat :=
  match c with
  | CAddLimitOrder _ => 0 | CCancelLimitOrder _ => 1 | CAddTradingAccount _ => 2
  | CRemoveTradingAccount _ => 3 | CGetMyTradingAccounts => 4 | CGetTradingPairs => 5
  | CGetOrderBookTicker _ => 6 | CGetOrderBookDepth _ => 7 | CDeposit _ => 8 | CWithdraw _ => 9
  | CGetBalances _ => 10 | CGetFeeBalances _ => 11 | CGetMyOrders _ => 12 | CGetMyTrades _ => 13
  | CListSupportedTokens => 14 | CAddTradingPair _ => 15 | CHaltTrading _ => 16
  | CResumeTrading _ => 17
  end%nat.

(** The name and types the client uses are those the canister exports. *)
Lemma client_run_eq {t} (c : ClientCall t) rt env sys :
  Answers rt env → client_run c (client_new rt (self_id env)) sys = finish (canister_run c env sys).
Proof.
  intros Ha. pose (i := method_index c).
  destruct c; (etrans; [eapply (client_call_at i); [done|reflexivity]|reflexivity]).
Qed.

(** ** The calls as messages of the system *)

(** The funding call that waits, and the system when its ledger has answered. *)
Definition deposit_wait (env : Env) (sys : System) (request : DepositRequest) :
    option (PendingFunding * (Principal * TransferFromArgs) * System) :=
  match main_deposit_begin (sys_world sys) request (env_rt env) with
  | Done (Ok (pf, call), w, fx) =>
      Some (pf, call, deliver_all (env_between env)
        (suspend (AwaitDeposit request pf call (self_id env))
          (set_timer (fx_timer fx) (set_world w sys))))
  | _ => None
  end.
Definition withdraw_wait (env : Env) (sys : System) (request : WithdrawRequest) :
    option (PendingFunding * N * System) :=
  match main_withdraw_begin (sys_world sys) request (env_rt env) with
  | Done (Ok (pf, fee), w, fx) =>
      Some (pf, fee, deliver_all (env_between env)
        (suspend (AwaitWithdraw request pf fee) (set_timer (fx_timer fx) (set_world w sys))))
  | _ => None
  end.

(** Nothing delivered meanwhile has answered the waiting call. *)
Definition awaiting {t} (c : ClientCall t) (env : Env) (sys : System) : Prop :=
  match c with
  | CDeposit a =>
      match deposit_wait env sys a with
      | Some (pf, call, sys) =>
          sys_calls sys !! position pf sys = Some (AwaitDeposit a pf call (self_id env))
      | None => True
      end
  | CWithdraw a =>
      match withdraw_wait env sys a with
      | Some (pf, fee, sys) => sys_calls sys !! position pf sys = Some (AwaitWithdraw a pf fee)
      | None => True
      end
  | _ => True
  end.

(** The messages the canister processes for a call; none for a query. *)
Definition messages {t} (c : ClientCall t) (env : Env) (sys : System) : list (Runtime * Message) :=
  let rt := env_rt env in
  match c with
  | CAddLimitOrder a => [(rt, AddLimitOrder a)]
  | CCancelLimitOrder a => [(rt, CancelLimitOrder a)]
  | CAddTradingAccount a => [(rt, AddTradingAccount a)]
  | CRemoveTradingAccount a => [(rt, RemoveTradingAccount a)]
  | CAddTradingPair a => [(rt, AddTradingPair a)]
  | CHaltTrading a => [(rt, HaltTrading a)]
  | CResumeTrading a => [(rt, ResumeTrading a)]
  | CDeposit a =>
      (rt, Deposit a) ::
      match deposit_wait env sys a with
      | Some (pf, _, sys) =>
          env_between env ++ [(env_resume env, DepositReply (position pf sys) (env_deposit env))]
      | None => []
      end
  | CWithdraw a =>
      (rt, Withdraw a) ::
      match withdraw_wait env sys a with
      | Some (pf, _, sys) =>
          env_between env ++ [(env_resume env, WithdrawReply (position pf sys) (env_ledger env))]
      | None => []
      end
  | _ => []
  end.

Lemma deliver_all_cons m ms sys : deliver_all (m :: ms) sys = deliver_all ms (deliver_or sys m).
Proof. done. Qed.
Lemma deliver_all_app ms ms' sys : deliver_all (ms ++ ms') sys = deliver_all ms' (deliver_all ms sys).
Proof. apply foldl_app. Qed.

Lemma deposit_messages a env sys :
  awaiting (CDeposit a) env sys →
  (deposit_call_answer env sys a).2 = deliver_all (messages (CDeposit a) env sys) sys.
Proof.
  cbn [awaiting messages]. rewrite deliver_all_cons. unfold deposit_wait, deposit_call_answer, deliver_or.
  cbn [fst snd deliver]. destruct (main_deposit_begin _ _ _) as [[[[[pf call]|e] w] fx]|]; cbn; try done.
  rewrite deliver_all_app. cbn [deliver_all foldl]. unfold deliver_or. cbn [fst snd deliver].
  intros Hw. unfold after_call. cbn [fst snd]. fold (self_id env). rewrite Hw.
  by destruct (main_deposit_end _ _ _ _ _) as [[[r w'] fx']|].
Qed.
Lemma withdraw_messages a env sys :
  awaiting (CWithdraw a) env sys →
  (withdraw_call_answer env sys a).2 = deliver_all (messages (CWithdraw a) env sys) sys.
Proof.
  cbn [awaiting messages]. rewrite deliver_all_cons. unfold withdraw_wait, withdraw_call_answer, deliver_or.
  cbn [fst snd deliver]. destruct (main_withdraw_begin _ _ _) as [[[[[pf fee]|e] w] fx]|]; cbn; try done.
  rewrite deliver_all_app. cbn [deliver_all foldl]. unfold deliver_or. cbn [fst snd deliver].
  intros Hw. unfold after_call. cbn [fst snd]. rewrite Hw.
  destruct (ledger_withdraw _ _ _ _ _) as [[outcome calls]|]; [|done]. cbn [ebind].
  by destruct (main_withdraw_end _ _ _ _ _) as [[[r w'] fx']|].
Qed.

Lemma canister_run_messages {t} (c : ClientCall t) env sys :
  awaiting c env sys → (canister_run c env sys).2 = deliver_all (messages c env sys) sys.
Proof.
  intros Ha. destruct c; try exact eq_refl;
    [| | | |by apply deposit_messages|by apply withdraw_messages|..];
    cbn [canister_run messages deliver_all foldl]; unfold deliver_or; cbn [fst snd deliver];
    unfold update; by match goal with |- context [ebind ?m _] => destruct m end.
Qed.

(** ** The conveniences never panic on an empty answer *)

Definition held (s : State) (user : Principal) (t : TokenId) : ApiBalance :=
  to_api_balance (get_balance s user t).

Lemma client_get_balance_eq rt env token sys :
  Answers rt env →
  client_get_balance (client_new rt (self_id env)) token sys =
    Done (match st_tokens (st sys) !! token_from token with
          | None => Err (request_error (TokenNotSupported (ById token)))
          | Some _ => Ok (held (st sys) (effective_account (st sys) (caller env)) (token_from token))
          end, sys).
Proof.
  intros Ha. unfold client_get_balance.
  change (client_get_balances ?c ?f ?s) with (client_run (CGetBalances f) c s).
  rewrite client_run_eq by done. unfold finish, held. cbn [canister_run query fst snd ebind].
  unfold get_balances, validate_filter_len, state_get_balances, apply_filter. cbn.
  rewrite bool_decide_eq_false_2 by set_solver. cbn.
  destruct (st_tokens (st sys) !! token_from token); [done|]. by destruct token.
Qed.

(** One order: the user's, an identifier that does not parse, or an unknown one. *)
Definition my_order (s : State) (user : Principal) (id : list u8) :
    exec (result UserOrder GetMyOrdersApiError) :=
  match (from_str id : result OrderId ParseFixedWithIdError) with
  | Err _ => Done (Err (request_error OrdersInvalidOrderId))
  | Ok oid =>
      let! order := get_user_order s user oid in
      Done (match order with
            | Some (id, p, record) =>
                Ok (MkUserOrder (to_string id) (api_pair p) (api_order_record record))
            | None => Err (request_error OrdersOrderNotFound)
            end)
  end.

Lemma client_get_my_order_eq rt env id sys :
  Answers rt env →
  client_get_my_order (client_new rt (self_id env)) id sys =
    let! r := my_order (st sys) (effective_account (st sys) (caller env)) id in Done (r, sys).
Proof.
  intros Ha. unfold client_get_my_order.
  change (client_get_my_orders ?c ?f ?s) with (client_run (CGetMyOrders f) c s).
  rewrite client_run_eq by done. unfold finish, my_order. cbn [canister_run query fst snd].
  unfold main_get_my_orders, get_my_orders.
  change (mo_filter (default args_default (Some (by_id id)))) with (OrderById id).
  cbv iota beta.
  destruct (from_str id) as [oid|e]; [|done]. cbn [ebind].
  destruct (get_user_order _ _ _) as [[[[i p] o]|]|]; done.
Qed.
Lemma my_order_total s id who r :
  main_get_my_orders s (Some (by_id id)) who = Done r →
  ∃ r', my_order s (effective_account s who) id = Done r'.
Proof.
  unfold main_get_my_orders, get_my_orders, my_order.
  change (mo_filter (default args_default (Some (by_id id)))) with (OrderById id).
  cbv iota beta. destruct (from_str id) as [oid|e]; [|by eauto].
  destruct (get_user_order _ _ _) as [order|]; [by eauto|done].
Qed.

(** A call the platform does not deliver, or whose reply is lost, panics. *)
Lemma client_run_lost {t} (c : ClientCall t) env fate sys :
  fate ≠ Delivered → client_run c (new_for_ic env fate (self_id env)) sys = Trap.
Proof. intros Hf. destruct fate; [done|by destruct c..]. Qed.

(** The error of a call passes through a runtime unchanged. *)
Lemma ic_reject tin tout id method args cycles e env sys sys' :
  serve env id method (encode_args tin args) sys = (Err e, sys') →
  rt_call (ic_runtime env Delivered) tin tout id method args cycles sys = (Err e, sys').
Proof. intros E. cbn. rewrite E. by destruct e. Qed.
Lemma pocket_ic_reject tin tout id method args cycles e who env sys sys' :
  serve (set_caller who env) id method (encode_args tin args) sys = (Err e, sys') →
  rt_call (pocket_ic_runtime env who) tin tout id method args cycles sys = (Err e, sys').
Proof. intros E. cbn. unfold update_call. rewrite E. by destruct e as [[] m]. Qed.
End client.

(** ** Candid with typed blobs *)

Module TypedCandid.
Section typed.
Context `{PrincipalType}.

Definition blob : Type := { t : ty & denote t }.
Definition decode_blob (t : ty) (b : blob) : result (denote t) (list u8) :=
  match decide (projT1 b = t) with
  | left E => Ok (eq_rect _ denote (projT2 b) t E)
  | right _ => Err []
  end.
Lemma decode_blob_ok t (a : denote t) : decode_blob t (existT t a) = Ok a.
Proof.
  unfold decode_blob. cbn [projT1 projT2]. destruct (decide (t = t)) as [E|]; [|done].
  by rewrite (proof_irrel E eq_refl).
Qed.
Definition candid : Candid := {|
  Blob := blob; encode_args t a := existT t a; decode_args := decode_blob;
  decode_encode := decode_blob_ok
|}.
Definition platform : Platform := {|
  trap_message := []; no_such_method := []; no_such_canister := [];
  display_call_failed := λ _, []; type_name := λ _, []
|}.
End typed.
End TypedCandid.
