(* ===== verification/EventView.v ===== *)
(** * The published event log (src/canister/src/main.rs, src/libs/types-internal/src/event.rs)

    [get_events] serves the log in pages, each event in its public form. The view
    types carry a [View] in front of the source's name, which the internal events
    already have. [get_all_events] is the client loop of
    src/integration_tests/src/lib.rs that fetches the whole log. *)

From stdpp Require Import prelude gmap.
From Stdlib Require Import ZArith NArith Lia.
From S2P Require Import Prelude Word BTree Bytes Quantity QuantityCodec Ids.
From S2P Require Import Fees OrderTypes Tokens History OrderHistory UserRegistry.
From S2P Require Import Settlement Events ApiErrors Api.
Open Scope Z_scope.

Section event_view.
Context `{PrincipalType} `{BigUint}.

(** ** The view types *)

Record ViewAddTradingPairEvent : Type := MkViewAddTradingPairEvent {
  vp_book_id : u64;
  vp_base : ApiTokenId;
  vp_quote : ApiTokenId;
  vp_tick_size : N;
  vp_lot_size : N;
  vp_base_metadata : ApiTokenMetadata;
  vp_quote_metadata : ApiTokenMetadata;
  vp_maker_fee_bps : u16;
  vp_taker_fee_bps : u16;
  vp_min_notional : N;
  vp_max_notional : option N
}.

Record ViewDepositEvent : Type := MkViewDepositEvent {
  vd_user : Principal; vd_token : ApiTokenId; vd_amount : N
}.

Record ViewWithdrawEvent : Type := MkViewWithdrawEvent {
  vw_block_index : u64; vw_user : Principal; vw_token : ApiTokenId; vw_amount : N
}.

Record ViewOrderId : Type := MkViewOrderId { vo_book_id : u64; vo_seq : u64 }.

Record ViewAddLimitOrderEvent : Type := MkViewAddLimitOrderEvent {
  vl_user : Principal;
  vl_order_id : ViewOrderId;
  vl_side : ApiSide;
  vl_price : N;
  vl_quantity : N;
  vl_time_in_force : ApiTimeInForce;
  vl_placed_by : option Principal
}.

Record ViewCancelLimitOrderEvent : Type := MkViewCancelLimitOrderEvent {
  vc_order_id : ViewOrderId; vc_canceled_by : option Principal
}.

Record ViewSetHaltEvent : Type := MkViewSetHaltEvent {
  vh_book_ids : option (list u64); vh_halted : bool
}.

Record ViewAddTradingAccountEvent : Type := MkViewAddTradingAccountEvent {
  va_funding : Principal; va_trading : Principal
}.

Record ViewRemoveTradingAccountEvent : Type := MkViewRemoveTradingAccountEvent {
  vr_funding : Principal; vr_trading : Principal
}.

Record ViewMatchingEvent : Type := MkViewMatchingEvent {
  vm_book_id : u64; vm_orders : list u64
}.

Inductive ViewBalanceOperation : Type :=
| ViewTransfer (from_order to_order : u64) (token : ApiPairToken) (amount : N) (fee : option N)
| ViewUnreserve (order : u64) (token : ApiPairToken) (amount : N).

Record ViewFillEvent : Type := MkViewFillEvent {
  vf_fill_seq : u64;
  vf_taker_order_seq : u64;
  vf_maker_order_seq : u64;
  vf_quantity : N;
  vf_maker_fee_bps : u16;
  vf_taker_fee_bps : u16
}.

Record ViewSettlingEvent : Type := MkViewSettlingEvent {
  vs_book_id : u64;
  vs_balance_operations : list ViewBalanceOperation;
  vs_fills : list ViewFillEvent
}.

Inductive ViewEventType : Type :=
| ViewInit (arg : InitArg)
| ViewUpgrade (arg : UpgradeArg)
| ViewAddTradingPair (e : ViewAddTradingPairEvent)
| ViewDeposit (e : ViewDepositEvent)
| ViewAddLimitOrder (e : ViewAddLimitOrderEvent)
| ViewCancelLimitOrder (e : ViewCancelLimitOrderEvent)
| ViewSettling (e : ViewSettlingEvent)
| ViewMatching (e : ViewMatchingEvent)
| ViewWithdraw (e : ViewWithdrawEvent)
| ViewSetHalt (e : ViewSetHaltEvent)
| ViewAddTradingAccount (e : ViewAddTradingAccountEvent)
| ViewRemoveTradingAccount (e : ViewRemoveTradingAccountEvent).

Record ViewEvent : Type := MkViewEvent { ve_timestamp : u64; ve_payload : ViewEventType }.

Record GetEventsArgs : Type := MkGetEventsArgs { ga_start : u64; ga_length : u64 }.
Record GetEventsResult : Type := MkGetEventsResult {
  gr_events : list ViewEvent;
  gr_total_event_count : u64
}.

(** ** The mapping *)

Definition map_balance_operation (op : BalanceOperation) : ViewBalanceOperation :=
  match op with
  | Transfer from_order to_order token amount fee =>
      ViewTransfer (seq_get from_order) (seq_get to_order) (api_pair_token token) (to_nat amount)
        (to_nat <$> fee)
  | Unreserve order token amount =>
      ViewUnreserve (seq_get order) (api_pair_token token) (to_nat amount)
  end.

Definition map_fill_event (fill : FillEvent) : ViewFillEvent :=
  MkViewFillEvent (seq_get (fv_fill_seq fill)) (seq_get (fv_taker_order_seq fill))
    (seq_get (fv_maker_order_seq fill)) (to_nat (fv_quantity fill))
    (bps (maker (fv_fee_rates fill))) (bps (taker (fv_fee_rates fill))).

Definition view_order_id (id : OrderId) : ViewOrderId :=
  MkViewOrderId (seq_get (book_id id)) (seq_get (order_seq id)).

Definition map_payload (payload : EventType) : ViewEventType :=
  match payload with
  | EInit args => ViewInit args
  | EUpgrade args => ViewUpgrade args
  | EAddTradingPair e => ViewAddTradingPair (MkViewAddTradingPairEvent
      (seq_get (atp_book_id e)) (api_token_id (atp_base e)) (api_token_id (atp_quote e))
      (nat_of_tick (atp_tick_size e)) (nat_of_lot (atp_lot_size e))
      (api_metadata (atp_base_metadata e)) (api_metadata (atp_quote_metadata e))
      (bps (maker (atp_fee_rates e))) (bps (taker (atp_fee_rates e)))
      (to_nat (atp_min_notional e)) (option_map to_nat (atp_max_notional e)))
  | EDeposit e => ViewDeposit (MkViewDepositEvent
      (de_user e) (api_token_id (de_token e)) (to_nat (de_amount e)))
  | EWithdraw e => ViewWithdraw (MkViewWithdrawEvent
      (we_block_index e) (we_user e) (api_token_id (we_token e)) (to_nat (we_amount e)))
  | EAddLimitOrder e => ViewAddLimitOrder (MkViewAddLimitOrderEvent
      (ale_user e) (view_order_id (ale_order_id e)) (api_side (ale_side e))
      (nat_of_price (ale_price e)) (to_nat (ale_quantity e)) (api_tif (ale_time_in_force e))
      (ale_placed_by e))
  | ECancelLimitOrder e => ViewCancelLimitOrder (MkViewCancelLimitOrderEvent
      (view_order_id (ce_order_id e)) (ce_canceled_by e))
  | EMatching e => ViewMatching (MkViewMatchingEvent
      (seq_get (me_book_id e)) (map seq_get (me_orders e)))
  | ESettling e => ViewSettling (MkViewSettlingEvent
      (seq_get (se_book_id e)) (map map_balance_operation (se_balance_operations e))
      (map map_fill_event (se_fills e)))
  | ESetHalt e => ViewSetHalt (MkViewSetHaltEvent
      (option_map (map seq_get) (she_book_ids e)) (she_halted e))
  | EAddTradingAccount e => ViewAddTradingAccount (MkViewAddTradingAccountEvent
      (funding_principal (atae_funding e)) (trading_principal (atae_trading e)))
  | ERemoveTradingAccount e => ViewRemoveTradingAccount (MkViewRemoveTradingAccountEvent
      (funding_principal (rtae_funding e)) (trading_principal (rtae_trading e)))
  end.

Definition map_event (event : Event) : ViewEvent :=
  MkViewEvent (ev_timestamp event) (map_payload (ev_payload event)).

(** ** Pages *)

Definition MAX_EVENTS_PER_RESPONSE : u64 := mk_uint 64 2000.

(** [usize::try_from]: the canister runs on 32-bit Wasm. *)
Definition usize_try_from (n : u64) : exec nat :=
  if n <? 2 ^ 32 then Done (Z.to_nat n) else Trap.

(** [storage::total_event_count]. *)
Definition log_event_count (log : list Event) : u64 := mk_uint 64 (Z.of_nat (length log)).

Definition get_events (log : list Event) (args : GetEventsArgs) : exec GetEventsResult :=
  let! start := usize_try_from (ga_start args) in
  let! length := usize_try_from
    (if ga_length args <=? MAX_EVENTS_PER_RESPONSE then ga_length args else MAX_EVENTS_PER_RESPONSE) in
  Done (MkGetEventsResult (map_event <$> take length (drop start log)) (log_event_count log)).

(** ** The client loop *)

Definition FIRST_BATCH_SIZE : u64 := mk_uint 64 100.

(** [logs i] is the log when the [i]-th query is answered: events may be recorded
    between two of them. A loop that runs out of [fuel] would be a trap. *)
Fixpoint all_events_loop (fuel : nat) (logs : nat → list Event) (i : nat) (total : u64)
    (events : list ViewEvent) : exec (list ViewEvent) :=
  let len := Z.of_nat (length events) in
  if negb (len <? total) then Done events else
  match fuel with
  | O => Trap
  | S fuel =>
      let! next_batch := get_events (logs i)
        (MkGetEventsArgs (mk_uint 64 len) (mk_uint 64 (total - len))) in
      all_events_loop fuel logs (S i) total (events ++ gr_events next_batch)
  end.

Definition get_all_events (fuel : nat) (logs : nat → list Event) : exec (list ViewEvent) :=
  let! first := get_events (logs 0%nat) (MkGetEventsArgs (mk_uint 64 0) FIRST_BATCH_SIZE) in
  all_events_loop fuel logs 1 (gr_total_event_count first) (gr_events first).

(** ** The view loses nothing *)

#[local] Instance seq_get_inj {M} : Inj (=) (=) (seq_get (M := M)).
Proof. by intros [a] [b] [= ->]. Qed.
#[local] Instance bps_inj : Inj (=) (=) bps.
Proof. intros a b E. by apply BasisPoint_eq. Qed.
#[local] Instance nat_of_tick_inj : Inj (=) (=) nat_of_tick.
Proof.
  intros a b E. unfold nat_of_tick in E. pose proof (u128_range a). pose proof (u128_range b).
  apply nonzero_eq, uint_eq. lia.
Qed.
#[local] Instance nat_of_lot_inj : Inj (=) (=) nat_of_lot.
Proof.
  intros a b E. unfold nat_of_lot in E. pose proof (u64_range a). pose proof (u64_range b).
  apply nonzero_eq, uint_eq. lia.
Qed.
#[local] Instance view_order_id_inj : Inj (=) (=) view_order_id.
Proof. by intros [[a] [b]] [[c] [d]] [= -> ->]. Qed.

#[local] Arguments nat_of_tick : simpl never.
#[local] Arguments nat_of_lot : simpl never.
#[local] Arguments nat_of_price : simpl never.
#[local] Arguments to_nat : simpl never.

(** Undo the injective maps in the equations of the context. *)
Ltac uninject :=
  repeat match goal with
  | E : ?f _ = ?f _ |- _ => apply (inj f) in E
  end.

#[local] Instance map_balance_operation_inj : Inj (=) (=) map_balance_operation.
Proof. intros [] [] E; try discriminate E; injection E as; uninject; by subst. Qed.
#[local] Instance map_fill_event_inj : Inj (=) (=) map_fill_event.
Proof.
  intros [????[m t]] [????[m' t']] E. injection E as. simpl in *. uninject. by subst.
Qed.

#[export] Instance map_payload_inj : Inj (=) (=) map_payload.
Proof.
  intros [] [] E; try discriminate E; cbn [map_payload] in E; injection E as; try by subst.
  all: repeat match goal with
    | e : AddTradingPairEvent |- _ => destruct e as [? ? ? ? ? ? ? ? ? ?]
    | e : DepositEvent |- _ => destruct e as [? ? ?]
    | e : WithdrawEvent |- _ => destruct e as [? ? ? ?]
    | e : AddLimitOrderEvent |- _ => destruct e as [? ? ? ? ? ? ?]
    | e : CancelLimitOrderEvent |- _ => destruct e as [? ?]
    | e : MatchingEvent |- _ => destruct e as [? ?]
    | e : SettlingEvent |- _ => destruct e as [? ? ?]
    | e : SetHaltEvent |- _ => destruct e as [? ?]
    | e : AddTradingAccountEvent |- _ => destruct e as [[?] [?]]
    | e : RemoveTradingAccountEvent |- _ => destruct e as [[?] [?]]
    | r : FeeRates |- _ => destruct r as [? ?]
    | i : OrderId |- _ => destruct i as [? ?]
    | t : TokenId |- _ => destruct t as [?]
    | m : TokenMetadata |- _ => destruct m as [? ?]
    end; simpl in *; uninject; by subst.
Qed.
#[export] Instance map_event_inj : Inj (=) (=) map_event.
Proof. intros [t p] [t' p'] [= -> E]. by apply (inj map_payload) in E as ->. Qed.

(** ** The client gets the whole log *)

Lemma total_event_count_val log :
  Z.of_nat (length log) < 2 ^ 64 → uval (log_event_count log) = Z.of_nat (length log).
Proof. intros Hl. apply mk_uint_small. simpl. lia. Qed.

Lemma get_events_spec log args :
  ga_start args < 2 ^ 32 →
  get_events log args = Done (MkGetEventsResult
    (map_event <$> take (Z.to_nat (Z.min (ga_length args) 2000)) (drop (Z.to_nat (ga_start args)) log))
    (log_event_count log)).
Proof.
  intros Hs. unfold get_events, usize_try_from. rewrite (proj2 (Z.ltb_lt _ _)) by done. cbn [ebind].
  change (uval MAX_EVENTS_PER_RESPONSE) with 2000.
  destruct (Z.leb_spec (ga_length args) 2000).
  - rewrite (proj2 (Z.ltb_lt _ _)) by lia. cbn [ebind]. by rewrite Z.min_l by lia.
  - cbn [ebind]. by rewrite Z.min_r by lia.
Qed.

(** A start beyond the address space of the canister panics. *)
Lemma get_events_huge_start log args : 2 ^ 32 ≤ ga_start args → get_events log args = Trap.
Proof.
  intros Hs. unfold get_events, usize_try_from. by rewrite (proj2 (Z.ltb_ge _ _)) by done.
Qed.

(** One batch extends a prefix of the log by the events that come next. *)
Lemma batch_extends (log log' : list Event) (n m : nat) :
  log `prefix_of` log' → (n + m ≤ length log)%nat →
  take n log ++ take m (drop n log') = take (n + m) log.
Proof.
  intros [more ->] Hl. rewrite drop_app_le by lia. rewrite take_app_le by (rewrite length_drop; lia).
  by rewrite take_take_drop.
Qed.

Lemma all_events_loop_total fuel : ∀ (logs : nat → list Event) (i n : nat) log (total : u64),
  (∀ j, log `prefix_of` logs j) → uval total = Z.of_nat (length log) →
  Z.of_nat (length log) < 2 ^ 32 → (n ≤ length log)%nat → (length log - n ≤ fuel)%nat →
  all_events_loop fuel logs i total (map_event <$> take n log) = Done (map_event <$> log).
Proof.
  induction fuel as [|fuel IH]; intros logs i n log total Hlogs Ht Hl Hn Hf; cbn [all_events_loop];
    rewrite length_fmap, length_take, Nat.min_l by done; destruct (Z.ltb_spec (Z.of_nat n) total);
    cbn [negb]; try lia; try (by rewrite take_ge by lia).
  assert (Hv : uval (mk_uint 64 (Z.of_nat n)) = Z.of_nat n) by (apply mk_uint_small; simpl; lia).
  assert (Hv' : uval (mk_uint 64 (total - Z.of_nat n)) = total - Z.of_nat n) by (apply mk_uint_small; simpl; lia).
  rewrite get_events_spec by (cbn [ga_start]; lia). cbn [ebind gr_events ga_start ga_length].
  rewrite Hv, Hv', Nat2Z.id, <- fmap_app, batch_extends; [|done|lia].
  apply IH; [done|done|done|lia|lia].
Qed.

Lemma get_all_events_total fuel (logs : nat → list Event) :
  (∀ j, logs 0%nat `prefix_of` logs j) → Z.of_nat (length (logs 0%nat)) < 2 ^ 32 →
  (length (logs 0%nat) ≤ fuel)%nat →
  get_all_events fuel logs = Done (map_event <$> logs 0%nat).
Proof.
  intros Hlogs Hl Hf. unfold get_all_events. rewrite get_events_spec by done.
  cbn [ebind gr_events gr_total_event_count ga_start ga_length]. rewrite drop_0.
  change (Z.to_nat (Z.min FIRST_BATCH_SIZE 2000)) with 100%nat.
  replace (take 100 (logs 0%nat)) with (take (Nat.min 100 (length (logs 0%nat))) (logs 0%nat)).
  - apply all_events_loop_total; [done|apply total_event_count_val; lia|done|lia|lia].
  - destruct (Nat.min_spec 100 (length (logs 0%nat))) as [[? ->]|[? ->]]; [done|].
    by rewrite !take_ge by lia.
Qed.
End event_view.
