(* ===== verification/Dashboard.v ===== *)
(** * The dashboard (src/canister/src/dashboard/mod.rs)

    [DashboardTemplate::from_state] gathers what the dashboard page shows. The page
    itself is rendered by a template engine from these fields. How big integers and
    principals print is a parameter, [Display]. *)

From Stdlib Require Import String.
From stdpp Require Import prelude gmap.
From Stdlib Require Import ZArith NArith Lia.
From S2P Require Import Prelude Word BTree Text Bytes Quantity QuantityCodec Ids.
From S2P Require Import Fees OrderTypes Tokens OrderQueue OrderBook.
From S2P Require Import PairMap Events State ApiErrors Api.
Open Scope Z_scope.

(** [to_string] of the types that other crates define: [BigUint] prints its decimal
    digits, candid's [Nat] and [Principal] have formats of their own. *)
Class Display `{PrincipalType} : Type := {
  biguint_to_string : N → list u8;
  nat_to_string : N → list u8;
  principal_to_string : Principal → list u8;
  biguint_digits n : forallb is_digit (biguint_to_string n) = true;
  biguint_value n : decimal_val (biguint_to_string n) = Z.of_N n
}.

Section dashboard.
Context `{PrincipalType} `{!BiBTreeMap TradingPair OrderBookId} `{BigUint} `{!Display}.

Definition DEPTH_LEVELS : nat := 20.

(** ** The template's fields *)

Record Amount : Type := MkAmount { decimal_value : list u8; raw_value : list u8 }.

Record DashboardToken : Type := MkDashboardToken {
  dt_ledger_id : Principal; dt_symbol : list u8; dt_decimals : u8
}.

Record DashboardLevel : Type := MkDashboardLevel { dl_price : Amount; dl_quantity : Amount }.

Record DashboardDepthLevel : Type := MkDashboardDepthLevel {
  ddl_price : Amount; ddl_quantity : Amount; ddl_bar_width_percent : u8
}.

Record DashboardDepth : Type := MkDashboardDepth {
  dd_bids : list DashboardDepthLevel; dd_asks : list DashboardDepthLevel
}.

Record DashboardPair : Type := MkDashboardPair {
  dp_book_id : u64;
  dp_base_symbol : list u8;
  dp_quote_symbol : list u8;
  dp_quote_decimals : u8;
  dp_tick_size : Amount;
  dp_lot_size : Amount;
  dp_maker_fee_bps : u16;
  dp_taker_fee_bps : u16;
  dp_bids_len : nat;
  dp_asks_len : nat;
  dp_pending_orders_len : nat;
  dp_resting_orders_len : nat;
  dp_best_bid : option DashboardLevel;
  dp_best_ask : option DashboardLevel;
  dp_spread : option Amount;
  dp_depth : DashboardDepth
}.

Record DashboardTemplate : Type := MkDashboardTemplate {
  da_canister_id : Principal;
  da_mode : list u8;
  da_total_events : u64;
  da_tokens : list DashboardToken;
  da_pairs : list DashboardPair
}.

(** ** Formatting *)

Definition format_scaled (raw : list u8) (decimals : u8) : list u8 :=
  let decimals := Z.to_nat decimals in
  if (decimals =? 0)%nat then raw else
  let padded := pad_zeros (decimals + 1) raw in
  let split := (length padded - decimals)%nat in
  let frac := trim_end digit_0 (drop split padded) in
  match frac with
  | [] => take split padded
  | _ => take split padded ++ text "." ++ frac
  end.

Definition amount_new (raw : N) (decimals : u8) : Amount :=
  MkAmount (format_scaled (biguint_to_string raw) decimals) (nat_to_string raw).

Definition saturating_to_u128 (q : Quantity) : u128 :=
  if negb (high q =? 0) then mk_uint 128 (uint_max 128) else low q.

(** [/] on integers panics on a zero divisor. *)
Definition u128_div (a b : u128) : exec u128 := if b =? 0 then Trap else Done (u_div a b).

Definition bar_width_percent (qty max : u128) : exec u8 :=
  if max =? 0 then Done (mk_uint 8 0) else
  let! percent :=
    match u_checked_mul qty (mk_uint 128 100) with
    | Some scaled => u128_div scaled max
    | None =>
        let! d := u128_div max (mk_uint 128 100) in
        u128_div qty d
    end in
  Done (u_cast 8 (if percent <=? 100 then percent else mk_uint 128 100)).

Definition format_mode (mode : Mode) : list u8 :=
  match mode with
  | GeneralAvailability => text "GeneralAvailability"
  | RestrictedTo principals =>
      if bool_decide (principals = ∅) then text "RestrictedTo: (none)"
      else text "RestrictedTo: " ++ join (text ", ") (principal_to_string <$> bset_iter principals)
  end.

(** ** Pairs *)

Record PairDecimals : Type := MkPairDecimals { pd_base : u8; pd_quote : u8 }.

Definition level (l : Price * Quantity) (decimals : PairDecimals) : DashboardLevel :=
  MkDashboardLevel (amount_new (nat_of_price l.1) (pd_quote decimals))
    (amount_new (to_nat l.2) (pd_base decimals)).

(** One side of the depth table, best price first. *)
Definition depth_levels (levels : list (Price * Quantity)) (max : u128) (decimals : PairDecimals) :
    exec (list DashboardDepthLevel) :=
  exec_map (λ l : Price * Quantity,
    let! bar := bar_width_percent (saturating_to_u128 l.2) max in
    Done (MkDashboardDepthLevel (amount_new (nat_of_price l.1) (pd_quote decimals))
            (amount_new (to_nat l.2) (pd_base decimals)) bar)) levels.

(** [Iterator::max] over the quantities. *)
Definition max_qty (levels : list (Price * Quantity)) : u128 :=
  foldr (λ l (m : u128), let q := saturating_to_u128 l.2 in if q <=? m then m else q)
    (mk_uint 128 0) levels.

Definition build_depth (bids asks : list (Price * Quantity)) (decimals : PairDecimals) :
    exec DashboardDepth :=
  let max := max_qty (bids ++ asks) in
  let! bids := depth_levels bids max decimals in
  let! asks := depth_levels asks max decimals in
  Done (MkDashboardDepth bids asks).

Definition build_pair (book_id : u64) (base_symbol quote_symbol : list u8) (decimals : PairDecimals)
    (book : OrderBook) : exec DashboardPair :=
  let bids := bid_levels book DEPTH_LEVELS in
  let asks := ask_levels book DEPTH_LEVELS in
  let best_bid_level := head bids in
  let best_ask_level := head asks in
  let best_bid := (λ l, level l decimals) <$> best_bid_level in
  let best_ask := (λ l, level l decimals) <$> best_ask_level in
  let spread :=
    match best_bid_level, best_ask_level with
    | Some (bid, _), Some (ask, _) =>
        (λ s, amount_new (nat_of_price s) (pd_quote decimals)) <$> price_checked_sub ask bid
    | _, _ => None
    end in
  let! depth := build_depth bids asks decimals in
  Done (MkDashboardPair book_id base_symbol quote_symbol (pd_quote decimals)
          (amount_new (nat_of_tick (ob_tick_size book)) (pd_quote decimals))
          (amount_new (nat_of_lot (ob_lot_size book)) (pd_base decimals))
          (bps (maker (ob_fee_rates book))) (bps (taker (ob_fee_rates book)))
          (bids_len book) (asks_len book) (pending_orders_len book) (resting_orders_len book)
          best_bid best_ask spread depth).

Definition dashboard_from_state (state : State) (canister_id : Principal) (total_events : u64) :
    exec DashboardTemplate :=
  let tokens := (λ tm : TokenId * TokenMetadata,
    MkDashboardToken (ledger_id tm.1) (symbol tm.2) (decimals tm.2)) <$> btree_iter (st_tokens state) in
  let! pairs := exec_map (λ pb : TradingPair * OrderBookId,
    let! book := expect (st_order_books state !! pb.2) in
    let! base_metadata := expect (token_metadata state (base pb.1)) in
    let! quote_metadata := expect (token_metadata state (quote pb.1)) in
    build_pair (seq_get (ob_id book)) (symbol base_metadata) (symbol quote_metadata)
      (MkPairDecimals (decimals base_metadata) (decimals quote_metadata)) book)
    (pairs_iter (st_trading_pairs state)) in
  Done (MkDashboardTemplate canister_id (format_mode (st_mode state)) total_events tokens pairs).

(** ** Decimal amounts are exact *)

(** [s] spells the integer and the fraction digits of [z / 10 ^ decimals]. *)
Definition spells (s : list u8) (z : Z) (decimals : u8) : Prop :=
  ∃ int frac : list u8,
    s = int ++ (match frac with [] => [] | _ => text "." ++ frac end) ∧
    Z.of_nat (length frac) ≤ decimals ∧ last frac ≠ Some digit_0 ∧
    decimal_val int * 10 ^ decimals +
      decimal_val frac * 10 ^ (decimals - Z.of_nat (length frac)) = z.

Lemma format_scaled_spells raw (decimals : u8) :
  spells (format_scaled raw decimals) (decimal_val raw) decimals.
Proof.
  unfold format_scaled, spells. pose proof (u8_range decimals) as Hd.
  destruct (Nat.eqb_spec (Z.to_nat decimals) 0) as [E|E].
  - exists raw, []. split_and!; [by rewrite app_nil_r|simpl; lia|done|].
    replace (uval decimals) with 0 by lia. cbn [decimal_val decimal_from length]. simpl. lia.
  - set (n := Z.to_nat decimals) in *. set (padded := pad_zeros (n + 1) raw).
    assert (Hlen : (n + 1 ≤ length padded)%nat) by (unfold padded; rewrite length_pad_zeros; lia).
    set (k := (length padded - n)%nat).
    destruct (trim_end_spec digit_0 (drop k padded)) as (Et & Hl & Hc).
    assert (Hdrop : length (drop k padded) = n) by (rewrite length_drop; unfold k; lia).
    rewrite Hdrop in *. set (frac := trim_end digit_0 (drop k padded)) in *.
    exists (take k padded), frac. split_and!; [by destruct frac; rewrite ?app_nil_r|lia|done|].
    rewrite <- (decimal_val_pad (n + 1) raw). fold padded.
    rewrite <- (take_drop k padded) at 2. rewrite decimal_val_app, Hdrop, Et, decimal_val_app.
    rewrite decimal_val_zeros, length_replicate. unfold n at 1. rewrite Z2Nat.id by lia.
    rewrite Nat2Z.inj_sub by done. unfold n. rewrite Z2Nat.id by lia. lia.
Qed.

Lemma amount_new_spells raw (decimals : u8) :
  spells (decimal_value (amount_new raw decimals)) (Z.of_N raw) decimals.
Proof. rewrite <- biguint_value. apply format_scaled_spells. Qed.

(** ** The depth bars *)

Lemma percent_cast (v : u128) :
  uval (u_cast 8 (if v <=? 100 then v else mk_uint 128 100)) = Z.min v 100.
Proof.
  pose proof (u128_range v). unfold u_cast. destruct (Z.leb_spec v 100).
  - rewrite mk_uint_small by (simpl; lia). lia.
  - change (uval (mk_uint 128 100)) with 100. change (uval (mk_uint 8 100)) with 100. lia.
Qed.

Lemma bar_width_percent_total (qty max : u128) :
  qty ≤ max →
  ∃ p, bar_width_percent qty max = Done p ∧ p ≤ 100 ∧
    (0 < max → 100 * qty < 2 ^ 128 → uval p = 100 * qty / max).
Proof.
  intros Hle. unfold bar_width_percent. pose proof (u128_range qty). pose proof (u128_range max).
  destruct (Z.eqb_spec max 0) as [E|E].
  { exists (mk_uint 8 0). split_and!; [done|done|lia]. }
  unfold u_checked_mul, u128_div. change (uval (mk_uint 128 100)) with 100.
  destruct (checked 128 (qty * 100)) as [scaled|] eqn:Ec.
  - apply checked_Some in Ec as Es. rewrite (proj2 (Z.eqb_neq _ _)) by done. cbn [ebind].
    eexists. split; [done|]. rewrite percent_cast, u_div_val, Es, (Z.mul_comm qty) by lia.
    assert (100 * qty / max ≤ 100) by (apply Z.div_le_upper_bound; lia). split; lia.
  - apply checked_None in Ec. simpl in Ec. cbn [Z.eqb ebind].
    assert (0 < max / 100) by (apply Z.div_str_pos; lia).
    rewrite u_div_val by done. change (uval (mk_uint 128 100)) with 100.
    rewrite (proj2 (Z.eqb_neq _ _)) by lia. cbn [ebind].
    eexists. split; [done|]. rewrite percent_cast. split; lia.
Qed.

Lemma max_qty_ge l levels : l ∈ levels → saturating_to_u128 l.2 ≤ max_qty levels.
Proof.
  induction levels as [|l' levels IH]; [by intros ?%not_elem_of_nil|].
  cbn [max_qty foldr]. fold (max_qty levels). cbv zeta.
  intros [->|Hl]%elem_of_cons; [|specialize (IH Hl)]; case_match eqn:E; lia.
Qed.

Lemma depth_levels_total levels (max : u128) (decimals : PairDecimals) :
  (∀ l, l ∈ levels → saturating_to_u128 l.2 ≤ max) →
  ∃ out, depth_levels levels max decimals = Done out ∧
    Forall2 (λ l d, ddl_bar_width_percent d ≤ 100 ∧
      spells (decimal_value (ddl_price d)) (uval l.1) (pd_quote decimals) ∧
      spells (decimal_value (ddl_quantity d)) (qval l.2) (pd_base decimals)) levels out.
Proof.
  intros Hmax. apply exec_map_total. intros l Hl.
  destruct (bar_width_percent_total _ _ (Hmax l Hl)) as (p & -> & Hp & _). cbn [ebind].
  eexists. split; [done|]. cbn [ddl_bar_width_percent ddl_price ddl_quantity]. split_and!; [done| |].
  - pose proof (u128_range l.1). pose proof (amount_new_spells (nat_of_price l.1) (pd_quote decimals)) as Hs.
    unfold nat_of_price in *. by rewrite Z2N.id in Hs by lia.
  - rewrite <- to_nat_val. apply amount_new_spells.
Qed.
End dashboard.
