(* ===== verification/Metrics.v ===== *)
(** * Metrics (src/canister/src/metrics/mod.rs)

    The gauges and counters of the metrics endpoint. The encoder that writes them is
    a library's: [MetricsEncoder] is the interface the source calls. A 64-bit float
    is the binary64 of the IEEE standard, [spec_float] at 53 bits of precision. *)

From Stdlib Require Import String.
From stdpp Require Import prelude gmap.
From Stdlib Require Import ZArith NArith Lia SpecFloat.
From S2P Require Import Prelude Word BTree Text Quantity Ids.
From S2P Require Import Fees OrderTypes Tokens Balance WriteBack OrderQueue.
From S2P Require Import OrderBook PairMap Events State EventView.
Open Scope Z_scope.

(** ** Floats *)

Abbreviation f64 := spec_float.

(** An integer cast with [as f64]: to nearest, ties to even. *)
Definition f64_of_Z (z : Z) : f64 := binary_normalize 53 1024 z 0 false.
Definition f64_add : f64 → f64 → f64 := SFadd 53 1024.
Definition f64_mul : f64 → f64 → f64 := SFmul 53 1024.
Definition f64_div : f64 → f64 → f64 := SFdiv 53 1024.

(** [ic_metrics_encoder::MetricsEncoder]: each call appends to the output or fails;
    [gauge_vec] starts a family and [gauge_value] adds a sample to it. *)
Class MetricsEncoder : Type := {
  encoder : Type;
  io_error : Type;
  encode_gauge : encoder → list u8 → f64 → list u8 → result encoder io_error;
  encode_counter : encoder → list u8 → f64 → list u8 → result encoder io_error;
  gauge_vec : encoder → list u8 → list u8 → result encoder io_error;
  gauge_value : encoder → list (list u8 * list u8) → f64 → result encoder io_error
}.

(** What the system API reports: cycles, stable memory pages, heap pages. *)
Record Platform : Type := MkPlatform {
  pl_cycle_balance : u128; pl_stable_size : u64; pl_heap_pages : u32
}.

(** [heap_memory_size_bytes]: a product of [usize], 32 bits wide on Wasm. *)
Definition heap_memory_size_bytes (platform : Platform) : u32 :=
  u_mul (pl_heap_pages platform) (mk_uint 32 65536).

(** Exact below the full address space; all 65536 pages wrap around to zero. *)
Lemma heap_memory_size_exact platform :
  pl_heap_pages platform < 65536 →
  uval (heap_memory_size_bytes platform) = pl_heap_pages platform * 65536.
Proof.
  intros Hp. pose proof (u32_range (pl_heap_pages platform)). apply mk_uint_small.
  change (uval (mk_uint 32 65536)) with 65536. simpl. lia.
Qed.

Lemma heap_memory_size_full cycles size :
  uval (heap_memory_size_bytes (MkPlatform cycles size (mk_uint 32 65536))) = 0.
Proof. reflexivity. Qed.

Section metrics.
Context `{PrincipalType} `{!BiBTreeMap TradingPair OrderBookId} `{!MetricsEncoder}.

(** [f64::powi], whose precision the platform chooses. *)
Variable powi : f64 → Z → f64.

Definition format_token_symbol (token : TokenMetadata) : list u8 := to_ascii_uppercase (symbol token).

Definition TWO_POW_128 : f64 := f64_add (f64_of_Z (uint_max 128)) (f64_of_Z 1).

Definition amount_to_f64 (q : Quantity) (decimals : u8) : f64 :=
  let raw := f64_add (f64_mul (f64_of_Z (high q)) TWO_POW_128) (f64_of_Z (low q)) in
  f64_div raw (powi (f64_of_Z 10) decimals).

(** ** Order books *)

Record OrderBookMetrics : Type := MkOrderBookMetrics {
  bm_base_token : list u8;
  bm_quote_token : list u8;
  bm_bid : option Price;
  bm_ask : option Price;
  bm_pending_orders_len : nat;
  bm_resting_orders_len : nat
}.

Definition metrics_from_state (state : State) : exec (list OrderBookMetrics) :=
  exec_map (λ pb : TradingPair * OrderBookId,
    let! book := expect (st_order_books state !! pb.2) in
    let! base := expect (token_metadata state (base pb.1)) in
    let! quote := expect (token_metadata state (quote pb.1)) in
    Done (MkOrderBookMetrics (format_token_symbol base) (format_token_symbol quote)
            (fst <$> head (bid_levels book 1)) (fst <$> head (ask_levels book 1))
            (pending_orders_len book) (resting_orders_len book)))
    (pairs_iter (st_trading_pairs state)).

Definition labels (self : OrderBookMetrics) : list (list u8 * list u8) :=
  [(text "base", bm_base_token self); (text "quote", bm_quote_token self)].

(** One family: its header, then a sample for each book that has a value. *)
Fixpoint add_samples (w : encoder) (value : OrderBookMetrics → option f64)
    (books : list OrderBookMetrics) : result encoder io_error :=
  match books with
  | [] => Ok w
  | book :: books =>
      match value book with
      | None => add_samples w value books
      | Some v =>
          match gauge_value w (labels book) v with
          | Err e => Err e
          | Ok w => add_samples w value books
          end
      end
  end.
Definition encode_family (name help : list u8) (value : OrderBookMetrics → option f64)
    (books : list OrderBookMetrics) (w : encoder) : result encoder io_error :=
  match gauge_vec w name help with Err e => Err e | Ok w => add_samples w value books end.

Definition then_encode (r : result encoder io_error) (k : encoder → result encoder io_error) :
    result encoder io_error :=
  match r with Err e => Err e | Ok w => k w end.

Definition encode_order_book_metrics (w : encoder) (books : list OrderBookMetrics) :
    result encoder io_error :=
  then_encode (encode_family (text "bid") (text "Best bid (highest-priced buy level)")
    (λ b, (λ p : Price, f64_of_Z p) <$> bm_bid b) books w) (λ w,
  then_encode (encode_family (text "ask") (text "Best ask (lowest-priced sell level)")
    (λ b, (λ p : Price, f64_of_Z p) <$> bm_ask b) books w) (λ w,
  then_encode (encode_family (text "pending_orders")
    (text "Number of pending orders waiting to be matched.")
    (λ b, Some (f64_of_Z (Z.of_nat (bm_pending_orders_len b)))) books w) (λ w,
  encode_family (text "resting_orders") (text "Number of resting orders on the book.")
    (λ b, Some (f64_of_Z (Z.of_nat (bm_resting_orders_len b)))) books w))).

(** ** The fee pool *)

Fixpoint encode_fees (state : State) (w : encoder) (fees : list (TokenId * Quantity)) :
    exec (result encoder io_error) :=
  match fees with
  | [] => Done (Ok w)
  | (token, amount) :: fees =>
      let! metadata := expect (token_metadata state token) in
      match gauge_value w [(text "token", format_token_symbol metadata)]
              (amount_to_f64 amount (decimals metadata)) with
      | Err e => Done (Err e)
      | Ok w => encode_fees state w fees
      end
  end.

Definition encode_fee_balances (w : encoder) (state : State) : exec (result encoder io_error) :=
  match gauge_vec w (text "fee_balance")
          (text "Per-token canister-owned fee pool balance in whole token units, accrued from maker/taker fees on fills.") with
  | Err e => Done (Err e)
  | Ok w =>
      encode_fees state w (base.filter (λ tq : TokenId * Quantity, negb (is_zero tq.2))
        (fee_pool_iter (tb_fee_pool (st_balances state))))
  end.

(** ** The endpoint *)

Definition encode_metrics (w : encoder) (platform : Platform) (state : State) (total_events : u64) :
    exec (result encoder io_error) :=
  let head :=
    then_encode (encode_gauge w (text "cycle_balance") (f64_of_Z (pl_cycle_balance platform))
      (text "Current cycle balance of the canister.")) (λ w,
    then_encode (encode_gauge w (text "stable_memory_bytes")
      (f64_mul (f64_of_Z (pl_stable_size platform)) (f64_of_Z 65536))
      (text "Stable memory size in bytes.")) (λ w,
    then_encode (encode_gauge w (text "heap_memory_bytes")
      (f64_of_Z (heap_memory_size_bytes platform))
      (text "Size of the heap memory allocated by this canister.")) (λ w,
    then_encode (encode_counter w (text "event_total") (f64_of_Z total_events)
      (text "Total number of events in the stable log.")) (λ w,
    encode_gauge w (text "trading_pair_count")
      (f64_of_Z (Z.of_nat (pairs_len (st_trading_pairs state))))
      (text "Number of registered trading pairs."))))) in
  match head with
  | Err e => Done (Err e)
  | Ok w =>
      let! books := metrics_from_state state in
      match encode_order_book_metrics w books with
      | Err e => Done (Err e)
      | Ok w => encode_fee_balances w state
      end
  end.
End metrics.
