(* ===== verification/Http.v ===== *)
(** * HTTP requests (src/canister/src/main.rs, [http_request])

    The routes of the canister's HTTP interface: logs, dashboard and metrics. The
    log buffers and their sorting and serialisation ([canlog]), the template engine
    and the metrics encoder are other crates: parameters of the model. *)

From Stdlib Require Import String.
From stdpp Require Import prelude gmap.
From Stdlib Require Import ZArith NArith Lia SpecFloat.
From S2P Require Import Prelude Word BTree Text Bytes Quantity QuantityCodec Ids.
From S2P Require Import Fees OrderTypes Tokens Balance WriteBack OrderQueue.
From S2P Require Import OrderBook PairMap Events State EventAudit EntryPoints EventView.
From S2P Require Import Dashboard Metrics.
Open Scope Z_scope.

(** A request, by what [HttpRequest::path] and [raw_query_param] return on it. *)
Record HttpRequest : Type := MkHttpRequest {
  hr_path : list u8;
  hr_raw_query_param : list u8 → option (list u8)
}.

(** A response, by the calls on [HttpResponseBuilder] that make it. *)
Inductive Status : Type := StatusOk | BadRequest | NotFound | ServerError.
Record HttpResponse : Type := MkHttpResponse {
  hs_status : Status;
  hs_headers : list (list u8 * list u8);
  hs_body : list u8
}.
Definition reply (status : Status) (body : list u8) : HttpResponse := MkHttpResponse status [] body.
Definition ok_with (content_type body : list u8) : HttpResponse :=
  MkHttpResponse StatusOk [(text "Content-Type", content_type)] body.

Inductive Sort : Type := Ascending | Descending.

(** [canlog]: an entry carries its time; [Sort::from_str], [sort_logs] and
    [serialize_logs] are the crate's. *)
Class Canlog : Type := {
  log_entry : Type;
  le_timestamp : log_entry → u64;
  sort_from_str : list u8 → option Sort;
  sort_logs : Sort → list log_entry → list log_entry;
  serialize_logs : list log_entry → Z → list u8
}.

Definition MAX_BODY_SIZE : Z := 2000000.

Section logs.
Context `{Canlog}.

Definition ordering_from_query_params (sort : option (list u8)) (max_skip_timestamp : u64) : Sort :=
  match sort ≫= sort_from_str with
  | Some order => order
  | None => if max_skip_timestamp =? 0 then Ascending else Descending
  end.

(** The buffers that [priority] selects. *)
Definition selected_logs (priority : option (list u8)) (buffers : Priority → list log_entry) :
    list log_entry :=
  match priority ≫= priority_from_str with
  | Some p => buffers p
  | None => buffers Info ++ buffers Debug
  end.

Definition logs_response (request : HttpRequest) (buffers : Priority → list log_entry) : HttpResponse :=
  let param := hr_raw_query_param request in
  match (match param (text "time") with Some arg => u64_from_str arg | None => Some (mk_uint 64 0) end) with
  | None => reply BadRequest (text "failed to parse the 'time' parameter")
  | Some max_skip_timestamp =>
      let entries := base.filter (λ e, (max_skip_timestamp <=? le_timestamp e) = true)
        (selected_logs (param (text "priority")) buffers) in
      let log := sort_logs (ordering_from_query_params (param (text "sort")) max_skip_timestamp) entries in
      ok_with (text "application/json; charset=utf-8") (serialize_logs log MAX_BODY_SIZE)
  end.
End logs.

Section http.
Context `{PrincipalType} `{!BiBTreeMap TradingPair OrderBookId} `{BigUint} `{!Display}.
Context `{Canlog} `{!MetricsEncoder}.

(** The template engine, the encoder's life cycle and the text of its errors. *)
Variable render : DashboardTemplate → result (list u8) (list u8).
Variable encoder_new : Z → encoder.
Variable into_inner : encoder → list u8.
Variable error_to_string : io_error → list u8.
Variable powi : f64 → Z → f64.

Definition dashboard_response (w : World) (runtime : Runtime) : exec HttpResponse :=
  let! dashboard := dashboard_from_state (w_state w) (rt_canister_self runtime)
    (log_event_count (w_log w)) in
  Done match render dashboard with
       | Ok body => ok_with (text "text/html; charset=utf-8") body
       | Err e => reply ServerError (text "template error: " ++ e)
       end.

(** [as i64]: the two's complement of the 64 bits. *)
Definition as_i64 (n : u64) : Z := if n <? 2 ^ 63 then uval n else n - 2 ^ 64.

Definition metrics_response (w : World) (runtime : Runtime) (platform : Platform) : exec HttpResponse :=
  let writer := encoder_new (Z.quot (as_i64 (rt_time runtime)) 1000000) in
  let! r := encode_metrics powi writer platform (w_state w) (log_event_count (w_log w)) in
  Done match r with
       | Ok writer => ok_with (text "text/plain; version=0.0.4; charset=utf-8") (into_inner writer)
       | Err err => reply ServerError (error_to_string err)
       end.

Definition http_request (w : World) (request : HttpRequest) (buffers : Priority → list log_entry)
    (runtime : Runtime) (platform : Platform) : exec HttpResponse :=
  let path := hr_path request in
  if bool_decide (path = text "/logs") then Done (logs_response request buffers)
  else if bool_decide (path = text "/dashboard") then dashboard_response w runtime
  else if bool_decide (path = text "/metrics") then metrics_response w runtime platform
  else Done (reply NotFound []).
End http.
