(* ===== verification/Views.v ===== *)
(** * The views never trap

    A view of the state panics on a listed pair without its book or on a token
    without metadata. Every token of a listed pair and of the fee pool is registered
    ([known_tokens]), and [view_ready] adds the books, on every state the canister
    reaches. *)

From stdpp Require Import prelude gmap.
From Stdlib Require Import ZArith NArith Lia SpecFloat.
From S2P Require Import Prelude Word BTree Text Quantity Bytes QuantityCodec.
From S2P Require Import Ids Fees OrderTypes OrderQueue OrderBook BookInv.
From S2P Require Import Tokens Balance WriteBack BalanceTotals History.
From S2P Require Import OrderHistory ApiErrors Api Settlement UserRegistry.
From S2P Require Import Permissions PairMap Events State EventAudit Replay.
From S2P Require Import StateInv InvSettle InvExecutor.
From S2P Require Import Ledger Endpoints EntryPoints System SystemInv SystemRun Queries Client.
From S2P Require Import EventView Dashboard Metrics Http.
Open Scope Z_scope.

(** ** The tokens the state refers to are registered *)

Section known_tokens.
Context `{PrincipalType} `{!BiBTreeMap TradingPair OrderBookId}.
Implicit Types (s : State) (w : World) (t : TokenId) (p : FeePool) (wb : BalanceWriteBack).

Definition has_fees p t : Prop := is_Some (per_token p !! t).

Record known_tokens s : Prop := {
  kt_pair (tp : TradingPair) k : get_book_id (st_trading_pairs s) tp = Some k →
    is_Some (st_tokens s !! base tp) ∧ is_Some (st_tokens s !! quote tp);
  kt_fees t : has_fees (tb_fee_pool (st_balances s)) t → is_Some (st_tokens s !! t)
}.

(** ** The fee pool *)

Lemma withhold_tokens p t gross fee net p' t' :
  withhold p t gross fee = Done (net, p') → has_fees p' t' → t' = t ∨ has_fees p t'.
Proof.
  unfold withhold, has_fees. intros E. apply bind_Done in E as (net' & _ & E).
  destruct (negb _); [|injection E as _ <-; by right].
  apply bind_Done in E as (sum & _ & [= _ <-]). cbn [per_token].
  destruct (decide (t' = t)) as [->|Hne]; [by left|]. rewrite lookup_insert_ne by done. by right.
Qed.

Lemma settle_op_tokens tp resolved wb op wb' t :
  settle_op tp resolved wb op = Done wb' → has_fees (wb_fee_pool wb') t →
  has_fees (wb_fee_pool wb) t ∨ t = base tp ∨ t = quote tp.
Proof.
  intros E. destruct op as [from to token amount fee|order token amount]; cbn [settle_op op_token] in E.
  - apply bind_Done in E as (f & _ & E). apply bind_Done in E as (c & _ & E).
    unfold transfer in E. apply bind_Done in E as ([net pool] & Ew & E).
    unfold load_existing in E. apply bind_Done in E as ([b wr] & El & E).
    apply bind_Done in El as (_ & _ & [= _ <-]). apply bind_Done in E as (b' & _ & E).
    cbn [load_or_create] in E. apply bind_Done in E as (b'' & _ & [= <-]).
    cbn [wb_fee_pool write_row]. intros Hf. destruct (withhold_tokens _ _ _ _ _ _ t Ew Hf) as [->|Hf'];
      [right|by left]. destruct token; [by left|by right].
  - apply bind_Done in E as (o & _ & E). unfold wb_unreserve, load_existing in E.
    apply bind_Done in E as ([b wr] & El & E). apply bind_Done in El as (_ & _ & [= _ <-]).
    apply bind_Done in E as (b' & _ & [= <-]). by left.
Qed.

Lemma settle_ops_tokens tp resolved ops t : ∀ wb wb',
  exec_fold (settle_op tp resolved) wb ops = Done wb' → has_fees (wb_fee_pool wb') t →
  has_fees (wb_fee_pool wb) t ∨ t = base tp ∨ t = quote tp.
Proof.
  induction ops as [|op ops IH]; intros wb wb' E Hf; cbn [exec_fold] in E.
  - injection E as <-. by left.
  - apply bind_Done in E as (wb1 & E1 & E). destruct (IH _ _ E Hf) as [Hf1|]; [|by right].
    by eapply settle_op_tokens.
Qed.

(** ** The transitions *)

(** The three fields the invariant reads. *)
Lemma known_same s s' :
  st_tokens s' = st_tokens s → st_trading_pairs s' = st_trading_pairs s →
  tb_fee_pool (st_balances s') = tb_fee_pool (st_balances s) → known_tokens s → known_tokens s'.
Proof. intros E1 E2 E3 [Hp Hf]. split; rewrite E1, ?E2, ?E3; done. Qed.

Lemma record_token_known s k m s' :
  record_token s k m = Done s' → known_tokens s →
  known_tokens s' ∧ is_Some (st_tokens s' !! k) ∧
  (∀ t, is_Some (st_tokens s !! t) → is_Some (st_tokens s' !! t)).
Proof.
  intros E Hk. unfold record_token in E. destruct (st_tokens s !! k) as [m'|] eqn:El.
  - apply bind_Done in E as (_ & _ & [= <-]). split_and!; [done|by rewrite El|done].
  - injection E as <-. cbn [st_tokens set_tokens].
    assert (Hmono : ∀ t, is_Some (st_tokens s !! t) → is_Some (<[k:=m]> (st_tokens s) !! t)).
    { intros t [m' Ht]. destruct (decide (k = t)) as [->|Hne].
      - rewrite lookup_insert_eq. by eexists.
      - rewrite lookup_insert_ne by done. by eexists. }
    split_and!; [|by rewrite lookup_insert_eq; eexists|done].
    destruct Hk as [Hp Hf]. split.
    + intros tp b Hb. destruct (Hp tp b Hb). split; by apply Hmono.
    + intros t Ht. by apply Hmono, Hf.
Qed.

Lemma record_pair_known s id tp bm qm ts ls mn mx fr s' :
  record_trading_pair s id tp bm qm ts ls mn mx fr = Done s' → known_tokens s → known_tokens s'.
Proof.
  intros E Hk. unfold record_trading_pair in E.
  apply bind_Done in E as (s1 & E1 & E). apply bind_Done in E as (s2 & E2 & E).
  destruct (record_token_known _ _ _ _ E1 Hk) as (Hk1 & Hb & _).
  destruct (record_token_known _ _ _ _ E2 Hk1) as (Hk2 & Hq & Hmono). apply Hmono in Hb.
  apply bind_Done in E as (_ & _ & E). apply bind_Done in E as (pairs & Ep & E).
  apply bind_Done in E as (_ & _ & E). apply bind_Done in E as (next & _ & [= <-]).
  apply pairs_insert_Done in Ep as (_ & _ & Ep). split; cbn; [|apply Hk2].
  intros tp' k. rewrite Ep. case_decide as Heq; [by subst|]. apply Hk2.
Qed.

Lemma record_settling_known s e ts s' :
  record_settling_event s e ts Write = Done s' → known_tokens s → known_tokens s'.
Proof.
  intros E Hk. unfold record_settling_event in E.
  apply bind_Done in E as (tp & Ep & E). apply expect_Done in Ep. apply bind_Done in E as (sc & _ & E).
  apply bind_Done in E as (resolved & _ & E). apply bind_Done in E as (trades & _ & E).
  apply bind_Done in E as ([[] tb] & Eb & [= <-]). apply with_write_back_Done in Eb as (wb & Ew & ->).
  apply bind_Done in Ew as (wb' & Ew & [= <-]).
  destruct Hk as [Hp Hf]. split; cbn; [apply Hp|]. intros t Ht.
  apply get_pair_iff in Ep. destruct (Hp _ _ Ep) as [Hb Hq].
  destruct (settle_ops_tokens _ _ _ t _ _ Ew Ht) as [Ht'|[->| ->]]; [by apply Hf|done|done].
Qed.

Lemma deposit_known s u t a s' :
  state_deposit s u t a Write = Done s' → known_tokens s → known_tokens s'.
Proof.
  intros E. unfold state_deposit in E. destruct (get_or_register _ _) as [id reg].
  apply bind_Done in E as (tb & Ed & [= <-]). apply tb_deposit_Done in Ed as (_ & _ & _ & Ef & _).
  by apply known_same.
Qed.

Lemma withdraw_known s u t a r s' :
  state_withdraw s u t a = Done (r, s') → known_tokens s → known_tokens s'.
Proof.
  intros E. unfold state_withdraw in E. destruct (lookup_funding_id _ _); [|by injection E as _ <-].
  apply bind_Done in E as ([r' tb] & Ew & [= _ <-]). unfold tb_withdraw, wb_withdraw in Ew.
  apply try_mutate_tb in Ew. apply known_same; [done|done|]. cbn.
  destruct r' as [[]|e]; [by destruct Ew as (b' & _ & -> & _)|by destruct Ew as [_ ->]].
Qed.

Lemma record_order_known s u id o pb ts s' :
  record_limit_order s u id o pb ts Write = Done s' → known_tokens s → known_tokens s'.
Proof.
  unfold record_limit_order. intros E. exec_inv. destruct x2 as [token required]. exec_inv.
  match goal with Hr : tb_reserve _ _ _ _ = Done ?p |- _ =>
    destruct p as [r tb']; pose proof (tb_reserve_Done _ _ _ _ _ _ Hr) as Hres end.
  exec_inv. apply known_same; [done|done|]. cbn.
  destruct r; [by destruct Hres as (_ & -> & _)|by destruct Hres as (-> & _)].
Qed.

Lemma transition_known s (p : EventType) ts s' :
  apply_state_transition s p ts Write = Done s' → known_tokens s → known_tokens s'.
Proof.
  destruct p as [i|a|e|e|e|e|e|e|e|e|e|e]; cbn [apply_state_transition]; intros E.
  - done.
  - unfold apply_upgrade in E.
    repeat (case_match; simplify_eq/=; try done); exec_inv; try done; by apply known_same.
  - by eapply record_pair_known.
  - by eapply deposit_known.
  - destruct (into_parts _) as [id seq]. by eapply record_order_known.
  - by eapply record_settling_known.
  - unfold record_matching_event in E. exec_inv. destruct x1 as [out b]. exec_inv. by apply known_same.
  - apply bind_Done in E as ([r s1] & Ew & E). apply bind_Done in E as (_ & _ & [= <-]).
    by eapply withdraw_known.
  - unfold record_cancel_limit_order in E. destruct (into_parts _) as [id seq]. exec_inv.
    destruct x1 as [r b]. exec_inv. by apply known_same.
  - injection E as <-. by apply known_same.
  - unfold state_record_add_trading_account in E. exec_inv. by apply known_same.
  - unfold state_record_remove_trading_account in E. exec_inv. by apply known_same.
Qed.

Lemma step_known w w' : world_step w w' → known_tokens (w_state w) → known_tokens (w_state w').
Proof.
  intros [w0 p permit rt w1 E|w0 e permit rt|w0 u t a r s' E|w0 u t a s' E|w0 t fee|w0 ops|w0 ts|w0 q];
    cbn [w_state record_event].
  - unfold process_event in E. apply bind_Done in E as (s & E & [= <-]). by eapply transition_known.
  - done.
  - by eapply withdraw_known.
  - by eapply deposit_known.
  - by apply known_same.
  - by apply known_same.
  - by apply known_same.
  - by apply known_same.
Qed.

Lemma reachable_known arg start w : reachable arg start w → known_tokens (w_state w).
Proof.
  induction 1 as [s Es|w w' _ IH Hs]; [|by eapply step_known].
  unfold state_new in Es. destruct (policy_try_new _ _ _); [|done]. injection Es as <-. split; cbn.
  - intros tp k. unfold get_book_id, pairs_default. by rewrite get_by_left_default.
  - intros t. unfold has_fees. cbn. rewrite lookup_empty. by intros [].
Qed.
End known_tokens.

Section views.
Context `{PrincipalType} `{!BiBTreeMap TradingPair OrderBookId}.
Implicit Types (s : State).

Record view_ready s : Prop := {
  vr_known : known_tokens s;
  vr_books (tp : TradingPair) k : get_book_id (st_trading_pairs s) tp = Some k →
    is_Some (st_order_books s !! k)
}.

(** What a view looks up for an entry of the pair map. *)
Lemma ready_pair s (pb : TradingPair * OrderBookId) :
  view_ready s → pb ∈ pairs_iter (st_trading_pairs s) →
  ∃ b mb mq, st_order_books s !! pb.2 = Some b ∧ token_metadata s (base pb.1) = Some mb ∧
    token_metadata s (quote pb.1) = Some mq.
Proof.
  intros [[Hp _] Hb] Hin. destruct pb as [tp k]. apply bi_iter_elem in Hin.
  destruct (Hb tp k Hin) as [b Eb]. destruct (Hp tp k Hin) as [[mb Em] [mq Eq]].
  by exists b, mb, mq.
Qed.

Lemma ready_fee s tq :
  view_ready s → tq ∈ fee_pool_iter (tb_fee_pool (st_balances s)) → is_Some (st_tokens s !! tq.1).
Proof.
  intros [[_ Hf] _] Hin. destruct tq as [t q]. apply btree_iter_elem in Hin. apply Hf. by eexists.
Qed.

(** ** Queries *)

Section queries.
Context `{BigUint}.

Lemma get_trading_pairs_total s :
  view_ready s → ∃ out, get_trading_pairs s = Done out ∧ length out = length (pairs_iter (st_trading_pairs s)).
Proof.
  intros Hr. destruct (exec_map_total (λ _ _, True)
    (λ pb : TradingPair * OrderBookId, trading_pair_info s pb.1 pb.2)
    (pairs_iter (st_trading_pairs s))) as (out & E & Hl).
  - intros pb Hin. destruct (ready_pair s pb Hr Hin) as (b & mb & mq & Eb & Em & Eq).
    unfold trading_pair_info. rewrite Eb, Em, Eq. by eexists.
  - exists out. split; [done|]. by apply Forall2_length in Hl.
Qed.

Lemma get_fee_balances_total s filter : view_ready s → ∃ r, get_fee_balances s filter = Done r.
Proof.
  intros Hr. unfold get_fee_balances. destruct (validate_filter_len filter); [|by eexists].
  unfold state_get_fee_balances. destruct filter as [f|]; [by eexists|].
  match goal with |- context [exec_map ?f ?l] =>
    destruct (exec_map_total (λ _ _, True) f l) as (out & -> & _) end; [|by eexists].
  intros tq [_ Hin]%list_elem_of_filter. destruct (ready_fee s tq Hr Hin) as [m ->]. by eexists.
Qed.

(** ** The dashboard *)

Context `{!Display}.

Lemma build_depth_total bids asks (decimals : PairDecimals) :
  ∃ d, build_depth bids asks decimals = Done d.
Proof.
  unfold build_depth.
  destruct (depth_levels_total bids (max_qty (bids ++ asks)) decimals) as (b & -> & _).
  { intros l Hl. apply max_qty_ge, elem_of_app. by left. }
  destruct (depth_levels_total asks (max_qty (bids ++ asks)) decimals) as (a & -> & _).
  { intros l Hl. apply max_qty_ge, elem_of_app. by right. }
  by eexists.
Qed.

Lemma dashboard_total s id n : view_ready s → ∃ d, dashboard_from_state s id n = Done d.
Proof.
  intros Hr. unfold dashboard_from_state.
  match goal with |- context [exec_map ?f ?l] =>
    destruct (exec_map_total (λ _ _, True) f l) as (out & -> & _) end; [|by eexists].
  intros pb Hin. destruct (ready_pair s pb Hr Hin) as (b & mb & mq & -> & -> & ->).
  cbn [expect ebind]. unfold build_pair.
  match goal with |- context [build_depth ?b ?a ?d] =>
    destruct (build_depth_total b a d) as [depth ->] end.
  by eexists.
Qed.
End queries.

(** ** Metrics *)

Section metrics.
Context `{!MetricsEncoder} (powi : f64 → Z → f64).

Lemma metrics_from_state_total s : view_ready s → ∃ out, metrics_from_state s = Done out.
Proof.
  intros Hr. unfold metrics_from_state.
  match goal with |- context [exec_map ?f ?l] =>
    destruct (exec_map_total (λ _ _, True) f l) as (out & E & _) end; [|by eexists].
  intros pb Hin. destruct (ready_pair s pb Hr Hin) as (b & mb & mq & -> & -> & ->). by eexists.
Qed.

Lemma encode_fees_total s fees : ∀ w,
  (∀ tq, tq ∈ fees → is_Some (st_tokens s !! tq.1)) → ∃ r, encode_fees powi s w fees = Done r.
Proof.
  induction fees as [|[t q] fees IH]; intros w Hf; cbn [encode_fees]; [by eexists|].
  destruct (Hf (t, q)) as [m Em]; [left|]. cbn [fst] in Em. unfold token_metadata. rewrite Em. cbn [expect ebind].
  destruct (gauge_value _ _ _) as [w'|e]; [|by eexists]. apply IH. intros. apply Hf. by right.
Qed.

Lemma encode_metrics_total s w platform n :
  view_ready s → ∃ r, encode_metrics powi w platform s n = Done r.
Proof.
  intros Hr. unfold encode_metrics. match goal with |- context [match ?x with _ => _ end] =>
    destruct x as [w1|e] end; [|by eexists].
  destruct (metrics_from_state_total s Hr) as [books ->]. cbn [ebind].
  destruct (encode_order_book_metrics w1 books) as [w2|e]; [|by eexists].
  unfold encode_fee_balances. destruct (gauge_vec _ _ _) as [w3|e]; [|by eexists].
  apply encode_fees_total. intros tq [_ Hin]%list_elem_of_filter. by apply ready_fee.
Qed.
End metrics.

(** ** The users' queries *)

Section user_queries.
Context `{BigUint}.
Implicit Types (caller : Principal).

Lemma get_user_order_total n Q s owner id : core n Q s → ∃ r, get_user_order s owner id = Done r.
Proof.
  intros Hc. unfold get_user_order. destruct (history_get _ _) as [r|] eqn:E; [|by eexists].
  case_bool_decide; [by eexists|]. destruct (co_order _ _ _ Hc id r E) as (b & tp & sc & Hl & _).
  rewrite (li_pair _ _ _ _ _ Hl). by eexists.
Qed.

Lemma get_user_orders_total n Q s owner after len :
  core n Q s → ∃ r, get_user_orders s owner after len = Done r.
Proof.
  intros Hc. unfold get_user_orders. destruct (lookup_funding_id _ _) as [u|]; [|by eexists].
  unfold orders_after. destruct (page_by_user _ _ _ _) as [ids|e] eqn:Ep; [|by eexists].
  destruct (co_history _ _ _ Hc) as (log & Hl & _).
  match goal with |- context [exec_map ?f ?l] =>
    destruct (exec_map_total (λ _ _, True) f l) as (out & -> & _) end; [|by eexists].
  intros id Hid. destruct (page_members _ _ _ _ _ _ _ Hl Ep Hid) as [r Er].
  destruct (co_order _ _ _ Hc id r Er) as (b & tp & sc & Hli & _).
  rewrite Er, (li_pair _ _ _ _ _ Hli). by eexists.
Qed.

Lemma get_my_orders_total n Q s args caller :
  core n Q s → ∃ r, main_get_my_orders s args caller = Done r.
Proof.
  intros Hc. unfold main_get_my_orders, get_my_orders.
  destruct (mo_filter _) as [id|page].
  - destruct (from_str id) as [oid|e]; [|by eexists].
    destruct (get_user_order_total n Q s (effective_account s caller) oid Hc) as [[o|] ->]; by eexists.
  - destruct (parse_cursor _) as [after|e]; [|by eexists].
    destruct (get_user_orders_total n Q s (effective_account s caller) after
      (Z.to_nat (Z.min (mp_length page) MAX_ORDERS_PER_RESPONSE)) Hc) as [[o|e] ->]; by eexists.
Qed.

Lemma get_my_trades_total n Q s args caller :
  core n Q s → ∃ r, main_get_my_trades s args caller = Done r.
Proof.
  intros Hc. unfold main_get_my_trades, get_my_trades. destruct (mt_filter args) as [o|a].
  - destruct (from_str _) as [oid|e]; [|by eexists]. destruct (parse_cursor _) as [after|e]; by eexists.
  - destruct (parse_cursor _) as [after|e]; [|by eexists].
    destruct (co_trades _ _ _ Hc) as (log & Hl & _). unfold get_user_trades.
    destruct (lookup_funding_id _ _) as [u|]; [|by eexists].
    set (len := Z.to_nat _). pose proof (trades_after_total _ _ u after len Hl) as Ht.
    destruct (page_by_user _ _ _ _) as [ids|e].
    + destruct Ht as (ts & -> & _). by eexists.
    + rewrite Ht. by eexists.
Qed.
End user_queries.

(** ** Reached states *)

Lemma reached_ready `{BigUint} (k : nat) sys :
  reached k sys → Z.of_nat k < MAX_STEPS → view_ready (w_state (sys_world sys)).
Proof.
  intros Hr Hk. destruct (reached_reachable k sys Hr Hk) as (arg & start & R). split.
  - by eapply reachable_known.
  - intros tp b Hb. apply get_pair_iff in Hb.
    eapply (co_pair _ _ _ (si_world _ _ (reached_inv k sys Hr Hk))). exact Hb.
Qed.
End views.

(** ** The client's calls finish *)

Section clients.
Context `{PrincipalType} `{!BiBTreeMap TradingPair OrderBookId} `{BigUint} `{!Candid} `{!Platform}.
Implicit Types (sys : System) (env : Env).

Fixpoint messages_ok sys (ms : list (Runtime * Message)) : Prop :=
  match ms with
  | [] => True
  | (rt, m) :: ms => message_ok sys rt m ∧ messages_ok (deliver_or sys (rt, m)) ms
  end.

Lemma messages_ok_app ms1 ms2 sys :
  messages_ok sys (ms1 ++ ms2) ↔ messages_ok sys ms1 ∧ messages_ok (deliver_all ms1 sys) ms2.
Proof.
  revert sys. induction ms1 as [|[rt m] ms1 IH]; intros sys; cbn [app messages_ok];
    [cbn; naive_solver|].
  rewrite IH, deliver_all_cons. naive_solver.
Qed.

Lemma deliver_done k sys rt m :
  reached k sys → Z.of_nat k + 1 < MAX_STEPS → message_ok sys rt m →
  deliver rt sys m = Done (deliver_or sys (rt, m)) ∧ reached (S k) (deliver_or sys (rt, m)).
Proof.
  intros Hr Hk Hm. destruct (deliver_steps (Z.of_nat k) sys rt m) as (sys' & E & _);
    [apply reached_inv; [done|lia]|lia|done|].
  unfold deliver_or. cbn [fst snd]. rewrite E. split; [done|]. by eapply reached_message.
Qed.

Lemma deliver_all_reached ms : ∀ k sys,
  reached k sys → Z.of_nat (k + length ms) < MAX_STEPS → messages_ok sys ms →
  reached (k + length ms) (deliver_all ms sys).
Proof.
  induction ms as [|[rt m] ms IH]; intros k sys Hr Hk Hm; [by rewrite Nat.add_0_r|].
  destruct Hm as [Hm Hms]. cbn [length] in *.
  destruct (deliver_done k sys rt m Hr ltac:(lia) Hm) as [_ Hr'].
  rewrite deliver_all_cons, Nat.add_succ_r. apply (IH (S k)); [done|lia|done].
Qed.

Lemma deposit_done k sys env a :
  reached k sys → Z.of_nat (k + length (messages (CDeposit a) env sys)) < MAX_STEPS →
  messages_ok sys (messages (CDeposit a) env sys) → awaiting (CDeposit a) env sys →
  ∃ r, (deposit_call_answer env sys a).1 = Done r.
Proof.
  intros Hr Hk [Hm Hms] Hw. cbn [messages awaiting length] in *.
  destruct (deliver_done k sys _ _ Hr ltac:(lia) Hm) as [E Hr'].
  unfold deposit_call_answer, deposit_wait in *. unfold deliver_or in Hr', Hms. cbn [fst snd] in Hr', Hms.
  cbn [deliver] in E. cbn [deliver] in Hr', Hms.
  destruct (main_deposit_begin _ _ _) as [[[[[pf call]|e] w] fx]|]; cbn in E; [|by eexists|done].
  cbn [ebind fst snd] in *. apply messages_ok_app in Hms as [Hb [He _]]. rewrite length_app in Hk. cbn [length] in Hk.
  assert (Hr2 := deliver_all_reached (env_between env) _ _ Hr' ltac:(lia) Hb).
  destruct (deliver_done _ _ _ _ Hr2 ltac:(lia) He) as [E2 _].
  cbn [deliver] in E2. unfold after_call in *. cbn [fst snd] in *.
  fold (self_id env) in E2. rewrite Hw in E2.
  destruct (main_deposit_end _ _ _ _ _); [by eexists|done].
Qed.

Lemma withdraw_done k sys env a :
  reached k sys → Z.of_nat (k + length (messages (CWithdraw a) env sys)) < MAX_STEPS →
  messages_ok sys (messages (CWithdraw a) env sys) → awaiting (CWithdraw a) env sys →
  ∃ r, (withdraw_call_answer env sys a).1 = Done r.
Proof.
  intros Hr Hk [Hm Hms] Hw. cbn [messages awaiting length] in *.
  destruct (deliver_done k sys _ _ Hr ltac:(lia) Hm) as [E Hr'].
  unfold withdraw_call_answer, withdraw_wait in *. unfold deliver_or in Hr', Hms. cbn [fst snd] in Hr', Hms.
  cbn [deliver] in E. cbn [deliver] in Hr', Hms.
  destruct (main_withdraw_begin _ _ _) as [[[[[pf fee]|e] w] fx]|]; cbn in E; [|by eexists|done].
  cbn [ebind fst snd] in *. apply messages_ok_app in Hms as [Hb [He _]]. rewrite length_app in Hk. cbn [length] in Hk.
  assert (Hr2 := deliver_all_reached (env_between env) _ _ Hr' ltac:(lia) Hb).
  destruct (deliver_done _ _ _ _ Hr2 ltac:(lia) He) as [E2 _].
  cbn [deliver] in E2. unfold after_call in *. cbn [fst snd] in *. rewrite Hw in E2.
  destruct (ledger_withdraw _ _ _ _ _) as [[outcome calls]|]; [|done]. cbn [ebind] in *.
  destruct (main_withdraw_end _ _ _ _ _); [by eexists|done].
Qed.

Lemma canister_run_done {t} (c : ClientCall t) k sys env :
  reached k sys → Z.of_nat (k + length (messages c env sys)) < MAX_STEPS →
  messages_ok sys (messages c env sys) → awaiting c env sys →
  ∃ a, (canister_run c env sys).1 = Done a.
Proof.
  intros Hr Hk Hm Hw.
  assert (Hk0 : Z.of_nat k < MAX_STEPS) by lia.
  pose proof (reached_ready k sys Hr Hk0) as Hv.
  pose proof (si_world _ _ (reached_inv k sys Hr Hk0)) as Hc. unfold world_inv in Hc.
  destruct c; cbn [canister_run query fst snd];
    lazymatch goal with
    | |- context [update] =>
        cbn [messages length] in Hk; destruct Hm as [Hm _];
        destruct (deliver_done k sys _ _ Hr ltac:(lia) Hm) as [E _]; cbn [deliver] in E;
        unfold update; match type of E with ebind ?m _ = _ => destruct m end; [by eexists|done]
    | _ => try (by eexists)
    end.
  - by eapply get_my_trades_total.
  - destruct (get_trading_pairs_total _ Hv) as (out & E & _). by exists out.
  - by eapply deposit_done.
  - by eapply withdraw_done.
  - by apply get_fee_balances_total.
  - by eapply get_my_orders_total.
Qed.
End clients.
