(* ===== verification/Flows.v ===== *)
(** * Flows from end to end (src/integration_tests)

    A canister set up beside two ICRC ledgers and driven through the client library:
    the setup and its builder (src/integration_tests/src/lib.rs), the ledger's client
    (icrc_ledger.rs), the deposit flow (deposit_flow.rs: mint tokens, approve the
    canister, deposit, and check the balances on both sides) and the fill that charges
    fees (fee_fill.rs). The ledger is a parameter with the documented behaviour of the
    ICRC-1 and ICRC-2 standards. The lemmas show that rows of balances belong to
    registered users and that the deposit flow succeeds, from any state and from a
    fresh setup. *)

From Stdlib Require Import String.
From stdpp Require Import prelude gmap.
From Stdlib Require Import ZArith NArith Lia.
From S2P Require Import Prelude Word BTree Text Bytes Quantity QuantityCodec.
From S2P Require Import Ids Fees OrderTypes Tokens Balance WriteBack BalanceTotals.
From S2P Require Import OrderBook History OrderHistory UserRegistry.
From S2P Require Import Settlement Permissions PairMap Events.
From S2P Require Import State EventAudit Replay Accounting UserRegistryInv StateInv.
From S2P Require Import InvSettle InvFunds InvExecutor InvEndpoints.
From S2P Require Import ApiErrors Api Ledger Endpoints EntryPoints.
From S2P Require Import EndpointSpec System SystemInv SystemRun Queries Client Views.

(** ** ICRC ledgers *)

Definition BASE_LEDGER_FEE : u64 := mk_uint 64 5000.
Definition QUOTE_LEDGER_FEE : u64 := mk_uint 64 10.

(** Symbol, decimals and transfer fee of a ledger under test. *)
Record LedgerConfig : Type := MkLedgerConfig {
  lg_symbol : list u8;
  lg_decimals : u8;
  lg_transfer_fee : u64
}.
Definition cksol : LedgerConfig := MkLedgerConfig (text "ckSOL") (mk_uint 8 9) BASE_LEDGER_FEE.
Definition ckbtc : LedgerConfig := MkLedgerConfig (text "ckBTC") (mk_uint 8 8) QUOTE_LEDGER_FEE.
Definition ckdevnetsol : LedgerConfig :=
  MkLedgerConfig (text "ckDevnetSOL") (mk_uint 8 9) (mk_uint 64 50).
Definition cksepoliaeth : LedgerConfig :=
  MkLedgerConfig (text "ckSepoliaETH") (mk_uint 8 18) (mk_uint 64 10000000000).

Section ledger_args.
Context `{PrincipalType}.

(** An ICRC-1 account: an owner and a subaccount. *)
Record Account : Type := MkAccount { ac_owner : Principal; ac_subaccount : option (list u8) }.

Record ArchiveOptions : Type := MkArchiveOptions {
  ao_num_blocks_to_archive : u64;
  ao_max_transactions_per_response : option u64;
  ao_trigger_threshold : u64;
  ao_max_message_size_bytes : option u64;
  ao_cycles_for_archive_creation : option u64;
  ao_node_max_memory_size_bytes : option u64;
  ao_controller_id : Principal;
  ao_more_controller_ids : option (list Principal)
}.

Record FeatureFlags : Type := MkFeatureFlags { ff_icrc2 : bool }.

(** [InitArgs] of the ledger, over the type of its metadata values. *)
Record LedgerInitArgs (MetadataValue : Type) : Type := MkLedgerInitArgs {
  li_minting_account : Account;
  li_fee_collector_account : option Account;
  li_transfer_fee : N;
  li_decimals : option u8;
  li_max_memo_length : option u16;
  li_token_symbol : list u8;
  li_token_name : list u8;
  li_metadata : list (list u8 * MetadataValue);
  li_initial_balances : list (Account * N);
  li_feature_flags : option FeatureFlags;
  li_archive_options : ArchiveOptions;
  li_index_principal : option Principal
}.

Definition test_archive_options (controller : Principal) : ArchiveOptions :=
  MkArchiveOptions (mk_uint 64 1000) None (mk_uint 64 2000) None None None controller None.

Definition ledger_init_args (MetadataValue : Type) (controller : Principal) (config : LedgerConfig) :
    LedgerInitArgs MetadataValue :=
  MkLedgerInitArgs _ (MkAccount controller None) None (Z.to_N (lg_transfer_fee config))
    (Some (lg_decimals config)) (Some (mk_uint 16 256)) (lg_symbol config) (lg_symbol config)
    [] [] None (test_archive_options controller) None.
End ledger_args.

(** A ledger with its transfer fee, its minting account, the balances and the
    allowances ([owner] to [spender]), of accounts without a subaccount. The laws are
    those of the standards: a ledger starts with the fee and the minting account of its
    argument; the minting account creates tokens without a fee; an approval and a
    transfer from another account cost the owner the fee, and the latter needs an
    allowance for the amount and the fee. *)
Class IcrcLedger `{PrincipalType} : Type := {
  Ledger : Type;
  MetadataValue : Type;
  l_install : LedgerInitArgs MetadataValue → Ledger;
  l_fee : Ledger → N;
  l_minter : Ledger → Principal;
  l_balance : Ledger → Principal → N;
  l_allowance : Ledger → Principal → Principal → N;
  l_transfer : Ledger → Principal → Principal → N → result N TransferError * Ledger;
  l_approve : Ledger → Principal → Principal → N → option N * Ledger;
  l_transfer_from : Ledger → Principal → TransferFromArgs → result N TransferFromError * Ledger;
  l_install_ok args : l_fee (l_install args) = li_transfer_fee _ args ∧
    l_minter (l_install args) = ac_owner (li_minting_account _ args);
  l_mint_ok l to a : to ≠ l_minter l →
    ∃ block l', l_transfer l (l_minter l) to a = (Ok block, l') ∧
      l_fee l' = l_fee l ∧ l_minter l' = l_minter l ∧ l_allowance l' = l_allowance l ∧
      ∀ p, l_balance l' p = (if decide (p = to) then l_balance l p + a else l_balance l p)%N;
  l_approve_ok l owner spender a :
    owner ≠ l_minter l → owner ≠ spender → (l_fee l ≤ l_balance l owner)%N →
    ∃ block l', l_approve l owner spender a = (Some block, l') ∧
      l_fee l' = l_fee l ∧ l_minter l' = l_minter l ∧ l_allowance l' owner spender = a ∧
      ∀ p, l_balance l' p = (if decide (p = owner) then l_balance l p - l_fee l else l_balance l p)%N;
  l_transfer_from_ok l spender args :
    tf_from args ≠ l_minter l → tf_to args ≠ l_minter l → tf_from args ≠ tf_to args →
    (tf_amount args + l_fee l ≤ l_balance l (tf_from args))%N →
    (tf_amount args + l_fee l ≤ l_allowance l (tf_from args) spender)%N →
    ∃ block l', l_transfer_from l spender args = (Ok block, l') ∧
      l_fee l' = l_fee l ∧ l_minter l' = l_minter l ∧
      ∀ p, l_balance l' p =
        (if decide (p = tf_from args) then l_balance l p - (tf_amount args + l_fee l)
         else if decide (p = tf_to args) then l_balance l p + tf_amount args
         else l_balance l p)%N
}.

(** ** Balance rows belong to registered users *)

Section rows.
Context `{PrincipalType} `{!BiBTreeMap TradingPair OrderBookId}.
Implicit Types (s : State) (w : World) (u : UserId) (r : UserRegistry) (wb : BalanceWriteBack).

Definition registered r u : Prop := ∃ p, users r !! p = Some u.

(** Every row is of a registered user, so a new user starts with nothing. *)
Definition rows_of (R : UserId → Prop) (b : gmap (TokenId * UserId) Balance) : Prop := ∀ k, is_Some (b !! k) → R k.2.
Definition known_rows s : Prop :=
  rows_of (registered (st_user_registry s)) (tb_balances (st_balances s)).

Definition wb_rows (R : UserId → Prop) wb : Prop :=
  rows_of R (wb_balances wb) ∧ ∀ k, is_Some (wb_buffer wb !! k) → R k.2.

Lemma write_rows R wb k row : R k.2 → wb_rows R wb → wb_rows R (write_row wb k row).
Proof.
  intros Hk [Hb Hr]. split; [done|]. intros k' [row' E]. cbn in E.
  destruct (decide (k' = k)) as [->|Hne]; [done|]. rewrite lookup_insert_ne in E by done. apply Hr. by eexists.
Qed.
Lemma flush_rows R wb : wb_rows R wb → rows_of R (flush wb).
Proof.
  intros [Hb Hr] k Hk. rewrite flush_lookup in Hk. destruct (wb_buffer wb !! k) as [row|] eqn:E.
  - apply Hr. by eexists.
  - by apply Hb.
Qed.
Lemma with_write_back_rows {A} R tb (f : BalanceWriteBack → exec (A * BalanceWriteBack)) a tb' :
  (∀ wb wb' a, f wb = Done (a, wb') → wb_rows R wb → wb_rows R wb') →
  with_write_back tb f = Done (a, tb') → rows_of R (tb_balances tb) → rows_of R (tb_balances tb').
Proof.
  intros Hf E Hb. apply with_write_back_Done in E as (wb & E & ->). apply flush_rows.
  eapply Hf; [exact E|]. split; [done|]. intros k. cbn. rewrite lookup_empty. by intros [].
Qed.

Lemma deposit_rows R wb u t a wb' :
  wb_deposit wb u t a = Done wb' → R u → wb_rows R wb → wb_rows R wb'.
Proof.
  unfold wb_deposit, load_or_create. intros E Hu. apply bind_Done in E as (b & _ & [= <-]).
  by apply write_rows.
Qed.
Lemma mutate_rows {E} R wb k (f : Balance → exec (result Balance E)) x wb' :
  try_mutate wb k f = Done (x, wb') → R k.2 → wb_rows R wb → wb_rows R wb'.
Proof.
  rewrite try_mutate_eq. intros Em Hk Hw. apply bind_Done in Em as (o & _ & Em).
  destruct o; injection Em as _ <-; [by apply write_rows|done].
Qed.
Lemma transfer_rows R wb d c t gross fee wb' :
  transfer wb d c t gross fee = Done wb' → R d → R c → wb_rows R wb → wb_rows R wb'.
Proof.
  unfold transfer, load_existing. intros E Hd Hc Hw. apply bind_Done in E as ([net pool] & _ & E).
  apply bind_Done in E as ([b wr] & El & E). apply bind_Done in El as (_ & _ & [= _ <-]).
  apply bind_Done in E as (b' & _ & E). cbn [load_or_create] in E.
  apply bind_Done in E as (b'' & _ & [= <-]). repeat (apply write_rows; [done|]). by destruct Hw.
Qed.
Lemma unreserve_rows R wb u t a wb' :
  wb_unreserve wb u t a = Done wb' → R u → wb_rows R wb → wb_rows R wb'.
Proof.
  unfold wb_unreserve, load_existing. intros E Hu Hw. apply bind_Done in E as ([b wr] & El & E).
  apply bind_Done in El as (_ & _ & [= _ <-]). apply bind_Done in E as (b' & _ & [= <-]).
  by apply write_rows.
Qed.

(** *** The transitions *)

(** Users stay registered. *)
Definition keeps_users s s' : Prop := ∀ u,
  registered (st_user_registry s) u → registered (st_user_registry s') u.

Lemma rows_mono (R R' : UserId → Prop) b : (∀ u, R u → R' u) → rows_of R b → rows_of R' b.
Proof. intros HR Hb k Hk. by apply HR, Hb. Qed.
Lemma rows_same s s' :
  st_user_registry s' = st_user_registry s → st_balances s' = st_balances s →
  known_rows s → known_rows s'.
Proof. intros E1 E2. unfold known_rows. by rewrite E1, E2. Qed.

Lemma funding_registered r p u : lookup_funding_id r p = Some u → registered r u.
Proof.
  unfold lookup_funding_id, registry_lookup. destruct (trading_accounts r !! p); [done|].
  destruct (users r !! p) as [u'|] eqn:E; [|done]. cbn. intros [= <-]. by exists p.
Qed.

Lemma register_keeps r p :
  registered (get_or_register r p).2 (get_or_register r p).1 ∧
  ∀ u, registered r u → registered (get_or_register r p).2 u.
Proof.
  unfold get_or_register. destruct (users r !! p) as [id|] eqn:E; cbn.
  - split; [by exists p|done].
  - split; [exists p; cbn; apply lookup_insert_eq|]. intros u [q Hq]. exists q. cbn.
    rewrite lookup_insert_ne; [done|]. intros ->. by rewrite E in Hq.
Qed.

Lemma deposit_known_rows s p t a s' :
  state_deposit s p t a Write = Done s' → known_rows s → known_rows s'.
Proof.
  unfold state_deposit. pose proof (register_keeps (st_user_registry s) p) as [Hu Hk].
  destruct (get_or_register _ p) as [id reg]. cbn [fst snd] in *. intros E Hr.
  apply bind_Done in E as (tb & Ed & [= <-]). unfold known_rows. cbn [st_user_registry st_balances set_balances set_user_registry].
  unfold tb_deposit in Ed. apply bind_Done in Ed as ([[] tb'] & Ed & [= <-]).
  eapply with_write_back_rows; [|exact Ed|by eapply rows_mono].
  intros wb wb' [] E. apply bind_Done in E as (wb1 & E & [= <-]). intros Hw. by eapply deposit_rows.
Qed.

Lemma withdraw_known_rows s p t a x s' :
  state_withdraw s p t a = Done (x, s') → known_rows s → known_rows s'.
Proof.
  intros E Hr. unfold state_withdraw in E.
  destruct (lookup_funding_id _ p) as [u|] eqn:Eu; [|by injection E as _ <-].
  apply bind_Done in E as ([r' tb] & Ew & [= _ <-]). unfold known_rows. cbn.
  eapply with_write_back_rows; [|exact Ew|exact Hr]. intros wb wb' y E Hw.
  eapply mutate_rows; [exact E|by eapply funding_registered|done].
Qed.

Lemma exec_map_elem {A B} (f : A → exec B) l : ∀ bs b,
  exec_map f l = Done bs → b ∈ bs → ∃ a, a ∈ l ∧ f a = Done b.
Proof.
  induction l as [|a l IH]; intros bs b E Hb; cbn [exec_map] in E.
  - injection E as <-. by apply elem_of_nil in Hb.
  - apply bind_Done in E as (b0 & E0 & E). apply bind_Done in E as (bs' & Em & [= <-]).
    apply elem_of_cons in Hb as [->|Hb]; [exists a; split; [left|done]|].
    destruct (IH _ _ Em Hb) as (a' & Ha' & Ea'). exists a'. split; [by right|done].
Qed.

Lemma resolved_registered k ops h r resolved seq rv :
  resolve_op_orders k ops h r = Done resolved → resolved !! seq = Some rv → registered r (rv_user rv).
Proof.
  unfold resolve_op_orders. intros E Hs. apply bind_Done in E as (entries & Em & [= <-]).
  apply elem_of_list_to_map_2 in Hs.
  destruct (exec_map_elem _ _ _ _ Em Hs) as (x & _ & Ex). unfold resolve_order in Ex.
  apply bind_Done in Ex as (rec & _ & Ex). apply bind_Done in Ex as (u & Eu & [= _ <-]).
  apply expect_Done in Eu. by eapply funding_registered.
Qed.

Lemma settle_ops_rows (R : UserId → Prop) tp resolved ops : ∀ wb wb',
  (∀ seq rv, resolved !! seq = Some rv → R (rv_user rv)) →
  exec_fold (settle_op tp resolved) wb ops = Done wb' → wb_rows R wb → wb_rows R wb'.
Proof.
  induction ops as [|op ops IH]; intros wb wb' HR E Hw; cbn [exec_fold] in E; [by injection E as <-|].
  apply bind_Done in E as (wb1 & E1 & E). eapply IH; [done|exact E|].
  destruct op as [from to token amount fee|order token amount]; cbn [settle_op] in E1.
  - apply bind_Done in E1 as (f & Ef & E1). apply bind_Done in E1 as (c & Ec & E1).
    apply expect_Done in Ef, Ec. eapply transfer_rows; [exact E1|by eapply HR..|done].
  - apply bind_Done in E1 as (o & Eo & E1). apply expect_Done in Eo.
    eapply unreserve_rows; [exact E1|by eapply HR|done].
Qed.

Lemma settling_known_rows s e ts s' :
  record_settling_event s e ts Write = Done s' → known_rows s → known_rows s'.
Proof.
  intros E Hr. unfold record_settling_event in E.
  apply bind_Done in E as (tp & _ & E). apply bind_Done in E as (sc & _ & E).
  apply bind_Done in E as (resolved & Er & E). apply bind_Done in E as (trades & _ & E).
  apply bind_Done in E as ([[] tb] & Eb & [= <-]). unfold known_rows. cbn.
  eapply with_write_back_rows; [|exact Eb|exact Hr]. intros wb wb' [] E Hw.
  apply bind_Done in E as (wb1 & E & [= <-]). eapply settle_ops_rows; [|exact E|done].
  intros seq rv. by apply (resolved_registered _ _ _ _ _ seq rv Er).
Qed.

Lemma order_known_rows s p id o pb ts s' :
  record_limit_order s p id o pb ts Write = Done s' → known_rows s → known_rows s'.
Proof.
  unfold record_limit_order. intros E Hr. exec_inv. destruct x2 as [token required]. exec_inv.
  destruct x5 as [res tb]. match goal with Hb : tb_reserve _ _ _ _ = _ |- _ => rename Hb into Hb0 end.
  match goal with Hu : lookup_funding_id _ _ = _ |- _ => apply funding_registered in Hu; rename Hu into Hu0 end.
  assert (rows_of (registered (st_user_registry s)) (tb_balances tb)) as Hrows.
  { eapply with_write_back_rows; [|exact Hb0|exact Hr]. intros wb wb' y Em Hw. eapply mutate_rows; [exact Em|exact Hu0|done]. }
  exec_inv. exact Hrows.
Qed.

Lemma transition_rows s (p : EventType) ts s' :
  apply_state_transition s p ts Write = Done s' → known_rows s → known_rows s'.
Proof.
  destruct p as [i|a|e|e|e|e|e|e|e|e|e|e]; cbn [apply_state_transition]; intros E.
  - done.
  - unfold apply_upgrade in E.
    repeat (case_match; simplify_eq/=; try done); exec_inv; try done; by apply rows_same.
  - unfold record_trading_pair, record_token in E. exec_inv.
    repeat (case_match; simplify_eq/=; exec_inv); by apply rows_same.
  - by eapply deposit_known_rows.
  - destruct (into_parts _) as [id seq]. by eapply order_known_rows.
  - by eapply settling_known_rows.
  - unfold record_matching_event in E. exec_inv. destruct x1 as [out b]. exec_inv. by apply rows_same.
  - apply bind_Done in E as ([r s1] & Ew & E). apply bind_Done in E as (_ & _ & [= <-]).
    by eapply withdraw_known_rows.
  - unfold record_cancel_limit_order in E. destruct (into_parts _) as [id seq]. exec_inv.
    destruct x1 as [r b]. exec_inv. by apply rows_same.
  - injection E as <-. by apply rows_same.
  - unfold state_record_add_trading_account, record_add_trading_account in E. exec_inv. intros Hr. exact Hr.
  - unfold state_record_remove_trading_account, record_remove_trading_account in E. exec_inv.
    intros Hr. exact Hr.
Qed.

Lemma step_rows w w' : world_step w w' → known_rows (w_state w) → known_rows (w_state w').
Proof.
  intros [w0 p permit rt w1 E|w0 e permit rt|w0 u t a r s' E|w0 u t a s' E|w0 t fee|w0 ops|w0 ts|w0 q];
    cbn [w_state record_event]; try by apply rows_same.
  - unfold process_event in E. apply bind_Done in E as (s & E & [= <-]). by eapply transition_rows.
  - by eapply withdraw_known_rows.
  - by eapply deposit_known_rows.
Qed.

Lemma reachable_rows arg start w : reachable arg start w → known_rows (w_state w).
Proof.
  induction 1 as [s Es|w w' _ IH Hs]; [|by eapply step_rows].
  unfold state_new in Es. destruct (policy_try_new _ _ _); [|done]. injection Es as <-.
  intros k. cbn. rewrite lookup_empty. by intros [].
Qed.

(** The balance the canister reports is that of the row, and zero without one. *)
Lemma get_balance_row s p t u :
  lookup_funding_id (st_user_registry s) p = Some u →
  get_balance s p t = amount_of (tb_balances (st_balances s)) (t, u).
Proof. intros E. unfold get_balance. by rewrite E. Qed.
Lemma get_balance_new s p t : lookup_funding_id (st_user_registry s) p = None →
  get_balance s p t = balance_zero.
Proof. intros E. unfold get_balance. by rewrite E. Qed.
Lemma unregistered_zero s t u :
  known_rows s → ¬ registered (st_user_registry s) u →
  amount_of (tb_balances (st_balances s)) (t, u) = balance_zero.
Proof.
  intros Hr Hu. unfold amount_of. destruct (_ !! (t, u)) as [b|] eqn:E; [|done].
  destruct Hu. apply (Hr (t, u)). by eexists.
Qed.

Lemma is_trading_false s p :
  is_trading_account s p = false → trading_accounts (st_user_registry s) !! p = None.
Proof. unfold is_trading_account, registry_lookup. by destruct (trading_accounts _ !! p). Qed.
Lemma funding_users r p :
  trading_accounts r !! p = None → lookup_funding_id r p = users r !! p.
Proof. intros E. unfold lookup_funding_id, registry_lookup. rewrite E. by destruct (users r !! p). Qed.

(** Who may act on what is the same in both states. *)
Record same_access s s' : Prop := {
  sa_mode : st_mode s' = st_mode s;
  sa_tokens : st_tokens s' = st_tokens s;
  sa_trading : trading_accounts (st_user_registry s') = trading_accounts (st_user_registry s);
  sa_flight : st_in_flight_user_ops s' = st_in_flight_user_ops s
}.

(** A deposit raises the depositor's free balance by the amount. *)
Lemma deposit_balance s p t a s' :
  registry_inv (st_user_registry s) → Z.of_nat (size (users (st_user_registry s))) < 2 ^ 64 →
  trading_accounts (st_user_registry s) !! p = None → known_rows s →
  state_deposit s p t a Write = Done s' →
  same_access s s' ∧
  reserved (get_balance s' p t) = reserved (get_balance s p t) ∧
  qval (free (get_balance s' p t)) = qval (free (get_balance s p t)) + qval a.
Proof.
  intros Hi Hsz Hta Hrows E.
  pose proof (state_deposit_credits _ _ _ _ _ E) as (id & Hid & Hres & Hfree & _).
  destruct (get_or_register_spec _ p Hi Hta Hsz) as (Hi' & Hu & Hother & _).
  assert (Hreg : st_user_registry s' = (get_or_register (st_user_registry s) p).2 ∧
    same_access s s').
  { unfold state_deposit, get_or_register in *. destruct (users (st_user_registry s) !! p); exec_inv; done. }
  destruct Hreg as (Hreg & Hsa). pose proof (sa_trading _ _ Hsa) as Hta'. rewrite <- Hreg in *.
  assert (Hrow : get_balance s p t = amount_of (tb_balances (st_balances s)) (t, id)).
  { destruct (users (st_user_registry s) !! p) as [u|] eqn:Eu.
    - rewrite (get_balance_row s p t u) by (by rewrite funding_users). f_equal. f_equal.
      rewrite Hreg in Hid. unfold get_or_register in Hid. rewrite Eu in Hid. cbn in Hid. congruence.
    - rewrite get_balance_new by (by rewrite funding_users). symmetry.
      apply unregistered_zero; [done|]. intros [q Hq]. assert (q ≠ p) as Hne by (by intros ->; rewrite Eu in Hq).
      rewrite <- (Hother q Hne) in Hq. by apply Hne, (ri_inj _ Hi' q p id). }
  rewrite (get_balance_row s' p t id) by (by rewrite funding_users; [|by rewrite Hta']).
  split_and!; [done|by rewrite Hres, Hrow|]. rewrite Hfree, Hrow. unfold at_key. by rewrite decide_True.
Qed.
End rows.

Section flows.
Context `{PrincipalType} `{!BiBTreeMap TradingPair OrderBookId} `{BigUint} `{!Candid} `{!Platform}.
Context `{!IcrcLedger}.

(** The test environment: the canister, the ledgers by their canister id, and the
    context messages are processed in. *)
Record TestEnv : Type := MkTestEnv {
  te_sys : System;
  te_ledgers : gmap Principal Ledger;
  te_rt : Runtime
}.
Definition set_ledger (id : Principal) (l : Ledger) (te : TestEnv) : TestEnv :=
  MkTestEnv (te_sys te) (<[id := l]> (te_ledgers te)) (te_rt te).

(** *** The ledger's client: a call that fails is a panic. *)

Definition lc_transfer (te : TestEnv) (canister_id who to : Principal) (amount : N) :
    exec (N * TestEnv) :=
  let! l := expect (te_ledgers te !! canister_id) in
  match l_transfer l who to amount with
  | (Ok block, l) => Done (block, set_ledger canister_id l te)
  | (Err _, _) => Trap
  end.
Definition lc_approve (te : TestEnv) (canister_id who spender : Principal) (amount : N) :
    exec (N * TestEnv) :=
  let! l := expect (te_ledgers te !! canister_id) in
  match l_approve l who spender amount with
  | (Some block, l) => Done (block, set_ledger canister_id l te)
  | (None, _) => Trap
  end.
Definition lc_fee (te : TestEnv) (canister_id : Principal) : exec N :=
  let! l := expect (te_ledgers te !! canister_id) in Done (l_fee l).
Definition lc_balance_of (te : TestEnv) (canister_id account : Principal) : exec N :=
  let! l := expect (te_ledgers te !! canister_id) in Done (l_balance l account).

(** *** The canister's client *)

(** The surroundings of a call in which the ledger answers [reply]. *)
Definition te_env (te : TestEnv) (reply : CallReply (result N TransferFromError)) : Env :=
  MkEnv (te_rt te) [] reply (λ _ _, CallFails []) (te_rt te).

(** The ledger the deposit calls answers it. *)
Definition ledger_answers (te : TestEnv) (who : Principal) (request : DepositRequest) :
    CallReply (result N TransferFromError) * TestEnv :=
  match main_deposit_begin (sys_world (te_sys te)) request
          (env_rt (set_caller who (te_env te (CallFails [])))) with
  | Done (Ok (pf, (ledger, args)), _, _) =>
      match te_ledgers te !! ledger with
      | Some l =>
          let (r, l) := l_transfer_from l (rt_canister_self (te_rt te)) args in
          (Replied r, set_ledger ledger l te)
      | None => (CallFails [], te)
      end
  | _ => (CallFails [], te)
  end.

Definition te_client (te : TestEnv) (who : Principal)
    (reply : CallReply (result N TransferFromError)) (oisy_trade_id : Principal) : OisyTradeClient :=
  client_new (pocket_ic_runtime (te_env te reply) who) oisy_trade_id.

Definition te_deposit (te : TestEnv) (oisy_trade_id who : Principal) (request : DepositRequest) :
    exec (result DepositResponse DepositError * TestEnv) :=
  let (reply, te) := ledger_answers te who request in
  let! (r, sys) := client_deposit (te_client te who reply oisy_trade_id) request (te_sys te) in
  Done (r, MkTestEnv sys (te_ledgers te) (te_rt te)).

Definition te_get_balance (te : TestEnv) (oisy_trade_id who : Principal) (token : ApiTokenId) :
    exec ApiBalance :=
  let! (r, _) := client_get_balance (te_client te who (CallFails []) oisy_trade_id) token (te_sys te) in
  match r with Ok b => Done b | Err _ => Trap end.

(** ** [DepositFlow] *)

Record Setup : Type := MkSetup {
  su_caller : Principal;
  su_controller : Principal;
  su_oisy_trade_id : Principal;
  su_base_ledger_id : Principal;
  su_quote_ledger_id : Principal;
  su_base_config : LedgerConfig;
  su_quote_config : LedgerConfig
}.

Record DepositFlow : Type := MkDepositFlow {
  fl_setup : Setup;
  fl_user : Principal;
  fl_token_id : ApiTokenId;
  fl_mint_amount : option N;
  fl_approve_amount : option N;
  fl_deposit_amount : option N
}.
Definition new_deposit_flow (setup : Setup) (user : Principal) (token_id : ApiTokenId) : DepositFlow :=
  MkDepositFlow setup user token_id None None None.
Definition mint (amount : N) (self : DepositFlow) : DepositFlow :=
  MkDepositFlow (fl_setup self) (fl_user self) (fl_token_id self) (Some amount)
    (fl_approve_amount self) (fl_deposit_amount self).
Definition approve (amount : N) (self : DepositFlow) : DepositFlow :=
  MkDepositFlow (fl_setup self) (fl_user self) (fl_token_id self) (fl_mint_amount self)
    (Some amount) (fl_deposit_amount self).
Definition flow_deposit (amount : N) (self : DepositFlow) : DepositFlow :=
  MkDepositFlow (fl_setup self) (fl_user self) (fl_token_id self) (fl_mint_amount self)
    (fl_approve_amount self) (Some amount).

(** The checked deposit of [execute]: [assert_eq!] panics unless the ledger balance fell
    by the amount and the fee, and the free balance rose by the amount. *)
Definition execute_deposit (self : DepositFlow) (amount : N) (te : TestEnv) : exec TestEnv :=
  let ledger := api_ledger_id (fl_token_id self) in
  let id := su_oisy_trade_id (fl_setup self) in
  let user := fl_user self in
  let! ledger_fee := lc_fee te ledger in
  let! ledger_balance_before := lc_balance_of te ledger user in
  let! oisy_trade_balance_before := te_get_balance te id user (fl_token_id self) in
  let! (r, te) := te_deposit te id user (MkDepositRequest (fl_token_id self) amount) in
  let! _ := match r with Ok response => Done response | Err _ => Trap end in
  let! ledger_balance_after := lc_balance_of te ledger user in
  let! expected := nat_sub ledger_balance_before (amount + ledger_fee) in
  let! _ := assert (ledger_balance_after =? expected)%N in
  let! after := te_get_balance te id user (fl_token_id self) in
  let! _ := assert ((ab_free after =? ab_free oisy_trade_balance_before + amount)%N &&
                    (ab_reserved after =? ab_reserved oisy_trade_balance_before)%N) in
  Done te.

Definition execute (self : DepositFlow) (te : TestEnv) : exec TestEnv :=
  let ledger := api_ledger_id (fl_token_id self) in
  let! te :=
    match fl_mint_amount self with
    | None => Done te
    | Some amount =>
        let! (_, te) := lc_transfer te ledger (su_controller (fl_setup self)) (fl_user self) amount in
        Done te
    end in
  let! te :=
    match fl_approve_amount self with
    | None => Done te
    | Some amount =>
        let! (_, te) :=
          lc_approve te ledger (fl_user self) (su_oisy_trade_id (fl_setup self)) amount in
        Done te
    end in
  match fl_deposit_amount self with
  | None => Done te
  | Some amount => execute_deposit self amount te
  end.

(** ** [Setup] *)

Definition TICK_SIZE : u64 := mk_uint 64 1000.
Definition LOT_SIZE : u64 := mk_uint 64 1000000.
Definition PRICE_SCALE : u64 := mk_uint 64 100000000.

Record SetupBuilder : Type := MkSetupBuilder {
  sb_init_arg : InitArg;
  sb_base_config : LedgerConfig;
  sb_quote_config : LedgerConfig
}.
Definition default_init_arg : InitArg :=
  MkInitArg GeneralAvailability DEFAULT_MAX_ORDERS_PER_CHUNK DEFAULT_INSTRUCTION_BUDGET
    (Some DEFAULT_MAX_SETTLEMENT_UNITS_PER_EVENT).
Definition setup_builder : SetupBuilder := MkSetupBuilder default_init_arg cksol ckbtc.
Definition with_init_arg (init_arg : InitArg) (self : SetupBuilder) : SetupBuilder :=
  MkSetupBuilder init_arg (sb_base_config self) (sb_quote_config self).
Definition with_ledgers (base_config quote_config : LedgerConfig) (self : SetupBuilder) : SetupBuilder :=
  MkSetupBuilder (sb_init_arg self) base_config quote_config.

Definition install_ledger (canister_id : Principal) (init_args : LedgerInitArgs MetadataValue)
    (te : TestEnv) : TestEnv :=
  set_ledger canister_id (l_install init_args) te.

(** What PocketIC provides: the ids of the test users and of the canisters it creates, the
    instruction counter and the time. *)
Record Pocket : Type := MkPocket {
  pk_caller : Principal;
  pk_controller : Principal;
  pk_oisy_trade_id : Principal;
  pk_base_ledger_id : Principal;
  pk_quote_ledger_id : Principal;
  pk_instructions : nat → u64;
  pk_time : Timestamp
}.
Definition pocket_rt (pk : Pocket) : Runtime :=
  MkRuntime (pk_controller pk) (pk_oisy_trade_id pk) (λ p, bool_decide (p = pk_controller pk))
    (pk_instructions pk) (pk_time pk).

Definition setup_build (pk : Pocket) (self : SetupBuilder) : exec (Setup * TestEnv) :=
  let controller := pk_controller pk in
  let! sys := install (sb_init_arg self) (pocket_rt pk) in
  let te := MkTestEnv sys ∅ (pocket_rt pk) in
  let te := install_ledger (pk_base_ledger_id pk)
              (ledger_init_args _ controller (sb_base_config self)) te in
  let te := install_ledger (pk_quote_ledger_id pk)
              (ledger_init_args _ controller (sb_quote_config self)) te in
  Done (MkSetup (pk_caller pk) controller (pk_oisy_trade_id pk) (pk_base_ledger_id pk)
          (pk_quote_ledger_id pk) (sb_base_config self) (sb_quote_config self), te).

Definition trading_pair (self : Setup) : ApiTradingPair :=
  MkApiTradingPair (su_base_ledger_id self) (su_quote_ledger_id self).
Definition second_trading_pair (self : Setup) : ApiTradingPair :=
  MkApiTradingPair (su_quote_ledger_id self) (su_base_ledger_id self).
Definition base_token_id (self : Setup) : ApiTokenId := MkApiTokenId (su_base_ledger_id self).
Definition quote_token_id (self : Setup) : ApiTokenId := MkApiTokenId (su_quote_ledger_id self).

Definition add_trading_pair_request (self : Setup) : AddTradingPairRequest :=
  let pair := trading_pair self in
  MkAddTradingPairRequest
    (MkApiToken (MkApiTokenId (ap_base pair))
      (MkApiTokenMetadata (lg_symbol (su_base_config self)) (lg_decimals (su_base_config self))))
    (MkApiToken (MkApiTokenId (ap_quote pair))
      (MkApiTokenMetadata (lg_symbol (su_quote_config self)) (lg_decimals (su_quote_config self))))
    (Z.to_N TICK_SIZE) (Z.to_N LOT_SIZE) (mk_uint 16 0) (mk_uint 16 0) 1 None.

(** A call through the client of [who] that does not reach a ledger. *)
Definition te_call {A} (who : Principal) (self : Setup) (te : TestEnv)
    (call : OisyTradeClient → System → exec (A * System)) : exec (A * TestEnv) :=
  let! (r, sys) := call (te_client te who (CallFails []) (su_oisy_trade_id self)) (te_sys te) in
  Done (r, MkTestEnv sys (te_ledgers te) (te_rt te)).

(** [Setup::add_trading_pair] and [with_trading_pair]; [assert_eq!(result, Ok(()))]. *)
Definition submit_trading_pair (self : Setup) (request : AddTradingPairRequest) (te : TestEnv) :
    exec TestEnv :=
  let! (result, te) := te_call (su_controller self) self te (λ c, client_add_trading_pair c request) in
  match result with Ok _ => Done te | Err _ => Trap end.
Definition setup_add_trading_pair (self : Setup) (te : TestEnv) : exec TestEnv :=
  submit_trading_pair self (add_trading_pair_request self) te.
Definition with_second_trading_pair (self : Setup) (te : TestEnv) : exec TestEnv :=
  let request := add_trading_pair_request self in
  submit_trading_pair self (MkAddTradingPairRequest (tr_quote request) (tr_base request)
    (tr_tick_size request) (tr_lot_size request) (tr_maker_fee_bps request)
    (tr_taker_fee_bps request) (tr_min_notional request) (tr_max_notional request)) te.

Definition mint_base_tokens (self : Setup) (to : Principal) (amount : N) (te : TestEnv) :
    exec (N * TestEnv) :=
  lc_transfer te (su_base_ledger_id self) (su_controller self) to amount.
Definition mint_quote_tokens (self : Setup) (to : Principal) (amount : N) (te : TestEnv) :
    exec (N * TestEnv) :=
  lc_transfer te (su_quote_ledger_id self) (su_controller self) to amount.

(** The listing of a pair, which must be there. *)
Definition find_pair (self : Setup) (pair : ApiTradingPair) (te : TestEnv) : exec TradingPairInfo :=
  let! (infos, _) := te_call anonymous self te client_get_trading_pairs in
  expect (snd <$> list_find (λ info : TradingPairInfo,
    api_ledger_id (at_id (tpi_base info)) = ap_base pair ∧
    api_ledger_id (at_id (tpi_quote info)) = ap_quote pair) infos).
Definition pair_status (self : Setup) (pair : ApiTradingPair) (te : TestEnv) : exec TradingStatus :=
  let! info := find_pair self pair te in Done (tpi_status info).

(** [Setup::fund_base] and [fund_quote]: the additions are on [u64]. *)
Definition fund_token (setup : Setup) (ledger_id : Principal) (ledger_fee : u64) (who : Principal)
    (amount : u64) (te : TestEnv) : exec TestEnv :=
  let! twice := expect (u_checked_mul (mk_uint 64 2) ledger_fee) in
  let! minted := expect (u_checked_add amount twice) in
  let! approved := expect (u_checked_add amount ledger_fee) in
  execute (flow_deposit (Z.to_N amount) (approve (Z.to_N approved) (mint (Z.to_N minted)
    (new_deposit_flow setup who (MkApiTokenId ledger_id))))) te.
Definition fund_base (setup : Setup) (who : Principal) (amount : u64) (te : TestEnv) : exec TestEnv :=
  fund_token setup (su_base_ledger_id setup) BASE_LEDGER_FEE who amount te.
Definition fund_quote (setup : Setup) (who : Principal) (amount : u64) (te : TestEnv) : exec TestEnv :=
  fund_token setup (su_quote_ledger_id setup) QUOTE_LEDGER_FEE who amount te.

(** A good-til-canceled order of [who], which must be accepted. *)
Definition place (self : Setup) (who : Principal) (side : ApiSide) (price quantity : N) (te : TestEnv) :
    exec (list u8 * TestEnv) :=
  let! (r, te) := te_call who self te (λ c, client_add_limit_order c
    (MkLimitOrderRequest (trading_pair self) side price quantity None)) in
  match r with Ok order_id => Done (order_id, te) | Err _ => Trap end.

(** [env.tick()]: PocketIC executes a round, in which it delivers [round]. *)
Definition tick (round : list Message) (te : TestEnv) : TestEnv :=
  MkTestEnv (deliver_all (pair (te_rt te) <$> round) (te_sys te)) (te_ledgers te) (te_rt te).

Definition rest_sell_maker (self : Setup) (round : list Message) (seller : Principal) (quantity : u64)
    (price : N) (te : TestEnv) : exec (list u8 * TestEnv) :=
  let! te := fund_base self seller quantity te in
  let! (order_id, te) := place self seller ApiSell price (Z.to_N quantity) te in
  Done (order_id, tick round te).

(** ** One fill that charges fees *)

Record FeeFillOutcome : Type := MkFeeFillOutcome {
  ff_base : ApiToken;
  ff_quote : ApiToken;
  ff_base_fee_raw : u64;
  ff_quote_fee_raw : u64
}.

(** [u64] operations that panic on overflow, and [u64::div_ceil]. *)
Definition u64_mul (a b : u64) : exec u64 := expect (u_checked_mul a b).
Definition u64_div (a b : u64) : u64 := mk_uint 64 (a `div` b).
Definition u64_div_ceil (a b : u64) : u64 := mk_uint 64 ((a + b - 1) `div` b).

(** [fill_one_cross_with_fees]: a pair with fees, two funded users, one cross, and the
    fees it is expected to charge. *)
Definition fill_one_cross_with_fees (pk : Pocket) (seller buyer : Principal) (round : list Message) :
    exec (FeeFillOutcome * (Setup * TestEnv)) :=
  let! (setup, te) := setup_build pk setup_builder in
  let r := add_trading_pair_request setup in
  let request := MkAddTradingPairRequest (tr_base r) (tr_quote r) (tr_tick_size r) (tr_lot_size r)
    (mk_uint 16 10) (mk_uint 16 23) (tr_min_notional r) (tr_max_notional r) in
  let! te := submit_trading_pair setup request te in
  let qty := LOT_SIZE in
  let! price := u64_mul (mk_uint 64 10000) PRICE_SCALE in
  let! gross := u64_mul price qty in
  let notional := u64_div gross (mk_uint 64 1000000000) in
  let! te := fund_token setup (api_ledger_id (at_id (tr_base request))) BASE_LEDGER_FEE seller qty te in
  let! te := fund_token setup (api_ledger_id (at_id (tr_quote request))) QUOTE_LEDGER_FEE buyer notional te in
  let! (_, te) := place setup seller ApiSell (Z.to_N price) (Z.to_N qty) te in
  let! (_, te) := place setup buyer ApiBuy (Z.to_N price) (Z.to_N qty) te in
  let te := tick round te in
  let! pair_info := find_pair setup (trading_pair setup) te in
  let! base_fee := u64_mul qty (mk_uint 64 (tpi_taker_fee_bps pair_info)) in
  let! quote_fee := u64_mul notional (mk_uint 64 (tpi_maker_fee_bps pair_info)) in
  Done (MkFeeFillOutcome (tr_base request) (tr_quote request)
          (u64_div_ceil base_fee (mk_uint 64 10000)) (u64_div_ceil quote_fee (mk_uint 64 10000)),
        (setup, te)).

(** ** The flow succeeds *)

(** What a depositor needs: the mode admits them, the token is listed, they are not a
    trading account and have no operation of the token in flight. *)
Record may_deposit (s : State) (rt : Runtime) (t : TokenId) : Prop := {
  md_allowed : assert_caller_is_allowed s rt = Done ();
  md_token : is_Some (st_tokens s !! t);
  md_funding : is_trading_account s (rt_msg_caller rt) = false;
  md_idle : (rt_msg_caller rt, t) ∉ st_in_flight_user_ops s
}.

Lemma may_deposit_same s s' rt t : same_access s s' → may_deposit s rt t → may_deposit s' rt t.
Proof.
  intros [Hm Ht Ha Hf] [Hal Htk Hfd Hid]. split.
  - unfold assert_caller_is_allowed in *. by rewrite Hm.
  - by rewrite Ht.
  - apply is_trading_false in Hfd. unfold is_trading_account, registry_lookup. rewrite Ha, Hfd.
    by destruct (users _ !! _).
  - by rewrite Hf.
Qed.

(** The deposit of [amount] of [t] by [who] is credited, and nothing else changed hands. *)
Record credited (who : Principal) (t : TokenId) (amount : N) (sys sys' : System) : Prop := {
  cr_access : same_access (st sys) (st sys');
  cr_reserved : reserved (get_balance (st sys') who t) = reserved (get_balance (st sys) who t);
  cr_free : qval (free (get_balance (st sys') who t)) =
    qval (free (get_balance (st sys) who t)) + Z.of_N amount;
  cr_custody t' : custody t' sys' = custody t' sys + (if decide (t = t') then Z.of_N amount else 0)
}.

Lemma holdings_bound s p t :
  qval (free (get_balance s p t)) + qval (reserved (get_balance s p t)) ≤ state_supply t s.
Proof.
  unfold state_supply, supply. pose proof (fees_at_nonneg (tb_fee_pool (st_balances s)) t).
  destruct (lookup_funding_id (st_user_registry s) p) as [u|] eqn:E.
  - rewrite (get_balance_row s p t u E).
    pose proof (users_total_bound t (tb_balances (st_balances s)) u u) as Hb. lia.
  - rewrite get_balance_new by done. pose proof (users_total_bound t (tb_balances (st_balances s)) Seq_ZERO Seq_ZERO).
    pose proof (qval_range (free (amount_of (tb_balances (st_balances s)) (t, Seq_ZERO)))).
    pose proof (qval_range (reserved (amount_of (tb_balances (st_balances s)) (t, Seq_ZERO)))).
    change (qval (free balance_zero)) with 0. change (qval (reserved balance_zero)) with 0. lia.
Qed.

Lemma supply_nonneg s t : 0 ≤ state_supply t s.
Proof.
  etrans; [|apply (holdings_bound s anonymous t)].
  pose proof (qval_range (free (get_balance s anonymous t))).
  pose proof (qval_range (reserved (get_balance s anonymous t))). lia.
Qed.

Lemma deposit_begin_ok w (tok : ApiTokenId) amount rt :
  may_deposit (w_state w) rt (token_from tok) →
  state_supply (token_from tok) (w_state w) + Z.of_N amount ≤ MAX_SUPPLY →
  let t := token_from tok in
  let q := q_of_Z (Z.of_N amount) in
  ∃ pre, deposit_begin w (MkDepositRequest tok amount) rt =
    Done (Ok (MkPendingFunding (rt_msg_caller rt) t q pre, deposit_call t q rt),
      MkWorld (set_in_flight_user_ops ({[(rt_msg_caller rt, t)]} ∪ st_in_flight_user_ops (w_state w))
        (w_state w)) (w_log w)).
Proof.
  intros [Ha Ht Hf Hi] Hs t q. unfold deposit_begin. rewrite Ha. cbn [ebind dr_amount dr_token_id].
  assert (2 ^ 192 < 2 ^ 256) by done. unfold MAX_SUPPLY in Hs.
  pose proof (holdings_bound (w_state w) (rt_msg_caller rt) t) as Hh. fold t in Hs, Hi, Ht |- *.
  pose proof (qval_range (free (get_balance (w_state w) (rt_msg_caller rt) t))).
  pose proof (qval_range (reserved (get_balance (w_state w) (rt_msg_caller rt) t))).
  rewrite try_from_nat_eq. destruct (Z.ltb_spec (Z.of_N amount) (2 ^ 256)); [|lia]. fold q.
  unfold is_known_token. rewrite bool_decide_eq_true_2 by done. cbn [negb].
  unfold permit_deposit. rewrite Hf. unfold user_op_guard_new. rewrite bool_decide_eq_false_2 by done.
  change (get_balance (set_in_flight_user_ops _ _) ?p ?k) with (get_balance (w_state w) p k).
  rewrite checked_add_eq, q_checked_in by lia. cbn [obind].
  rewrite checked_add_eq, q_checked_in.
  - by eexists.
  - unfold q. rewrite !q_of_Z_val by lia. lia.
Qed.

Lemma deposit_end_ok w pf block rt r w' :
  deposit_end w pf (Replied (Ok block)) rt = Done (r, w') →
  r = Ok (MkDepositResponse block) ∧
  ∃ s, state_deposit (w_state w) (pf_caller pf) (pf_token pf) (pf_amount pf) Write = Done s ∧
    w_state w' = user_op_guard_drop s (pf_caller pf) (pf_token pf).
Proof.
  unfold deposit_end. cbn [ledger_deposit]. intros E. apply bind_Done in E as ([r0 w1] & E & [= <- <-]).
  apply bind_Done in E as (w2 & E & [= <- <-]). split; [done|]. unfold process_event in E.
  apply bind_Done in E as (s & E & [= <-]). by exists s.
Qed.

(** The call that was suspended last is found at the end of the list. *)
Lemma position_suspended pf c (sys : System) :
  suspended_key c = (pf_caller pf, pf_token pf) →
  (pf_caller pf, pf_token pf) ∉ suspended_key <$> sys_calls sys →
  sys_calls (suspend c sys) !! position pf (suspend c sys) = Some c.
Proof.
  intros Ec Hn. assert (position pf (suspend c sys) = length (sys_calls sys)) as ->.
  { unfold position. cbn [sys_calls suspend]. rewrite list_find_app_r.
    - cbn [list_find]. rewrite decide_True by done. cbn. lia.
    - apply list_find_None, Forall_forall. intros c' Hc' E. apply Hn. rewrite <- E.
      by apply list_elem_of_fmap_2. }
  cbn [sys_calls suspend]. by rewrite lookup_app_r, Nat.sub_diag by done.
Qed.

(** The state a credited deposit leaves. *)
Lemma deposit_answer_state env sys req pf call w1 fx block r :
  env_between env = [] → env_deposit env = Replied (Ok block) →
  main_deposit_begin (sys_world sys) req (env_rt env) = Done (Ok (pf, call), w1, fx) →
  tf_to call.2 = self_id env → (deposit_call_answer env sys req).1 = Done r →
  r = Ok (MkDepositResponse block) ∧
  ∃ s, state_deposit (w_state w1) (pf_caller pf) (pf_token pf) (pf_amount pf) Write = Done s ∧
    w_state (sys_world (deposit_call_answer env sys req).2) =
      user_op_guard_drop s (pf_caller pf) (pf_token pf) ∧
    sys_flows (deposit_call_answer env sys req).2 =
      sys_flows sys ++ [(MkTokenId call.1, Z.of_N (tf_amount call.2))].
Proof.
  intros Hb Hd Hm Hto. unfold deposit_call_answer. rewrite Hm, Hb, Hd. cbn [fst snd deliver_all foldl].
  change (sys_world (suspend _ (after_call (_, w1, fx) sys))) with w1.
  destruct (main_deposit_end w1 req pf (Replied (Ok block)) (env_resume env)) as [[[r' w'] fx']|] eqn:E; [|done].
  cbn [fst snd]. intros [= <-]. unfold main_deposit_end in E. apply entry_Done in E as [E _].
  apply deposit_end_ok in E as (-> & s & Es & Ew). split; [done|]. exists s.
  split_and!; [done..|]. cbn. by rewrite decide_True.
Qed.

Section deposit_call.
Context (k : nat) (sys : System) (env : Env) (tok : ApiTokenId) (amount : N) (block : N).
Let rt := env_rt env.
Let t := token_from tok.
Let req := MkDepositRequest tok amount.
Context (Hr : reached k sys) (Hk : Z.of_nat k + 2 < MAX_STEPS).
Context (Hmay : may_deposit (w_state (sys_world sys)) rt t).
Context (Hsup : custody t sys + Z.of_N amount ≤ MAX_SUPPLY).
Context (Hbetween : env_between env = []) (Hreply : env_deposit env = Replied (Ok block)).

Lemma supply_custody : state_supply t (w_state (sys_world sys)) ≤ custody t sys.
Proof.
  pose proof (si_custody _ _ (reached_inv k sys Hr ltac:(lia)) t). pose proof (in_transit_nonneg t sys). lia.
Qed.

Lemma amount_fits : qval (q_of_Z (Z.of_N amount)) = Z.of_N amount.
Proof.
  apply q_of_Z_val. pose proof supply_custody. pose proof (supply_nonneg (w_state (sys_world sys)) t).
  unfold MAX_SUPPLY in Hsup. assert (2 ^ 192 < 2 ^ 256) by done. lia.
Qed.

Let funding pre := MkPendingFunding (rt_msg_caller rt) t (q_of_Z (Z.of_N amount)) pre.
Let call := deposit_call t (q_of_Z (Z.of_N amount)) rt.
Let started := MkWorld (set_in_flight_user_ops
  ({[(rt_msg_caller rt, t)]} ∪ st_in_flight_user_ops (w_state (sys_world sys))) (w_state (sys_world sys)))
  (w_log (sys_world sys)).
Let waiting pre := suspend (AwaitDeposit req (funding pre) call (self_id env))
  (set_timer false (set_world started sys)).

Lemma deposit_started :
  ∃ pre, main_deposit_begin (sys_world sys) req rt = Done (Ok (funding pre, call), started, quiet).
Proof.
  pose proof supply_custody. destruct (deposit_begin_ok (sys_world sys) tok amount rt Hmay) as [pre Hb];
    [fold t; lia|].
  exists pre. unfold main_deposit_begin, entry, req. by rewrite Hb.
Qed.

Lemma deposit_message_run pre :
  main_deposit_begin (sys_world sys) req rt = Done (Ok (funding pre, call), started, quiet) →
  awaiting (CDeposit req) env sys ∧
  messages_ok sys (messages (CDeposit req) env sys) ∧
  length (messages (CDeposit req) env sys) = 2%nat.
Proof.
  intros Hm. pose proof (reached_inv k sys Hr ltac:(lia)) as Hinv.
  assert (Hpos : sys_calls (waiting pre) !! position (funding pre) (waiting pre) =
    Some (AwaitDeposit req (funding pre) call (self_id env))).
  { apply position_suspended; [done|]. intros Hin. apply (md_idle _ _ _ Hmay).
    by apply (si_guards _ _ Hinv). }
  assert (Hwait : deposit_wait env sys req = Some (funding pre, call, waiting pre)).
  { unfold deposit_wait. fold rt. by rewrite Hm, Hbetween. }
  cbn [awaiting messages]. rewrite Hwait, Hbetween, Hreply. split; [exact Hpos|]. split; [|done].
  split; [apply (md_allowed _ _ _ Hmay)|split; [|done]].
  assert (deliver_or sys (env_rt env, Deposit req) = waiting pre) as ->.
  { unfold deliver_or. cbn [fst snd deliver]. fold rt. by rewrite Hm. }
  intros req' pf' call' self' b E _. rewrite Hpos in E. injection E as <- <- <- <-. cbn [pf_token pf_amount funding].
  change (custody t (waiting pre)) with (custody t sys). rewrite amount_fits. lia.
Qed.

(** The deposit of an admitted user is credited, and the canister goes on. *)
Lemma deposit_call_ok :
  ∃ sys', finish (deposit_call_answer env sys req) = Done (Ok (MkDepositResponse block), sys') ∧
    reached (k + 2) sys' ∧ credited (rt_msg_caller rt) t amount sys sys'.
Proof.
  destruct deposit_started as [pre Hm]. destruct (deposit_message_run pre Hm) as (Haw & Hok & Hlen).
  assert (Hl : Z.of_nat (k + length (messages (CDeposit req) env sys)) < MAX_STEPS) by lia.
  destruct (deposit_done k sys env req Hr Hl Hok Haw) as [r Er].
  pose proof (deliver_all_reached _ _ _ Hr Hl Hok) as Hr'. rewrite <- deposit_messages, Hlen in Hr' by done.
  exists (deposit_call_answer env sys req).2. unfold finish. rewrite Er. cbn [ebind].
  destruct (deposit_answer_state _ _ _ _ _ _ _ _ _ Hbetween Hreply Hm eq_refl Er) as (-> & s & Es & Ew & Hflow).
  split; [done|]. split; [exact Hr'|].
  pose proof (si_world _ _ (reached_inv k sys Hr ltac:(lia))) as Hcore.
  pose proof (is_trading_false _ _ (md_funding _ _ _ Hmay)) as Hta0.
  destruct (reached_reachable k sys Hr ltac:(lia)) as (arg & start & R).
  destruct (deposit_balance (w_state started) (rt_msg_caller rt) t (q_of_Z (Z.of_N amount)) s)
    as ([Hsm Hst Hsa Hsf] & Hres & Hfree).
  - apply (co_registry _ _ _ Hcore).
  - pose proof (co_users _ _ _ Hcore). unfold MAX_STEPS in Hk. cbn in *. lia.
  - exact Hta0.
  - apply (reachable_rows _ _ _ R).
  - exact Es.
  - split; unfold st; rewrite ?Ew.
    + split; [exact Hsm|exact Hst|exact Hsa|]. cbn. rewrite Hsf. cbn.
      pose proof (md_idle _ _ _ Hmay). set_solver.
    + exact Hres.
    + rewrite <- amount_fits. exact Hfree.
    + intros t'. unfold custody. rewrite Hflow, sum_over_app. cbn.
      assert (Z.of_N (to_nat (q_of_Z (Z.of_N amount))) = Z.of_N amount) as ->
        by (by rewrite to_nat_val, amount_fits).
      rewrite sum_over_cons, sum_over_nil. cbn [fst snd]. change (MkTokenId (api_ledger_id tok)) with t. lia.
Qed.
End deposit_call.

(** *** In the test environment *)

Section in_test_env.
Context (k : nat) (te : TestEnv) (who : Principal) (tok : ApiTokenId) (amount : N).
Let canister := rt_canister_self (te_rt te).
Let rt := env_rt (set_caller who (te_env te (CallFails []))).
Let t := token_from tok.
Let ledger := api_ledger_id tok.

Lemma te_get_balance_ok ledgers sys :
  is_Some (st_tokens (st sys) !! t) → trading_accounts (st_user_registry (st sys)) !! who = None →
  te_get_balance (MkTestEnv sys ledgers (te_rt te)) canister who tok =
    Done (to_api_balance (get_balance (st sys) who t)).
Proof.
  intros [m Hm] Hta. unfold te_get_balance, te_client.
  set (env := set_caller who (te_env (MkTestEnv sys ledgers (te_rt te)) (CallFails []))).
  change canister with (self_id env). rewrite client_get_balance_eq by apply pocket_ic_runtime_answers.
  cbn [te_sys]. fold t. rewrite Hm. cbn [ebind]. unfold held. f_equal. f_equal. f_equal.
  unfold effective_account, registry_lookup. cbn [caller env set_caller env_rt rt_msg_caller].
  rewrite Hta. by destruct (users _ !! who).
Qed.

Context (l : Ledger) (Hl : te_ledgers te !! ledger = Some l).
Context (Hr : reached k (te_sys te)) (Hk : Z.of_nat k + 2 < MAX_STEPS).
Context (Hmay : may_deposit (st (te_sys te)) rt t).
Context (Hsup : custody t (te_sys te) + Z.of_N amount ≤ MAX_SUPPLY).
Context (Hwho : who ≠ l_minter l) (Hcan : canister ≠ l_minter l) (Hne : who ≠ canister).
Context (Hbal : (amount + l_fee l ≤ l_balance l who)%N).
Context (Hall : (amount + l_fee l ≤ l_allowance l who canister)%N).

Lemma te_deposit_ok :
  ∃ response sys' l', te_deposit te canister who (MkDepositRequest tok amount) =
      Done (Ok response, MkTestEnv sys' (<[ledger := l']> (te_ledgers te)) (te_rt te)) ∧
    l_balance l' who = (l_balance l who - (amount + l_fee l))%N ∧
    l_balance l' canister = (l_balance l canister + amount)%N ∧
    reached (k + 2) sys' ∧ credited who t amount (te_sys te) sys'.
Proof.
  destruct (deposit_started k (te_sys te) (set_caller who (te_env te (CallFails []))) tok amount
    Hr Hk Hmay Hsup) as [pre Hm].
  assert (Hto : to_nat (q_of_Z (Z.of_N amount)) = amount).
  { apply N2Z.inj. rewrite to_nat_val. by apply (amount_fits k (te_sys te) tok amount). }
  destruct (l_transfer_from_ok l canister (MkTransferFromArgs who canister amount) Hwho Hcan Hne Hbal Hall)
    as (block & l' & El & _ & _ & Hb). cbn [tf_from tf_to tf_amount] in Hb.
  set (te1 := set_ledger ledger l' te).
  assert (Ha : ledger_answers te who (MkDepositRequest tok amount) = (Replied (Ok block), te1)).
  { unfold ledger_answers. fold rt. fold rt in Hm. rewrite Hm. cbn [deposit_call].
    change (ledger_id (token_from tok)) with ledger. rewrite Hl, Hto.
    change (MkTransferFromArgs _ _ amount) with (MkTransferFromArgs who canister amount).
    fold canister. by rewrite El. }
  destruct (deposit_call_ok k (te_sys te) (set_caller who (te_env te1 (Replied (Ok block)))) tok amount block
    Hr Hk Hmay Hsup eq_refl eq_refl) as (sys' & Ed & Hr' & Hcr).
  exists (MkDepositResponse block), sys', l'. split_and!; try done.
  - unfold te_deposit. rewrite Ha. unfold te_client.
    change (client_deposit ?c ?r ?s) with (client_run (CDeposit r) c s).
    change canister with (self_id (set_caller who (te_env te1 (Replied (Ok block))))).
    rewrite client_run_eq by apply pocket_ic_runtime_answers. cbn [canister_run].
    change (te_sys te1) with (te_sys te). by rewrite Ed.
  - rewrite Hb. by rewrite decide_True.
  - rewrite Hb. by rewrite decide_False, decide_True by (done || by apply not_eq_sym).
Qed.

(** The checks of the flow hold after the deposit. *)
Lemma execute_deposit_ok setup mint_amount approve_amount deposit_amount :
  su_oisy_trade_id setup = canister →
  ∃ sys' l', execute_deposit (MkDepositFlow setup who tok mint_amount approve_amount deposit_amount)
      amount te = Done (MkTestEnv sys' (<[ledger := l']> (te_ledgers te)) (te_rt te)) ∧
    reached (k + 2) sys' ∧
    l_balance l' canister = (l_balance l canister + amount)%N ∧
    credited who t amount (te_sys te) sys'.
Proof.
  intros Hid. destruct te_deposit_ok as (response & sys' & l' & Ed & Hw & Hc & Hr' & Hcr).
  exists sys', l'. split; [|done]. destruct (cr_access _ _ _ _ _ Hcr) as [_ Htok Hta _].
  pose proof (cr_reserved _ _ _ _ _ Hcr) as Hres. pose proof (cr_free _ _ _ _ _ Hcr) as Hfree.
  pose proof (is_trading_false _ _ (md_funding _ _ _ Hmay)) as Hta0. unfold execute_deposit, lc_fee, lc_balance_of.
  cbn [fl_setup fl_user fl_token_id]. rewrite Hid. fold ledger. rewrite Hl. cbn [expect ebind].
  pose proof (md_token _ _ _ Hmay) as Htoken.
  assert (Hb0 : te_get_balance te canister who tok =
    Done (to_api_balance (get_balance (st (te_sys te)) who t))).
  { pose proof (te_get_balance_ok (te_ledgers te) (te_sys te) Htoken) as Hg. destruct te. apply Hg.
    exact Hta0. }
  rewrite Hb0. cbn [ebind]. rewrite Ed. cbn [ebind te_ledgers].
  rewrite lookup_insert_eq. cbn [expect ebind]. unfold nat_sub.
  destruct (N.leb_spec (amount + l_fee l) (l_balance l who)) as [_|Hlt]; [|lia]. cbn [ebind].
  rewrite Hw, N.eqb_refl. cbn [assert ebind].
  rewrite te_get_balance_ok by (by rewrite ?Htok, ?Hta). cbn [ebind to_api_balance ab_free ab_reserved].
  rewrite Hres, N.eqb_refl, andb_true_r.
  assert (to_nat (free (get_balance (st sys') who t)) =
    to_nat (free (get_balance (st (te_sys te)) who t)) + amount)%N as ->; [|by rewrite N.eqb_refl].
  apply N2Z.inj. by rewrite N2Z.inj_add, !to_nat_val.
Qed.
End in_test_env.

(** *** Funding an account *)

(** The sums on [u64] do not overflow for an amount that fits. *)
Lemma fund_eq setup ledger (fee amount : u64) who te : amount + 2 * fee < 2 ^ 64 →
  fund_token setup ledger fee who amount te =
    execute (MkDepositFlow setup who (MkApiTokenId ledger) (Some (Z.to_N (amount + 2 * fee)))
      (Some (Z.to_N (amount + fee))) (Some (Z.to_N amount))) te.
Proof.
  intros Hfit. pose proof (uint_range fee). pose proof (uint_range amount).
  unfold fund_token, u_checked_mul, u_checked_add.
  change (uval (mk_uint 64 2)) with 2.
  rewrite (checked_in (2 * fee)) by lia. cbn [expect ebind].
  rewrite (mk_uint_small (2 * fee)) by lia.
  rewrite (checked_in (amount + 2 * fee)), (checked_in (amount + fee)) by lia.
  cbn [expect ebind]. by rewrite !mk_uint_small by lia.
Qed.

(** The account is funded: minted, approved and deposited, with every check of the
    flow passed. *)
Lemma fund_ok k te setup who ledger (fee amount : u64) l :
  let canister := rt_canister_self (te_rt te) in
  let t := MkTokenId ledger in
  te_ledgers te !! ledger = Some l → l_fee l = Z.to_N fee → l_minter l = su_controller setup →
  su_oisy_trade_id setup = canister →
  NoDup [who; canister; su_controller setup] →
  amount + 2 * fee < 2 ^ 64 →
  reached k (te_sys te) → Z.of_nat k + 2 < MAX_STEPS →
  may_deposit (st (te_sys te)) (env_rt (set_caller who (te_env te (CallFails [])))) t →
  custody t (te_sys te) + amount ≤ MAX_SUPPLY →
  ∃ sys' l', fund_token setup ledger fee who amount te =
      Done (MkTestEnv sys' (<[ledger := l']> (te_ledgers te)) (te_rt te)) ∧
    reached (k + 2) sys' ∧
    l_balance l' canister = (l_balance l canister + Z.to_N amount)%N ∧
    credited who t (Z.to_N amount) (te_sys te) sys'.
Proof.
  intros canister t Hl Hfee Hmint Hid Hnd Hfit Hr Hk Hmay Hsup.
  apply NoDup_cons in Hnd as [Hn1 Hnd]. apply NoDup_cons in Hnd as [Hn2 _].
  rewrite !not_elem_of_cons in Hn1. rewrite not_elem_of_cons in Hn2.
  destruct Hn1 as (Hwc & Hwm & _), Hn2 as [Hcm _].
  pose proof (uint_range fee) as Hf0. pose proof (uint_range amount) as Ha0.
  destruct (l_mint_ok l who (Z.to_N (amount + 2 * fee))) as (b1 & l1 & E1 & Ef1 & Em1 & Eal1 & Eb1);
    [by rewrite Hmint|].
  destruct (l_approve_ok l1 who canister (Z.to_N (amount + fee)))
    as (b2 & l2 & E2 & Ef2 & Em2 & Eal2 & Eb2); [by rewrite Em1, Hmint|done| |].
  { rewrite Ef1, Eb1, decide_True, Hfee by done. lia. }
  rewrite fund_eq by done. unfold execute, lc_transfer, lc_approve.
  cbn [fl_token_id fl_mint_amount fl_approve_amount fl_deposit_amount fl_setup fl_user api_ledger_id].
  rewrite Hl, Hid, <- Hmint. cbn [expect ebind]. rewrite E1. cbn [ebind set_ledger te_ledgers].
  rewrite lookup_insert_eq. cbn [expect ebind]. rewrite E2. cbn [ebind].
  set (te2 := set_ledger ledger l2 (MkTestEnv (te_sys te) (<[ledger := l1]> (te_ledgers te)) (te_rt te))).
  destruct (execute_deposit_ok k te2 who (MkApiTokenId ledger) (Z.to_N amount) l2) with
    (setup := setup) (mint_amount := Some (Z.to_N (amount + 2 * fee)))
    (approve_amount := Some (Z.to_N (amount + fee))) (deposit_amount := Some (Z.to_N amount))
    as (sys' & l' & Ed & Hr' & Hc & Hcr); try done.
  - cbn. apply lookup_insert_eq.
  - rewrite Z2N.id by lia. done.
  - by rewrite Em2, Em1, Hmint.
  - by rewrite Em2, Em1, Hmint.
  - rewrite Ef2, Ef1, Eb2, Ef1, Eb1, !decide_True by done. rewrite Hfee. lia.
  - rewrite Ef2, Ef1. change (rt_canister_self (te_rt te2)) with canister. rewrite Eal2, Hfee. lia.
  - exists sys', l'. split_and!; [|exact Hr'| |exact Hcr].
    + etrans; [exact Ed|]. cbn [te2 set_ledger te_ledgers te_rt]. by rewrite !insert_insert_eq.
    + etrans; [exact Hc|]. change (rt_canister_self (te_rt te2)) with canister. rewrite Eb2, Eb1.
      by rewrite !decide_False by (by apply not_eq_sym).
Qed.

(** *** A fresh setup *)

Lemma parse_default setup : su_base_ledger_id setup ≠ su_quote_ledger_id setup →
  ∃ tick lot fees mn, parse_trading_pair (add_trading_pair_request setup) =
      Ok (tick, lot, fees, mn, None) ∧ tick * lot = 10 ^ 9.
Proof.
  intros Hne. unfold parse_trading_pair. cbn [add_trading_pair_request tr_base tr_quote at_id].
  rewrite bool_decide_eq_false_2 by (by intros [= Heq]). rewrite try_from_nat_eq.
  eexists _, _, _, _. split; reflexivity.
Qed.

Lemma record_token_lists s t m s' : record_token s t m = Done s' →
  is_Some (st_tokens s' !! t) ∧ (∀ t', is_Some (st_tokens s !! t') → is_Some (st_tokens s' !! t')) ∧
  ∃ tokens, s' = set_tokens tokens s.
Proof.
  unfold record_token. destruct (st_tokens s !! t) as [m'|] eqn:Et; intros E; exec_inv.
  - split_and!; [by rewrite Et|done|]. exists (st_tokens s'). by destruct s'.
  - cbn. split_and!; [by rewrite lookup_insert_eq| |by eexists].
    intros t' Ht'. destruct (decide (t' = t)) as [->|]; [by rewrite lookup_insert_eq|by rewrite lookup_insert_ne].
Qed.
Lemma record_pair_lists s id tp bm qm tick lot mn mx fees s' :
  record_trading_pair s id tp bm qm tick lot mn mx fees = Done s' →
  st_mode s' = st_mode s ∧ st_user_registry s' = st_user_registry s ∧
  st_in_flight_user_ops s' = st_in_flight_user_ops s ∧
  is_Some (st_tokens s' !! base tp) ∧ is_Some (st_tokens s' !! quote tp).
Proof.
  unfold record_trading_pair. intros E. apply bind_Done in E as (s1 & E1 & E).
  apply bind_Done in E as (s2 & E2 & E).
  apply record_token_lists in E1 as (Hb & _ & t1 & ->), E2 as (Hq & Hm & t2 & ->).
  exec_inv. split_and!; try done. by apply Hm.
Qed.

(** The pair of the default setup is listed. *)
Lemma default_pair_listed w rt setup :
  world_inv 0 w → st_tokens (w_state w) = ∅ → st_trading_pairs (w_state w) = bi_default →
  su_base_config setup = cksol → su_base_ledger_id setup ≠ su_quote_ledger_id setup →
  rt_is_controller rt (rt_msg_caller rt) = true →
  ∃ w', add_trading_pair w (add_trading_pair_request setup) rt = Done (Ok (), w') ∧
    st_mode (w_state w') = st_mode (w_state w) ∧
    st_user_registry (w_state w') = st_user_registry (w_state w) ∧
    st_in_flight_user_ops (w_state w') = st_in_flight_user_ops (w_state w) ∧
    is_Some (st_tokens (w_state w') !! token_from (base_token_id setup)) ∧
    is_Some (st_tokens (w_state w') !! token_from (quote_token_id setup)).
Proof.
  intros Hw Htok Hpairs Hb Hne Hctl.
  destruct (add_trading_pair_goes 0 w (add_trading_pair_request setup) rt Hw ltac:(done))
    as (r & w' & E & _). rewrite E. unfold add_trading_pair in E. rewrite Hctl in E.
  destruct (parse_default setup Hne) as (tick & lot & fees & mn & Hp & Hdiv). rewrite Hp in E.
  cbn [negb] in E. unfold has_trading_pair, pairs_contains, get_book_id in E. rewrite Hpairs in E.
  rewrite get_by_left_default in E. rewrite bool_decide_eq_false_2 in E by apply is_Some_None.
  unfold check_token_metadata_consistency in E. rewrite Htok, !lookup_empty in E.
  cbn [add_trading_pair_request tr_base at_metadata metadata_from am_decimals decimals] in E.
  rewrite Hb in E. change (pow10_u64 (lg_decimals cksol)) with (checked 64 (10 ^ 9)) in E.
  rewrite checked_in in E by done.
  pose proof (u128_range tick). pose proof (u64_range lot).
  rewrite checked_mul_u64_eq, qval_from_u128 in E.
  rewrite q_checked_in in E by (rewrite Hdiv; done). cbn [expect ebind] in E.
  rewrite checked_div_rem_u64_eq, q_of_Z_val in E by (rewrite Hdiv; done).
  rewrite Hdiv in E. change (uval (mk_uint 64 (10 ^ 9)) =? 0) with false in E. cbn [expect ebind] in E.
  change (negb (uval (mk_uint 64 (10 ^ 9 `mod` uval (mk_uint 64 (10 ^ 9)))) =? 0)) with false in E.
  cbv iota in E. apply bind_Done in E as (w1 & E & [= <- <-]). exists w1. split; [done|].
  unfold process_event in E. apply bind_Done in E as (s & E & [= <-]). by apply record_pair_lists in E.
Qed.

Definition default_setup (pk : Pocket) : Setup :=
  MkSetup (pk_caller pk) (pk_controller pk) (pk_oisy_trade_id pk) (pk_base_ledger_id pk)
    (pk_quote_ledger_id pk) cksol ckbtc.
Definition test_ledger (pk : Pocket) (config : LedgerConfig) : Ledger :=
  l_install (ledger_init_args _ (pk_controller pk) config).

(** What a setup with its pair offers: empty ledgers, nothing in custody, and any
    user may deposit either token. *)
Record ready (pk : Pocket) (te : TestEnv) : Prop := {
  rd_reached : reached 1 (te_sys te);
  rd_rt : te_rt te = pocket_rt pk;
  rd_base : te_ledgers te !! pk_base_ledger_id pk = Some (test_ledger pk cksol);
  rd_quote : te_ledgers te !! pk_quote_ledger_id pk = Some (test_ledger pk ckbtc);
  rd_custody t : custody t (te_sys te) = 0;
  rd_empty who t : get_balance (st (te_sys te)) who t = balance_zero;
  rd_deposit who ledger : ledger ∈ [pk_base_ledger_id pk; pk_quote_ledger_id pk] →
    may_deposit (st (te_sys te)) (env_rt (set_caller who (te_env te (CallFails [])))) (MkTokenId ledger)
}.

Lemma setup_ready pk : pk_base_ledger_id pk ≠ pk_quote_ledger_id pk →
  ∃ te0 te, setup_build pk setup_builder = Done (default_setup pk, te0) ∧
    setup_add_trading_pair (default_setup pk) te0 = Done te ∧ ready pk te.
Proof.
  intros Hne. destruct (install default_init_arg (pocket_rt pk)) as [sys|] eqn:Ei; [|by vm_compute in Ei].
  pose proof (reached_install _ _ _ Ei) as Hr.
  pose proof (si_world _ _ (reached_inv 0 sys Hr ltac:(done))) as Hw.
  set (te0 := MkTestEnv sys (<[pk_quote_ledger_id pk := test_ledger pk ckbtc]>
    (<[pk_base_ledger_id pk := test_ledger pk cksol]> ∅)) (pocket_rt pk)).
  set (env := set_caller (pk_controller pk) (te_env te0 (CallFails []))).
  assert (Hs : sys_flows sys = [] ∧ st_tokens (st sys) = ∅ ∧ st_trading_pairs (st sys) = bi_default ∧
    st_mode (st sys) = GeneralAvailability ∧ st_user_registry (st sys) = registry_new ∧
    st_in_flight_user_ops (st sys) = ∅) by (by injection Ei as <-).
  destruct Hs as (Hfl & Htok & Hpairs & Hmode & Hreg & Hop).
  destruct (default_pair_listed (sys_world sys) (env_rt env) (default_setup pk))
    as (w & E & Hm' & Hr' & Ho' & Hb & Hq); [done..|by apply bool_decide_eq_true|].
  set (te := MkTestEnv (set_timer false (set_world w sys)) (te_ledgers te0) (pocket_rt pk)).
  assert (Hmain : main_add_trading_pair (sys_world sys) (add_trading_pair_request (default_setup pk))
    (env_rt env) = Done (Ok (), w, quiet)) by (unfold main_add_trading_pair, entry; by rewrite E).
  exists te0, te. split_and!.
  - unfold setup_build. cbn [setup_builder sb_init_arg]. by rewrite Ei.
  - unfold setup_add_trading_pair, submit_trading_pair, te_call, te_client.
    change (client_add_trading_pair ?c ?r ?s) with (client_run (CAddTradingPair r) c s).
    change (su_oisy_trade_id (default_setup pk)) with (self_id env).
    rewrite client_run_eq by apply pocket_ic_runtime_answers. cbn [canister_run].
    fold env. cbn [te_sys te0]. rewrite Hmain. done.
  - split.
    + apply (reached_message 0 sys (env_rt env) (AddTradingPair (add_trading_pair_request (default_setup pk))));
        [done|done|]. cbn [deliver]. by rewrite Hmain.
    + done.
    + cbn. by rewrite lookup_insert_ne, lookup_insert_eq by done.
    + cbn. by rewrite lookup_insert_eq.
    + intros t. unfold custody. cbn. by rewrite Hfl.
    + intros who t. change (st (te_sys te)) with (w_state w). unfold get_balance. rewrite Hr'. unfold st in Hreg. by rewrite Hreg.
    + intros who ledger Hin. change (st (te_sys te)) with (w_state w). split.
      * unfold assert_caller_is_allowed. rewrite Hm'. unfold st in Hmode. by rewrite Hmode.
      * apply elem_of_cons in Hin as [->|Hin]; [exact Hb|].
        apply list_elem_of_singleton in Hin as ->. exact Hq.
      * unfold is_trading_account. rewrite Hr'. unfold st in Hreg. by rewrite Hreg.
      * rewrite Ho'. unfold st in Hop. rewrite Hop. set_solver.
Qed.

(** The two users of a fresh setup are funded, each with their token. *)
Lemma fresh_setup_is_funded pk seller buyer (a b : u64) :
  NoDup [pk_base_ledger_id pk; pk_quote_ledger_id pk] →
  NoDup [seller; pk_oisy_trade_id pk; pk_controller pk] →
  NoDup [buyer; pk_oisy_trade_id pk; pk_controller pk] →
  a + 2 * BASE_LEDGER_FEE < 2 ^ 64 → b + 2 * QUOTE_LEDGER_FEE < 2 ^ 64 →
  let setup := default_setup pk in
  ∃ te0 te1 te2 te3, setup_build pk setup_builder = Done (setup, te0) ∧
    setup_add_trading_pair setup te0 = Done te1 ∧
    fund_base setup seller a te1 = Done te2 ∧ fund_quote setup buyer b te2 = Done te3 ∧
    reached 5 (te_sys te3) ∧
    qval (free (get_balance (st (te_sys te2)) seller (token_from (base_token_id setup)))) = a ∧
    qval (free (get_balance (st (te_sys te3)) buyer (token_from (quote_token_id setup)))) =
      qval (free (get_balance (st (te_sys te2)) buyer (token_from (quote_token_id setup)))) + b ∧
    custody (token_from (base_token_id setup)) (te_sys te3) = a ∧
    custody (token_from (quote_token_id setup)) (te_sys te3) = b.
Proof.
  intros Hne Hs Hb Hfa Hfb setup. apply NoDup_cons in Hne as [Hne _]. rewrite list_elem_of_singleton in Hne.
  pose proof (uint_range a) as Ha0. pose proof (uint_range b) as Hb0.
  change (2 ^ Z.of_N 64) with (2 ^ 64) in Ha0, Hb0.
  assert (Hsup : 2 ^ 64 < MAX_SUPPLY) by done.
  destruct (setup_ready pk Hne) as (te0 & te1 & E0 & E1 & [Hr Hrt Hlb Hlq Hcus Hzero Hdep]).
  set (tb := MkTokenId (pk_base_ledger_id pk)). set (tq := MkTokenId (pk_quote_ledger_id pk)).
  destruct (l_install_ok (ledger_init_args MetadataValue (pk_controller pk) cksol)) as [Hfee1 Hmin1].
  destruct (l_install_ok (ledger_init_args MetadataValue (pk_controller pk) ckbtc)) as [Hfee2 Hmin2].
  destruct (fund_ok 1 te1 setup seller (pk_base_ledger_id pk) BASE_LEDGER_FEE a _ Hlb Hfee1 Hmin1)
    as (sys2 & l2 & E2 & Hr2 & Hl2 & Hc2); try done.
  - by rewrite Hrt.
  - by rewrite Hrt.
  - apply Hdep. set_solver.
  - rewrite Hcus. lia.
  - set (te2 := MkTestEnv sys2 (<[pk_base_ledger_id pk := l2]> (te_ledgers te1)) (te_rt te1)) in *.
    assert (Hcb : custody tb sys2 = a).
    { rewrite (cr_custody _ _ _ _ _ Hc2), Hcus, decide_True by done. lia. }
    assert (Hcq : custody tq sys2 = 0).
    { rewrite (cr_custody _ _ _ _ _ Hc2), Hcus, decide_False; [lia|]. by intros [= Heq]. }
    destruct (fund_ok 3 te2 setup buyer (pk_quote_ledger_id pk) QUOTE_LEDGER_FEE b
      (test_ledger pk ckbtc)) as (sys3 & l3 & E3 & Hr3 & Hl3 & Hc3); try done.
    + cbn. by rewrite lookup_insert_ne by done.
    + cbn. by rewrite Hrt.
    + cbn. by rewrite Hrt.
    + apply (may_deposit_same (st (te_sys te1))); [exact (cr_access _ _ _ _ _ Hc2)|]. apply Hdep. set_solver.
    + fold tq. cbn [te_sys te2]. rewrite Hcq. lia.
    + exists te0, te1, te2. eexists. split_and!; [exact E0|exact E1|exact E2|exact E3|exact Hr3| | | |]; cbn [te_sys te2].
      * etrans; [exact (cr_free _ _ _ _ _ Hc2)|]. rewrite Hzero. change (qval (free balance_zero)) with 0. lia.
      * etrans; [exact (cr_free _ _ _ _ _ Hc3)|]. by rewrite Z2N.id by lia.
      * etrans; [exact (cr_custody _ _ _ _ _ Hc3 tb)|]. rewrite decide_False by (by intros [= Heq]).
        cbn [te_sys te2]. lia.
      * etrans; [exact (cr_custody _ _ _ _ _ Hc3 tq)|]. rewrite decide_True by done. cbn [te_sys te2]. lia.
Qed.
End flows.

(** ** A ledger of two maps *)

(** The standards can be met: balances and allowances in finite maps. *)
Module MapLedger.
Section map_ledger.
Context `{PrincipalType}.

Record Book : Type := MkBook {
  bk_fee : N; bk_minter : Principal;
  bk_balances : gmap Principal N; bk_allowances : gmap (Principal * Principal) N
}.
Definition balance (l : Book) (p : Principal) : N := default 0%N (bk_balances l !! p).
Definition allowance (l : Book) (owner spender : Principal) : N :=
  default 0%N (bk_allowances l !! (owner, spender)).
Definition credit (p : Principal) (a : N) (l : Book) : Book :=
  MkBook (bk_fee l) (bk_minter l) (<[p := (balance l p + a)%N]> (bk_balances l)) (bk_allowances l).
Definition debit (p : Principal) (a : N) (l : Book) : Book :=
  MkBook (bk_fee l) (bk_minter l) (<[p := (balance l p - a)%N]> (bk_balances l)) (bk_allowances l).
Definition allow (owner spender : Principal) (a : N) (l : Book) : Book :=
  MkBook (bk_fee l) (bk_minter l) (bk_balances l) (<[(owner, spender) := a]> (bk_allowances l)).

Definition move (l : Book) (from to : Principal) (a : N) : result N TransferError * Book :=
  if decide (from = bk_minter l) then (Ok 0%N, credit to a l)
  else if (balance l from <? a + bk_fee l)%N then (Err (TEInsufficientFunds (balance l from)), l)
  else (Ok 0%N, credit to a (debit from (a + bk_fee l) l)).
Definition grant (l : Book) (owner spender : Principal) (a : N) : option N * Book :=
  if (balance l owner <? bk_fee l)%N then (None, l)
  else (Some 0%N, allow owner spender a (debit owner (bk_fee l) l)).
Definition move_from (l : Book) (spender : Principal) (args : TransferFromArgs) :
    result N TransferFromError * Book :=
  let total := (tf_amount args + bk_fee l)%N in
  let from := tf_from args in
  if (allowance l from spender <? total)%N then (Err (TFInsufficientAllowance (allowance l from spender)), l)
  else if (balance l from <? total)%N then (Err (TFInsufficientFunds (balance l from)), l)
  else (Ok 0%N, allow from spender (allowance l from spender - total)%N
                  (credit (tf_to args) (tf_amount args) (debit from total l))).

Lemma balance_credit p a l q : balance (credit p a l) q = (if decide (q = p) then balance l q + a else balance l q)%N.
Proof. unfold balance. cbn. case_decide; subst; [by rewrite lookup_insert_eq|by rewrite lookup_insert_ne by done]. Qed.
Lemma balance_debit p a l q : balance (debit p a l) q = (if decide (q = p) then balance l q - a else balance l q)%N.
Proof. unfold balance. cbn. case_decide; subst; [by rewrite lookup_insert_eq|by rewrite lookup_insert_ne by done]. Qed.

#[global, program] Instance ledger : IcrcLedger := {|
  Ledger := Book;
  MetadataValue := unit;
  l_install args := MkBook (li_transfer_fee _ args) (ac_owner (li_minting_account _ args)) ∅ ∅;
  l_fee := bk_fee; l_minter := bk_minter; l_balance := balance; l_allowance := allowance;
  l_transfer := move; l_approve := grant; l_transfer_from := move_from
|}.
Next Obligation. done. Qed.
Next Obligation.
  intros l to a Hto. exists 0%N, (credit to a l). unfold move. rewrite decide_True by done.
  split_and!; try done. intros p. apply balance_credit.
Qed.
Next Obligation.
  intros l owner spender a Ho Hs Hb. unfold grant. destruct (N.ltb_spec (balance l owner) (bk_fee l)); [lia|].
  eexists _, _. split; [done|]. split_and!; [done|done|unfold allowance; cbn; by rewrite lookup_insert_eq|].
  intros p. apply balance_debit.
Qed.
Next Obligation.
  intros l spender args Hf Ht Hne Hb Ha. unfold move_from.
  destruct (N.ltb_spec (allowance l (tf_from args) spender) (tf_amount args + bk_fee l)); [lia|].
  destruct (N.ltb_spec (balance l (tf_from args)) (tf_amount args + bk_fee l)); [lia|].
  eexists _, _. split; [done|]. split_and!; try done. intros p.
  change (balance (allow _ _ _ ?l) p) with (balance l p). rewrite balance_credit, balance_debit.
  repeat case_decide; subst; congruence.
Qed.
End map_ledger.
End MapLedger.
