(* ===== verification/Exit.v ===== *)
(** * Leaving the exchange

    A user is never locked in: once a timer has drained the outstanding settlements,
    canceling the open orders frees all that is reserved, and a withdrawal that the
    ledger accepts pays it out. Each step is a message of the system, shown to succeed
    from any state the canister reaches. *)

From stdpp Require Import prelude gmap.
From Stdlib Require Import ZArith NArith Lia.
From S2P Require Import Prelude Word BTree Text Bytes Quantity QuantityCodec.
From S2P Require Import Ids Fees OrderTypes OrderBook BookInv BookPending BookCancel.
From S2P Require Import Tokens Balance WriteBack BalanceTotals.
From S2P Require Import History OrderHistory UserRegistry UserRegistryInv.
From S2P Require Import Settlement Permissions PairMap Events.
From S2P Require Import State EventAudit Replay Accounting StateInv.
From S2P Require Import InvSettle InvBook InvOrder InvFunds Executor ExecutorSpec InvExecutor.
From S2P Require Import ApiErrors Api Ledger Endpoints EntryPoints EndpointSpec InvEndpoints.
From S2P Require Import System SystemInv SystemRun SystemLive Queries Client Views Flows.
Open Scope Z_scope.

Section exit.
Context `{PrincipalType} `{!BiBTreeMap TradingPair OrderBookId} `{BigUint}.
Implicit Types (s : State) (w : World) (sys : System) (rt : Runtime) (who : Principal).
Implicit Types (id : OrderId) (r : OrderRecord) (t : TokenId).

(** ** The open orders of a user *)

#[export] Instance live_dec st : Decision (live st).
Proof. unfold live. apply _. Defined.

Definition open_of who (e : OrderId * SeqRecord OrderRecord) : Prop :=
  or_owner (sr_record e.2) = who ∧ live (or_status (sr_record e.2)).
#[local] Instance open_of_dec who e : Decision (open_of who e).
Proof. unfold open_of. apply _. Defined.

Definition open_orders s who : list OrderId :=
  fst <$> filter (open_of who) (map_to_list (primary (st_order_history s))).

Lemma open_orders_elem s who id :
  id ∈ open_orders s who ↔
  ∃ r, history_get (st_order_history s) id = Some r ∧ or_owner r = who ∧ live (or_status r).
Proof.
  unfold open_orders, history_get. rewrite list_elem_of_fmap. split.
  - intros ([id' sr] & -> & [Ho Hin]%list_elem_of_filter). apply elem_of_map_to_list in Hin.
    exists (sr_record sr). cbn [fst]. by rewrite Hin.
  - intros (r & E & Ho). apply fmap_Some in E as (sr & E & ->). exists (id, sr). split; [done|].
    apply list_elem_of_filter. by rewrite elem_of_map_to_list.
Qed.

Lemma open_orders_NoDup s who : NoDup (open_orders s who).
Proof.
  unfold open_orders. apply (sublist_NoDup _ ((map_to_list (primary (st_order_history s))).*1));
    [apply NoDup_fst_map_to_list|apply fmap_sublist, sublist_filter].
Qed.

Lemma open_orders_length s who : (length (open_orders s who) ≤ size (primary (st_order_history s)))%nat.
Proof.
  unfold open_orders. rewrite length_fmap, <- length_map_to_list. apply length_filter.
Qed.

(** Without an open order and with nothing left to settle, nothing is reserved. *)
Lemma nothing_reserved n s who u t :
  core n [] s → users (st_user_registry s) !! who = Some u → open_orders s who = [] →
  qval (reserved (amount_of (tb_balances (st_balances s)) (t, u))) = 0.
Proof.
  intros Hc Hu Hopen. rewrite (co_reserved _ _ _ Hc). unfold owed.
  assert (Hz : ∀ id r, history_get (st_order_history s) id = Some r → share s [] t u id r = 0).
  { intros id r Hr. unfold share. case_decide as Hrow; [|done]. unfold row_of in Hrow.
    destruct (get_pair _ _) as [tp|]; [|done].
    destruct (users (st_user_registry s) !! or_owner r) as [u'|] eqn:Eo; [|done].
    injection Hrow as _ ->. assert (or_owner r = who) as Hown by (by eapply (ri_inj _ (co_registry _ _ _ Hc))).
    assert (¬ live (or_status r)) as Hl.
    { intros Hl. assert (id ∈ open_orders s who) as Hin by (apply open_orders_elem; eauto).
      rewrite Hopen in Hin. by apply not_elem_of_nil in Hin. }
    destruct (co_order _ _ _ Hc id r Hr) as (b & pair & sc & Hli & Ho).
    destruct (co_book _ _ _ Hc _ _ (li_book _ _ _ _ _ Hli)) as (_ & _ & _ & Hb & _).
    assert (Hoff : off_book b (order_seq id)).
    { pose proof (oo_status _ _ _ _ _ Ho) as Hst. unfold live in Hl. destruct (or_status r); naive_solver. }
    unfold StateInv.held, book_open, queued. rewrite (li_book _ _ _ _ _ Hli). cbn [from_option].
    rewrite off_book_open by (done || apply Hb). rewrite resZ_zero. done. }
  rewrite (hsum_ext _ (λ _ _, 0) _ history_new); [done|]. intros id. unfold weight_at.
  destruct (history_get (st_order_history s) id) as [r|] eqn:Er; [by apply Hz|done].
Qed.

(** ** Draining the settlements *)

(** With instructions to spare, the periodic timer leaves nothing to settle. *)
Lemma interval_drains k sys rt :
  reached k sys → Z.of_nat k + 1 < MAX_STEPS → ample rt (st sys) →
  ∃ sys', deliver rt sys IntervalFires = Done sys' ∧ reached (S k) sys' ∧
    st_pending_settling_events (st sys') = [] ∧
    st_user_registry (st sys') = st_user_registry (st sys) ∧ st_mode (st sys') = st_mode (st sys) ∧
    st_in_flight_user_ops (st sys') = st_in_flight_user_ops (st sys) ∧
    st_tokens (st sys') = st_tokens (st sys).
Proof.
  intros Hr Hk Ha. pose proof (reached_inv k sys Hr ltac:(lia)) as Hs.
  destruct (deliver_done k sys rt IntervalFires Hr Hk I) as [E Hr'].
  exists (deliver_or sys (rt, IntervalFires)). split; [done|]. split; [done|]. clear Hr'. revert E.
  generalize (deliver_or sys (rt, IntervalFires)). intros sys' E. cbn [deliver] in E.
  unfold drive_matching, drive_pending_orders, timer_guard_new in E.
  rewrite bool_decide_eq_false_2 in E by (rewrite (si_tasks _ _ Hs); apply not_elem_of_empty).
  set (s1 := set_active_tasks _ _) in E.
  destruct (run_once_progress (Z.of_nat k) rt (MkWorld s1 (w_log (sys_world sys))))
    as (status & w2 & E2 & _ & Hi & Hq & _);
    [eapply core_same; [|exact (si_world _ _ Hs)]; done|lia|exact Ha|].
  rewrite E2 in E. cbn [ebind] in E. injection E as <-. unfold st. cbn.
  split_and!; [exact Hq|exact (in_registry _ _ Hi)|exact (in_mode _ _ Hi)|exact (in_ops _ _ Hi)|
    exact (in_tokens _ _ Hi)].
Qed.

(** ** Canceling the open orders *)

Definition cancels rt (ids : list OrderId) : list (Runtime * Message) :=
  (λ id, (rt, CancelLimitOrder (to_string id))) <$> ids.

(** The same user, with the same money. *)
Record same_user s s' : Prop := {
  us_registry : st_user_registry s' = st_user_registry s;
  us_mode : st_mode s' = st_mode s;
  us_ops : st_in_flight_user_ops s' = st_in_flight_user_ops s;
  us_tokens : st_tokens s' = st_tokens s;
  us_total k : qval (free (amount_of (tb_balances (st_balances s')) k)) +
      qval (reserved (amount_of (tb_balances (st_balances s')) k)) =
    qval (free (amount_of (tb_balances (st_balances s)) k)) +
      qval (reserved (amount_of (tb_balances (st_balances s)) k))
}.
#[export] Instance same_user_preorder : PreOrder same_user.
Proof.
  split; [done|]. intros s1 s2 s3 [] []. split; congruence.
Qed.

Lemma allowed_same s s' rt :
  same_user s s' → assert_caller_is_allowed s rt = Done () → assert_caller_is_allowed s' rt = Done ().
Proof. intros [_ Hm _ _ _]. unfold assert_caller_is_allowed. by rewrite Hm. Qed.

Lemma funding_effective s who :
  trading_accounts (st_user_registry s) !! who = None → effective_account s who = who.
Proof.
  intros E. unfold effective_account, registry_lookup. rewrite E. by destruct (users _ !! who).
Qed.

(** One cancellation, through the endpoint. *)
Lemma cancel_message k sys rt id r :
  reached k sys → Z.of_nat k + 1 < MAX_STEPS →
  assert_caller_is_allowed (st sys) rt = Done () →
  trading_accounts (st_user_registry (st sys)) !! rt_msg_caller rt = None →
  history_get (st_order_history (st sys)) id = Some r → or_owner r = rt_msg_caller rt →
  live (or_status r) →
  ∃ answer r' sys', main_cancel_limit_order (sys_world sys) (to_string id) rt =
      Done (Ok answer, sys_world sys', logs Info (CanceledOrder (to_string id) answer)) ∧
    deliver_or sys (rt, CancelLimitOrder (to_string id)) = sys' ∧ reached (S k) sys' ∧
    canceled_in (st sys) (st sys') id r'.
Proof.
  intros Hr Hk Ha Ht Hid Ho Hl. pose proof (reached_inv k sys Hr ltac:(lia)) as Hs.
  destruct (deliver_done k sys rt (CancelLimitOrder (to_string id)) Hr Hk Ha) as [E Hr'].
  assert (Eff : effective_account (w_state (sys_world sys)) (rt_msg_caller rt) = or_owner r)
    by (rewrite Ho; by apply funding_effective).
  destruct (cancel_live (Z.of_nat k) (sys_world sys) (acting_caller (rt_msg_caller rt) (or_owner r)) id r rt
    (si_world _ _ Hs) ltac:(lia) Hid Hl) as (r' & w' & Ec & _ & _ & Hin).
  assert (Em : main_cancel_limit_order (sys_world sys) (to_string id) rt =
    Done (Ok (api_order_record r'), w', logs Info (CanceledOrder (to_string id) (api_order_record r')))).
  { unfold main_cancel_limit_order, entry, cancel_limit_order_endpoint.
    unfold st in Ha. rewrite Ha. cbn [ebind]. unfold from_str, to_string at 1.
    rewrite from_write_hex, Eff, Ec. done. }
  exists (api_order_record r'), r', (set_timer false (set_world w' sys)). split; [exact Em|].
  assert (Hd : deliver_or sys (rt, CancelLimitOrder (to_string id)) = set_timer false (set_world w' sys)).
  { unfold deliver_or. cbn [fst snd deliver]. by rewrite Em. }
  split; [done|]. rewrite Hd in Hr'. split; [done|]. exact Hin.
Qed.

Lemma cancel_all rt ids : ∀ k sys,
  reached k sys → Z.of_nat (k + length ids) + 1 < MAX_STEPS →
  assert_caller_is_allowed (st sys) rt = Done () →
  trading_accounts (st_user_registry (st sys)) !! rt_msg_caller rt = None →
  NoDup ids → (∀ id, id ∈ ids → id ∈ open_orders (st sys) (rt_msg_caller rt)) →
  let sys' := deliver_all (cancels rt ids) sys in
  reached (k + length ids) sys' ∧ same_user (st sys) (st sys') ∧
  st_pending_settling_events (st sys') = st_pending_settling_events (st sys) ∧
  ∀ id, id ∈ open_orders (st sys') (rt_msg_caller rt) ↔
    id ∈ open_orders (st sys) (rt_msg_caller rt) ∧ id ∉ ids.
Proof.
  induction ids as [|id ids IH]; intros k sys Hr Hk Ha Ht Hnd Hin.
  { rewrite Nat.add_0_r. split_and!; try done. intros id. split; [|naive_solver].
    intros Hid. split; [done|apply not_elem_of_nil]. }
  apply NoDup_cons in Hnd as [Hid Hnd].
  destruct (proj1 (open_orders_elem _ _ _) (Hin id ltac:(left))) as (r & Hg & Ho & Hl).
  cbn [length] in Hk.
  destruct (cancel_message k sys rt id r Hr ltac:(lia) Ha Ht Hg Ho Hl) as (a & r' & sys1 & _ & E & Hr1 & Hc).
  assert (Hsu : same_user (st sys) (st sys1)) by (destruct Hc; by split).
  assert (Hopen : ∀ id', id' ∈ open_orders (st sys1) (rt_msg_caller rt) ↔
    id' ∈ open_orders (st sys) (rt_msg_caller rt) ∧ id' ≠ id).
  { intros id'. rewrite !open_orders_elem. setoid_rewrite (ca_history _ _ _ _ Hc).
    pose proof (ca_status _ _ _ _ Hc) as Hst. case_decide as He; [|naive_solver].
    split; [|naive_solver]. intros (r0 & [= <-] & _ & Hl'). unfold live in Hl'. rewrite Hst in Hl'. naive_solver. }
  change (cancels rt (id :: ids)) with ((rt, CancelLimitOrder (to_string id)) :: cancels rt ids).
  rewrite deliver_all_cons, E.
  destruct (IH (S k) sys1 Hr1) as (Hr2 & Hsu2 & Hq2 & Ho2); [lia|by eapply allowed_same| |done| |].
  - by rewrite (ca_registry _ _ _ _ Hc).
  - intros id' Hid'. apply Hopen. split; [apply Hin; by right|]. by intros ->.
  - cbn [length]. rewrite Nat.add_succ_r. split_and!; [exact Hr2|by etrans|by rewrite Hq2, (ca_queue _ _ _ _ Hc)|].
    intros id'. rewrite Ho2, Hopen, not_elem_of_cons. naive_solver.
Qed.

(** ** Paying out *)

Lemma state_withdraw_Ok s who u t a :
  lookup_funding_id (st_user_registry s) who = Some u →
  qval a ≤ qval (free (amount_of (tb_balances (st_balances s)) (t, u))) →
  ∃ tb, state_withdraw s who t a = Done (Ok (), set_balances tb s) ∧
    (∀ k, reserved (amount_of (tb_balances tb) k) = reserved (amount_of (tb_balances (st_balances s)) k)) ∧
    ∀ k, qval (free (amount_of (tb_balances (st_balances s)) k)) =
      qval (free (amount_of (tb_balances tb) k)) + at_key k (t, u) (qval a).
Proof.
  intros Hu Ha. unfold state_withdraw. rewrite Hu.
  destruct (tb_withdraw_total (st_balances s) u t a) as (r & tb & E). rewrite E. cbn [ebind].
  apply tb_withdraw_Done in E. destruct r as [[]|e]; [|lia]. exists tb. by destruct_and? E.
Qed.

Section withdraw_call.
Context (k : nat) (sys : System) (env : Env) (tok : ApiTokenId) (amount block : N).
Let rt := env_rt env.
Let who := rt_msg_caller rt.
Let t := token_from tok.
Let req := MkWithdrawRequest tok amount.
Let q := q_of_Z (Z.of_N amount).
Context (Hr : reached k sys) (Hk : Z.of_nat k + 2 < MAX_STEPS).
Context (Hmay : may_deposit (st sys) rt t).
Context (Hpos : (0 < amount)%N) (Hfree : Z.of_N amount ≤ qval (free (get_balance (st sys) who t))).
Context (Hbetween : env_between env = []) (Hreply : ∀ c, env_ledger env 0%nat c = Replied (Ok block)).
Context (Hfit : replies_fit (env_ledger env)).

Lemma amount_held : qval q = Z.of_N amount.
Proof. apply q_of_Z_val. pose proof (qval_range (free (get_balance (st sys) who t))). lia. Qed.

Let guarded := set_in_flight_user_ops ({[(who, t)]} ∪ st_in_flight_user_ops (st sys)) (st sys).
Let fee := get_cached_ledger_fee (st sys) t.

(** The first half debits the amount. *)
Lemma withdraw_started :
  ∃ u pre tb, users (st_user_registry (st sys)) !! who = Some u ∧
    main_withdraw_begin (sys_world sys) req rt =
      Done (Ok (MkPendingFunding who t q pre, fee),
        MkWorld (set_balances tb guarded) (w_log (sys_world sys)), quiet) ∧
    (∀ key, reserved (amount_of (tb_balances tb) key) =
       reserved (amount_of (tb_balances (st_balances (st sys))) key)) ∧
    ∀ key, qval (free (amount_of (tb_balances (st_balances (st sys))) key)) =
      qval (free (amount_of (tb_balances tb) key)) + at_key key (t, u) (qval q).
Proof.
  destruct Hmay as [Ha Htok Hfund Hidle]. pose proof (is_trading_false _ _ Hfund) as Hta.
  destruct (lookup_funding_id (st_user_registry (st sys)) who) as [u|] eqn:Eu.
  2:{ rewrite get_balance_new in Hfree by done. change (qval (free balance_zero)) with 0 in Hfree. lia. }
  destruct (state_withdraw_Ok guarded who u t q Eu) as (tb & E & Hres & Hf).
  { rewrite amount_held. by rewrite (get_balance_row _ _ _ _ Eu) in Hfree. }
  exists u. eexists _, tb. split; [by rewrite <- funding_users|]. split; [|done].
  unfold main_withdraw_begin, entry, withdraw_begin. fold rt. unfold st in Ha.
  rewrite Ha. cbn [ebind req wr_amount wr_token_id]. rewrite try_from_nat_eq.
  pose proof (qval_range q) as Hq. rewrite amount_held in Hq.
  destruct (Z.ltb_spec (Z.of_N amount) (2 ^ 256)); [|lia]. fold q t.
  unfold is_known_token. rewrite bool_decide_eq_true_2 by done. cbn [negb].
  rewrite is_zero_spec, amount_held. destruct (Z.eqb_spec (Z.of_N amount) 0); [lia|].
  unfold permit_withdraw. unfold st in Hfund. fold who. fold who in Hfund. rewrite Hfund.
  unfold user_op_guard_new. rewrite bool_decide_eq_false_2 by done.
  unfold guarded, st in E. rewrite E. done.
Qed.

Lemma accepted : ∃ call,
  ledger_withdraw t who q fee (env_ledger env) =
    Done (MkWithdrawOutcome (Ok (MkWithdrawResponse block)) None, [call]) ∧
  tc_ledger call = ledger_id t ∧ Z.of_N (tc_amount call + tc_fee call) = Z.of_N amount.
Proof.
  destruct (ledger_withdraw_spec t who q fee (env_ledger env)) as (o & calls & E & _ & Hf & _);
    [rewrite amount_held; lia|].
  unfold ledger_withdraw in *. destruct (nat_sub (to_nat q) 1) as [most|]; [|done]. cbn [ebind] in *.
  destruct (nat_sub (to_nat q) _) as [amt|]; [|done]. cbn [ebind] in *.
  set (call := MkTransferCall _ _ _ _) in *. rewrite Hreply in *. cbn [icrc1_transfer ebind] in *.
  injection E as <- <-. exists call. split; [done|]. apply Forall_cons in Hf as [(Hl & _ & Ha & _) _].
  split; [done|]. by rewrite Ha, amount_held.
Qed.

Let debited tb := MkWorld (set_balances tb guarded) (w_log (sys_world sys)).
Let funding pre := MkPendingFunding who t q pre.
Let waiting pre tb := suspend (AwaitWithdraw req (funding pre) fee)
  (set_timer false (set_world (debited tb) sys)).

Lemma withdraw_message_run pre tb :
  main_withdraw_begin (sys_world sys) req rt = Done (Ok (funding pre, fee), debited tb, quiet) →
  reached (k + 2) (withdraw_call_answer env sys req).2.
Proof.
  intros Hm. assert (Hwait : withdraw_wait env sys req = Some (funding pre, fee, waiting pre tb))
    by (unfold withdraw_wait; fold rt; by rewrite Hm, Hbetween).
  assert (Haw : awaiting (CWithdraw req) env sys).
  { cbn [awaiting]. rewrite Hwait. apply position_suspended; [done|]. intros Hin.
    apply (md_idle _ _ _ Hmay). by apply (si_guards _ _ (reached_inv k sys Hr ltac:(lia))). }
  rewrite withdraw_messages by done. cbn [messages]. rewrite Hwait, Hbetween.
  apply (deliver_all_reached [_; _] k); [done|cbn [length]; lia|].
  split; [apply (md_allowed _ _ _ Hmay)|]. by split.
Qed.

Lemma withdraw_answer pre tb call :
  main_withdraw_begin (sys_world sys) req rt = Done (Ok (funding pre, fee), debited tb, quiet) →
  ledger_withdraw t who q fee (env_ledger env) =
    Done (MkWithdrawOutcome (Ok (MkWithdrawResponse block)) None, [call]) →
  ∃ w fx, withdraw_call_answer env sys req =
      (Done (Ok (MkWithdrawResponse block)),
       record_flow [(MkTokenId (tc_ledger call), - Z.of_N (tc_amount call + tc_fee call))]
         (resume (position (funding pre) (waiting pre tb))
           (set_timer (fx_timer fx) (set_world w (waiting pre tb))))) ∧
    w_state w = user_op_guard_drop (set_balances tb guarded) who t.
Proof.
  intros Hm El. destruct (Hfit 0%nat call block (Hreply call)) as [index Hindex].
  unfold withdraw_call_answer. fold rt. rewrite Hm, Hbetween. cbn [fst snd deliver_all foldl].
  cbn [pf_token pf_caller pf_amount funding]. rewrite El. cbn [ebind].
  unfold main_withdraw_end, entry, withdraw_end. cbn [wo_result wo_ledger_fee wr_block_index].
  rewrite Hindex. cbn [expect ebind]. by eexists _, _.
Qed.

(** The ledger accepts, so the amount has left the canister. *)
Lemma withdraw_call_ok :
  ∃ sys', finish (withdraw_call_answer env sys req) = Done (Ok (MkWithdrawResponse block), sys') ∧
    reached (k + 2) sys' ∧
    reserved (get_balance (st sys') who t) = reserved (get_balance (st sys) who t) ∧
    qval (free (get_balance (st sys') who t)) = qval (free (get_balance (st sys) who t)) - Z.of_N amount ∧
    ∀ t', custody t' sys' = custody t' sys - (if decide (t = t') then Z.of_N amount else 0).
Proof.
  destruct withdraw_started as (u & pre & tb & Hu & Hm & Hres & Hf).
  destruct accepted as (call & El & Hcl & Hca).
  pose proof (withdraw_message_run pre tb Hm) as Hr2.
  destruct (withdraw_answer pre tb call Hm El) as (w & fx & Hans & Hw).
  destruct (withdraw_call_answer env sys req) as [ans sys'] eqn:Ecall. cbn [snd] in Hr2.
  injection Hans as -> Hsys. exists sys'. split; [done|]. split; [exact Hr2|].
  pose proof (is_trading_false _ _ (md_funding _ _ _ Hmay)) as Hta.
  assert (Hl : lookup_funding_id (st_user_registry (st sys)) who = Some u) by (by rewrite funding_users).
  assert (Hnew : get_balance (st sys') who t = amount_of (tb_balances tb) (t, u)).
  { rewrite Hsys. change (get_balance (w_state w) who t = amount_of (tb_balances tb) (t, u)). rewrite Hw. exact (get_balance_row (user_op_guard_drop (set_balances tb guarded) who t) who t u Hl). }
  rewrite Hnew, (get_balance_row _ _ _ u Hl). split; [apply Hres|]. split.
  - specialize (Hf (t, u)). rewrite amount_held in Hf. unfold at_key in Hf. rewrite decide_True in Hf by done. lia.
  - intros t'. rewrite Hsys. unfold custody. cbn [sys_flows record_flow resume set_timer set_world waiting suspend].
    rewrite sum_over_app, sum_over_cons, sum_over_nil, Hcl, Hca. cbn [fst snd].
    change (MkTokenId (ledger_id t)) with t. case_decide; lia.
Qed.
End withdraw_call.
(** ** The whole way out *)

Lemma open_orders_bound k sys who :
  reached k sys → Z.of_nat k < MAX_STEPS → Z.of_nat (length (open_orders (st sys) who)) ≤ Z.of_nat k.
Proof.
  intros Hr Hk. destruct (co_history _ _ _ (si_world _ _ (reached_inv k sys Hr Hk))) as (log & Hl & Hlen).
  pose proof (open_orders_length (st sys) who) as Ho. unfold st in *. rewrite (ls_size _ _ Hl) in Ho. lia.
Qed.

Lemma may_deposit_kept s s' rt t :
  st_user_registry s' = st_user_registry s → st_mode s' = st_mode s →
  st_in_flight_user_ops s' = st_in_flight_user_ops s → st_tokens s' = st_tokens s →
  may_deposit s rt t → may_deposit s' rt t.
Proof.
  intros Er Em Eo Et [Ha Ht Hf Hi]. split.
  - unfold assert_caller_is_allowed in *. by rewrite Em.
  - by rewrite Et.
  - unfold is_trading_account in *. by rewrite Er.
  - by rewrite Eo.
Qed.

(** Canceling all that is open, with nothing outstanding, leaves all of the user's money free. *)
Lemma cancel_all_frees k sys rt t :
  let who := rt_msg_caller rt in
  let ids := open_orders (st sys) who in
  let sys' := deliver_all (cancels rt ids) sys in
  reached k sys → 2 * Z.of_nat k + 1 < MAX_STEPS → st_pending_settling_events (st sys) = [] →
  may_deposit (st sys) rt t →
  reached (k + length ids) sys' ∧ may_deposit (st sys') rt t ∧ open_orders (st sys') who = [] ∧
  ∀ t', qval (reserved (get_balance (st sys') who t')) = 0 ∧
    qval (free (get_balance (st sys') who t')) =
      qval (free (get_balance (st sys) who t')) + qval (reserved (get_balance (st sys) who t')).
Proof.
  intros who ids sys' Hr Hk Hq Hmay. pose proof (is_trading_false _ _ (md_funding _ _ _ Hmay)) as Hta.
  pose proof (open_orders_bound k sys who Hr ltac:(lia)) as Hlen. fold ids in Hlen.
  destruct (cancel_all rt ids k sys Hr) as (Hr' & Hsu & Hq' & Ho);
    [lia|apply (md_allowed _ _ _ Hmay)|done|apply open_orders_NoDup|done|]. fold sys' in Hr', Hsu, Hq', Ho.
  assert (Hopen : open_orders (st sys') who = []).
  { apply elem_of_nil_inv. intros id Hid%Ho. by destruct Hid. }
  split; [done|]. split; [destruct Hsu; by eapply may_deposit_kept|]. split; [done|]. intros t'.
  assert (Ef : lookup_funding_id (st_user_registry (st sys')) who =
    lookup_funding_id (st_user_registry (st sys)) who) by (by rewrite (us_registry _ _ Hsu)).
  destruct (lookup_funding_id (st_user_registry (st sys)) who) as [u|] eqn:Eu.
  2:{ by rewrite !get_balance_new. }
  rewrite !(get_balance_row _ _ _ u) by done. rewrite funding_users in Eu by done.
  pose proof (si_world _ _ (reached_inv _ _ Hr' ltac:(lia))) as Hw. unfold world_inv in Hw.
  change (w_state (sys_world sys')) with (st sys') in Hw. rewrite Hq', Hq in Hw.
  assert (Hz : qval (reserved (amount_of (tb_balances (st_balances (st sys'))) (t', u))) = 0).
  { eapply nothing_reserved; [done| |done]. by rewrite (us_registry _ _ Hsu). }
  split; [done|]. pose proof (us_total _ _ Hsu (t', u)). lia.
Qed.
End exit.
