(* ===== verification/Bench.v ===== *)
(** * The benchmarks (src/canister/src/benchmarks.rs)

    The workloads the canister is measured with: a book filled from a market snapshot,
    takers that sweep a side of it, orders that only rest, the walks over a user's orders
    and trades, and a restart. Each benchmark checks what its measured step left behind;
    a check that fails is a trap.

    What [canbench_rs] measures is left out: [bench_fn] runs its closure. Each benchmark
    runs in a fresh canister, whose stable memory is empty; the JSON files of the market
    data, which serde parses, are arguments.

    The second half shows that the checks hold: [market] is the invariant of a benchmark's
    state, and the sweeps of the bids and the round without fills run to their end for
    every snapshot that is a market ([depth_ok]). *)

From Stdlib Require Import String.
From stdpp Require Import prelude gmap.
From Stdlib Require Import ZArith NArith Lia.
From S2P Require Import Prelude Word BTree Text Bytes Cbor Quantity QuantityCodec.
From S2P Require Import Ids Fees OrderTypes OrderQueue FillPlan OrderBook BookSnapshot.
From S2P Require Import BookInv BookMatching BookInvMatch BookPending BookRound BookCancel.
From S2P Require Import Tokens Balance WriteBack BalanceTotals History OrderHistory.
From S2P Require Import UserRegistry UserRegistryInv Settlement SettlementSpec Permissions.
From S2P Require Import PairMap Events State EventAudit Replay Accounting StateInv.
From S2P Require Import InvSettle InvBook InvMatch InvOrder InvFunds Codecs Snapshot Storage.
From S2P Require Import Executor ExecutorSpec InvExecutor ApiErrors Api EventSize.
From S2P Require Import EndpointSpec InvEndpoints SystemInv SystemRun Queries Client.
Open Scope Z_scope.

(** ** The market data *)

(** Bid and ask levels as texts of price and quantity. *)
Record DepthSnapshot : Type := MkDepthSnapshot {
  ds_bids : list (list u8 * list u8);
  ds_asks : list (list u8 * list u8)
}.
Record AggTrade : Type := MkAggTrade { ag_p : list u8; ag_q : list u8; ag_m : bool }.

(** [str::split_once] of a character. *)
Fixpoint split_once (c : u8) (s : list u8) : option (list u8 * list u8) :=
  match s with
  | [] => None
  | x :: s =>
      if bool_decide (x = c) then Some ([], s) else
      match split_once c s with
      | Some (i, f) => Some (x :: i, f)
      | None => None
      end
  end.

(** [u128::from_str]; a leading [+] is accepted. *)
Definition u128_from_digits (s : list u8) : option u128 :=
  match s with
  | [] => None
  | _ => if forallb is_digit s then checked 128 (decimal_val s) else None
  end.
Definition u128_from_str (s : list u8) : option u128 :=
  match s with
  | c :: rest => if uval c =? 43 then u128_from_digits rest else u128_from_digits s
  | [] => None
  end.

(** The last line wraps around, as it does in a release build. *)
Definition parse_decimal_8 (s : list u8) : exec u128 :=
  let '(integer_part, fractional_part) :=
    match split_once (mk_uint 8 46) s with
    | Some (i, f) => (i, f)
    | None => (s, [])
    end in
  let! integer := expect (u128_from_str integer_part) in
  let digits := take 8 fractional_part in
  let frac_digits := digits ++ replicate (8 - length digits) digit_0 in
  let! fractional := expect (u128_from_str frac_digits) in
  Done (mk_uint 128 (integer * 100000000 + fractional)).

Definition load_depth (snapshot : DepthSnapshot) : exec DepthSnapshot :=
  let! _ := assert (length (ds_bids snapshot) =? 697)%nat in
  let! _ := assert (length (ds_asks snapshot) =? 5000)%nat in
  Done snapshot.
Definition load_trades (trades : list AggTrade) : exec (list AggTrade) :=
  let! _ := assert (length trades =? 1000)%nat in
  Done trades.

(** ** The states *)

Definition bench_tick_size : TickSize := NonZero (mk_uint 128 100000) eq_refl.
Definition bench_lot_size : LotSize := NonZero (mk_uint 64 1000000) eq_refl.
Definition sweep_tick_size : TickSize := NonZero (mk_uint 128 1000) eq_refl.
Definition sweep_lot_size : LotSize := NonZero (mk_uint 64 1000000) eq_refl.
Definition sweep_min_notional : u128 := mk_uint 128 5000000.
Definition MAKER_PRICE : u128 := mk_uint 128 5000000.
Definition MAKER_QUANTITY : u128 := mk_uint 128 100000000.
Definition NUM_MAKERS : u64 := mk_uint 64 22900.

(** [ExecutionPolicy::MAX]. *)
Definition policy_MAX : ExecutionPolicy :=
  MkExecutionPolicy (NonZero (mk_uint 32 (uint_max 32)) eq_refl)
    (NonZero (mk_uint 64 MAX_INSTRUCTION_BUDGET) eq_refl) (NonZero (mk_uint 32 (uint_max 32)) eq_refl).

#[export] Instance PriceLevel_eq_dec : EqDecision PriceLevel.
Proof. solve_decision. Defined.

Definition fee_rates_default : FeeRates := MkFeeRates BasisPoint_ZERO BasisPoint_ZERO.
Definition EPOCH : Timestamp := mk_uint 64 0.

Section bench.
Context `{PrincipalSlice} `{!BiBTreeMap TradingPair OrderBookId} `{BigUint}.

Definition bench_init_arg : InitArg :=
  MkInitArg GeneralAvailability DEFAULT_MAX_ORDERS_PER_CHUNK DEFAULT_INSTRUCTION_BUDGET
    (Some DEFAULT_MAX_SETTLEMENT_UNITS_PER_EVENT).
Definition bench_trading_pair : TradingPair :=
  MkTradingPair (MkTokenId (from_slice [mk_uint 8 1])) (MkTokenId (from_slice [mk_uint 8 2])).

(** [State::new] on empty stable memory. *)
Definition empty_state (arg : InitArg) : exec State :=
  match state_new arg history_new history_new registry_new (MkTokenBalance ∅ fee_pool_default) with
  | Ok state => Done state
  | Err _ => Trap
  end.

Definition bench_new_state_with_fees (fee_rates : FeeRates) : exec State :=
  let! state := empty_state bench_init_arg in
  record_trading_pair state Seq_ZERO bench_trading_pair
    (MkTokenMetadata (text "ICP") (mk_uint 8 8)) (MkTokenMetadata (text "USDT") (mk_uint 8 8))
    bench_tick_size bench_lot_size (from_u128 (mk_uint 128 1)) None fee_rates.
Definition bench_new_state : exec State := bench_new_state_with_fees fee_rates_default.

Definition sweep_new_state : exec State :=
  let! state := empty_state bench_init_arg in
  record_trading_pair state Seq_ZERO bench_trading_pair
    (MkTokenMetadata (text "ICP") (mk_uint 8 8)) (MkTokenMetadata (text "ckUSDT") (mk_uint 8 6))
    sweep_tick_size sweep_lot_size (from_u128 sweep_min_notional) None fee_rates_default.

(** ** Users and their orders *)

Definition bench_user (id : u64) : Principal := from_slice (be_bytes 8 id).

Definition bench_fund_user (state : State) (principal : Principal) : exec State :=
  let amount := from_u128 (mk_uint 128 (uint_max 128)) in
  let! state := state_deposit state principal (base bench_trading_pair) amount Write in
  state_deposit state principal (quote bench_trading_pair) amount Write.

Definition bench_place_order (state : State) (user : Principal) (pending : PendingOrder) :
    exec (OrderId * State) :=
  let! valid := validate_limit_order state user bench_trading_pair pending in
  match valid with
  | Err _ => Trap
  | Ok (order_id, order) =>
      let! state := record_limit_order state user (book_id order_id) order None EPOCH Write in
      Done (order_id, state)
  end.

(** A funded user with one order. *)
Definition fund_and_place (state : State) (id : nat) (pending : PendingOrder) :
    exec (OrderId * State) :=
  let principal := bench_user (mk_uint 64 (Z.of_nat id)) in
  let! state := bench_fund_user state principal in
  bench_place_order state principal pending.

(** [for (i, x) in l.iter().enumerate()]. *)
Definition enumerate {A} (l : list A) : list (nat * A) := zip (seq 0 (length l)) l.

(** The order of a level of the snapshot. *)
Definition level_order (side : Side) (level : list u8 * list u8) : exec PendingOrder :=
  let! price := parse_decimal_8 level.1 in
  let! quantity := parse_decimal_8 level.2 in
  Done (MkPendingOrder side price (from_u128 quantity) GoodTilCanceled).
Definition place_level (side : Side) (offset : nat) (state : State) (il : nat * (list u8 * list u8)) :
    exec State :=
  let! order := level_order side il.2 in
  let! (_, state) := fund_and_place state (offset + il.1) order in
  Done state.
(** The order of a trade: the taker is a seller when the buyer was the maker. *)
Definition trade_order (trade : AggTrade) : exec PendingOrder :=
  let! price := parse_decimal_8 (ag_p trade) in
  let! quantity := parse_decimal_8 (ag_q trade) in
  Done (MkPendingOrder (if ag_m trade then Sell else Buy) price (from_u128 quantity) GoodTilCanceled).

(** [state.get_order_book(&pair).unwrap()]. *)
Definition bench_book (state : State) : exec OrderBook := expect (get_order_book state bench_trading_pair).

(** [EXECUTOR.run_once] after [state.set_execution_policy(policy)]. *)
Definition run_with (policy : ExecutionPolicy) (runtime : Runtime) (w : World) : exec World :=
  let! (_, w) := run_once runtime (MkWorld (set_execution_policy policy (w_state w)) (w_log w)) in
  Done w.

Definition populate_state (depth : DepthSnapshot) (runtime : Runtime) (w : World) : exec World :=
  let! state := exec_fold (place_level Buy 0) (w_state w) (enumerate (ds_bids depth)) in
  let! state := exec_fold (place_level Sell (length (ds_bids depth))) state
    (enumerate (ds_asks depth)) in
  let! book := bench_book state in
  let! _ := assert (pending_orders_len book =? length (ds_bids depth) + length (ds_asks depth))%nat in
  let! w := run_with policy_MAX runtime (MkWorld state (w_log w)) in
  let! book := bench_book (w_state w) in
  let! _ := assert (pending_orders_len book =? 0)%nat in
  let! _ := assert (bids_len book =? length (ds_bids depth))%nat in
  let! _ := assert (asks_len book =? length (ds_asks depth))%nat in
  Done w.

(** One of the non-crossing orders: [500] buys at [2.000] and [500] sells at [3.000]. *)
Definition spread_order (side : Side) (price : Z) (i : nat) : PendingOrder :=
  MkPendingOrder side (mk_uint 128 price)
    (from_u64 (mk_uint 64 ((Z.of_nat i + 1) * bench_lot_size))) GoodTilCanceled.
Definition place_spread (side : Side) (price : Z) (offset : nat) (state : State) (i : nat) : exec State :=
  let! (_, state) := fund_and_place state (offset + i) (spread_order side price i) in
  Done state.
(** [half] of the orders on each side; the benchmarks take [500]. *)
Definition place_non_crossing_orders (half : nat) (state : State) : exec State :=
  let! state := exec_fold (place_spread Buy 200000000 0) state (seq 0 half) in
  exec_fold (place_spread Sell 300000000 half) state (seq 0 half).
Definition place_1000_non_crossing_orders : State → exec State := place_non_crossing_orders 500.

(** ** Sweeping the bids *)

Definition total_bid_quantity (depth : DepthSnapshot) : exec u128 :=
  exec_fold (λ (total : u128) level,
    let! qty := parse_decimal_8 level.2 in
    Done (mk_uint 128 (total + qty))) (mk_uint 128 0) (ds_bids depth).

Definition full_bid_sweep (depth : DepthSnapshot) (pending_order : Quantity → exec PendingOrder)
    (expected_status : OrderStatus) (runtime : Runtime) (log : list Event) : exec World :=
  let! state := bench_new_state in
  let! w := populate_state depth runtime (MkWorld state log) in
  let! total := total_bid_quantity depth in
  let taker := bench_user (mk_uint 64 (Z.of_nat (length (ds_bids depth) + length (ds_asks depth)))) in
  let! state := bench_fund_user (w_state w) taker in
  let! pending := pending_order (from_u128 total) in
  let! (sell_order, state) := bench_place_order state taker pending in
  let! book := bench_book state in
  let! _ := assert (pending_orders_len book =? 1)%nat in
  let! _ := assert (bids_len book =? length (ds_bids depth))%nat in
  let snapshot_before := to_snapshot book in
  let! w := run_with policy_MAX runtime (MkWorld state (w_log w)) in
  let! book := bench_book (w_state w) in
  let! _ := assert (pending_orders_len book =? 0)%nat in
  let snapshot_after := to_snapshot book in
  let! found := get_user_order (w_state w) taker sell_order in
  let! (_, record) := expect found in
  let! _ := assert (bool_decide (or_status record = expected_status)) in
  let! _ :=
    match expected_status with
    | Expired =>
        let! _ := assert (bool_decide (bs_bids snapshot_after = bs_bids snapshot_before)) in
        assert (bool_decide (bs_asks snapshot_after = bs_asks snapshot_before))
    | Filled =>
        let! _ := assert (bool_decide (bs_bids snapshot_after = [])) in
        assert (bool_decide (bs_asks snapshot_after = bs_asks snapshot_before))
    | _ => Trap
    end in
  Done w.
Definition run_full_bid_sweep_bench (depth : DepthSnapshot)
    (pending_order : Quantity → exec PendingOrder) (expected_status : OrderStatus)
    (runtime : Runtime) (log : list Event) : exec World :=
  let! depth := load_depth depth in
  full_bid_sweep depth pending_order expected_status runtime log.

(** A sell at one tick, which crosses every bid. *)
Definition sweep_order (tif : TimeInForce) (quantity : Quantity) : PendingOrder :=
  MkPendingOrder Sell (nzval bench_tick_size) quantity tif.
Definition bench_gtc_fill_full_bid_side (depth : DepthSnapshot) : Runtime → list Event → exec World :=
  run_full_bid_sweep_bench depth (λ total, Done (sweep_order GoodTilCanceled total)) Filled.
Definition bench_fok_fill_full_bid_side (depth : DepthSnapshot) : Runtime → list Event → exec World :=
  run_full_bid_sweep_bench depth (λ total, Done (sweep_order FillOrKill total)) Filled.
Definition one_lot_more (total : Quantity) : exec PendingOrder :=
  let! quantity := expect (checked_add total (from_u64 (nzval bench_lot_size))) in
  Done (sweep_order FillOrKill quantity).
Definition bench_fok_killed_full_bid_side (depth : DepthSnapshot) : Runtime → list Event → exec World :=
  run_full_bid_sweep_bench depth one_lot_more Expired.

(** ** Matching rounds *)

Definition place_trade (offset : nat) (state : State) (it : nat * AggTrade) : exec State :=
  let! order := trade_order it.2 in
  let! (_, state) := fund_and_place state (offset + it.1) order in
  Done state.

Definition bench_process_pending_orders_1000_with (fee_rates : FeeRates) (depth : DepthSnapshot)
    (trades : list AggTrade) (runtime : Runtime) (log : list Event) : exec World :=
  let! depth := load_depth depth in
  let! trades := load_trades trades in
  let! state := bench_new_state_with_fees fee_rates in
  let! w := populate_state depth runtime (MkWorld state log) in
  let taker_id_offset := (length (ds_bids depth) + length (ds_asks depth))%nat in
  let! state := exec_fold (place_trade taker_id_offset) (w_state w) (enumerate trades) in
  let! book := bench_book state in
  let! _ := assert (pending_orders_len book =? length trades)%nat in
  let! w := run_with policy_MAX runtime (MkWorld state (w_log w)) in
  let! book := bench_book (w_state w) in
  let! _ := assert (pending_orders_len book =? 0)%nat in
  Done w.
Definition bench_process_pending_orders_1000 : DepthSnapshot → list AggTrade → Runtime → list Event → exec World :=
  bench_process_pending_orders_1000_with fee_rates_default.
Definition bench_process_pending_orders_1000_with_fees (depth : DepthSnapshot) (trades : list AggTrade)
    (runtime : Runtime) (log : list Event) : exec World :=
  match BasisPoint_new (mk_uint 16 10), BasisPoint_new (mk_uint 16 20) with
  | Ok maker, Ok taker =>
      bench_process_pending_orders_1000_with (MkFeeRates maker taker) depth trades runtime log
  | _, _ => Trap
  end.

(** [half] orders on each side; the benchmark takes [500]. *)
Definition no_fills_round (half : nat) (runtime : Runtime) (log : list Event) : exec World :=
  let! state := bench_new_state in
  let! state := place_non_crossing_orders half state in
  let! book := bench_book state in
  let num_resting_orders_before := resting_orders_len book in
  let! _ := assert (pending_orders_len book =? 2 * half)%nat in
  let! w := run_with policy_MAX runtime (MkWorld state log) in
  let! book := bench_book (w_state w) in
  let! _ := assert (pending_orders_len book =? 0)%nat in
  let! _ := assert (resting_orders_len book =? num_resting_orders_before + 2 * half)%nat in
  Done w.
Definition bench_process_pending_orders_1000_no_fills : Runtime → list Event → exec World :=
  no_fills_round 500.

(** ** Queries *)

Definition install_populated_state (depth : DepthSnapshot) (runtime : Runtime) (log : list Event) :
    exec World :=
  let! depth := load_depth depth in
  let! state := bench_new_state in
  populate_state depth runtime (MkWorld state log).

Definition bench_get_order_book_ticker (depth : DepthSnapshot) (runtime : Runtime) (log : list Event) :
    exec (result OrderBookTicker GetOrderBookTickerError) :=
  let! w := install_populated_state depth runtime log in
  Done (get_order_book_ticker (w_state w) (api_pair bench_trading_pair)).
Definition bench_depth_query (limit : option u32) (depth : DepthSnapshot) (runtime : Runtime)
    (log : list Event) : exec (result OrderBookDepth GetOrderBookDepthError) :=
  let! w := install_populated_state depth runtime log in
  Done (get_order_book_depth (w_state w) (MkGetOrderBookDepthRequest (api_pair bench_trading_pair) limit)).
Definition bench_get_order_book_depth_default : DepthSnapshot → Runtime → list Event →
    exec (result OrderBookDepth GetOrderBookDepthError) := bench_depth_query None.
Definition bench_get_order_book_depth_max : DepthSnapshot → Runtime → list Event →
    exec (result OrderBookDepth GetOrderBookDepthError) := bench_depth_query (Some MAX_DEPTH_LIMIT).

(** The loop over the pages of a user's orders, which ends when [total] are retrieved. A
    loop out of fuel is a trap; [total] iterations are enough, one order each at least. *)
Fixpoint walk_orders (fuel : nat) (state : State) (trader : Principal) (total : nat)
    (after : option (list u8)) (retrieved : nat) : exec nat :=
  match fuel with
  | O => Trap
  | S fuel =>
      let! page := get_my_orders state (Some (by_page after MAX_ORDERS_PER_RESPONSE)) trader in
      match page with
      | Err _ => Trap
      | Ok orders =>
          let retrieved := (retrieved + length orders)%nat in
          if (total <=? retrieved)%nat then Done retrieved
          else walk_orders fuel state trader total (uo_id <$> last orders) retrieved
      end
  end.

Definition place_for (trader : Principal) (state : State) (trade : AggTrade) : exec State :=
  let! order := trade_order trade in
  let! (_, state) := bench_place_order state trader order in
  Done state.

Definition bench_get_my_orders (depth : DepthSnapshot) (trades : list AggTrade) (runtime : Runtime)
    (log : list Event) : exec nat :=
  let! depth := load_depth depth in
  let! trades := load_trades trades in
  let! state := bench_new_state in
  let! w := populate_state depth runtime (MkWorld state log) in
  let trader := bench_user (mk_uint 64 (Z.of_nat (length (ds_bids depth) + length (ds_asks depth)))) in
  let! state := bench_fund_user (w_state w) trader in
  let! state := exec_fold (place_for trader) state trades in
  let! placed := get_user_orders state trader None (length trades * 2) in
  match placed with
  | Err _ => Trap
  | Ok placed =>
      let! _ := assert (length placed =? length trades)%nat in
      let! retrieved := walk_orders (S (length trades)) state trader (length trades) None 0 in
      let! _ := assert (retrieved =? length trades)%nat in
      Done retrieved
  end.

(** The same walk over the trades of an account; an empty page ends it too. *)
Fixpoint walk_trades (fuel : nat) (state : State) (trader : Principal) (total : nat)
    (after : option (list u8)) (retrieved : nat) : exec nat :=
  match fuel with
  | O => Trap
  | S fuel =>
      let! page := get_my_trades state
        (MkGetMyTradesArgs (ByAccount (MkTradesByAccount after MAX_TRADES_PER_RESPONSE))) trader in
      match page with
      | Err _ => Trap
      | Ok trades =>
          let retrieved := (retrieved + length trades)%nat in
          match trades with
          | [] => Done retrieved
          | _ =>
              if (total <=? retrieved)%nat then Done retrieved
              else walk_trades fuel state trader total (t_id <$> last trades) retrieved
          end
      end
  end.

(** [fills] counterparties of one lot each, swept by one buyer; the benchmark takes [1000]. *)
Definition trades_walk (fills : nat) (runtime : Runtime) (log : list Event) : exec nat :=
  let price := mk_uint 128 200000000 in
  let! state := bench_new_state in
  let! state := exec_fold (λ state i,
    let! (_, state) := fund_and_place state i
      (MkPendingOrder Sell price (from_u64 (nzval bench_lot_size)) GoodTilCanceled) in
    Done state) state (seq 0 fills) in
  let trader := bench_user (mk_uint 64 (Z.of_nat fills)) in
  let! state := bench_fund_user state trader in
  let! (buy_order, state) := bench_place_order state trader
    (MkPendingOrder Buy price (from_u64 (mk_uint 64 (Z.of_nat fills * bench_lot_size))) GoodTilCanceled) in
  let! w := run_with policy_MAX runtime (MkWorld state log) in
  let! found := get_user_order (w_state w) trader buy_order in
  let! (_, record) := expect found in
  let! _ := assert (bool_decide (or_status record = Filled)) in
  let! retrieved := walk_trades (S fills) (w_state w) trader fills None 0 in
  let! _ := assert (retrieved =? fills)%nat in
  Done retrieved.
Definition bench_get_my_trades : Runtime → list Event → exec nat := trades_walk 1000.

(** ** Bounded settling events *)

(** [SweepRuntime]: the counter relative to a first reading. *)
Definition sweep_runtime (ic_runtime : Runtime) : Runtime :=
  let baseline := rt_instruction_counter ic_runtime 0 in
  MkRuntime (rt_msg_caller ic_runtime) (rt_canister_self ic_runtime) (rt_is_controller ic_runtime)
    (λ i, u_saturating_sub (rt_instruction_counter ic_runtime (S i)) baseline) (rt_time ic_runtime).

Definition is_settling (event : Event) : bool :=
  match ev_payload event with ESettling _ => true | _ => false end.

(** A fill-or-kill buy sweeps [num_makers] resting sells; the benchmark takes [NUM_MAKERS]. *)
Definition fok_sweep (num_makers : nat) (runtime : Runtime) (log : list Event) : exec World :=
  let! state := sweep_new_state in
  let! state := exec_fold (λ state i,
    let! (_, state) := fund_and_place state i
      (MkPendingOrder Sell MAKER_PRICE (from_u128 MAKER_QUANTITY) GoodTilCanceled) in
    Done state) state (seq 0 num_makers) in
  let! policy :=
    match policy_try_new (mk_uint 32 (uint_max 32)) (mk_uint 64 MAX_INSTRUCTION_BUDGET)
            DEFAULT_MAX_SETTLEMENT_UNITS_PER_EVENT with
    | Ok policy => Done policy
    | Err _ => Trap
    end in
  let! w := run_with policy (sweep_runtime runtime) (MkWorld state log) in
  let! book := bench_book (w_state w) in
  let! _ := assert (pending_orders_len book =? 0)%nat in
  let! _ := assert (resting_orders_len book =? num_makers)%nat in
  let taker := bench_user (mk_uint 64 (Z.of_nat num_makers)) in
  let! state := bench_fund_user (w_state w) taker in
  let! (buy, state) := bench_place_order state taker
    (MkPendingOrder Buy MAKER_PRICE
       (from_u128 (mk_uint 128 (Z.of_nat num_makers * MAKER_QUANTITY))) FillOrKill) in
  let events_before := length (w_log w) in
  let! (_, w) := run_once (sweep_runtime runtime) (MkWorld state (w_log w)) in
  let! book := bench_book (w_state w) in
  let! _ := assert (pending_orders_len book =? 0)%nat in
  let! _ := assert (resting_orders_len book =? 0)%nat in
  let! found := get_user_order (w_state w) taker buy in
  let! (_, buy_record) := expect found in
  let! _ := assert (bool_decide (or_status buy_record = Filled)) in
  let settling_events := length (List.filter is_settling (drop events_before (w_log w))) in
  let! _ := assert (Z.of_nat settling_events =?
    div_ceil (Z.of_nat num_makers) DEFAULT_MAX_SETTLEMENT_UNITS_PER_EVENT) in
  Done w.
Definition bench_fok_sweep_22_900_makers : Runtime → list Event → exec World :=
  fok_sweep (Z.to_nat NUM_MAKERS).
End bench.

(** ** Upgrades and the event log *)

Section bench_storage.
Context `{PrincipalSlice} `{!BiBTreeMap TradingPair OrderBookId} `{Minicbor}.

Definition bench_upgrade_roundtrip (w : World) (bytes : list u8) (runtime : Runtime) :
    exec (World * Disk) :=
  start_up (shut_down w bytes) None runtime.
Definition bench_upgrade_full_depth (depth : DepthSnapshot) (runtime : Runtime) (log : list Event)
    (bytes : list u8) : exec (World * Disk) :=
  let! depth := load_depth depth in
  let! state := bench_new_state in
  let! w := populate_state depth runtime (MkWorld state log) in
  bench_upgrade_roundtrip w bytes runtime.
Definition bench_upgrade_1000_no_fills (runtime : Runtime) (log : list Event) (bytes : list u8) :
    exec (World * Disk) :=
  let! state := bench_new_state in
  let! state := place_1000_non_crossing_orders state in
  let! w := run_with policy_MAX runtime (MkWorld state log) in
  bench_upgrade_roundtrip w bytes runtime.

(** [WorstCaseEvent::iter()]. *)
Definition worst_case_events : list WorstCaseEvent :=
  [WInit; WUpgrade; WAddTradingPair; WDeposit; WWithdraw; WAddLimitOrder; WCancelLimitOrder;
   WMatching; WSettling; WSetHalt; WAddTradingAccount; WRemoveTradingAccount].
Definition write_worst_case (log : list (list u8)) (variant : WorstCaseEvent) : list (list u8) :=
  let event := worst_case_instructions_event variant in
  record_event_bytes log (ev_timestamp event) (ev_payload event).
Definition bench_write_events (log : list (list u8)) : list (list u8) :=
  foldl write_worst_case log worst_case_events.
(** The indices written, and what reading them back returns. *)
Definition bench_read_events (log : list (list u8)) : exec (list (option Event)) :=
  let '(log, indices) := foldl (λ '(log, indices) variant,
    let log := write_worst_case log variant in
    (log, indices ++ [mk_uint 64 (total_event_count log - 1)])) (log, []) worst_case_events in
  exec_map (get_event log) indices.
End bench_storage.

(** ** The market: one book, funded users *)

Section market.
Context `{PrincipalSlice} `{!BiBTreeMap TradingPair OrderBookId}.
Implicit Types (s : State) (b : OrderBook) (n : Z).

Definition bench_scale : nonzero 64 := NonZero (mk_uint 64 100000000) eq_refl.
Definition new_bench_book : OrderBook :=
  book_new Seq_ZERO bench_tick_size bench_lot_size (from_u128 (mk_uint 128 1)) None fee_rates_default.

(** The benchmark's state after [n] steps: the book [b] and nothing outstanding. *)
Record market n s b : Prop := {
  mk_core : core n [] s;
  mk_queue : st_pending_settling_events s = [];
  mk_books : st_order_books s = {[Seq_ZERO := b]};
  mk_pair : get_book_id (st_trading_pairs s) bench_trading_pair = Some Seq_ZERO;
  mk_scale : base_scale s (base bench_trading_pair) = Done bench_scale;
  mk_rules : same_rules new_bench_book b;
  mk_halts : st_permissions s = permissions_default;
  mk_accounts : trading_accounts (st_user_registry s) = ∅;
  mk_supply t : state_supply t s ≤ n * 2 ^ 128
}.

Lemma from_slice_inj (xs ys : list u8) :
  (length xs ≤ 29)%nat → (length ys ≤ 29)%nat → from_slice xs = from_slice ys → xs = ys.
Proof.
  intros Hx Hy E. pose proof (from_slice_item xs Hx) as E1. rewrite E, (from_slice_item ys Hy) in E1. congruence.
Qed.

Lemma bench_tokens_differ : base bench_trading_pair ≠ quote bench_trading_pair.
Proof. cbn. intros [= E]. apply from_slice_inj in E; [|cbn; lia..]. discriminate. Qed.

Lemma market_new : ∃ s, bench_new_state = Done s ∧ market 1 s new_bench_book.
Proof.
  unfold bench_new_state, bench_new_state_with_fees, empty_state.
  destruct (state_new bench_init_arg history_new history_new registry_new
    (MkTokenBalance ∅ fee_pool_default)) as [s0|] eqn:E0; [|discriminate].
  destruct (new_core _ _ E0) as [Hc _]. cbn [ebind].
  assert (Hs0 : st_trading_pairs s0 = pairs_default ∧ st_tokens s0 = ∅ ∧ st_next_book_id s0 = Seq_ZERO ∧
    st_pending_settling_events s0 = [] ∧ st_order_books s0 = ∅ ∧ st_permissions s0 = permissions_default ∧
    st_user_registry s0 = registry_new ∧ st_balances s0 = MkTokenBalance ∅ fee_pool_default)
    by (cbn in E0; injection E0 as <-; done).
  destruct Hs0 as (Hp & Ht & Hk & Hq & Hb & Hh & Hr & Hbal).
  set (bm := MkTokenMetadata (text "ICP") (mk_uint 8 8)). set (qm := MkTokenMetadata (text "USDT") (mk_uint 8 8)).
  destruct (pair_core 0 [] s0 bench_trading_pair bm qm bench_tick_size bench_lot_size
    (from_u128 (mk_uint 128 1)) None fee_rates_default (mk_uint 64 100000000) Hc)
    as (tokens & pairs & next & book & E & Hc' & Hbk & Hins & Hbase).
  - done.
  - rewrite Hp. unfold get_book_id, pairs_default. apply get_by_left_default.
  - apply bench_tokens_differ.
  - intros m'. by rewrite Ht, lookup_empty.
  - intros m'. by rewrite Ht, lookup_empty.
  - reflexivity.
  - reflexivity.
  - rewrite Hk in E, Hc'. exists (pair_listed s0 Seq_ZERO book bench_trading_pair tokens pairs next).
    split; [exact E|].
    rewrite Hk in Hbk, Hins. subst book. apply pairs_insert_Done in Hins as (_ & _ & Hget).
    split; try done.
    + cbn. by rewrite Hb, insert_empty.
    + cbn. rewrite Hget. by rewrite decide_True.
    + unfold base_scale, token_metadata. cbn [pair_listed st_tokens set_next_book_id set_order_books
        set_trading_pairs set_tokens]. rewrite Hbase. reflexivity.
    + cbn. by rewrite Hr.
    + intros t. unfold state_supply. cbn. rewrite Hbal, empty_supply. lia.
Qed.
Implicit Types (p : Principal) (t : TokenId) (po : PendingOrder).

Lemma free_balance_row n s b p t u :
  market n s b → users (st_user_registry s) !! p = Some u →
  qval (user_free_balance s p t) = qval (free (amount_of (tb_balances (st_balances s)) (t, u))).
Proof.
  intros Hm Hu. unfold user_free_balance.
  rewrite lookup_funding_id_eq, Hu by apply (co_registry _ _ _ (mk_core _ _ _ Hm)).
  unfold tb_get_balance, amount_of. cbn [mbind option_bind].
  by destruct (tb_balances (st_balances s) !! _).
Qed.

(** A deposit is credited, and takes nothing from anybody. *)
Lemma market_deposit n s b p t a :
  market n s b → n + 1 < MAX_STEPS → qval a ≤ 2 ^ 128 →
  ∃ s', state_deposit s p t a Write = Done s' ∧ market (n + 1) s' b ∧
    st_order_history s' = st_order_history s ∧ qval a ≤ qval (user_free_balance s' p t) ∧
    ∀ t', qval (user_free_balance s p t') ≤ qval (user_free_balance s' p t').
Proof.
  intros Hm Hn Ha. pose proof (mk_core _ _ _ Hm) as Hc.
  pose proof (mk_supply _ _ _ Hm t) as Hs. pose proof (co_users _ _ _ Hc) as Hu0.
  destruct (deposit_core n [] s p t a Hc) as (reg & tb & E & Hc' & Hta); [lia|by rewrite (mk_accounts _ _ _ Hm)| |].
  { unfold MAX_STEPS in Hn. change MAX_SUPPLY with (2 ^ 64 * 2 ^ 128).
    assert (n * 2 ^ 128 ≤ 2 ^ 62 * 2 ^ 128) by lia. lia. }
  eexists. split; [exact E|].
  assert (Hm' : market (n + 1) (set_balances tb (set_user_registry reg s)) b).
  { destruct Hm. split; try done; [by cbn; rewrite Hta|]. intros t'.
    rewrite (state_deposit_supply _ _ _ _ _ t' E). specialize (mk_supply0 t'). case_decide; lia. }
  split; [done|]. split; [done|].
  destruct (state_deposit_credits _ _ _ _ _ E) as (u & Hu & _ & Hf & _).
  split.
  - rewrite (free_balance_row _ _ _ _ _ _ Hm' Hu), Hf. unfold at_key. rewrite decide_True by done.
    pose proof (qval_range (free (amount_of (tb_balances (st_balances s)) (t, u)))). lia.
  - intros t'. rewrite (free_balance_row _ _ _ _ _ _ Hm' Hu).
    destruct (users (st_user_registry s) !! p) as [u0|] eqn:Eu.
    + assert (u0 = u) as ->.
      { unfold state_deposit, get_or_register in E. rewrite Eu in E. exec_inv. cbn in Hu. congruence. }
      rewrite (free_balance_row _ _ _ _ _ _ Hm Eu), Hf. unfold at_key. pose proof (qval_range a).
      case_decide; lia.
    + unfold user_free_balance at 1. rewrite lookup_funding_id_eq, Eu by apply (co_registry _ _ _ Hc).
      cbn. apply qval_range.
Qed.

(** Enough for any order below. *)
Definition funded s p : Prop :=
  2 ^ 128 - 1 ≤ qval (user_free_balance s p (base bench_trading_pair)) ∧
  2 ^ 128 - 1 ≤ qval (user_free_balance s p (quote bench_trading_pair)).

Lemma market_fund n s b p :
  market n s b → n + 2 < MAX_STEPS →
  ∃ s', bench_fund_user s p = Done s' ∧ market (n + 2) s' b ∧
    st_order_history s' = st_order_history s ∧ funded s' p.
Proof.
  intros Hm Hn. unfold bench_fund_user. set (a := from_u128 _).
  assert (Ha : qval a = 2 ^ 128 - 1) by reflexivity.
  destruct (market_deposit n s b p (base bench_trading_pair) a Hm ltac:(lia) ltac:(lia))
    as (s1 & -> & Hm1 & Hh1 & Hb1 & _). cbn [ebind].
  destruct (market_deposit (n + 1) s1 b p (quote bench_trading_pair) a Hm1 ltac:(lia) ltac:(lia))
    as (s2 & -> & Hm2 & Hh2 & Hq2 & Hmono).
  exists s2. replace (n + 2) with (n + 1 + 1) by lia. split; [done|]. split; [done|]. split; [congruence|].
  specialize (Hmono (base bench_trading_pair)). split; lia.
Qed.

(** An order the benchmarks' book takes and its user can pay for. *)
Record good_order po : Prop := {
  go_valid : valid_order new_bench_book (po_price po) (po_quantity po);
  go_size : qval (po_quantity po) < 2 ^ 128;
  go_value : po_price po * qval (po_quantity po) < 2 ^ 128 * 10 ^ 8
}.

Lemma good_settles po : good_order po →
  scale_exact (po_price po) (po_quantity po) bench_scale ∧
  1000 ≤ scaledZ (po_price po) (po_quantity po) bench_scale ≤ 2 ^ 128 - 1.
Proof.
  intros [(Hp & Htick & Hq & Hlot) _ Hv].
  change (ob_tick_size new_bench_book) with bench_tick_size in Htick.
  change (ob_lot_size new_bench_book) with bench_lot_size in Hlot.
  split; [by apply (scale_exact_of_lots bench_tick_size bench_lot_size)|].
  change (uval (nzval bench_tick_size)) with 100000 in Htick.
  change (uval (nzval bench_lot_size)) with 1000000 in Hlot.
  pose proof (u128_range (po_price po)). pose proof (qval_range (po_quantity po)).
  unfold scaledZ. change (uval (nzval bench_scale)) with (10 ^ 8).
  assert (100000 ≤ po_price po) by (apply Z.mod_divide in Htick as [c Hc]; lia).
  assert (1000000 ≤ qval (po_quantity po)) by (apply Z.mod_divide in Hlot as [c Hc]; lia).
  split; [apply Z.div_le_lower_bound; nia|]. apply Z.lt_le_pred. apply Z.div_lt_upper_bound; lia.
Qed.

(** The book with one more order waiting. *)
Definition submitted b po (next : OrderSeq) : OrderBook :=
  with_next_seq next (with_pending (ob_pending_orders b ++ [into_order po (ob_next_seq b)]) b).
Definition oid_of (seq : OrderSeq) : OrderId := MkCompositeId Seq_ZERO seq.

Lemma market_place n s b p po :
  market n s b → n + 1 < MAX_STEPS → funded s p → good_order po →
  ∃ s' next r, bench_place_order s p po = Done (oid_of (ob_next_seq b), s') ∧
    market (n + 1) s' (submitted b po next) ∧ seqZ next = seqZ (ob_next_seq b) + 1 ∧
    or_owner r = p ∧ or_status r = Pending ∧
    ∀ id, history_get (st_order_history s') id =
      if decide (id = oid_of (ob_next_seq b)) then Some r else history_get (st_order_history s) id.
Proof.
  intros Hm Hn [Hfb Hfq] Hgo. destruct (good_settles po Hgo) as [Hx [Hlo Hhi]].
  destruct Hgo as [Hval Hsz Hv]. pose proof (mk_rules _ _ _ Hm) as Hru.
  assert (Hvb : valid_order b (po_price po) (po_quantity po)) by by apply (valid_order_rules new_bench_book b).
  assert (Hbook : st_order_books s !! Seq_ZERO = Some b) by (rewrite (mk_books _ _ _ Hm); apply lookup_singleton_eq).
  assert (Hmul : checked_mul_quantity_scaled (po_price po) (po_quantity po) bench_scale =
    Done (Some (q_of_Z (scaledZ (po_price po) (po_quantity po) bench_scale)))).
  { rewrite checked_mul_quantity_scaled_eq by done. rewrite (proj2 (Z.ltb_lt _ _)); [done|].
    assert (2 ^ 128 * 10 ^ 8 < 2 ^ 256) by done. lia. }
  set (amount := q_of_Z (scaledZ (po_price po) (po_quantity po) bench_scale)) in *.
  assert (Ha : qval amount = scaledZ (po_price po) (po_quantity po) bench_scale)
    by (apply q_of_Z_val; assert (2 ^ 128 < 2 ^ 256) by done; lia).
  assert (Hnot : check_notional b amount = Ok ()).
  { unfold check_notional. rewrite q_ltb_spec, (sr_min _ _ Hru), (sr_max _ _ Hru), Ha.
    change (qval (ob_min_notional new_bench_book)) with 1. rewrite (proj2 (Z.ltb_ge _ _)) by lia. done. }
  assert (Ev : validate_limit_order s p bench_trading_pair po =
    Done (Ok (oid_of (ob_next_seq b), into_order po (ob_next_seq b)))).
  { unfold validate_limit_order. rewrite (mk_pair _ _ _ Hm). cbn [ok_or try_bind]. rewrite Hbook. cbn [expect ebind].
    rewrite validate_order_ok by done. cbn [ebind map_err try_bind]. rewrite (mk_scale _ _ _ Hm). cbn [ebind].
    rewrite Hmul. cbn [ebind ok_or try_bind]. rewrite Hnot. cbn [map_err try_bind].
    destruct (po_side po); rewrite q_ltb_spec; rewrite (proj2 (Z.ltb_ge _ _)) by lia; done. }
  unfold bench_place_order. rewrite Ev. cbn [ebind].
  destruct (order_core n [] s p bench_trading_pair po _ _ None EPOCH (mk_core _ _ _ Hm) Hn
    (validate_limit_order_Ok _ _ _ _ _ _ Ev))
    as (b' & h & tb & r & E & Hc & _ & Hown & Hst & _ & _ & _ & _ & (b0 & next & Hb0 & Hnext & Eb) & Hget).
  cbn [book_id oid_of first] in *. rewrite Hbook in Hb0. injection Hb0 as <-. subst b'.
  rewrite E. cbn [ebind]. eexists _, next, r. split; [done|]. split; [|done].
  destruct Hm as [_ Hq Hbs Hp Hs Hr Hh Ht Hsup]. split; try done.
  - cbn. by rewrite Hbs, insert_singleton_eq.
  - destruct Hr. by split.
  - intros t. rewrite (record_limit_order_supply _ _ _ _ _ _ _ t E). specialize (Hsup t). lia.
Qed.

(** ** The executor on the market *)

Lemma take_drop_all {A} (c : nat) (l : list A) : (length l ≤ c)%nat → take c l = l ∧ drop c l = [].
Proof. intros. split; [by apply take_ge|by apply drop_ge]. Qed.

Lemma busiest_single s b :
  st_order_books s = {[Seq_ZERO := b]} → ob_pending_orders b ≠ [] →
  books_by_pending_order_count_desc s = [Seq_ZERO].
Proof.
  intros Hb Hp. unfold books_by_pending_order_count_desc. rewrite Hb.
  assert (Hi : btree_iter {[Seq_ZERO := b]} = [((Seq_ZERO : OrderBookId), b)]).
  { apply Permutation_singleton_r, NoDup_Permutation;
      [apply (NoDup_fmap_1 fst), btree_iter_keys_NoDup|apply NoDup_singleton|].
    intros [k b0]. rewrite btree_iter_elem, lookup_singleton_Some, list_elem_of_singleton. naive_solver. }
  rewrite Hi. cbn [fmap list_fmap]. rewrite filter_cons_True; [done|].
  unfold pending_orders_len. cbn. destruct (ob_pending_orders b); [done|cbn; lia].
Qed.

(** A drain of an empty queue. *)
Lemma drain_nothing rt (budget : u64) w :
  st_pending_settling_events (w_state w) = [] → rt_instruction_counter rt 0 < budget →
  drain_settling rt budget (MkExec w 0) = Done (MkExec w 1).
Proof.
  intros Hq Hc. unfold drain_settling. cbn [ex_world]. rewrite Hq. cbn [length drain_loop].
  unfold under_budget. cbn [ex_reads ex_world]. rewrite (proj2 (Z.ltb_lt _ _)) by done. cbn [negb].
  unfold take_next_pending_settling_event. cbn [ex_world]. rewrite Hq. by destruct w.
Qed.

(** What a round does to the records of the book. *)
Definition records_matched (out : MatchingOutput) (h h' : OrderHistory) : Prop :=
  ∀ seq r, history_get h (oid_of seq) = Some r →
    ∃ r', history_get h' (oid_of seq) = Some r' ∧ same_order r r' ∧
      or_status r' = default (or_status r) (status_in out seq).

Lemma market_ready n s b : market n s b → book_ready n b.
Proof.
  intros Hm. destruct (co_book _ _ _ (mk_core _ _ _ Hm) Seq_ZERO b) as (_ & _ & _ & Hr & _); [|done].
  rewrite (mk_books _ _ _ Hm). apply lookup_singleton_eq.
Qed.

(** A round keeps the rules of its book. *)
Lemma round_rules n b out b' :
  book_ready n b → n < MAX_STEPS → process_pending_orders b (pending_order_seqs b) = Done (out, b') →
  same_rules b b'.
Proof.
  intros Hr Hn E. destruct (round_ready n b (length (ob_pending_orders b)) Hr) as (out' & b'' & E' & Hpost & _).
  { unfold MAX_STEPS in Hn. change (uint_max 64) with (2 ^ 64 - 1). lia. }
  rewrite take_ge in E' by (unfold pending_order_seqs; by rewrite length_fmap).
  rewrite E in E'. injection E' as <- <-. apply Hpost.
Qed.

Lemma market_policy n s b policy : market n s b → market n (set_execution_policy policy s) b.
Proof. intros []. split; try done. eapply core_same; [|done]. done. Qed.

Lemma market_run n s b policy rt log :
  market n s b → n < MAX_STEPS → ob_pending_orders b ≠ [] →
  Z.of_nat (length (ob_pending_orders b)) ≤ ep_max_orders_per_chunk policy →
  (∀ i, rt_instruction_counter rt i < ep_instruction_budget policy) →
  ∃ out b' w', process_pending_orders b (pending_order_seqs b) = Done (out, b') ∧
    run_with policy rt (MkWorld s log) = Done w' ∧ market n (w_state w') b' ∧
    records_matched out (st_order_history s) (st_order_history (w_state w')).
Proof.
  intros Hm Hn Hp Hlen Hc. apply (market_policy _ _ _ policy) in Hm.
  unfold run_with, run_once. cbn [w_state w_log]. set (s0 := set_execution_policy policy s) in *.
  change (st_execution_policy s0) with policy. set (w0 := MkWorld s0 log).
  rewrite drain_nothing by (apply Hm || apply Hc). cbn [ebind].
  unfold under_budget at 1. cbn [ex_reads ex_world]. rewrite (proj2 (Z.ltb_lt _ _)) by apply Hc. cbn [negb].
  match goal with |- context [books_by_pending_order_count_desc ?x] => change x with s0 end.
  rewrite (busiest_single s0 b (mk_books _ _ _ Hm) Hp).
  assert (Hbud : (length (ob_pending_orders b) ≤ Z.to_nat (ep_max_orders_per_chunk policy))%nat) by lia.
  revert Hbud. generalize (Z.to_nat (ep_max_orders_per_chunk policy)) as c. intros c Hbud.
  assert (Hlp : (length (ob_pending_orders b) ≠ 0)%nat) by (by destruct (ob_pending_orders b)).
  cbn [run_books]. rewrite (proj2 (Nat.eqb_neq c 0)) by lia.
  unfold under_budget at 1. cbn [ex_reads ex_world]. rewrite (proj2 (Z.ltb_lt _ _)) by apply Hc. cbn [negb ex_world].
  change (st_permissions (w_state w0)) with (st_permissions s0). rewrite (mk_halts _ _ _ Hm).
  change (permit_matching permissions_default Seq_ZERO) with (@Ok SyncPermit UnauthorizedError MkSyncPermit).
  assert (Hb0 : st_order_books (w_state w0) !! Seq_ZERO = Some b)
    by (cbn [w_state w0]; rewrite (mk_books _ _ _ Hm); apply lookup_singleton_eq).
  rewrite Hb0. cbn [expect ebind].
  assert (Hw : world_inv n w0) by (unfold world_inv; cbn [w_state w0]; rewrite (mk_queue _ _ _ Hm); apply Hm).
  destruct (match_now_core n w0 Seq_ZERO b c (PermitSync MkSyncPermit) rt Hw Hn Hb0)
    as (w1 & b' & E1 & Hw1 & Hi1 & Hb1 & Hp1 & out & Eout & Hrec).
  destruct (take_drop_all c (pending_order_seqs b)) as [Et _]; [unfold pending_order_seqs; by rewrite length_fmap|].
  destruct (take_drop_all c (ob_pending_orders b) Hbud) as [_ Ed]. rewrite Ed in Hp1. rewrite Et in Eout, E1 |- *.
  destruct (pending_order_seqs b) as [|x l] eqn:Eseqs.
  { unfold pending_order_seqs in Eseqs. by apply fmap_nil_inv in Eseqs. }
  rewrite <- Eseqs in *. rewrite (proj2 (Nat.leb_le _ _)) by (unfold pending_order_seqs; by rewrite length_fmap).
  cbn [ebind]. rewrite E1. cbn [ebind].
  destruct (drain_settling_core n rt (nzval (ep_instruction_budget policy)) (MkExec w1 3) Hw1 Hn)
    as (ex2 & E2 & Hw2 & Hi2 & Hb2).
  rewrite E2. cbn [ebind run_books]. eexists out, b', (ex_world ex2). split; [done|]. split; [done|].
  pose proof (drain_settling_drains _ _ _ _ Hc E2) as Hq2. pose proof (drain_loop_orders _ _ _ _ _ E2) as Hh2.
  cbn [ex_world] in Hi2, Hb2, Hh2. assert (Hi : internal s0 (w_state (ex_world ex2))) by (by etrans).
  split; [|intros seq r Hr; rewrite Hh2; by apply Hrec].
  unfold world_inv in Hw2. rewrite Hq2 in Hw2. pose proof (market_ready _ _ _ Hm) as Hready.
  destruct Hm as [_ _ Hbs Hp0 Hs Hr Hh Ht Hsup]. split; try done.
  - rewrite Hb2, Hb1. cbn [w_state w0]. by rewrite Hbs, insert_singleton_eq.
  - by rewrite (in_pairs _ _ Hi).
  - unfold base_scale, token_metadata in *. by rewrite (in_tokens _ _ Hi).
  - trans b; [done|]. by apply (round_rules n b out).
  - by rewrite (in_permissions _ _ Hi).
  - by rewrite (in_registry _ _ Hi).
  - intros t. rewrite (in_supply _ _ Hi). apply Hsup.
Qed.

(** ** Placing many orders *)

Lemma fund_and_place_ok n s b id po :
  market n s b → n + 3 < MAX_STEPS → good_order po →
  ∃ s' next, fund_and_place s id po = Done (oid_of (ob_next_seq b), s') ∧
    market (n + 3) s' (submitted b po next) ∧ seqZ next = seqZ (ob_next_seq b) + 1.
Proof.
  intros Hm Hn Hgo. unfold fund_and_place. set (p := bench_user _).
  destruct (market_fund n s b p Hm ltac:(lia)) as (s1 & -> & Hm1 & _ & Hf). cbn [ebind].
  destruct (market_place (n + 2) s1 b p po Hm1 ltac:(lia) Hf Hgo) as (s2 & next & r & E & Hm2 & Hnx & _).
  exists s2, next. replace (n + 3) with (n + 2 + 1) by lia. done.
Qed.

(** The book [b'] is [b] with the orders [pos] waiting in addition. *)
Definition same_terms po (o : Order) : Prop := o = into_order po (o_id o).
Lemma same_terms_fields po o : same_terms po o →
  o_side o = po_side po ∧ o_price o = po_price po ∧ o_remaining o = po_quantity po ∧ o_tif o = po_tif po.
Proof. intros ->. done. Qed.
Record queued_up b (pos : list PendingOrder) b' : Prop := {
  qu_pending : ∃ os, ob_pending_orders b' = ob_pending_orders b ++ os ∧ Forall2 same_terms pos os;
  qu_sides side : side_list b' side = side_list b side
}.

Lemma place_all {A} (step : State → A → exec State) (l : list A) pos :
  Forall2 (λ a po, good_order po ∧ ∃ id, ∀ s,
    step s a = (let! (_, s) := fund_and_place s id po in Done s)) l pos →
  ∀ n s b, market n s b → n + 3 * Z.of_nat (length l) < MAX_STEPS →
  ∃ s' b', exec_fold step s l = Done s' ∧ market (n + 3 * Z.of_nat (length l)) s' b' ∧ queued_up b pos b'.
Proof.
  induction 1 as [|a po l pos [Hgo [id Hs]] Hl IH]; intros n s b Hm Hn.
  { exists s, b. rewrite Z.add_0_r. split_and!; [done..|]. split; [|done]. exists []. by rewrite app_nil_r. }
  cbn [length] in *. cbn [exec_fold]. rewrite Hs.
  destruct (fund_and_place_ok n s b id po Hm ltac:(lia) Hgo) as (s1 & next & -> & Hm1 & _). cbn [ebind].
  destruct (IH (n + 3) s1 _ Hm1 ltac:(lia)) as (s2 & b2 & E & Hm2 & [(os & Ep & Hos) Hsides]).
  exists s2, b2. split; [done|]. split; [replace (n + 3 * Z.of_nat (S (length l)))
    with (n + 3 + 3 * Z.of_nat (length l)) by lia; done|]. split.
  - exists (into_order po (ob_next_seq b) :: os). cbn in Ep. rewrite Ep, <- app_assoc. by split; [|constructor].
  - intros side. rewrite Hsides. by destruct side.
Qed.

(** ** Price levels *)

Lemma enumerate_Forall2 {A B} (P : A → B → Prop) l k :
  Forall2 P l k → Forall2 (λ ia y, P ia.2 y) (enumerate l) k.
Proof.
  unfold enumerate. generalize 0%nat. intros i Hl. revert i.
  induction Hl as [|a y l k Hay Hl IH]; intros i; cbn; constructor; [done|]. apply IH.
Qed.
Lemma length_enumerate {A} (l : list A) : length (enumerate l) = length l.
Proof. unfold enumerate. rewrite length_zip, length_seq. lia. Qed.

(** What the benchmarks need of the market data: orders the book takes, one per price,
    that do not cross, and whose sum is within range. *)
Record depth_ok (depth : DepthSnapshot) (bids asks : list PendingOrder) : Prop := {
  dp_bids : Forall2 (λ level po, level_order Buy level = Done po) (ds_bids depth) bids;
  dp_asks : Forall2 (λ level po, level_order Sell level = Done po) (ds_asks depth) asks;
  dp_good po : po ∈ bids ++ asks → good_order po;
  dp_bid_levels : NoDup (po_price <$> bids);
  dp_ask_levels : NoDup (po_price <$> asks);
  dp_clear bid ask : bid ∈ bids → ask ∈ asks → po_price bid < po_price ask;
  dp_any : bids ≠ [];
  dp_total : sum_over (λ po, qval (po_quantity po)) bids + bench_lot_size < 2 ^ 128;
  dp_count : Z.of_nat (length bids + length asks) < 2 ^ 32
}.

Lemma level_orders_side side levels pos :
  Forall2 (λ level po, level_order side level = Done po) levels pos →
  ∀ po, po ∈ pos → po_side po = side ∧ po_tif po = GoodTilCanceled.
Proof.
  induction 1 as [|l po levels pos E _ IH]; intros po' Hin; [by apply not_elem_of_nil in Hin|].
  apply elem_of_cons in Hin as [->|Hin]; [|by apply IH]. unfold level_order in E. exec_inv. done.
Qed.

(** The orders of the snapshot waiting in the queue. *)
Lemma terms_side side pos os :
  Forall2 same_terms pos os → (∀ po, po ∈ pos → po_side po = side) →
  filter (λ o, o_side o = side) os = os ∧ filter (λ o, o_side o = opp side) os = [].
Proof.
  induction 1 as [|po o pos os Ho _ IH]; intros Hs; [done|].
  assert (Es : o_side o = side) by (destruct (same_terms_fields _ _ Ho) as [-> _]; apply Hs; left).
  destruct IH as [IH1 IH2]; [intros po' Hin; apply Hs; by right|].
  rewrite filter_cons_True, filter_cons_False by (rewrite Es; by destruct side).
  by rewrite IH1, IH2.
Qed.

Lemma terms_resting pos os :
  Forall2 same_terms pos os →
  (as_resting <$> os).*1 = po_price <$> pos ∧
  sum_over r_qty (as_resting <$> os) = sum_over (λ po, qval (po_quantity po)) pos ∧
  ∀ x, x ∈ as_resting <$> os → ∃ po, po ∈ pos ∧ x.1 = po_price po.
Proof.
  induction 1 as [|po o pos os Ho _ (IH1 & IH2 & IH3)].
  { split_and!; [done..|]. intros x Hx. by apply not_elem_of_nil in Hx. }
  destruct (same_terms_fields _ _ Ho) as (_ & Ep & Eq & _). rewrite !fmap_cons, !sum_over_cons, IH1, IH2.
  change (r_qty (as_resting o)) with (qval (o_remaining o)). change ((as_resting o).1) with (o_price o).
  rewrite Ep, Eq. split_and!; [done..|]. intros x [->|Hx]%elem_of_cons.
  - exists po. split; [left|done].
  - destruct (IH3 x Hx) as (po' & ? & ?). exists po'. split; [by right|done].
Qed.

(** With one order per price, levels are orders. *)
Lemma queue_len_keys {K V} `{Countable K, !Ord K, !OrdLaws K} (q : OrderQueue K V) :
  queue_wf q → NoDup (queue_list q).*1 → queue_len q = length (queue_list q).
Proof.
  intros Hq Hnd. unfold queue_len. rewrite <- size_dom, <- (length_fmap fst (queue_list q)).
  rewrite <- (size_list_to_set (C := gset K)) by done. f_equal. apply set_eq. intros k.
  rewrite elem_of_dom, elem_of_list_to_set, list_elem_of_fmap. split.
  - intros [vs E]. destruct vs as [|v vs]; [by destruct (Hq k)|]. exists (k, v). split; [done|].
    apply elem_of_queue_list. exists (v :: vs). split; [done|left].
  - intros ([k' v] & -> & Hin). apply elem_of_queue_list in Hin as (vs & E & _). by eexists.
Qed.

Lemma side_len b :
  sides_wf b → NoDup (bids_list b).*1 → NoDup (asks_list b).*1 →
  bids_len b = length (bids_list b) ∧ asks_len b = length (asks_list b).
Proof.
  intros [Wb Wa] Hb Ha. unfold bids_len, asks_len. split; [|by apply queue_len_keys].
  unfold bids_list in *. rewrite length_fmap. apply queue_len_keys; [done|].
  rewrite <- list_fmap_compose in Hb. apply (NoDup_fmap_1 unreverse). by rewrite <- list_fmap_compose.
Qed.

Lemma market_book n s b : market n s b → bench_book s = Done b.
Proof.
  intros Hm. unfold bench_book, get_order_book. rewrite (mk_pair _ _ _ Hm). cbn.
  by rewrite (mk_books _ _ _ Hm), lookup_singleton_eq.
Qed.

Lemma place_level_run side offset levels pos :
  Forall2 (λ level po, level_order side level = Done po) levels pos → (∀ po, po ∈ pos → good_order po) →
  Forall2 (λ a po, good_order po ∧ ∃ id, ∀ s,
    place_level side offset s a = (let! (_, s) := fund_and_place s id po in Done s)) (enumerate levels) pos.
Proof.
  intros Hl Hg. apply enumerate_Forall2 in Hl. apply Forall2_same_length_lookup_2.
  { by apply Forall2_length in Hl. }
  intros i a po Ha Hpo. split; [apply Hg; by eapply list_elem_of_lookup_2|].
  pose proof (Forall2_lookup_lr _ _ _ _ _ _ Hl Ha Hpo) as E. cbv beta in E.
  exists (offset + a.1)%nat. intros s. unfold place_level. by rewrite E.
Qed.

Lemma snapshot_no_bids b : sides_wf b → side_list b Buy = [] → bs_bids (to_snapshot b) = [].
Proof.
  intros [Wb _] E. cbn in E. apply fmap_nil_inv, (queue_list_nil _ Wb) in E. cbn [to_snapshot bs_bids].
  rewrite E. unfold queue_levels. cbn. by rewrite btree_iter_empty.
Qed.
Lemma snapshot_asks b b0 :
  sides_wf b → sides_wf b0 → side_list b Sell = side_list b0 Sell →
  bs_asks (to_snapshot b) = bs_asks (to_snapshot b0).
Proof.
  intros [_ Wa] [_ Wa0] E. cbn [to_snapshot bs_asks]. by rewrite (queue_list_inj _ _ Wa Wa0 E).
Qed.

Lemma lots_sum (pos : list PendingOrder) :
  (∀ po, po ∈ pos → 0 < qval (po_quantity po) ∧ qval (po_quantity po) mod bench_lot_size = 0) →
  let total := sum_over (λ po, qval (po_quantity po)) pos in
  total mod bench_lot_size = 0 ∧ (pos ≠ [] → 0 < total).
Proof.
  cbv zeta. pose proof (nonzero_pos bench_lot_size). induction pos as [|po pos IH]; intros Hq; [done|].
  rewrite sum_over_cons. destruct (Hq po ltac:(left)) as [Hp Hm].
  destruct IH as [IH _]; [intros po' Hin; apply Hq; by right|].
  assert (0 ≤ sum_over (λ po, qval (po_quantity po)) pos) by (apply sum_over_nonneg; intros; apply qval_range).
  split; [|lia]. by rewrite Z.add_mod, IH, Hm by lia.
Qed.

Section depth.
Context (depth : DepthSnapshot) (bids asks : list PendingOrder) (Hd : depth_ok depth bids asks).
Context (rt : Runtime) (Hrt : ∀ i, rt_instruction_counter rt i < MAX_INSTRUCTION_BUDGET).
Let steps : Z := 1 + 3 * Z.of_nat (length bids) + 3 * Z.of_nat (length asks).

(** The book the benchmarks start from: the bids and asks of the snapshot rest on it. *)
Record populated (w : World) b : Prop := {
  pp_market : market steps (w_state w) b;
  pp_pending : ob_pending_orders b = [];
  pp_bids_len : bids_len b = length bids;
  pp_total : sum_over r_qty (side_list b Buy) = sum_over (λ po, qval (po_quantity po)) bids;
  pp_prices (x : Price * RestingOrder) : x ∈ side_list b Buy → bench_tick_size ≤ x.1
}.

Lemma depth_lengths : length (ds_bids depth) = length bids ∧ length (ds_asks depth) = length asks.
Proof. split; eapply Forall2_length; apply Hd. Qed.

Lemma steps_bound : steps + 4 < MAX_STEPS.
Proof. pose proof (dp_count _ _ _ Hd). unfold steps, MAX_STEPS. lia. Qed.

(** Nothing in the snapshot crosses. *)
Lemma depth_no_cross b osb osa :
  (∀ side, side_list b side = []) → Forall2 same_terms bids osb → Forall2 same_terms asks osa →
  no_cross b (osb ++ osa).
Proof.
  intros Hs Hb Ha.
  assert (Hob : ∀ o, o ∈ osb → ∃ po, po ∈ bids ∧ same_terms po o).
  { intros o Ho. apply list_elem_of_lookup in Ho as [i Ho]. destruct (Forall2_lookup_r _ _ _ _ _ Hb Ho) as (po & ? & ?).
    exists po. split; [by eapply list_elem_of_lookup_2|done]. }
  assert (Hoa : ∀ o, o ∈ osa → ∃ po, po ∈ asks ∧ same_terms po o).
  { intros o Ho. apply list_elem_of_lookup in Ho as [i Ho]. destruct (Forall2_lookup_r _ _ _ _ _ Ha Ho) as (po & ? & ?).
    exists po. split; [by eapply list_elem_of_lookup_2|done]. }
  pose proof (level_orders_side _ _ _ (dp_bids _ _ _ Hd)) as Hbs.
  pose proof (level_orders_side _ _ _ (dp_asks _ _ _ Hd)) as Has.
  assert (Hterms : ∀ o, o ∈ osb ++ osa → o_tif o = GoodTilCanceled ∧
    (o_side o = Buy ∧ (∃ po, po ∈ bids ∧ o_price o = po_price po) ∨
     o_side o = Sell ∧ ∃ po, po ∈ asks ∧ o_price o = po_price po)).
  { intros o [Ho|Ho]%elem_of_app.
    - destruct (Hob o Ho) as (po & Hin & (-> & -> & _ & ->)%same_terms_fields). destruct (Hbs po Hin) as [-> ->]. eauto 6.
    - destruct (Hoa o Ho) as (po & Hin & (-> & -> & _ & ->)%same_terms_fields). destruct (Has po Hin) as [-> ->]. eauto 6. }
  split.
  - intros o Ho. by destruct (Hterms o Ho).
  - intros o x _. rewrite Hs. by intros ?%not_elem_of_nil.
  - intros o o' Ho Ho' Es. destruct (Hterms o Ho) as [_ Ht], (Hterms o' Ho') as [_ Ht'].
    destruct Ht as [[E1 (p1 & I1 & P1)]|[E1 (p1 & I1 & P1)]], Ht' as [[E2 (p2 & I2 & P2)]|[E2 (p2 & I2 & P2)]];
      rewrite E1, E2 in Es; try done; rewrite E1, P1, P2; cbn; apply Z.ltb_lt; by apply (dp_clear _ _ _ Hd).
Qed.

Lemma depth_sides osb osa :
  Forall2 same_terms bids osb → Forall2 same_terms asks osa →
  orders_of Buy (osb ++ osa) = as_resting <$> osb ∧ orders_of Sell (osb ++ osa) = as_resting <$> osa.
Proof.
  intros Hb Ha. unfold orders_of. rewrite !filter_app.
  destruct (terms_side Buy _ _ Hb) as [B1 B2]; [intros po Hin; by apply (level_orders_side _ _ _ (dp_bids _ _ _ Hd))|].
  destruct (terms_side Sell _ _ Ha) as [A1 A2]; [intros po Hin; by apply (level_orders_side _ _ _ (dp_asks _ _ _ Hd))|].
  cbn [opp] in *. by rewrite B1, B2, A1, A2, app_nil_r.
Qed.

Lemma depth_tick po : po ∈ bids → bench_tick_size ≤ po_price po.
Proof.
  intros Hin. destruct (dp_good _ _ _ Hd po) as [(Hp & Ht & _) _ _]; [apply elem_of_app; by left|].
  change (ob_tick_size new_bench_book) with bench_tick_size in Ht.
  change (uval (nzval bench_tick_size)) with 100000 in *. pose proof (u128_range (po_price po)).
  apply Z.mod_divide in Ht as [c Hc]; lia.
Qed.

(** A book on which exactly the snapshot rests. *)
Lemma rested_populated w b osb osa :
  market steps (w_state w) b → ob_pending_orders b = [] →
  Forall2 same_terms bids osb → Forall2 same_terms asks osa →
  side_list b Buy ≡ₚ as_resting <$> osb → side_list b Sell ≡ₚ as_resting <$> osa →
  populated w b ∧ asks_len b = length asks.
Proof.
  intros Hm Hp Hb Ha Eb Ea. destruct (terms_resting _ _ Hb) as (Kb & Tb & Pb).
  destruct (terms_resting _ _ Ha) as (Ka & _ & _).
  destruct (side_len b) as [Lb La].
  - apply (inv_wf _ (br_inv _ _ (market_ready _ _ _ Hm))).
  - change (bids_list b) with (side_list b Buy). rewrite Eb, Kb. apply Hd.
  - change (asks_list b) with (side_list b Sell). rewrite Ea, Ka. apply Hd.
  - split.
    + split; [done|done| | |].
      * rewrite Lb. change (bids_list b) with (side_list b Buy). rewrite Eb, length_fmap.
        symmetry. by eapply Forall2_length.
      * by rewrite (sum_over_perm _ _ _ Eb).
      * intros x. rewrite Eb. intros Hx. destruct (Pb x Hx) as (po & Hin & ->). by apply depth_tick.
    + rewrite La. change (asks_list b) with (side_list b Sell). rewrite Ea, length_fmap.
      symmetry. by eapply Forall2_length.
Qed.

Lemma populate_ok s log :
  market 1 s new_bench_book →
  ∃ w b, populate_state depth rt (MkWorld s log) = Done w ∧ populated w b.
Proof.
  intros Hm. pose proof steps_bound as Hsteps. destruct depth_lengths as [Lb La].
  unfold populate_state. cbn [w_state w_log].
  destruct (place_all _ _ _ (place_level_run Buy 0 _ _ (dp_bids _ _ _ Hd)
    (λ po Hin, dp_good _ _ _ Hd po (proj2 (elem_of_app _ _ _) (or_introl Hin)))) 1 s _ Hm)
    as (s1 & b1 & -> & Hm1 & [(osb & Ep1 & Hosb) Hs1]); [rewrite length_enumerate; unfold steps in *; lia|].
  cbn [ebind].
  destruct (place_all _ _ _ (place_level_run Sell (length (ds_bids depth)) _ _ (dp_asks _ _ _ Hd)
    (λ po Hin, dp_good _ _ _ Hd po (proj2 (elem_of_app _ _ _) (or_intror Hin)))) _ s1 _ Hm1)
    as (s2 & b2 & -> & Hm2 & [(osa & Ep2 & Hosa) Hs2]); [rewrite !length_enumerate; unfold steps in *; lia|].
  rewrite !length_enumerate, Lb, La in Hm2. fold steps in Hm2. cbn [ebind].
  rewrite (market_book _ _ _ Hm2). cbn [ebind].
  rewrite Ep1 in Ep2. change (ob_pending_orders new_bench_book) with (@nil Order) in Ep2. cbn [app] in Ep2.
  pose proof (Forall2_length _ _ _ Hosb) as Lob. pose proof (Forall2_length _ _ _ Hosa) as Loa.
  unfold pending_orders_len at 1. rewrite Ep2, length_app, Lb, La, Lob, Loa, Nat.eqb_refl. cbn [assert ebind].
  pose proof (dp_count _ _ _ Hd) as Hcount. pose proof (market_ready _ _ _ Hm2) as [Hinv Hfe Hnx Hload].
  destruct (quiet_round b2 Hinv Hfe) as (out & b' & Eq & [Hi' Hp' _ _ _ _ Hsides]).
  { rewrite Ep2. apply depth_no_cross; [|done..]. intros side. rewrite Hs2, Hs1. by destruct side. }
  { unfold MAX_STEPS in Hsteps. change (uint_max 64) with (2 ^ 64 - 1). lia. }
  destruct (market_run steps s2 b2 policy_MAX rt log Hm2) as (out' & b'' & w & E' & -> & Hmw & _); [lia| | |done|].
  { rewrite Ep2. intros [E _]%app_nil. rewrite E in Lob. by apply length_zero_iff_nil, (dp_any _ _ _ Hd) in Lob. }
  { rewrite Ep2, length_app. change (uval (nzval (ep_max_orders_per_chunk policy_MAX))) with (2 ^ 32 - 1). lia. }
  rewrite Eq in E'. injection E' as <- <-. cbn [ebind]. rewrite (market_book _ _ _ Hmw). cbn [ebind].
  unfold pending_orders_len. rewrite Hp'. cbn [length Nat.eqb assert ebind].
  destruct (depth_sides osb osa Hosb Hosa) as [Ob Oa].
  assert (Hempty : ∀ side, side_list b2 side = []) by (intros side; rewrite Hs2, Hs1; by destruct side).
  destruct (rested_populated w b' osb osa Hmw Hp' Hosb Hosa) as [Hpop Lasks].
  { by rewrite Hsides, Ep2, Ob, Hempty, app_nil_r. }
  { by rewrite Hsides, Ep2, Oa, Hempty, app_nil_r. }
  rewrite (pp_bids_len _ _ Hpop), Lasks, Lob, Loa, !Nat.eqb_refl. cbn [assert ebind]. by exists w, b'.
Qed.

(** ** Sweeping the bids *)

Definition bid_total : Z := sum_over (λ po, qval (po_quantity po)) bids.

Lemma level_quantity level po : level_order Buy level = Done po →
  ∃ q, parse_decimal_8 level.2 = Done q ∧ qval (po_quantity po) = q.
Proof.
  unfold level_order. intros E. exec_inv. eexists. split; [done|]. apply qval_from_u128.
Qed.

Lemma total_ok : total_bid_quantity depth = Done (mk_uint 128 bid_total).
Proof.
  unfold total_bid_quantity, bid_total.
  assert (Hgen : ∀ levels pos (acc : u128),
    Forall2 (λ level po, level_order Buy level = Done po) levels pos →
    exec_fold (λ (total : u128) level,
      let! qty := parse_decimal_8 level.2 in Done (mk_uint 128 (total + qty))) acc levels =
    Done (mk_uint 128 (acc + sum_over (λ po, qval (po_quantity po)) pos))).
  { intros levels pos acc Hl. revert acc. induction Hl as [|level po levels pos Hlv Hl IH]; intros acc.
    - cbn. rewrite sum_over_nil, Z.add_0_r. by rewrite mk_uint_uval.
    - destruct (level_quantity _ _ Hlv) as (q & Eq & Ev). cbn [exec_fold]. rewrite Eq. cbn [ebind].
      rewrite IH, sum_over_cons, Ev. f_equal. apply uint_eq_iff. rewrite !mk_uint_val, Zplus_mod_idemp_l.
      f_equal. lia. }
  rewrite (Hgen _ _ (mk_uint 128 0) (dp_bids _ _ _ Hd)). done.
Qed.

Lemma bid_total_range : 0 < bid_total < 2 ^ 128 - bench_lot_size ∧ bid_total mod bench_lot_size = 0.
Proof.
  assert (Hq : ∀ po, po ∈ bids → 0 < qval (po_quantity po) ∧ qval (po_quantity po) mod bench_lot_size = 0).
  { intros po Hin. destruct (dp_good _ _ _ Hd po) as [(_ & _ & Hq & Hl) _ _]; [apply elem_of_app; by left|].
    pose proof (qval_range (po_quantity po)). split; [lia|exact Hl]. }
  destruct (lots_sum bids Hq) as [Hmod Hpos]. pose proof (dp_total _ _ _ Hd). fold bid_total in *.
  split; [|done]. split; [apply Hpos, Hd|lia].
Qed.

Lemma bid_quantity : qval (from_u128 (mk_uint 128 bid_total)) = bid_total.
Proof.
  destruct bid_total_range as [Hr _]. pose proof (nonzero_pos bench_lot_size).
  rewrite qval_from_u128. apply mk_uint_small. change (Z.of_N 128) with 128. lia.
Qed.

Lemma sweep_good tif q : qval q = bid_total ∨ qval q = bid_total + bench_lot_size → good_order (sweep_order tif q).
Proof.
  intros Hq. destruct bid_total_range as [Hr Hm]. change (uval (nzval bench_lot_size)) with 1000000 in *.
  assert (Hmod : qval q mod 1000000 = 0).
  { destruct Hq as [-> | ->]; [done|]. rewrite Z.add_mod, Hm by lia. done. }
  split; cbn [sweep_order po_price po_quantity].
  - unfold valid_order. change (uval (nzval (ob_lot_size new_bench_book))) with 1000000.
    split_and!; [done|done|lia|done].
  - lia.
  - change (uval (nzval bench_tick_size)) with 100000. lia.
Qed.

Definition sweep_taker : Principal :=
  bench_user (mk_uint 64 (Z.of_nat (length (ds_bids depth) + length (ds_asks depth)))).

(** The benchmark up to its checks: one order against the populated book. *)
Lemma sweep_run f po status log :
  f (from_u128 (mk_uint 128 bid_total)) = Done po → good_order po →
  ∃ w0 b next out b' w r, let o := into_order po (ob_next_seq b) in let b1 := submitted b po next in
    populated w0 b ∧ market (steps + 3) (w_state w) b' ∧ book_inv b1 ∧ ob_filled_orders b1 = ∅ ∧
    seqZ (ob_next_fill b1) + Z.of_nat (length (side_list b Buy)) ≤ uint_max 64 ∧
    process_pending_orders b1 [o_id o] = Done (out, b') ∧
    or_status r = default Pending (status_in out (o_id o)) ∧
    full_bid_sweep depth f status rt log =
      (let! _ := assert (pending_orders_len b' =? 0)%nat in
       let! _ := assert (bool_decide (or_status r = status)) in
       let! _ :=
         match status with
         | Expired =>
             let! _ := assert (bool_decide (bs_bids (to_snapshot b') = bs_bids (to_snapshot b1))) in
             assert (bool_decide (bs_asks (to_snapshot b') = bs_asks (to_snapshot b1)))
         | Filled =>
             let! _ := assert (bool_decide (bs_bids (to_snapshot b') = [])) in
             assert (bool_decide (bs_asks (to_snapshot b') = bs_asks (to_snapshot b1)))
         | _ => Trap
         end in
       Done w).
Proof.
  intros Hf Hgo. pose proof steps_bound as Hsteps. destruct market_new as (s & Es & Hm).
  destruct (populate_ok s log Hm) as (w0 & b & Ep & Hpop). pose proof (pp_market _ _ Hpop) as Hm0.
  destruct (market_fund steps (w_state w0) b sweep_taker Hm0 ltac:(lia)) as (s1 & Ef & Hm1 & _ & Hfu).
  destruct (market_place (steps + 2) s1 b sweep_taker po Hm1 ltac:(lia) Hfu Hgo)
    as (s2 & next & r & Epl & Hm2 & Hnx & Hown & Hst & Hget).
  replace (steps + 2 + 1) with (steps + 3) in Hm2 by lia.
  set (b1 := submitted b po next) in *. set (o := into_order po (ob_next_seq b)).
  assert (Hp1 : ob_pending_orders b1 = [o]) by (cbn; by rewrite (pp_pending _ _ Hpop)).
  destruct (market_run (steps + 3) s2 b1 policy_MAX rt (w_log w0) Hm2) as (out & b' & w & Eo & Er & Hmw & Hrec);
    [lia|by rewrite Hp1|by rewrite Hp1|done|].
  unfold pending_order_seqs in Eo. rewrite Hp1 in Eo. cbn [fmap list_fmap] in Eo.
  destruct (Hrec (ob_next_seq b) r) as (r' & Hr' & Hsame & Hst'); [by rewrite Hget, decide_True|].
  pose proof (market_ready _ _ _ Hm2) as [Hinv Hfe Hnx1 Hload].
  exists w0, b, next, out, b', w, r'. cbv zeta. fold b1 o.
  split_and!; [done|done|done|done| |exact Eo|by rewrite Hst', Hst|].
  { unfold MAX_STEPS in Hsteps. change (uint_max 64) with (2 ^ 64 - 1).
    assert (length (side_list b Buy) ≤ resting_count b1)%nat
      by (unfold resting_count; change (bids_list b1) with (side_list b Buy); lia). lia. }
  unfold full_bid_sweep. rewrite Es. cbn [ebind]. rewrite Ep. cbn [ebind]. rewrite total_ok. cbn [ebind].
  fold sweep_taker. rewrite Ef. cbn [ebind]. rewrite Hf. cbn [ebind]. rewrite Epl. cbn [ebind].
  rewrite (market_book _ _ _ Hm2). cbn [ebind]. unfold pending_orders_len at 1. rewrite Hp1.
  cbn [length Nat.eqb assert ebind]. change (bids_len b1) with (bids_len b).
  rewrite (pp_bids_len _ _ Hpop). destruct depth_lengths as [Lb _]. rewrite Lb, Nat.eqb_refl. cbn [assert ebind].
  rewrite Er. cbn [ebind]. rewrite (market_book _ _ _ Hmw). cbn [ebind].
  destruct (pending_orders_len b' =? 0)%nat; cbn [assert ebind]; [|done].
  assert (Huser : get_user_order (w_state w) sweep_taker (oid_of (ob_next_seq b)) =
    Done (Some (oid_of (ob_next_seq b), bench_trading_pair, r'))).
  { unfold get_user_order. rewrite Hr', bool_decide_eq_false_2
      by (intros Hne; apply Hne; by rewrite (so_owner _ _ Hsame)).
    change (book_id (oid_of (ob_next_seq b))) with (@Seq_ZERO OrderBookMarker).
    by rewrite (proj2 (get_pair_iff _ _ _) (mk_pair _ _ _ Hmw)). }
  rewrite Huser. done.
Qed.

(** A sell of the whole bid side, kept or killed, takes all of it. *)
Lemma sweep_fills tif log :
  ∃ w, full_bid_sweep depth (λ total, Done (sweep_order tif total)) Filled rt log = Done w.
Proof.
  destruct bid_total_range as [Hr _]. set (q := from_u128 (mk_uint 128 bid_total)).
  pose proof bid_quantity as Hq. fold q in Hq.
  destruct (sweep_run (λ total, Done (sweep_order tif total)) (sweep_order tif q) Filled log eq_refl
    (sweep_good tif q (or_introl Hq)))
    as (w0 & b & next & out & b' & w & r & Hpop & _ & Hinv & Hfe & Hn & Eo & Hst & ->).
  set (b1 := submitted b (sweep_order tif q) next) in *. set (o := into_order (sweep_order tif q) (ob_next_seq b)) in *.
  destruct (sweep_round b1 o Hinv Hfe) as (out' & b'' & Eo' & Hinv' & Hp' & Hbids & Hasks & Hfilled & Hexp).
  - cbn. by rewrite (pp_pending _ _ Hpop).
  - intros x Hx. cbn. apply Z.ltb_ge. by apply (pp_prices _ _ Hpop).
  - change (side_list b1 (opp (o_side o))) with (side_list b Buy). rewrite (pp_total _ _ Hpop).
    change (o_remaining o) with q. by rewrite Hq.
  - exact Hn.
  - rewrite Eo in Eo'. injection Eo' as <- <-. unfold pending_orders_len. rewrite Hp'. cbn [length Nat.eqb assert ebind].
    unfold status_in in Hst. rewrite Hexp, dom_empty_L in Hst. rewrite decide_False in Hst by (apply not_elem_of_empty).
    rewrite decide_True in Hst by done. rewrite bool_decide_eq_true_2 by done. cbn [assert ebind].
    pose proof (inv_wf _ Hinv') as Hwf.
    rewrite (snapshot_no_bids b'), (snapshot_asks b' b1), !bool_decide_eq_true_2
      by (done || apply (inv_wf _ Hinv)). cbn [assert ebind]. by exists w.
Qed.

(** A fill-or-kill sell of one lot more is killed, and leaves the book as it was. *)
Lemma sweep_killed log : ∃ w, full_bid_sweep depth one_lot_more Expired rt log = Done w.
Proof.
  destruct bid_total_range as [Hr _]. set (q := from_u128 (mk_uint 128 bid_total)).
  pose proof bid_quantity as Hq. fold q in Hq.
  set (q1 := q_of_Z (bid_total + bench_lot_size)).
  assert (Hq1 : qval q1 = bid_total + bench_lot_size).
  { apply q_of_Z_val. pose proof (nonzero_pos bench_lot_size). assert (2 ^ 128 < 2 ^ 256) by done. lia. }
  assert (Hf : one_lot_more q = Done (sweep_order FillOrKill q1)).
  { unfold one_lot_more. rewrite (proj2 (checked_add_Some q _ q1)); [done|].
    rewrite Hq1, Hq. reflexivity. }
  destruct (sweep_run one_lot_more (sweep_order FillOrKill q1) Expired log Hf
    (sweep_good FillOrKill q1 (or_intror Hq1)))
    as (w0 & b & next & out & b' & w & r & Hpop & _ & Hinv & Hfe & Hn & Eo & Hst & ->).
  set (b1 := submitted b (sweep_order FillOrKill q1) next) in *.
  set (o := into_order (sweep_order FillOrKill q1) (ob_next_seq b)) in *.
  destruct (kill_round b1 o Hinv Hfe) as (out' & Eo' & Hexp & _).
  - cbn. by rewrite (pp_pending _ _ Hpop).
  - intros x Hx. cbn. apply Z.ltb_ge. by apply (pp_prices _ _ Hpop).
  - change (side_list b1 (opp (o_side o))) with (side_list b Buy). rewrite (pp_total _ _ Hpop).
    change (o_remaining o) with q1. rewrite Hq1. fold bid_total. pose proof (nonzero_pos bench_lot_size). lia.
  - done.
  - rewrite Eo in Eo'. injection Eo' as <- ->.
    cbn [assert ebind pending_orders_len with_filled with_pending ob_pending_orders length Nat.eqb].
    unfold status_in in Hst. rewrite Hexp, decide_True in Hst by (rewrite dom_singleton; by apply elem_of_singleton).
    rewrite bool_decide_eq_true_2 by done. cbn [assert ebind].
    rewrite !bool_decide_eq_true_2 by done. cbn [assert ebind]. by exists w.
Qed.
End depth.

(** ** Orders that only rest *)

(** The index of a book has one entry per resting order. *)
Lemma resting_index_size b : book_inv b → size (ob_resting_orders b) = resting_count b.
Proof.
  intros Hb. set (ids := x_id <$> (bids_list b ++ asks_list b)).
  assert (Hnd : NoDup ids).
  { unfold ids. rewrite fmap_app. apply NoDup_app.
    split_and!; [apply (inv_ids_NoDup b Buy Hb)| |apply (inv_ids_NoDup b Sell Hb)].
    intros seq (x & -> & Hx)%list_elem_of_fmap (y & E & Hy)%list_elem_of_fmap.
    apply (inv_lookup b Buy _ Hb) in Hx. apply (inv_lookup b Sell _ Hb) in Hy. rewrite E in Hx. congruence. }
  rewrite <- size_dom. replace (dom (ob_resting_orders b)) with (list_to_set ids : gset OrderSeq).
  { rewrite size_list_to_set by done. unfold ids. by rewrite length_fmap, length_app. }
  apply set_eq. intros seq. rewrite elem_of_list_to_set, elem_of_dom. unfold ids.
  rewrite fmap_app, elem_of_app, !list_elem_of_fmap. split.
  - intros [(x & -> & Hx)|(x & -> & Hx)]; [apply (inv_lookup b Buy _ Hb) in Hx|apply (inv_lookup b Sell _ Hb) in Hx];
      rewrite Hx; by eexists.
  - intros [[side p] E]. apply (inv_index _ Hb) in E as (r & Hr & <-).
    destruct side; [left|right]; by exists (p, r).
Qed.

Definition spread_orders (side : Side) (price : Z) (half : nat) : list PendingOrder :=
  spread_order side price <$> seq 0 half.

Lemma spread_good side price i :
  price mod 100000 = 0 → 0 < price < 2 ^ 64 → Z.of_nat i < 2 ^ 32 → good_order (spread_order side price i).
Proof.
  intros Hm Hp Hi. set (z := (Z.of_nat i + 1) * 1000000).
  assert (Ep : uval (mk_uint 128 price) = price) by (apply mk_uint_small; change (Z.of_N 128) with 128; lia).
  assert (Eq : qval (from_u64 (mk_uint 64 z)) = z).
  { rewrite qval_from_u64. apply mk_uint_small. change (Z.of_N 64) with 64. unfold z. lia. }
  split; cbn [spread_order po_price po_quantity]; change (uval (nzval bench_lot_size)) with 1000000; fold z;
    rewrite ?Ep, ?Eq.
  - unfold valid_order. rewrite Ep, Eq. change (uval (nzval (ob_tick_size new_bench_book))) with 100000.
    change (uval (nzval (ob_lot_size new_bench_book))) with 1000000. unfold z.
    split_and!; [lia|done|lia|apply Z.mod_mul; lia].
  - unfold z. lia.
  - unfold z. nia.
Qed.

Lemma spread_run side price offset half :
  price mod 100000 = 0 → 0 < price < 2 ^ 64 → Z.of_nat half < 2 ^ 32 →
  Forall2 (λ a po, good_order po ∧ ∃ id, ∀ s,
    place_spread side price offset s a = (let! (_, s) := fund_and_place s id po in Done s))
    (seq 0 half) (spread_orders side price half).
Proof.
  intros Hm Hp Hh. unfold spread_orders. apply Forall2_fmap_r, Forall_Forall2_diag, Forall_forall.
  intros i Hi%elem_of_seq. split; [apply spread_good; [done..|lia]|]. by exists (offset + i)%nat.
Qed.

Lemma spread_terms side price half os :
  Forall2 same_terms (spread_orders side price half) os →
  ∀ o, o ∈ os → o_side o = side ∧ o_price o = mk_uint 128 price ∧ o_tif o = GoodTilCanceled.
Proof.
  intros Hos o Ho. apply list_elem_of_lookup in Ho as [i Ho].
  destruct (Forall2_lookup_r _ _ _ _ _ Hos Ho) as (po & Hpo & (-> & -> & _ & ->)%same_terms_fields).
  unfold spread_orders in Hpo. apply list_lookup_fmap_Some in Hpo as (j & -> & _). done.
Qed.

Lemma spread_no_cross b half osb osa :
  (∀ side, side_list b side = []) →
  Forall2 same_terms (spread_orders Buy 200000000 half) osb →
  Forall2 same_terms (spread_orders Sell 300000000 half) osa → no_cross b (osb ++ osa).
Proof.
  intros Hempty Hosb Hosa.
  assert (Hterms : ∀ o, o ∈ osb ++ osa → o_tif o = GoodTilCanceled ∧
    (o_side o = Buy ∧ o_price o = mk_uint 128 200000000 ∨ o_side o = Sell ∧ o_price o = mk_uint 128 300000000)).
  { intros o [Ho|Ho]%elem_of_app.
    - destruct (spread_terms _ _ _ _ Hosb o Ho) as (? & ? & ?). auto.
    - destruct (spread_terms _ _ _ _ Hosa o Ho) as (? & ? & ?). auto. }
  split.
  - intros o Ho. by destruct (Hterms o Ho).
  - intros o x _. rewrite Hempty. by intros ?%not_elem_of_nil.
  - intros o o' Ho Ho' Es. destruct (Hterms o Ho) as [_ [[E1 P1]|[E1 P1]]], (Hterms o' Ho') as [_ [[E2 P2]|[E2 P2]]];
      rewrite E1, E2 in Es; try done; by rewrite E1, P1, P2.
Qed.

Lemma spread_count b b' half osb osa :
  (∀ side, side_list b side = []) →
  Forall2 same_terms (spread_orders Buy 200000000 half) osb →
  Forall2 same_terms (spread_orders Sell 300000000 half) osa →
  (∀ side, side_list b' side ≡ₚ orders_of side (osb ++ osa) ++ side_list b side) →
  resting_count b' = (resting_count b + 2 * half)%nat.
Proof.
  intros Hempty Hosb Hosa Hsides. unfold resting_count.
  change (bids_list ?x) with (side_list x Buy). change (asks_list ?x) with (side_list x Sell).
  rewrite (Permutation_length (Hsides Buy)), (Permutation_length (Hsides Sell)), !length_app, !Hempty.
  unfold orders_of. rewrite !length_fmap, !filter_app.
  destruct (terms_side Buy _ _ Hosb) as [B1 B2]; [intros po (i & -> & _)%list_elem_of_fmap; done|].
  destruct (terms_side Sell _ _ Hosa) as [A1 A2]; [intros po (i & -> & _)%list_elem_of_fmap; done|].
  cbn [opp] in *. rewrite B1, B2, A1, A2, app_nil_r.
  apply Forall2_length in Hosb, Hosa. unfold spread_orders in *. rewrite length_fmap, length_seq in *. cbn [length app]. lia.
Qed.

Lemma no_fills_ok half rt log :
  (0 < half)%nat → Z.of_nat half < 2 ^ 31 →
  (∀ i, rt_instruction_counter rt i < MAX_INSTRUCTION_BUDGET) →
  ∃ w, no_fills_round half rt log = Done w.
Proof.
  intros Hpos Hh Hrt. unfold no_fills_round, place_non_crossing_orders.
  destruct market_new as (s & -> & Hm). cbn [ebind].
  destruct (place_all _ _ _ (spread_run Buy 200000000 0 half eq_refl ltac:(lia) ltac:(lia)) 1 s _ Hm)
    as (s1 & b1 & -> & Hm1 & [(osb & Ep1 & Hosb) Hs1]); [rewrite length_seq; unfold MAX_STEPS; lia|]. cbn [ebind].
  destruct (place_all _ _ _ (spread_run Sell 300000000 half half eq_refl ltac:(lia) ltac:(lia)) _ s1 _ Hm1)
    as (s2 & b2 & -> & Hm2 & [(osa & Ep2 & Hosa) Hs2]); [rewrite !length_seq; unfold MAX_STEPS; lia|]. cbn [ebind].
  rewrite !length_seq in Hm2. set (n := 1 + 3 * Z.of_nat half + 3 * Z.of_nat half) in Hm2.
  rewrite (market_book _ _ _ Hm2). cbn [ebind]. rewrite Ep1 in Ep2.
  change (ob_pending_orders new_bench_book) with (@nil Order) in Ep2. cbn [app] in Ep2.
  pose proof (Forall2_length _ _ _ Hosb) as Lob. pose proof (Forall2_length _ _ _ Hosa) as Loa.
  unfold spread_orders in Lob, Loa. rewrite length_fmap, length_seq in Lob, Loa.
  assert (Hempty : ∀ side, side_list b2 side = []) by (intros side; rewrite Hs2, Hs1; by destruct side).
  pose proof (market_ready _ _ _ Hm2) as [Hinv Hfe Hnx Hload].
  assert (Hlen : length (ob_pending_orders b2) = (2 * half)%nat) by (rewrite Ep2, length_app; lia).
  unfold pending_orders_len at 1. rewrite Hlen, Nat.eqb_refl. cbn [assert ebind].
  destruct (quiet_round b2 Hinv Hfe) as (out & b' & Eq & [Hi' Hp' _ _ _ _ Hsides]).
  { rewrite Ep2. by apply (spread_no_cross b2 half). }
  { unfold MAX_STEPS in *. change (uint_max 64) with (2 ^ 64 - 1). unfold n in *. lia. }
  destruct (market_run n s2 b2 policy_MAX rt log Hm2) as (out' & b'' & w & E' & -> & Hmw & _).
  { unfold n, MAX_STEPS. lia. }
  { intros E. rewrite E in Hlen. cbn in Hlen. lia. }
  { rewrite Hlen. change (uval (nzval (ep_max_orders_per_chunk policy_MAX))) with (2 ^ 32 - 1). lia. }
  { done. }
  rewrite Eq in E'. injection E' as <- <-. cbn [ebind]. rewrite (market_book _ _ _ Hmw). cbn [ebind].
  unfold pending_orders_len. rewrite Hp'. cbn [length Nat.eqb assert ebind].
  unfold resting_orders_len. rewrite !resting_index_size by done.
  assert (Hc : resting_count b' = (resting_count b2 + 2 * half)%nat).
  { rewrite Ep2 in Hsides. by apply (spread_count b2 b' half osb osa). }
  rewrite Hc, Nat.eqb_refl. cbn [assert ebind]. by exists w.
Qed.
End market.
