(* ===== verification/Fixtures.v ===== *)
(** * The test fixtures (src/canister/src/test_fixtures)

    The values and states the unit tests start from (mod.rs, order.rs, tokens.rs and the
    sample events of event.rs), the runtimes they run against, and the generators of random
    test data. What a generator draws from is the proptest crate: the class [Proptest]
    states what its combinators may produce. A closure that panics is a trap, and the
    arithmetic of this code is that of a debug build, where an overflow panics too.

    The last part shows that no generator ever panics and that what it draws is what its
    comment says: orders the book takes, fills within the taker's limit, policies the
    state accepts, outputs of a round that name each order once. *)

From Stdlib Require Import String.
From stdpp Require Import prelude gmap.
From Stdlib Require Import ZArith NArith Lia.
From S2P Require Import Prelude Word BTree Text Bytes Cbor Quantity QuantityCodec.
From S2P Require Import Ids Fees OrderTypes OrderQueue FillPlan OrderBook BookSnapshot.
From S2P Require Import BookInv BookMatching BookInvMatch BookPending BookRound BookCancel.
From S2P Require Import Tokens Balance WriteBack History OrderHistory.
From S2P Require Import UserRegistry Settlement Permissions PairMap Events State EventAudit.
From S2P Require Import Codecs Snapshot Storage ApiErrors Api Ledger Endpoints Queries.
From S2P Require Import StateInv InvFunds SystemRun EventSize Bench.
Open Scope Z_scope.

(** ** Random data: the proptest crate *)

(** A strategy draws a value from a seed; drawing runs the closures of the strategy and may
    panic. The laws say what the documentation promises: a range with a value in it stays
    within its bounds, a collection has a length in its range (a set, at most the upper
    end) and is made of draws of its elements. *)
Class Proptest : Type := {
  strategy : Type → Type;
  seed : Type;
  sample {A} : strategy A → seed → exec A;
  Just {A} : A → strategy A;
  any_bool : strategy bool;
  any_uint w : strategy (uint w);
  range {w} : uint w → uint w → strategy (uint w);
  range_inclusive {w} : uint w → uint w → strategy (uint w);
  string_regex : list u8 → strategy (list u8);
  prop_map {A B} : strategy A → (A → exec B) → strategy B;
  prop_flat_map {A B} : strategy A → (A → exec (strategy B)) → strategy B;
  tuple {A B} : strategy A → strategy B → strategy (A * B);
  prop_oneof {A} : strategy A → list (strategy A) → strategy A;
  option_of {A} : strategy A → strategy (option A);
  vec {A} : strategy A → nat → nat → strategy (list A);
  btree_set {A} `{Countable A} : strategy A → nat → strategy (gset A);
  sample_just {A} (a : A) s : sample (Just a) s = Done a;
  sample_any_bool s : ∃ b, sample any_bool s = Done b;
  sample_any_uint w s : ∃ v, sample (any_uint w) s = Done v;
  sample_range {w} (lo hi : uint w) s : lo < hi →
    ∃ v, sample (range lo hi) s = Done v ∧ lo ≤ v < hi;
  sample_range_inclusive {w} (lo hi : uint w) s : lo ≤ hi →
    ∃ v, sample (range_inclusive lo hi) s = Done v ∧ lo ≤ v ≤ hi;
  sample_letters s : ∃ x, sample (string_regex (text "[a-zA-Z]{1,10}")) s = Done x ∧
    (1 ≤ length x ≤ 10)%nat;
  sample_map {A B} (st : strategy A) (f : A → exec B) s :
    ∃ s', sample (prop_map st f) s = let! a := sample st s' in f a;
  sample_flat_map {A B} (st : strategy A) (f : A → exec (strategy B)) s :
    ∃ s1 s2, sample (prop_flat_map st f) s =
      let! a := sample st s1 in let! st' := f a in sample st' s2;
  sample_tuple {A B} (st : strategy A) (st' : strategy B) s :
    ∃ s1 s2, sample (tuple st st') s =
      let! a := sample st s1 in let! b := sample st' s2 in Done (a, b);
  sample_oneof {A} (st : strategy A) sts s :
    ∃ st' s', st' ∈ st :: sts ∧ sample (prop_oneof st sts) s = sample st' s';
  sample_option {A} (st : strategy A) s :
    sample (option_of st) s = Done None ∨
    ∃ s', sample (option_of st) s = let! a := sample st s' in Done (Some a);
  sample_vec {A} (st : strategy A) lo hi s : (lo ≤ hi)%nat →
    ∃ ss, (lo ≤ length ss ≤ hi)%nat ∧ sample (vec st lo hi) s = exec_map (sample st) ss;
  sample_btree_set {A} `{Countable A} (st : strategy A) hi s :
    ∃ ss, (length ss ≤ hi)%nat ∧
      sample (btree_set st hi) s = let! l := exec_map (sample st) ss in Done (list_to_set l)
}.

Notation "a ⊗ b" := (tuple a b) (at level 40, left associativity) : oisy_scope.

(** An implementation: a seed is a stream of numbers, split for the parts of a strategy. *)
Module Streams.
Definition stream : Type := nat → Z.
Definition part (i n : nat) (s : stream) : stream := λ k, s (1 + i + n * k)%nat.
Definition letter (z : Z) : u8 := mk_uint 8 ((if Z.even z then 65 else 97) + z / 2 mod 26).
Definition pick {A} (a : A) (l : list A) (z : Z) : A := default a ((a :: l) !! Z.to_nat (z mod Z.of_nat (S (length l)))).
Definition size_between (lo hi : nat) (z : Z) : nat := (lo + Z.to_nat (z mod Z.of_nat (S (hi - lo))))%nat.
Definition parts (n : nat) (s : stream) : list stream := (λ i, part i n s) <$> seq 0 n.

Lemma pick_elem {A} (a : A) l z : pick a l z ∈ a :: l.
Proof.
  unfold pick. destruct ((a :: l) !! _) eqn:E; [by eapply list_elem_of_lookup_2|left].
Qed.
Lemma size_between_bounds lo hi z : (lo ≤ hi)%nat → (lo ≤ size_between lo hi z ≤ hi)%nat.
Proof.
  intros Hle. unfold size_between. pose proof (Z.mod_pos_bound z (Z.of_nat (S (hi - lo))) ltac:(lia)). lia.
Qed.
Lemma length_parts n s : length (parts n s) = n.
Proof. unfold parts. by rewrite length_fmap, length_seq. Qed.

#[export] Program Instance streams : Proptest := {|
  strategy A := stream → exec A;
  seed := stream;
  sample A st s := st s;
  Just A a := λ _, Done a;
  any_bool := λ s, Done (Z.even (s 0%nat));
  any_uint w := λ s, Done (mk_uint w (s 0%nat));
  range w lo hi := λ s, Done (mk_uint w (lo + s 0%nat mod (hi - lo)));
  range_inclusive w lo hi := λ s, Done (mk_uint w (lo + s 0%nat mod (hi + 1 - lo)));
  string_regex pattern := λ s,
    Done ((λ s, letter (s 0%nat)) <$> parts (size_between 1 10 (s 0%nat)) s);
  prop_map A B st f := λ s, let! a := st s in f a;
  prop_flat_map A B st f := λ s, let! a := st (part 0 2 s) in let! st' := f a in st' (part 1 2 s);
  tuple A B st st' := λ s, let! a := st (part 0 2 s) in let! b := st' (part 1 2 s) in Done (a, b);
  prop_oneof A st sts := λ s, pick st sts (s 0%nat) (part 0 1 s);
  option_of A st := λ s,
    if Z.even (s 0%nat) then Done None else let! a := st (part 0 1 s) in Done (Some a);
  vec A st lo hi := λ s, exec_map st (parts (size_between lo hi (s 0%nat)) s);
  btree_set A _ _ st hi := λ s,
    let! l := exec_map st (parts (size_between 0 hi (s 0%nat)) s) in Done (list_to_set l)
|}.
Solve Obligations with (try by eauto).
Next Obligation.
  intros w lo hi s Hlt. eexists. split; [done|]. pose proof (uint_range lo). pose proof (uint_range hi).
  pose proof (Z.mod_pos_bound (s 0%nat) (hi - lo) ltac:(lia)). rewrite mk_uint_small by lia. lia.
Qed.
Next Obligation.
  intros w lo hi s Hle. eexists. split; [done|]. pose proof (uint_range lo). pose proof (uint_range hi).
  pose proof (Z.mod_pos_bound (s 0%nat) (hi + 1 - lo) ltac:(lia)). rewrite mk_uint_small by lia. lia.
Qed.
Next Obligation.
  intros s. eexists. split; [done|]. rewrite length_fmap, length_parts. by apply size_between_bounds; lia.
Qed.
Next Obligation. intros A st sts s. eexists _, _. split; [apply pick_elem|done]. Qed.
Next Obligation. intros A st s. cbn. case_match; [by left|right]. by eexists. Qed.
Next Obligation.
  intros A st lo hi s Hle. eexists. split; [|done]. rewrite length_parts. by apply size_between_bounds.
Qed.
Next Obligation.
  intros A ?? st hi s. eexists. split; [|done]. rewrite length_parts. apply size_between_bounds. lia.
Qed.
End Streams.

(** ** Tokens (tokens.rs) *)

Inductive SupportedTokens : Set := ICP | CKBTC | CKETH | CKUSDC | CKUSDT | VCHF.

(** Principals as texts. The crate accepts only the canonical text of a principal. *)
Class PrincipalText `{PrincipalType} : Type := {
  from_text : list u8 → option Principal;
  to_text : Principal → list u8;
  from_text_canonical s p : from_text s = Some p → to_text p = s
}.

Definition token_ledger_id (self : SupportedTokens) : list u8 :=
  match self with
  | ICP => text "ryjl3-tyaaa-aaaaa-aaaba-cai"
  | CKBTC => text "mxzaz-hqaaa-aaaar-qaada-cai"
  | CKETH => text "ss2fx-dyaaa-aaaar-qacoq-cai"
  | CKUSDC => text "xevnm-gaaaa-aaaar-qafnq-cai"
  | CKUSDT => text "cngnf-vqaaa-aaaar-qag4q-cai"
  | VCHF => text "ly36x-wiaaa-aaaai-aqj7q-cai"
  end.
Definition token_symbol (self : SupportedTokens) : list u8 :=
  match self with
  | ICP => text "ICP"
  | CKBTC => text "ckBTC"
  | CKETH => text "ckETH"
  | CKUSDC => text "ckUSDC"
  | CKUSDT => text "ckUSDT"
  | VCHF => text "VCHF"
  end.
Definition token_decimals (self : SupportedTokens) : u8 :=
  match self with
  | ICP | CKBTC | VCHF => mk_uint 8 8
  | CKETH => mk_uint 8 18
  | CKUSDC | CKUSDT => mk_uint 8 6
  end.
(** [10_u64.checked_pow(decimals).unwrap()]. *)
Definition token_one (self : SupportedTokens) : exec u64 := expect (pow10_u64 (token_decimals self)).

Section tokens.
Context `{PrincipalText}.

Definition token_id (self : SupportedTokens) : exec ApiTokenId :=
  let! ledger_id := expect (from_text (token_ledger_id self)) in
  Done (MkApiTokenId ledger_id).
Definition test_token_metadata (self : SupportedTokens) : ApiTokenMetadata :=
  MkApiTokenMetadata (token_symbol self) (token_decimals self).
Definition test_token (self : SupportedTokens) : exec ApiToken :=
  let! id := token_id self in
  Done (MkApiToken id (test_token_metadata self)).
End tokens.

(** ** Values (mod.rs) *)

Definition test_tick_size : TickSize := NonZero (mk_uint 128 100) eq_refl.
Definition test_lot_size : LotSize := NonZero (mk_uint 64 1000000) eq_refl.
Definition test_min_notional : Quantity := from_u128 (mk_uint 128 1).
Definition test_max_notional : Quantity := Quantity_MAX.
Definition test_price_scale : u128 := mk_uint 128 100000000.
Definition TEST_BOOK_ID : OrderBookId := Seq_ZERO.

Definition icp_metadata : TokenMetadata := MkTokenMetadata (text "ICP") (mk_uint 8 8).
Definition ckbtc_metadata : TokenMetadata := MkTokenMetadata (text "ckBTC") (mk_uint 8 8).
Definition test_base_metadata : TokenMetadata := MkTokenMetadata (text "BASE") (mk_uint 8 8).
Definition test_quote_metadata : TokenMetadata := MkTokenMetadata (text "QUOTE") (mk_uint 8 8).

Definition test_order_book : OrderBook :=
  book_new TEST_BOOK_ID test_tick_size test_lot_size test_min_notional (Some test_max_notional)
    fee_rates_default.

Definition gtc_order (id : u64) (side : Side) (price : u128) (quantity : u64) : Order :=
  into_order (MkPendingOrder side price (from_u64 quantity) GoodTilCanceled) (MkSeq id).
Definition test_buy (id : u64) : u128 → u64 → Order := gtc_order id Buy.
Definition test_sell (id : u64) : u128 → u64 → Order := gtc_order id Sell.
Definition all_order_types (price : u128) (quantity : u64) : list Order :=
  [test_buy (mk_uint 64 1) price quantity; test_sell (mk_uint 64 2) price quantity].

Definition test_fill (seq : u64) (taker : Order) (maker : OrderSeq) (price : u128)
    (quantity : u64) : Fill :=
  MkFill (MkSeq seq) (o_id taker) (o_side taker) (o_price taker) maker price (from_u64 quantity).

(** Test code is compiled with overflow checks. *)
Definition debug_add {w} (a b : uint w) : exec (uint w) := expect (u_checked_add a b).
Definition debug_mul {w} (a b : uint w) : exec (uint w) := expect (u_checked_mul a b).

Section fixtures.
Context `{PrincipalSlice} `{!PrincipalText} `{!BiBTreeMap TradingPair OrderBookId} `{BigUint}.

Definition test_principal (seed : u8) : Principal := from_slice [seed].
Definition test_maker (i : u64) : exec Principal :=
  let! id := debug_add (mk_uint 64 0x1000) i in
  Done (from_slice (be_bytes 8 id)).

Definition fixture_token_id (token : SupportedTokens) : exec TokenId :=
  let! id := token_id token in
  Done (token_from id).
Definition icp_token_id : exec TokenId := fixture_token_id ICP.
Definition ckbtc_token_id : exec TokenId := fixture_token_id CKBTC.
Definition ckusdt_token_id : exec TokenId := fixture_token_id CKUSDT.
Definition icp_ckbtc_trading_pair : exec TradingPair :=
  let! base := icp_token_id in
  let! quote := ckbtc_token_id in
  Done (MkTradingPair base quote).
Definition icp_ckusdt_trading_pair : exec TradingPair :=
  let! base := icp_token_id in
  let! quote := ckusdt_token_id in
  Done (MkTradingPair base quote).

Definition limit_order_request : exec LimitOrderRequest :=
  let! trading_pair := icp_ckbtc_trading_pair in
  let! price := debug_mul (mk_uint 128 100) test_price_scale in
  Done (MkLimitOrderRequest (api_pair trading_pair) ApiBuy (Z.to_N price) (Z.to_N (nzval test_lot_size)) None).
Definition trading_pair_request (base_id : ApiTokenId) (base_meta : ApiTokenMetadata)
    (quote_id : ApiTokenId) (quote_meta : ApiTokenMetadata) : AddTradingPairRequest :=
  MkAddTradingPairRequest (MkApiToken base_id base_meta) (MkApiToken quote_id quote_meta)
    (Z.to_N (nzval test_tick_size)) (nat_of_lot test_lot_size) (mk_uint 16 0) (mk_uint 16 0)
    (to_nat test_min_notional) (Some (to_nat test_max_notional)).

(** ** States *)

(** [state] on memory of its own and [state_vmem] on the canister's, both empty. *)
Definition test_state : exec State := empty_state bench_init_arg.
Definition state_vmem : exec State := empty_state bench_init_arg.

Definition list_test_pair (state : State) (pair : TradingPair) (base_meta quote_meta : TokenMetadata)
    (fee_rates : FeeRates) : exec State :=
  record_trading_pair state Seq_ZERO pair base_meta quote_meta test_tick_size test_lot_size
    test_min_notional (Some test_max_notional) fee_rates.
Definition two_token_state : exec (State * TokenId * TokenId) :=
  let! state := test_state in
  let! a_id := ckbtc_token_id in
  let! b_id := icp_token_id in
  let! state := list_test_pair state (MkTradingPair a_id b_id) ckbtc_metadata icp_metadata
    fee_rates_default in
  Done (state, a_id, b_id).
Definition init_state_with_order_book_and_fees (fee_rates : FeeRates) : exec State :=
  let! state := state_vmem in
  let! trading_pair := icp_ckbtc_trading_pair in
  list_test_pair state trading_pair icp_metadata ckbtc_metadata fee_rates.
Definition init_state_with_order_book : exec State :=
  init_state_with_order_book_and_fees fee_rates_default.

Definition accrue_fee (balances : TokenBalance) (token : TokenId) (fee : u64) : exec TokenBalance :=
  let alice : UserId := seq_lit 1 in
  let bob : UserId := seq_lit 2 in
  let hundred := from_u64 (mk_uint 64 100) in
  let! balances := tb_deposit balances alice token hundred in
  let! (reserved, balances) := tb_reserve balances alice token hundred in
  let! _ := assert (is_ok reserved) in
  let! (_, balances) := with_write_back balances (λ wb,
    let! wb := transfer wb alice bob token hundred (from_u64 fee) in
    Done ((), wb)) in
  Done balances.

Definition balances_pair (state : State) (user : Principal) (pair : TradingPair) : Balance * Balance :=
  (get_balance state user (base pair), get_balance state user (quote pair)).
Definition test_fund_user (state : State) (user : Principal) : exec State :=
  let! trading_pair := icp_ckbtc_trading_pair in
  let amount := from_u64 (mk_uint 64 (uint_max 64)) in
  let! state := state_deposit state user (base trading_pair) amount Write in
  state_deposit state user (quote trading_pair) amount Write.

#[export] Instance OrderRecord_eq_dec : EqDecision OrderRecord.
Proof. solve_decision. Defined.
Definition assert_eq_ignoring_timestamp (actual expected : OrderRecord) : exec unit :=
  let normalized := MkOrderRecord (or_owner actual) (or_side actual) (or_price actual)
    (or_quantity actual) (or_status actual) (or_created_at expected) (or_filled_quantity actual)
    (or_last_updated_at expected) (or_time_in_force actual) (or_filled_quote actual)
    (or_filled_fee actual) (or_placed_by actual) (or_canceled_by actual) in
  assert (bool_decide (normalized = expected)).
Definition record_of (state : State) (owner : Principal) (order_id : OrderId) : exec OrderRecord :=
  let! found := get_user_order state owner order_id in
  let! (_, record) := expect found in
  Done record.

(** ** Placing orders (order.rs) *)

Record PlaceOrder : Type := MkPlaceOrder {
  pl_user : Principal;
  pl_pair : TradingPair;
  pl_side : Side;
  pl_price : u128;
  pl_quantity : Quantity;
  pl_time_in_force : TimeInForce
}.

Definition test_order (user : Principal) (pair : TradingPair) (side : Side) (price : u128)
    (quantity : Quantity) : PlaceOrder :=
  MkPlaceOrder user pair side price quantity GoodTilCanceled.
Definition with_time_in_force (time_in_force : TimeInForce) (self : PlaceOrder) : PlaceOrder :=
  MkPlaceOrder (pl_user self) (pl_pair self) (pl_side self) (pl_price self) (pl_quantity self)
    time_in_force.
Definition fill_or_kill : PlaceOrder → PlaceOrder := with_time_in_force FillOrKill.

(** Deposits what the order reserves, then places it. *)
Definition deposit_and_place (self : PlaceOrder) (state : State) : exec (OrderId * State) :=
  let pending := MkPendingOrder (pl_side self) (pl_price self) (pl_quantity self)
    (pl_time_in_force self) in
  let! (token, amount) :=
    match pl_side self with
    | Buy =>
        let! scale := base_scale state (base (pl_pair self)) in
        let! settled := checked_mul_quantity_scaled (po_price pending) (po_quantity pending) scale in
        let! amount := expect settled in
        Done (quote (pl_pair self), amount)
    | Sell => Done (base (pl_pair self), po_quantity pending)
    end in
  let! state := state_deposit state (pl_user self) token amount Write in
  let! valid := validate_limit_order state (pl_user self) (pl_pair self) pending in
  match valid with
  | Err _ => Trap
  | Ok (order_id, order) =>
      let! state := record_limit_order state (pl_user self) (book_id order_id) order None EPOCH Write in
      Done (order_id, state)
  end.

(** ** Sample events (event.rs) *)

Definition last_event `{Minicbor} (log : list (list u8)) : exec EventType :=
  let! index := expect (u_checked_sub (total_event_count log) (mk_uint 64 1)) in
  let! event := get_event log index in
  let! event := expect event in
  Done (ev_payload event).
Definition init_event (mode : Mode) : Event :=
  MkEvent EPOCH (EInit (MkInitArg mode DEFAULT_MAX_ORDERS_PER_CHUNK DEFAULT_INSTRUCTION_BUDGET
    (Some DEFAULT_MAX_SETTLEMENT_UNITS_PER_EVENT))).
Definition upgrade_event (mode : option Mode) (max_orders_per_chunk : option u32)
    (instruction_budget : option u64) (max_settlement_units_per_event : option u32) : Event :=
  MkEvent (mk_uint 64 1) (EUpgrade (MkUpgradeArg mode max_orders_per_chunk instruction_budget
    max_settlement_units_per_event)).
Definition add_trading_pair_event (base quote : Principal) : Event :=
  MkEvent (mk_uint 64 2) (EAddTradingPair (MkAddTradingPairEvent Seq_ZERO (MkTokenId base)
    (MkTokenId quote) test_tick_size test_lot_size test_base_metadata test_quote_metadata
    fee_rates_default test_min_notional (Some test_max_notional))).

(** ** Runtimes (mod.rs, [mocks]) *)

(** A reading a mock has no expectation for panics; no code under test takes one, and
    [unset] stands for it. *)
Definition mock_runtime_at (unset : Runtime) (caller : Principal) (now : Timestamp) : Runtime :=
  MkRuntime caller (rt_canister_self unset) (rt_is_controller unset) (λ _, mk_uint 64 0) now.
Definition mock_runtime_for (unset : Runtime) (caller : Principal) : Runtime :=
  mock_runtime_at unset caller EPOCH.
Definition mock_runtime_for_timer (unset : Runtime) : Runtime :=
  MkRuntime (rt_msg_caller unset) (rt_canister_self unset) (rt_is_controller unset)
    (λ _, mk_uint 64 0) EPOCH.

Definition place_limit_order (unset : Runtime) (w : World) (user : Principal) (side : ApiSide)
    (price : u128) (quantity : u64) : exec World :=
  let! trading_pair := icp_ckbtc_trading_pair in
  let! (placed, w) := add_limit_order w
    (MkLimitOrderRequest (api_pair trading_pair) side (Z.to_N price) (Z.to_N quantity) None)
    (mock_runtime_for unset user) in
  let! _ := assert (is_ok placed) in
  Done w.

(** A runtime that answers calls from a queue and keeps their encoded arguments. *)
Record CapturedCall : Type := MkCapturedCall {
  cc_canister_id : Principal; cc_method : list u8; cc_args : list u8
}.
Record CapturingRuntime (Response CallError : Type) : Type := MkCapturing {
  cap_caller : Principal;
  cap_responses : list (result Response CallError);
  cap_captured_calls : list CapturedCall
}.
Arguments MkCapturing {_ _} _ _ _.
Arguments cap_caller {_ _} _.
Arguments cap_responses {_ _} _.
Arguments cap_captured_calls {_ _} _.

Section capturing.
Context {Response CallError A : Type} (encode_args : A → option (list u8))
  (decode_args : list u8 → option A).
Implicit Types self : CapturingRuntime Response CallError.

Definition cc_decode_args (call : CapturedCall) : exec A := expect (decode_args (cc_args call)).
Definition capturing_new (caller : Principal) (responses : list (result Response CallError)) :
    CapturingRuntime Response CallError := MkCapturing caller responses [].
Definition captured_calls self : list CapturedCall := cap_captured_calls self.
Definition capturing_call self (canister_id : Principal) (method : list u8) (args : A) :
    exec (result Response CallError * CapturingRuntime Response CallError) :=
  let! encoded := expect (encode_args args) in
  let calls := cap_captured_calls self ++ [MkCapturedCall canister_id method encoded] in
  match cap_responses self with
  | [] => Trap
  | response :: responses => Done (response, MkCapturing (cap_caller self) responses calls)
  end.
Definition capturing_readings self : Runtime :=
  MkRuntime (cap_caller self) anonymous (λ _, false) (λ _, mk_uint 64 0) EPOCH.
End capturing.

(** ** Generators (mod.rs, [arbitrary]) *)

Section arbitrary.
Context `{Proptest}.

Definition lit {w} (z : Z) : uint w := mk_uint w z.
(** [lo..hi] of [u64] literals. *)
Definition u64_range (lo hi : Z) : strategy u64 := range (lit lo) (lit hi).
Definition as_usize (n : nat) : u64 := mk_uint 64 (Z.of_nat n).

Definition arb_side : strategy Side := prop_oneof (Just Buy) [Just Sell].
Definition arb_time_in_force : strategy TimeInForce :=
  prop_oneof (Just GoodTilCanceled) [Just FillOrKill].
Definition arb_pair_token : strategy PairToken := prop_oneof (Just Base) [Just Quote].
Definition arb_timestamp : strategy Timestamp := prop_map (any_uint 64) (λ t, Done t).
Definition arb_price : strategy Price := prop_map (any_uint 64) (λ p, Done (u_cast 128 p)).
Definition arb_order_seq : strategy OrderSeq := prop_map (any_uint 64) (λ s, Done (MkSeq s)).
Definition arb_fill_seq : strategy FillSeq := prop_map (any_uint 64) (λ s, Done (MkSeq s)).
Definition arb_user_id : strategy UserId := prop_map (any_uint 64) (λ s, Done (MkSeq s)).
Definition arb_order_id : strategy OrderId :=
  prop_map (any_uint 64 ⊗ any_uint 64) (λ '(book, seq), Done (MkCompositeId (MkSeq book) (MkSeq seq))).
Definition arb_quantity : strategy Quantity :=
  prop_oneof (prop_map (any_uint 64) (λ low, Done (MkQuantity (lit 0) (u_cast 128 low))))
    [prop_map (any_uint 128) (λ low, Done (MkQuantity (lit 0) low));
     prop_map (any_uint 128 ⊗ any_uint 128) (λ '(high, low), Done (MkQuantity high low))].
Definition arb_balance : strategy Balance :=
  prop_map (arb_quantity ⊗ arb_quantity) (λ '(free, reserved), Done (MkBalance free reserved)).
Definition arb_principal : strategy Principal :=
  prop_map (vec (any_uint 8) 0 29) (λ bytes, Done (from_slice bytes)).
Definition arb_token_id : strategy TokenId := prop_map arb_principal (λ p, Done (MkTokenId p)).
Definition arb_balance_key : strategy (TokenId * UserId) :=
  prop_map (arb_principal ⊗ arb_user_id) (λ '(token, user), Done (MkTokenId token, user)).
Definition arb_filter_token : strategy FilterToken :=
  prop_map arb_token_id (λ id, Done (ById (api_token_id id))).
Definition arb_filter_tokens (lo hi : nat) : strategy (list FilterToken) := vec arb_filter_token lo hi.
Definition arb_token_metadata : strategy TokenMetadata :=
  prop_map (string_regex (text "[a-zA-Z]{1,10}") ⊗ any_uint 8)
    (λ '(symbol, decimals), Done (MkTokenMetadata symbol decimals)).

(** *** Orders and fills *)

Definition arb_pending_order : strategy PendingOrder :=
  prop_map (arb_side ⊗ u64_range 1 1000 ⊗ u64_range 1 1000 ⊗ arb_time_in_force)
    (λ '(side, price_ticks, qty_lots, time_in_force),
      let! price := debug_mul (u_cast 128 price_ticks) (nzval test_tick_size) in
      let! quantity := debug_mul qty_lots (nzval test_lot_size) in
      Done (MkPendingOrder side price (from_u64 quantity) time_in_force)).
Definition arb_order : strategy Order :=
  prop_map (arb_order_seq ⊗ arb_pending_order) (λ '(seq, pending), Done (into_order pending seq)).

(** The order of one side of a spread. *)
Definition aligned_order (side : Side) (pq : u64 * u64) : exec PendingOrder :=
  let! price := debug_mul (u_cast 128 pq.1) (nzval test_tick_size) in
  let! quantity := debug_mul pq.2 (nzval test_lot_size) in
  Done (MkPendingOrder side price (from_u64 quantity) GoodTilCanceled).
Definition arb_pending_order_around_mid (mid_ticks max_ticks : u64) : exec (strategy PendingOrder) :=
  let bid := prop_map (range (lit 1) mid_ticks ⊗ u64_range 1 100) (aligned_order Buy) in
  let! first_ask := debug_add mid_ticks (lit 1) in
  let ask := prop_map (range first_ask max_ticks ⊗ u64_range 1 100) (aligned_order Sell) in
  Done (prop_oneof bid [ask]).
Definition arb_non_matching_pending_order : exec (strategy PendingOrder) :=
  arb_pending_order_around_mid (lit 100) (lit 200).
Definition arb_non_matching_orders : strategy (list PendingOrder) :=
  prop_flat_map (u64_range 2 500) (λ mid_ticks,
    let! order := arb_pending_order_around_mid mid_ticks (lit 1000) in
    Done (vec order 0 29)).

Definition arb_fill (index : u64) : strategy Fill :=
  prop_map (any_bool ⊗ u64_range 1 100 ⊗ u64_range 1 100 ⊗ u64_range 1 10)
    (λ '(is_buy, pa, pb, qty_lots),
      let! hi := debug_mul (u_cast 128 (if pa <=? pb then pb else pa)) (nzval test_tick_size) in
      let! lo := debug_mul (u_cast 128 (if pa <=? pb then pa else pb)) (nzval test_tick_size) in
      let '(taker_side, taker_price, maker_price) :=
        if (is_buy : bool) then (Buy, hi, lo) else (Sell, lo, hi) in
      let! taker_order_seq := debug_mul (lit 2) index in
      let! twice := debug_mul (lit 2) index in
      let! maker_order_seq := debug_add twice (lit 1) in
      let! quantity := debug_mul qty_lots (nzval test_lot_size) in
      Done (MkFill (MkSeq index) (MkSeq taker_order_seq) taker_side taker_price
              (MkSeq maker_order_seq) maker_price (from_u64 quantity))).

Definition arb_trade_record : strategy TradeRecord :=
  prop_map (arb_side ⊗ arb_price ⊗ arb_quantity ⊗ arb_quantity ⊗ arb_quantity ⊗ arb_pair_token ⊗
            any_bool ⊗ arb_timestamp)
    (λ '(side, price, quantity, notional, fee, fee_token, is_maker, timestamp),
      Done (MkTradeRecord side price quantity notional fee fee_token is_maker timestamp)).

Definition arb_removed_order : strategy RemovedOrder :=
  prop_map (arb_side ⊗ u64_range 1 100 ⊗ u64_range 1 10)
    (λ '(side, price_ticks, qty_lots),
      let! price := debug_mul (u_cast 128 price_ticks) (nzval test_tick_size) in
      let! quantity := debug_mul qty_lots (nzval test_lot_size) in
      Done (MkRemovedOrder side price (from_u64 quantity))).

(** [&l[a..b]]. *)
Definition slice_of {A} (l : list A) (a b : nat) : exec (list A) :=
  if (a <=? b)%nat && (b <=? length l)%nat then Done (take (b - a) (drop a l)) else Trap.

Definition arb_disjoint_seqs : strategy (gset OrderSeq * gset OrderSeq * list OrderSeq) :=
  prop_flat_map (btree_set (any_uint 64) 14) (λ seqs,
    let seqs := bset_iter seqs in
    let len := as_usize (length seqs) in
    Done (prop_map (Just seqs ⊗ range_inclusive (lit 0) len ⊗ range_inclusive (lit 0) len)
      (λ '(seqs, a, b),
        let '(lo, hi) := if a <=? b then (a, b) else (b, a) in
        let! resting := slice_of seqs 0 (Z.to_nat lo) in
        let! filled := slice_of seqs (Z.to_nat lo) (Z.to_nat hi) in
        let! expired := slice_of seqs (Z.to_nat hi) (length seqs) in
        Done (list_to_set (MkSeq <$> resting), list_to_set (MkSeq <$> filled), MkSeq <$> expired)))).
Definition arb_any_fill : strategy Fill :=
  prop_flat_map (any_uint 32) (λ i, Done (arb_fill (u_cast 64 i))).
Definition arb_matching_output : strategy MatchingOutput :=
  prop_map
    (prop_flat_map (vec arb_any_fill 0 4 ⊗ arb_disjoint_seqs)
      (λ '(fills, (resting_orders, filled_orders, expired_seqs)),
        let expired_len := length expired_seqs in
        Done (Just fills ⊗ Just resting_orders ⊗ Just filled_orders ⊗ Just expired_seqs ⊗
              vec arb_removed_order expired_len expired_len)))
    (λ '(fills, resting_orders, filled_orders, expired_seqs, removed),
      let expired_orders := foldl (λ (m : gmap OrderSeq RemovedOrder) kv, <[kv.1 := kv.2]> m) ∅
        (zip expired_seqs removed) in
      Done (MkMatchingOutput fills resting_orders filled_orders expired_orders)).

(** *** Settings *)

Definition arb_mode : strategy Mode :=
  prop_oneof (Just GeneralAvailability)
    [prop_map (btree_set arb_principal 5) (λ allowed, Done (RestrictedTo allowed))].
Definition arb_init_arg : strategy InitArg :=
  prop_map (arb_mode ⊗ range_inclusive (lit 1) (lit 10000) ⊗
            range_inclusive (lit 1) (lit 40000000000) ⊗
            option_of (range_inclusive (lit 1) (lit 10000)))
    (λ '(mode, max_orders_per_chunk, instruction_budget, max_settlement_units_per_event),
      Done (MkInitArg mode max_orders_per_chunk instruction_budget max_settlement_units_per_event)).
Definition arb_upgrade_arg : strategy UpgradeArg :=
  prop_map (option_of arb_mode ⊗ option_of (range_inclusive (lit 1) (lit 10000)) ⊗
            option_of (range_inclusive (lit 1) (lit 40000000000)) ⊗
            option_of (range_inclusive (lit 1) (lit 10000)))
    (λ '(mode, max_orders_per_chunk, instruction_budget, max_settlement_units_per_event),
      Done (MkUpgradeArg mode max_orders_per_chunk instruction_budget max_settlement_units_per_event)).

Definition arb_basis_point : strategy BasisPoint :=
  prop_map (range_inclusive (lit 0) (lit 10000)) (λ v : u16,
    match BasisPoint_new v with Ok b => Done b | Err _ => Trap end).
Definition arb_fee_rates : strategy FeeRates :=
  prop_map (arb_basis_point ⊗ arb_basis_point) (λ '(maker, taker), Done (MkFeeRates maker taker)).

Definition arb_permissions : strategy Permissions :=
  prop_map (any_bool ⊗ btree_set (prop_map (any_uint 64) (λ v, Done (MkSeq v : OrderBookId))) MAX_HALT_BOOKS)
    (λ '(globally_halted, halted_pairs),
      let permissions := permissions_default in
      let permissions :=
        if (globally_halted : bool) then halt_trading_globally permissions else permissions in
      Done (foldl perm_halt_trading permissions (bset_iter halted_pairs))).
Definition arb_book_halted_permissions : strategy (Permissions * OrderBookId * bool) :=
  let other := prop_map (range_inclusive (lit 1) (lit (uint_max 64)))
    (λ v, Done (MkSeq v : OrderBookId)) in
  let global := prop_map other (λ other,
    Done (halt_trading_globally permissions_default, other, true)) in
  let pair := prop_map other (λ other,
    Done (perm_halt_trading permissions_default Seq_ZERO, other, false)) in
  prop_oneof global [pair].

(** *** Events *)

Definition arb_add_trading_pair_event : strategy AddTradingPairEvent :=
  prop_map (any_uint 64 ⊗ arb_principal ⊗ arb_principal ⊗ u64_range 1 (uint_max 64) ⊗
            u64_range 1 (uint_max 64) ⊗ arb_token_metadata ⊗ arb_token_metadata ⊗ arb_fee_rates ⊗
            arb_quantity ⊗ option_of arb_quantity)
    (λ '(book_id, base, quote, tick_size, lot_size, base_metadata, quote_metadata, fee_rates,
         min_notional, max_notional),
      let! tick_size := expect (nz_new (u_cast 128 tick_size)) in
      let! lot_size := expect (nz_new lot_size) in
      Done (MkAddTradingPairEvent (MkSeq book_id) (MkTokenId base) (MkTokenId quote) tick_size
              lot_size base_metadata quote_metadata fee_rates min_notional max_notional)).
Definition arb_deposit_event : strategy DepositEvent :=
  prop_map (arb_principal ⊗ arb_token_id ⊗ arb_quantity)
    (λ '(user, token, amount), Done (MkDepositEvent user token amount)).
Definition arb_withdraw_event : strategy WithdrawEvent :=
  prop_map (any_uint 64 ⊗ arb_principal ⊗ arb_token_id ⊗ arb_quantity)
    (λ '(block_index, user, token, amount), Done (MkWithdrawEvent block_index user token amount)).
Definition arb_add_limit_order_event : strategy AddLimitOrderEvent :=
  prop_map (arb_principal ⊗ arb_order_id ⊗ arb_side ⊗ arb_price ⊗ arb_quantity ⊗
            arb_time_in_force ⊗ option_of arb_principal)
    (λ '(user, order_id, side, price, quantity, time_in_force, placed_by),
      Done (MkAddLimitOrderEvent user order_id side price quantity time_in_force placed_by)).
Definition arb_cancel_limit_order_event : strategy CancelLimitOrderEvent :=
  prop_map (arb_order_id ⊗ option_of arb_principal)
    (λ '(order_id, canceled_by), Done (MkCancelLimitOrderEvent order_id canceled_by)).
Definition arb_matching_event : strategy MatchingEvent :=
  prop_map (any_uint 64 ⊗ vec arb_order_seq 0 4)
    (λ '(book_id, orders), Done (MkMatchingEvent (MkSeq book_id) orders)).

(** The fee is a share of the amount; a fee of zero is none. *)
Definition arb_transfer : strategy BalanceOperation :=
  prop_map (arb_order_seq ⊗ arb_order_seq ⊗ arb_pair_token ⊗ arb_quantity ⊗ arb_basis_point)
    (λ '(from_order, to_order, token, amount, bp),
      let! raw := mul_ceil bp amount in
      let fee := if is_zero raw then None else Some raw in
      Done (Transfer from_order to_order token amount fee)).
Definition arb_unreserve : strategy BalanceOperation :=
  prop_map (arb_order_seq ⊗ arb_pair_token ⊗ arb_quantity)
    (λ '(order, token, amount), Done (Unreserve order token amount)).
Definition arb_balance_operation : strategy BalanceOperation :=
  prop_oneof arb_transfer [arb_unreserve].
Definition arb_fill_event : strategy FillEvent :=
  prop_map (arb_fill_seq ⊗ arb_order_seq ⊗ arb_order_seq ⊗ arb_quantity ⊗ arb_fee_rates)
    (λ '(fill_seq, taker_order_seq, maker_order_seq, quantity, fee_rates),
      Done (MkFillEvent fill_seq taker_order_seq maker_order_seq quantity fee_rates)).
Definition arb_settling_event : strategy SettlingEvent :=
  prop_map (any_uint 64 ⊗ vec arb_balance_operation 0 9 ⊗ vec arb_fill_event 0 9)
    (λ '(book_id, balance_operations, fills),
      Done (MkSettlingEvent (MkSeq book_id) balance_operations fills)).
Definition arb_set_halt_event : strategy SetHaltEvent :=
  prop_map (option_of (vec (prop_map (any_uint 64) (λ v, Done (MkSeq v : OrderBookId))) 0 MAX_HALT_BOOKS) ⊗
            any_bool)
    (λ '(book_ids, halted), Done (MkSetHaltEvent book_ids halted)).
Definition arb_add_trading_account_event : strategy AddTradingAccountEvent :=
  prop_map (arb_principal ⊗ arb_principal) (λ '(funding, trading),
    Done (MkAddTradingAccountEvent (MkFundingAccount funding) (MkTradingAccount trading))).
Definition arb_remove_trading_account_event : strategy RemoveTradingAccountEvent :=
  prop_map (arb_principal ⊗ arb_principal) (λ '(funding, trading),
    Done (MkRemoveTradingAccountEvent (MkFundingAccount funding) (MkTradingAccount trading))).

Definition arb_event_type : strategy EventType :=
  prop_oneof (prop_map arb_init_arg (λ e, Done (EInit e)))
    [prop_map arb_upgrade_arg (λ e, Done (EUpgrade e));
     prop_map arb_add_trading_pair_event (λ e, Done (EAddTradingPair e));
     prop_map arb_deposit_event (λ e, Done (EDeposit e));
     prop_map arb_withdraw_event (λ e, Done (EWithdraw e));
     prop_map arb_add_limit_order_event (λ e, Done (EAddLimitOrder e));
     prop_map arb_cancel_limit_order_event (λ e, Done (ECancelLimitOrder e));
     prop_map arb_matching_event (λ e, Done (EMatching e));
     prop_map arb_settling_event (λ e, Done (ESettling e));
     prop_map arb_set_halt_event (λ e, Done (ESetHalt e));
     prop_map arb_add_trading_account_event (λ e, Done (EAddTradingAccount e));
     prop_map arb_remove_trading_account_event (λ e, Done (ERemoveTradingAccount e))].
Definition arb_event : strategy Event :=
  prop_map (arb_timestamp ⊗ arb_event_type) (λ '(timestamp, payload), Done (MkEvent timestamp payload)).
End arbitrary.

(** A test case that fails carries its reason. *)
Inductive TestCaseError : Type := AssertionFailed.

Definition minicbor_encode `{Minicbor} {A} (c : Codec A) (t : A) : list u8 := cbor_to_bytes c t.
Definition check_minicbor_roundtrip `{Minicbor} {A} `{EqDecision A} (c : Codec A) (v : A) :
    exec (result unit TestCaseError) :=
  let! decoded := cbor_from_bytes c (cbor_to_bytes c v) in
  Done (if bool_decide (v = decoded) then Ok () else Err AssertionFailed).
End fixtures.

(** ** What the generators draw *)

Section always.
Context `{Proptest}.

(** Whatever the seed, [st] draws a value, and one with the property [P]. *)
Definition always {A} (P : A → Prop) (st : strategy A) : Prop :=
  ∀ s, ∃ a, sample st s = Done a ∧ P a.
Definition draws {A} (st : strategy A) : Prop := always (λ _, True) st.

Lemma always_weaken {A} (P Q : A → Prop) st : always P st → (∀ a, P a → Q a) → always Q st.
Proof. intros Hs HPQ s. destruct (Hs s) as (a & E & Ha). eauto. Qed.
Lemma always_draws {A} (P : A → Prop) st : always P st → draws st.
Proof. intros Hs. by eapply always_weaken. Qed.
Lemma always_just {A} (P : A → Prop) a : P a → always P (Just a).
Proof. intros Ha s. exists a. by rewrite sample_just. Qed.
Lemma draws_bool : draws any_bool.
Proof. intros s. destruct (sample_any_bool s) as (b & ->). eauto. Qed.
Lemma draws_uint w : draws (any_uint w).
Proof. intros s. destruct (sample_any_uint w s) as (b & ->). eauto. Qed.
Lemma always_range {w} (lo hi : uint w) : lo < hi → always (λ v : uint w, lo ≤ v < hi) (range lo hi).
Proof. intros Hlt s. by apply sample_range. Qed.
Lemma always_u64_range lo hi : 0 ≤ lo → lo < hi → hi < 2 ^ 64 →
  always (λ v : u64, lo ≤ v < hi) (u64_range lo hi).
Proof.
  intros H0 Hlt Hhi. unfold u64_range, lit. eapply always_weaken; [apply always_range|intros v; cbv beta];
    rewrite !mk_uint_small by (cbn; lia); [done|lia].
Qed.
Lemma always_range_inclusive {w} (lo hi : uint w) :
  lo ≤ hi → always (λ v : uint w, lo ≤ v ≤ hi) (range_inclusive lo hi).
Proof. intros Hle s. by apply sample_range_inclusive. Qed.
Lemma always_letters : always (λ x, length x ≤ 10)%nat (string_regex (text "[a-zA-Z]{1,10}")).
Proof. intros s. destruct (sample_letters s) as (x & E & _ & Hx). eauto. Qed.
Lemma always_map {A B} (P : A → Prop) (Q : B → Prop) st (f : A → exec B) :
  always P st → (∀ a, P a → ∃ b, f a = Done b ∧ Q b) → always Q (prop_map st f).
Proof.
  intros Hs Hf s. destruct (sample_map st f s) as (s' & ->). destruct (Hs s') as (a & -> & Ha).
  apply (Hf a Ha).
Qed.
Lemma always_flat_map {A B} (P : A → Prop) (Q : B → Prop) st (f : A → exec (strategy B)) :
  always P st → (∀ a, P a → ∃ st', f a = Done st' ∧ always Q st') → always Q (prop_flat_map st f).
Proof.
  intros Hs Hf s. destruct (sample_flat_map st f s) as (s1 & s2 & ->).
  destruct (Hs s1) as (a & -> & Ha). cbn [ebind]. destruct (Hf a Ha) as (st' & -> & Hst). apply Hst.
Qed.
Lemma always_tuple {A B} (P : A → Prop) (Q : B → Prop) st st' :
  always P st → always Q st' → always (λ ab, P ab.1 ∧ Q ab.2) (tuple st st').
Proof.
  intros Hs Hs' s. destruct (sample_tuple st st' s) as (s1 & s2 & ->).
  destruct (Hs s1) as (a & -> & Ha), (Hs' s2) as (b & -> & Hb). exists (a, b). done.
Qed.
Lemma always_oneof {A} (P : A → Prop) st sts : Forall (always P) (st :: sts) → always P (prop_oneof st sts).
Proof.
  intros Hs s. destruct (sample_oneof st sts s) as (st' & s' & Hin & ->).
  rewrite Forall_forall in Hs. by apply Hs.
Qed.
Lemma always_option {A} (P : A → Prop) st :
  always P st → always (λ o, ∀ a, o = Some a → P a) (option_of st).
Proof.
  intros Hs s. destruct (sample_option st s) as [->|(s' & ->)]; [by exists None|].
  destruct (Hs s') as (a & -> & Ha). exists (Some a). split; [done|]. by intros ? [= <-].
Qed.
Lemma always_vec {A} (P : A → Prop) st lo hi : (lo ≤ hi)%nat → always P st →
  always (λ l, (lo ≤ length l ≤ hi)%nat ∧ Forall P l) (vec st lo hi).
Proof.
  intros Hle Hs s. destruct (sample_vec st lo hi s Hle) as (ss & Hlen & ->).
  destruct (exec_map_total (λ _ a, P a) (sample st) ss) as (l & -> & Hl); [intros; apply Hs|].
  exists l. split; [done|]. rewrite <- (Forall2_length _ _ _ Hl). split; [done|].
  clear Hlen. by induction Hl; constructor.
Qed.
Lemma always_btree_set {A} `{Countable A} st hi : draws st →
  always (λ x : gset A, size x ≤ hi)%nat (btree_set st hi).
Proof.
  intros Hs s. destruct (sample_btree_set st hi s) as (ss & Hlen & ->).
  destruct (exec_map_total (λ _ _, True) (sample st) ss) as (l & -> & Hl); [intros; apply Hs|].
  exists (list_to_set l). split; [done|]. apply Forall2_length in Hl.
  pose proof (size_list_le l). lia.
Qed.
Lemma draws_map {A B} (P : A → Prop) st (f : A → exec B) :
  always P st → (∀ a, P a → ∃ b, f a = Done b) → draws (prop_map st f).
Proof. intros Hs Hf. eapply always_map; [done|]. intros a [b E]%Hf. eauto. Qed.
Lemma draws_pure {A B} st (f : A → B) : draws st → draws (prop_map st (λ a, Done (f a))).
Proof. intros Hs. eapply draws_map; [done|]. eauto. Qed.
Lemma draws_tuple {A B} (st : strategy A) (st' : strategy B) : draws st → draws st' → draws (tuple st st').
Proof. intros Hs Hs'. eapply always_draws. by apply always_tuple. Qed.
Lemma draws_option {A} (st : strategy A) : draws st → draws (option_of st).
Proof. intros Hs. by eapply always_draws, always_option. Qed.
End always.

(** *** Orders *)

Lemma debug_mul_ok {w} (a b : uint w) : a * b < 2 ^ Z.of_N w → debug_mul a b = Done (mk_uint w (a * b)).
Proof.
  intros Hlt. unfold debug_mul, u_checked_mul. pose proof (uint_range a). pose proof (uint_range b).
  rewrite (proj2 (checked_Some (a * b) (mk_uint w (a * b)))); [done|]. rewrite mk_uint_small; [done|]. nia.
Qed.

(** Ticks and lots of the test pair. *)
Lemma ticks_ok (t : u64) : t < 1000 →
  ∃ p, debug_mul (u_cast 128 t) (nzval test_tick_size) = Done p ∧ uval p = 100 * t.
Proof.
  intros Ht. pose proof (uint_range t). assert (Hc : uval (u_cast 128 t) = t) by (apply mk_uint_small; cbn; lia).
  eexists. rewrite debug_mul_ok; rewrite Hc; change (uval (nzval test_tick_size)) with 100; [|cbn; lia].
  split; [done|]. rewrite mk_uint_small by (cbn; lia). lia.
Qed.
Lemma lots_ok (q : u64) : q < 1000 →
  ∃ v, debug_mul q (nzval test_lot_size) = Done v ∧ qval (from_u64 v) = 1000000 * q.
Proof.
  intros Hq. pose proof (uint_range q). eexists.
  rewrite debug_mul_ok; change (uval (nzval test_lot_size)) with 1000000; [|cbn; lia].
  split; [done|]. rewrite qval_from_u64, mk_uint_small by (cbn; lia). lia.
Qed.

(** A price of some ticks and a quantity of some lots. *)
Definition aligned (price : Price) (quantity : Quantity) : Prop :=
  ∃ t q, 1 ≤ t < 1000 ∧ 1 ≤ q < 1000 ∧ uval price = 100 * t ∧ qval quantity = 1000000 * q.
Lemma aligned_valid price quantity : aligned price quantity → valid_order test_order_book price quantity.
Proof.
  intros (t & q & Ht & Hq & Ep & Eq). unfold valid_order. rewrite Ep, Eq.
  change (uval (nzval (ob_tick_size test_order_book))) with 100.
  change (uval (nzval (ob_lot_size test_order_book))) with 1000000.
  rewrite (Z.mul_comm 100), (Z.mul_comm 1000000), !Z.mod_mul by lia. lia.
Qed.

Section orders.
Context `{Proptest}.

Lemma draws_side : draws arb_side.
Proof. apply always_oneof. repeat constructor; by apply always_just. Qed.
Lemma draws_tif : draws arb_time_in_force.
Proof. apply always_oneof. repeat constructor; by apply always_just. Qed.

Lemma pending_order_aligned : always (λ po, aligned (po_price po) (po_quantity po)) arb_pending_order.
Proof.
  unfold arb_pending_order. eapply always_map.
  { repeat apply always_tuple; [apply draws_side|apply always_u64_range; lia..|apply draws_tif]. }
  intros [[[side t] q] tif] [[[_ Ht] Hq] _]. cbn [fst snd] in *.
  destruct (ticks_ok t ltac:(lia)) as (p & -> & Ep), (lots_ok q ltac:(lia)) as (v & -> & Eq). cbn [ebind].
  eexists. split; [done|]. exists t, q. cbn. split_and!; done || lia.
Qed.

(** One side of a spread: good till canceled, at a price in ticks from [lo] below [hi]. *)
Definition within (side : Side) (lo hi : Z) (po : PendingOrder) : Prop :=
  po_side po = side ∧ po_tif po = GoodTilCanceled ∧ aligned (po_price po) (po_quantity po) ∧
  100 * lo ≤ po_price po < 100 * hi.

Lemma aligned_order_within side lo hi (pq : u64 * u64) :
  1 ≤ lo → hi ≤ 1000 → lo ≤ pq.1 < hi → 1 ≤ pq.2 < 100 →
  ∃ po, aligned_order side pq = Done po ∧ within side lo hi po.
Proof.
  destruct pq as [t q]. cbn [fst snd]. intros Hlo Hhi Ht Hq. unfold aligned_order. cbn [fst snd].
  destruct (ticks_ok t ltac:(lia)) as (p & -> & Ep), (lots_ok q ltac:(lia)) as (v & -> & Eq). cbn [ebind].
  eexists. split; [done|]. unfold within. cbn. split_and!; try done; try lia.
  exists t, q. split_and!; done || lia.
Qed.

Lemma around_mid (mid max : u64) :
  2 ≤ mid → mid + 1 < max → max ≤ 1000 →
  ∃ st, arb_pending_order_around_mid mid max = Done st ∧
    always (λ po, within Buy 1 mid po ∨ within Sell (mid + 1) max po) st.
Proof.
  intros Hmid Hmax Hle. unfold arb_pending_order_around_mid.
  assert (E : debug_add mid (lit 1) = Done (mk_uint 64 (mid + 1))).
  { unfold debug_add, u_checked_add. change (uval (lit (w := 64) 1)) with 1.
    rewrite (proj2 (checked_Some (mid + 1) (mk_uint 64 (mid + 1)))); [done|]. apply mk_uint_small.
    pose proof (uint_range mid). cbn in *. lia. }
  rewrite E. cbn [ebind]. eexists. split; [done|].
  assert (Em : uval (mk_uint 64 (mid + 1)) = mid + 1)
    by (pose proof (uint_range mid); apply mk_uint_small; cbn in *; lia).
  apply always_oneof. repeat constructor; (eapply always_map;
    [apply always_tuple; [apply always_range|apply always_u64_range; lia]|]).
  - change (uval (lit (w := 64) 1)) with 1. lia.
  - intros pq [H1 H2]. change (uval (lit (w := 64) 1)) with 1 in H1.
    destruct (aligned_order_within Buy 1 mid pq) as (po & -> & Hpo); [lia..|]. eauto.
  - rewrite Em. lia.
  - intros pq [H1 H2]. rewrite Em in H1.
    destruct (aligned_order_within Sell (mid + 1) max pq) as (po & -> & Hpo); [lia..|]. eauto.
Qed.

(** Orders on either side of a price in between. *)
Definition spread (pos : list PendingOrder) : Prop :=
  Forall (λ po, po_tif po = GoodTilCanceled ∧ aligned (po_price po) (po_quantity po)) pos ∧
  ∀ bid ask, bid ∈ pos → ask ∈ pos → po_side bid = Buy → po_side ask = Sell → po_price bid < po_price ask.

Lemma within_spread (mid max : Z) pos :
  Forall (λ po, within Buy 1 mid po ∨ within Sell (mid + 1) max po) pos → spread pos.
Proof.
  intros Hpos. split.
  - eapply Forall_impl; [exact Hpos|]. intros po [(_ & Ht & Ha & _)|(_ & Ht & Ha & _)]; done.
  - rewrite Forall_forall in Hpos. intros bid ask Hb Ha Eb Ea.
    destruct (Hpos bid Hb) as [(_ & _ & _ & H1)|(E & _)], (Hpos ask Ha) as [(E' & _)|(_ & _ & _ & H2)];
      try congruence. lia.
Qed.

Lemma non_matching_spread : always (λ pos, (length pos ≤ 29)%nat ∧ spread pos) arb_non_matching_orders.
Proof.
  unfold arb_non_matching_orders. eapply always_flat_map; [apply always_u64_range; lia|].
  intros mid Hmid. cbv beta in Hmid.
  destruct (around_mid mid (lit 1000)) as (st & -> & Hst); [change (uval (lit (w := 64) 1000)) with 1000; lia..|].
  cbn [ebind]. eexists. split; [done|].
  eapply always_weaken; [apply always_vec; [lia|exact Hst]|].
  intros pos [Hlen Hpos]. split; [lia|]. by eapply within_spread.
Qed.

(** The orders submitted to a book, and one round over them. *)
Definition submit_all (book : OrderBook) (pos : list PendingOrder) : exec OrderBook :=
  exec_fold (λ book po, add_pending_order book (into_order po (ob_next_seq book))) book pos.
Definition rest_all (pos : list PendingOrder) : exec (MatchingOutput * OrderBook) :=
  let! book := submit_all test_order_book pos in
  process_pending_orders book (pending_order_seqs book).

Lemma submit_all_ok pos b :
  book_inv b → Forall (λ po, valid_order b (po_price po) (po_quantity po)) pos →
  seqZ (ob_next_seq b) + Z.of_nat (length pos) < uint_max 64 →
  ∃ b' os, submit_all b pos = Done b' ∧ book_inv b' ∧ ob_pending_orders b' = ob_pending_orders b ++ os ∧
    Forall2 same_terms pos os ∧ (∀ side, side_list b' side = side_list b side) ∧
    ob_filled_orders b' = ob_filled_orders b ∧ ob_next_fill b' = ob_next_fill b.
Proof.
  intros Hb Hv. revert b Hb Hv. induction pos as [|po pos IH]; intros b Hb Hv Hn.
  { exists b, []. rewrite app_nil_r. split_and!; done || constructor. }
  apply Forall_cons in Hv as [Hpo Hv]. cbn [length] in Hn. unfold submit_all. cbn [exec_fold].
  destruct (add_pending_order_spec b (into_order po (ob_next_seq b)) Hb Hpo eq_refl ltac:(lia))
    as (next & -> & En & Hb'). cbn [ebind].
  destruct (IH _ Hb') as (b' & os & E & Hi & Ep & Hos & Hs & Hf & Hx); [exact Hv|cbn; lia|].
  exists b', (into_order po (ob_next_seq b) :: os). split_and!; [exact E|exact Hi| |by constructor| |done..].
  - rewrite Ep. cbn. by rewrite <- app_assoc.
  - intros side. rewrite Hs. by destruct side.
Qed.

Lemma spread_no_crossing b pos os :
  (∀ side, side_list b side = []) → spread pos → Forall2 same_terms pos os → no_cross b os.
Proof.
  intros Hempty [Hg Hc] Hos.
  assert (Hterms : ∀ o, o ∈ os → ∃ po, po ∈ pos ∧ po_tif po = GoodTilCanceled ∧ same_terms po o).
  { intros o Ho. rewrite Forall_forall in Hg. apply list_elem_of_lookup in Ho as [i Ho].
    destruct (Forall2_lookup_r _ _ _ _ _ Hos Ho) as (po & Hpo & Hst).
    apply list_elem_of_lookup_2 in Hpo. exists po. split_and!; [done|by apply Hg|done]. }
  split.
  - intros o Ho. destruct (Hterms o Ho) as (po & _ & Ht & (_ & _ & _ & ->)%same_terms_fields). done.
  - intros o x _. rewrite Hempty. by intros ?%not_elem_of_nil.
  - intros o o' Ho Ho' Es.
    destruct (Hterms o Ho) as (po & Hpo & _ & (E1 & E2 & _)%same_terms_fields),
      (Hterms o' Ho') as (po' & Hpo' & _ & (E1' & E2' & _)%same_terms_fields).
    rewrite E1, E1' in Es. rewrite E1, E2, E2'. destruct (po_side po) eqn:E; cbn in *.
    + apply Z.ltb_lt. by apply Hc.
    + apply Z.ltb_lt. by apply Hc.
Qed.

Lemma spread_rests pos :
  (length pos ≤ 29)%nat → spread pos →
  ∃ out b, rest_all pos = Done (out, b) ∧ mo_fills out = [] ∧ ob_pending_orders b = [] ∧
    ∀ side, length (side_list b side) = length (filter (λ po, po_side po = side) pos).
Proof.
  intros Hlen Hs. unfold rest_all.
  assert (He : ∀ side, side_list test_order_book side = []) by (intros []; done).
  destruct (submit_all_ok pos test_order_book) as (b1 & os & -> & Hb1 & Ep & Hos & Hsides & Hf & Hx).
  - apply book_new_inv.
  - destruct Hs as [Hg _]. eapply Forall_impl; [exact Hg|]. intros po [_ Ha]. by apply aligned_valid.
  - change (seqZ (ob_next_seq test_order_book)) with 0. change (uint_max 64) with (2 ^ 64 - 1). lia.
  - cbn [ebind]. change (ob_pending_orders test_order_book) with (@nil Order) in Ep. cbn [app] in Ep.
    pose proof (Forall2_length _ _ _ Hos) as Ll.
    assert (Hcount : resting_count b1 = 0%nat).
    { unfold resting_count. pose proof (Hsides Buy) as E1. pose proof (Hsides Sell) as E2.
      rewrite He in E1, E2. cbn in E1, E2. by rewrite E1, E2. }
    destruct (quiet_round b1 Hb1) as (out & b2 & E & [_ Hp _ _ _ Hfl Hr]).
    + by rewrite Hf.
    + rewrite Ep. eapply spread_no_crossing; [|done..]. intros side. by rewrite Hsides.
    + rewrite Hx, Hcount, Ep. change (seqZ (ob_next_fill test_order_book)) with 0.
      change (uint_max 64) with (2 ^ 64 - 1). lia.
    + exists out, b2. split_and!; try done. intros side. rewrite Hr, length_app, Hsides, He, Ep, Nat.add_0_r.
      unfold orders_of. rewrite length_fmap. clear -Hos. induction Hos as [|po o pos os Hst _ IH]; [done|].
      rewrite !filter_cons. destruct (same_terms_fields _ _ Hst) as (-> & _). case_decide; cbn; lia.
Qed.
End orders.

(** *** Fills and rounds *)

Section rounds.
Context `{Proptest}.

(** A fill of the numbered orders, at a price the taker accepts. *)
Definition fair_fill (index : Z) (f : Fill) : Prop :=
  seqZ (fill_seq f) = index ∧ seqZ (taker_order_seq f) = 2 * index ∧
  seqZ (maker_order_seq f) = 2 * index + 1 ∧
  aligned (taker_price f) (fill_quantity f) ∧ aligned (maker_price f) (fill_quantity f) ∧
  match taker_side f with
  | Buy => maker_price f ≤ taker_price f
  | Sell => taker_price f ≤ maker_price f
  end.

Lemma twice_ok (index : u64) : index < 2 ^ 63 →
  debug_mul (lit 2) index = Done (mk_uint 64 (2 * index)) ∧
  debug_add (mk_uint 64 (2 * index)) (lit 1) = Done (mk_uint 64 (2 * index + 1)) ∧
  uval (mk_uint 64 (2 * index)) = 2 * index ∧ uval (mk_uint 64 (2 * index + 1)) = 2 * index + 1.
Proof.
  intros Hi. pose proof (uint_range index).
  assert (E1 : uval (mk_uint 64 (2 * index)) = 2 * index) by (apply mk_uint_small; cbn; lia).
  assert (E2 : uval (mk_uint 64 (2 * index + 1)) = 2 * index + 1) by (apply mk_uint_small; cbn; lia).
  split_and!; [|unfold debug_add, u_checked_add|done..].
  - rewrite debug_mul_ok by (change (uval (lit (w := 64) 2)) with 2; cbn; lia).
    by change (uval (lit (w := 64) 2)) with 2.
  - rewrite E1. change (uval (lit (w := 64) 1)) with 1. by rewrite (proj2 (checked_Some _ _) E2).
Qed.

Lemma fill_fair (index : u64) : index < 2 ^ 63 → always (fair_fill index) (arb_fill index).
Proof.
  intros Hi. destruct (twice_ok index Hi) as (M & A & V1 & V2). unfold arb_fill. eapply always_map.
  { repeat apply always_tuple; [apply draws_bool|apply always_u64_range; lia..]. }
  intros [[[is_buy pa] pb] q] [[[_ Ha] Hb] Hq]. cbn [fst snd] in *.
  set (hi := if pa <=? pb then pb else pa). set (lo := if pa <=? pb then pa else pb).
  assert (Hl : 1 ≤ lo ∧ lo ≤ hi ∧ hi < 100) by (unfold lo, hi; destruct (Z.leb_spec pa pb); lia).
  destruct (ticks_ok hi ltac:(lia)) as (ph & -> & Eh), (ticks_ok lo ltac:(lia)) as (pl & -> & El),
    (lots_ok q ltac:(lia)) as (v & -> & Eq). cbn [ebind].
  assert (Gh : aligned ph (from_u64 v)) by (exists hi, q; split_and!; done || lia).
  assert (Gl : aligned pl (from_u64 v)) by (exists lo, q; split_and!; done || lia).
  destruct is_buy; rewrite M; cbn [ebind]; rewrite A; cbn [ebind]; (eexists; split; [done|]);
    (split_and!; [done|exact V1|exact V2|done|done|cbn; lia]).
Qed.

Lemma removed_aligned : always (λ r, aligned (ro_price r) (ro_remaining r)) arb_removed_order.
Proof.
  unfold arb_removed_order. eapply always_map.
  { repeat apply always_tuple; [apply draws_side|apply always_u64_range; lia..]. }
  intros [[side t] q] [[_ Ht] Hq]. cbn [fst snd] in *.
  destruct (ticks_ok t ltac:(lia)) as (p & -> & Ep), (lots_ok q ltac:(lia)) as (v & -> & Eq). cbn [ebind].
  eexists. split; [done|]. exists t, q. cbn. split_and!; done || lia.
Qed.

Lemma any_fill_fair : always (λ f, ∃ index, fair_fill index f) arb_any_fill.
Proof.
  unfold arb_any_fill. eapply always_flat_map; [apply draws_uint|]. intros i _. eexists. split; [done|].
  eapply always_weaken; [apply fill_fair|by eauto]. pose proof (uint_range i). cbn in *.
  unfold u_cast. rewrite mk_uint_small; cbn; lia.
Qed.

(** The orders of a round are dealt to three groups that share none. *)
Definition dealt (x : gset OrderSeq * gset OrderSeq * list OrderSeq) : Prop :=
  let '(resting, filled, expired) := x in
  resting ## filled ∧ resting ## list_to_set expired ∧ filled ## list_to_set expired ∧ NoDup expired.

Lemma slice_ok {A} (l : list A) (a b : nat) : (a ≤ b ≤ length l)%nat → slice_of l a b = Done (take (b - a) (drop a l)).
Proof.
  intros Hab. unfold slice_of. rewrite (proj2 (Nat.leb_le a b)), (proj2 (Nat.leb_le b (length l))) by lia. done.
Qed.

Lemma slices_dealt (seqs : list u64) (a b : nat) : NoDup seqs → (a ≤ b ≤ length seqs)%nat →
  dealt (list_to_set (MkSeq <$> take a seqs), list_to_set (MkSeq <$> take (b - a) (drop a seqs)),
    MkSeq <$> drop b seqs).
Proof.
  intros Hnd Hab.
  assert (E : seqs = take a seqs ++ take (b - a) (drop a seqs) ++ drop b seqs).
  { rewrite <- (take_drop a seqs) at 1. f_equal. rewrite <- (take_drop (b - a) (drop a seqs)) at 1. f_equal.
    rewrite drop_drop. f_equal. lia. }
  assert (Hn : NoDup (MkSeq (M := OrderSeqMarker) <$> seqs)) by (apply NoDup_fmap_2; [intros ?? [= ->]|]; done).
  rewrite E, !fmap_app in Hn. apply NoDup_app in Hn as (_ & H1 & Hn). apply NoDup_app in Hn as (_ & H2 & H3).
  unfold dealt. split_and!; [..|done]; intros x; rewrite !elem_of_list_to_set; intros Hx Hx'.
  - apply (H1 x Hx), elem_of_app. by left.
  - apply (H1 x Hx), elem_of_app. by right.
  - by apply (H2 x Hx).
Qed.

Lemma bset_iter_NoDup {K} `{Countable K, !Ord K, !OrdLaws K} (s : gset K) : NoDup (bset_iter s).
Proof.
  unfold bset_iter. rewrite btree_iter_perm. apply NoDup_fst_map_to_list.
Qed.

Lemma disjoint_seqs_dealt : always dealt arb_disjoint_seqs.
Proof.
  unfold arb_disjoint_seqs. eapply always_flat_map; [apply always_btree_set, draws_uint|].
  intros set Hset. cbv beta in Hset. eexists. split; [done|]. set (seqs := bset_iter set).
  assert (Hlen : (length seqs ≤ 14)%nat).
  { unfold seqs, bset_iter. rewrite length_fmap, btree_iter_perm, length_map_to_list.
    by rewrite <- size_dom, dom_gset_to_gmap. }
  assert (El : uval (as_usize (length seqs)) = Z.of_nat (length seqs))
    by (apply mk_uint_small; cbn; lia).
  eapply always_map.
  { repeat apply always_tuple; [by apply (always_just (λ x, x = seqs))|..];
      apply always_range_inclusive; rewrite El; change (uval (lit (w := 64) 0)) with 0; lia. }
  intros [[x a] b] [[Hx Ha] Hb]. cbn [fst snd] in *. subst x. rewrite El in Ha, Hb.
  change (uval (lit (w := 64) 0)) with 0 in *.
  assert (Hd : ∀ lo hi : u64, lo ≤ hi ≤ Z.of_nat (length seqs) → 0 ≤ lo →
    ∃ y, (let! resting := slice_of seqs 0 (Z.to_nat lo) in
          let! filled := slice_of seqs (Z.to_nat lo) (Z.to_nat hi) in
          let! expired := slice_of seqs (Z.to_nat hi) (length seqs) in
          Done (list_to_set (MkSeq <$> resting), list_to_set (MkSeq <$> filled), MkSeq <$> expired)) =
         Done y ∧ dealt y).
  { intros lo hi Hlh H0. rewrite !slice_ok by lia. cbn [ebind]. eexists. split; [done|].
    rewrite Nat.sub_0_r, drop_0, (take_ge (drop (Z.to_nat hi) seqs)) by (rewrite length_drop; lia).
    apply slices_dealt; [apply bset_iter_NoDup|lia]. }
  destruct (Z.leb_spec a b); apply Hd; lia.
Qed.

Lemma dom_collect {V} (l : list (OrderSeq * V)) (m : gmap OrderSeq V) :
  dom (foldl (λ (m : gmap OrderSeq V) kv, <[kv.1 := kv.2]> m) m l) = list_to_set l.*1 ∪ dom m.
Proof.
  revert m. induction l as [|[k v] l IH]; intros m; cbn [foldl]; [set_solver|].
  rewrite IH, dom_insert_L. cbn. set_solver.
Qed.

(** A round whose orders each have one outcome. *)
Definition round_output (out : MatchingOutput) : Prop :=
  Forall (λ f, ∃ index, fair_fill index f) (mo_fills out) ∧
  mo_resting_orders out ## mo_filled_orders out ∧
  mo_resting_orders out ## dom (mo_expired_orders out) ∧
  mo_filled_orders out ## dom (mo_expired_orders out).

Lemma matching_output_dealt : always round_output arb_matching_output.
Proof.
  unfold arb_matching_output. eapply (always_map (λ x,
    Forall (λ f, ∃ index, fair_fill index f) x.1.1.1.1 ∧ dealt (x.1.1.1.2, x.1.1.2, x.1.2) ∧
    length x.2 = length x.1.2)).
  { eapply always_flat_map; [apply always_tuple; [apply always_vec; [lia|apply any_fill_fair]|
      apply disjoint_seqs_dealt]|].
    intros [fills [[resting filled] expired]] [[_ Hf] Hd]. cbn [fst snd] in Hf, Hd. eexists. split; [done|].
    eapply always_weaken.
    { repeat apply always_tuple; [by apply (always_just (λ x, x = fills))
        |by apply (always_just (λ x, x = resting))|by apply (always_just (λ x, x = filled))
        |by apply (always_just (λ x, x = expired))|apply always_vec; [lia|apply removed_aligned]]. }
    intros [[[[f r] l] e] removed] ((((Ef & Er) & El) & Ee) & Hlen & _). cbn [fst snd] in *. subst.
    split_and!; [done|done|lia]. }
  intros [[[[fills resting] filled] expired] removed] (Hf & (H1 & H2 & H3 & _) & Hlen). cbn [fst snd] in *.
  eexists. split; [done|]. unfold round_output. cbn [mo_fills mo_resting_orders mo_filled_orders mo_expired_orders].
  rewrite dom_collect, fst_zip, dom_empty_L, union_empty_r_L by lia. done.
Qed.
End rounds.

(** *** Settings and settlements *)

Section settings.
Context `{Proptest}.

Lemma draws_basis_point : draws arb_basis_point.
Proof.
  unfold arb_basis_point. eapply draws_map; [apply always_range_inclusive; done|].
  intros v Hv. cbv beta in Hv. change (uval (lit (w := 16) 10000)) with 10000 in Hv.
  assert (Hb : (v <=? 10000) = true) by (apply Z.leb_le; lia).
  pose proof (basis_point_new_bps (MkBasisPoint v Hb)) as E. cbn [bps] in E.
  destruct (BasisPoint_new v) as [b|e]; [by eexists|discriminate].
Qed.

(** A fee is part of the amount and never zero. *)
Definition fee_within (op : BalanceOperation) : Prop :=
  match op with
  | Transfer _ _ _ amount (Some fee) => 0 < qval fee ≤ qval amount
  | _ => True
  end.
Lemma draws_order_seq : draws arb_order_seq.
Proof. apply draws_pure, draws_uint. Qed.
Lemma draws_pair_token : draws arb_pair_token.
Proof. apply always_oneof. repeat constructor; by apply always_just. Qed.
Lemma draws_quantity : draws arb_quantity.
Proof.
  apply always_oneof. repeat constructor; [apply draws_pure, draws_uint..|].
  eapply draws_map; [apply draws_tuple; apply draws_uint|]. intros [] _. by eexists.
Qed.
Lemma operation_fee_within : always fee_within arb_balance_operation.
Proof.
  apply always_oneof. repeat constructor.
  - eapply always_map; [repeat apply draws_tuple;
      [apply draws_order_seq..|apply draws_pair_token|apply draws_quantity|apply draws_basis_point]|].
    intros [[[[from to] token] amount] bp] _. cbn [fst snd]. rewrite mul_ceil_eq. cbn [ebind].
    eexists. split; [done|]. pose proof (qval_range amount) as Hr.
    pose proof (fee_of_le bp (qval amount) ltac:(lia)) as Hle.
    destruct (is_zero _) eqn:Ez; [done|]. cbn. rewrite q_of_Z_val by lia.
    assert (fee_of bp (qval amount) ≠ 0); [|lia].
    intros E0. rewrite E0 in Ez. done.
  - eapply always_map; [repeat apply draws_tuple;
      [apply draws_order_seq|apply draws_pair_token|apply draws_quantity]|].
    intros [[o t] q] _. by eexists.
Qed.

(** The pair is halted, and the other exactly when all are. *)
Lemma halted_permissions :
  always (λ '(permissions, other, global), is_halted permissions Seq_ZERO = true ∧
    other ≠ Seq_ZERO ∧ is_halted permissions other = global) arb_book_halted_permissions.
Proof.
  assert (Ho : always (λ other : OrderBookId, other ≠ Seq_ZERO)
    (prop_map (range_inclusive (lit 1) (lit (uint_max 64))) (λ v, Done (MkSeq v : OrderBookId)))).
  { eapply always_map; [apply always_range_inclusive; done|]. intros v Hv. cbv beta in Hv.
    change (uval (lit (w := 64) 1)) with 1 in Hv. eexists. split; [done|].
    intros [= ->]. destruct Hv as [Hv _]. by apply Z.leb_le in Hv. }
  apply always_oneof. repeat constructor; (eapply always_map; [exact Ho|]); intros other Hne;
    (eexists; split; [done|]); cbv beta iota.
  - done.
  - rewrite !is_halted_halt, bool_decide_eq_true_2 by done. split_and!; [done..|].
    by rewrite bool_decide_eq_false_2.
Qed.
End settings.

(** Equality of events, as [prop_assert_eq!] compares them. *)
Section event_equality.
Context `{PrincipalType}.

#[export] Instance Mode_eq_dec : EqDecision Mode.
Proof. solve_decision. Defined.
#[export] Instance InitArg_eq_dec : EqDecision InitArg.
Proof. solve_decision. Defined.
#[export] Instance UpgradeArg_eq_dec : EqDecision UpgradeArg.
Proof. solve_decision. Defined.
#[export] Instance AddTradingPairEvent_eq_dec : EqDecision AddTradingPairEvent.
Proof. solve_decision. Defined.
#[export] Instance DepositEvent_eq_dec : EqDecision DepositEvent.
Proof. solve_decision. Defined.
#[export] Instance AddLimitOrderEvent_eq_dec : EqDecision AddLimitOrderEvent.
Proof. solve_decision. Defined.
#[export] Instance BalanceOperation_eq_dec : EqDecision BalanceOperation.
Proof. solve_decision. Defined.
#[export] Instance FillEvent_eq_dec : EqDecision FillEvent.
Proof. solve_decision. Defined.
#[export] Instance SettlingEvent_eq_dec : EqDecision SettlingEvent.
Proof. solve_decision. Defined.
#[export] Instance MatchingEvent_eq_dec : EqDecision MatchingEvent.
Proof. solve_decision. Defined.
#[export] Instance WithdrawEvent_eq_dec : EqDecision WithdrawEvent.
Proof. solve_decision. Defined.
#[export] Instance CancelLimitOrderEvent_eq_dec : EqDecision CancelLimitOrderEvent.
Proof. solve_decision. Defined.
#[export] Instance SetHaltEvent_eq_dec : EqDecision SetHaltEvent.
Proof. solve_decision. Defined.
#[export] Instance FundingAccount_eq_dec : EqDecision FundingAccount.
Proof. solve_decision. Defined.
#[export] Instance TradingAccount_eq_dec : EqDecision TradingAccount.
Proof. solve_decision. Defined.
#[export] Instance AddTradingAccountEvent_eq_dec : EqDecision AddTradingAccountEvent.
Proof. solve_decision. Defined.
#[export] Instance RemoveTradingAccountEvent_eq_dec : EqDecision RemoveTradingAccountEvent.
Proof. solve_decision. Defined.
#[export] Instance EventType_eq_dec : EqDecision EventType.
Proof. solve_decision. Defined.
#[export] Instance Event_eq_dec : EqDecision Event.
Proof. solve_decision. Defined.
End event_equality.

(** *** Events

    An event whose lists have fewer than [2^64] elements is read back as it was written. *)

Section event_fits.
Context `{PrincipalSlice} `{Minicbor}.

Definition fits {A} (c : Codec A) (a : A) : Prop := cbor_fits (c_enc c a).
Definition fields_at {A} (fs : Fields A) (a : A) : Prop := forallb opt_fits (f_enc fs a).
Definition variant_at {A} (vs : Variants A) (a : A) : Prop :=
  len_fits (v_enc vs a).2 ∧ forallb opt_fits (v_enc vs a).2.
Definition short_list {A} (l : list A) : Prop := Z.of_nat (length l) < 2 ^ 64.

Lemma fits_any {A} (c : Codec A) a : CodecFits c → fits c a.
Proof. intros Hc. apply Hc. Qed.
Lemma fields_at_nil : fields_at f_nil ().
Proof. done. Qed.
Lemma fields_at_cons {A B} (c : Codec A) (fs : Fields B) a b :
  fits c a → fields_at fs b → fields_at (f_cons c fs) (a, b).
Proof. intros Ha Hb. apply andb_True. by split. Qed.
Lemma fields_at_opt {A B} (c : Codec A) (fs : Fields B) o b :
  (∀ a, o = Some a → fits c a) → fields_at fs b → fields_at (f_opt c fs) (o, b).
Proof. intros Ho Hb. apply andb_True. split; [|done]. destruct o as [a|]; [by apply Ho|done]. Qed.
Lemma fits_struct {A B} (fs : Fields A) to from (inv : ∀ b : B, from (to b) = b) b :
  (Z.of_nat (f_width fs) <? 2 ^ 64) = true → fields_at fs (to b) → fits (c_struct fs to from inv) b.
Proof. intros Hw Hf. apply mc_struct_fits; [|exact Hf]. unfold len_fits. by rewrite f_width_ok, Hw. Qed.
Lemma fits_vec {A} (c : Codec A) l : short_list l → Forall (fits c) l → fits (c_vec c) l.
Proof.
  intros Hl Hf. unfold fits. cbn [c_enc c_vec]. unfold enc_vec. rewrite cbor_fits_array, andb_True. split.
  - unfold len_fits. rewrite length_fmap. by apply Is_true_true, Z.ltb_lt.
  - clear Hl. induction Hf as [|a l Ha Hl IH]; [done|]. rewrite fmap_cons. cbn [forallb].
    apply andb_True. by split.
Qed.
Lemma fits_list {A} (c : Codec A) l : CodecFits c → short_list l → fits (c_vec c) l.
Proof. intros Hc Hl. apply fits_vec; [done|]. apply Forall_forall. intros a _. apply Hc. Qed.
Lemma fits_enum {A B} (vs : Variants A) to from (inv : ∀ b : B, from (to b) = b) b :
  variant_at vs (to b) → fits (c_enum vs to from inv) b.
Proof. intros [Hl Hf]. by apply mc_variant_fits. Qed.
Lemma variant_at_1 {A B} k (c : Codec A) (vs : Variants B) fresh a :
  fits c a → variant_at (v1 k c vs fresh) (inl (a, ())).
Proof. intros Ha. split; [done|]. cbn. by rewrite andb_true_r. Qed.
Lemma variant_at_next {A B} k (c : Codec A) (vs : Variants B) fresh b :
  variant_at vs b → variant_at (v1 k c vs fresh) (inr b).
Proof. done. Qed.

#[local] Existing Instances principal_fits quantity_fits price_fits.
#[local] Instance seq_fits M : CodecFits (c_seq (M := M)).
Proof. unfold c_seq. apply _. Qed.
#[local] Instance token_id_fits : CodecFits c_token_id.
Proof. unfold c_token_id. apply _. Qed.
#[local] Instance tick_size_fits : CodecFits c_tick_size.
Proof. unfold c_tick_size. apply newtype_fits. intros v. apply (quantity_fits (from_u128 (nzval v))). Qed.
#[local] Instance lot_size_fits : CodecFits c_lot_size.
Proof. unfold c_lot_size. apply newtype_fits. by intros v. Qed.
#[local] Instance basis_point_fits : CodecFits c_basis_point.
Proof. unfold c_basis_point. apply _. Qed.
#[local] Instance fee_rates_fits : CodecFits c_fee_rates.
Proof. unfold c_fee_rates. apply _. Qed.
#[local] Instance side_fits : CodecFits c_side.
Proof. unfold c_side, unit_variants2. apply _. Qed.
#[local] Instance time_in_force_fits : CodecFits c_time_in_force.
Proof. unfold c_time_in_force, unit_variants2. apply _. Qed.
#[local] Instance pair_token_fits : CodecFits c_pair_token.
Proof. unfold c_pair_token, unit_variants2. apply _. Qed.
#[local] Instance order_id_fits : CodecFits c_order_id.
Proof. unfold c_order_id, c_composite. apply _. Qed.
#[local] Instance timestamp_fits : CodecFits c_timestamp.
Proof. unfold c_timestamp. apply _. Qed.
#[local] Instance balance_operation_fits : CodecFits c_balance_operation.
Proof. unfold c_balance_operation. apply _. Qed.
#[local] Instance fill_event_fits : CodecFits c_fill_event.
Proof. unfold c_fill_event. apply _. Qed.

(** What an event holds of variable length. *)
Definition mode_short (mode : Mode) : Prop :=
  match mode with GeneralAvailability => True | RestrictedTo allowed => short_list (bset_iter allowed) end.
Definition event_short (e : EventType) : Prop :=
  match e with
  | EInit arg => mode_short (ia_mode arg)
  | EUpgrade arg => ∀ mode, ua_mode arg = Some mode → mode_short mode
  | EAddTradingPair e => short_list (symbol (atp_base_metadata e)) ∧ short_list (symbol (atp_quote_metadata e))
  | EMatching e => short_list (me_orders e)
  | ESettling e => short_list (se_balance_operations e) ∧ short_list (se_fills e)
  | ESetHalt e => ∀ ids, she_book_ids e = Some ids → short_list ids
  | _ => True
  end.

Ltac fit :=
  repeat first [ apply fields_at_nil | apply fields_at_cons | apply fields_at_opt; [intros ? ?|]
               | solve [apply fits_any; apply _] ].

Lemma mode_fits mode : mode_short mode → fits c_mode mode.
Proof.
  intros Hm. apply fits_enum. destruct mode as [|allowed]; [done|].
  split; [done|]. cbn. rewrite andb_true_r. apply (fits_list c_principal (bset_iter allowed)); [apply _|done].
Qed.
Lemma metadata_fits m : short_list (symbol m) → fits c_token_metadata m.
Proof.
  destruct m as [s d]. intros Hs. apply fits_struct; [done|]. fit.
  unfold fits. cbn. by apply Is_true_true, Z.ltb_lt.
Qed.

Lemma event_fits e : event_short (ev_payload e) → s_fits s_event e.
Proof.
  destruct e as [t e]. cbn [ev_payload]. intros He. apply (fits_struct (f_cons c_timestamp (f_cons c_event_type f_nil)));
    [done|]. fit. apply fits_enum. unfold event_variants.
  destruct e as [a|a|a|a|a|a|a|a|a|a|a|a]; cbn [event_short] in He; destruct a;
    repeat apply variant_at_next; apply variant_at_1; (apply fits_struct; [done|]); fit; cbn in He.
  - by apply mode_fits.
  - apply mode_fits. by apply He.
  - apply metadata_fits. apply He.
  - apply metadata_fits. apply He.
  - apply fits_list; [apply _|]. apply He.
  - apply fits_list; [apply _|]. apply He.
  - by apply fits_list; [apply _|].
  - apply fits_list; [apply _|]. by apply He.
Qed.
End event_fits.

Section events.
Context `{PrincipalSlice} `{Minicbor} `{Proptest}.

Lemma draws_principal : draws arb_principal.
Proof. eapply draws_map; [apply always_vec; [lia|apply draws_uint]|]. by eauto. Qed.
Lemma draws_token_id : draws arb_token_id.
Proof. apply draws_pure, draws_principal. Qed.
Lemma draws_fee_rates : draws arb_fee_rates.
Proof. eapply draws_map; [apply draws_tuple; apply draws_basis_point|]. intros [] _. by eexists. Qed.
Lemma draws_price : draws arb_price.
Proof. apply draws_pure, draws_uint. Qed.
Lemma draws_order_id : draws arb_order_id.
Proof. eapply draws_map; [apply draws_tuple; apply draws_uint|]. intros [] _. by eexists. Qed.
Lemma draws_timestamp : draws arb_timestamp.
Proof. apply draws_pure, draws_uint. Qed.
Lemma draws_fill_event : draws arb_fill_event.
Proof.
  eapply draws_map; [repeat apply draws_tuple; [apply draws_pure, draws_uint|apply draws_order_seq..
    |apply draws_quantity|apply draws_fee_rates]|]. intros [[[[] ] ] ] _. by eexists.
Qed.

Lemma short_small {A} (l : list A) n : (length l ≤ n)%nat → Z.of_nat n < 2 ^ 64 → short_list l.
Proof. unfold short_list. lia. Qed.

Lemma always_mode : always mode_short arb_mode.
Proof.
  apply always_oneof. repeat constructor; [by apply always_just|].
  eapply always_map; [apply always_btree_set, draws_principal|]. intros allowed Ha. cbv beta in Ha.
  eexists. split; [done|]. apply (short_small _ 5); [by rewrite bset_iter_length|done].
Qed.
Lemma metadata_short : always (λ m, short_list (symbol m)) arb_token_metadata.
Proof.
  eapply always_map; [apply always_tuple; [apply always_letters|apply draws_uint]|].
  intros [symbol d] [Hs _]. cbn [fst] in Hs. eexists. split; [done|]. by apply (short_small _ 10).
Qed.

(** A setting within the bounds of the policy: the state takes it. *)
Lemma policy_in_bounds (orders : u32) (budget : u64) (units : u32) :
  1 ≤ orders → 1 ≤ budget ≤ MAX_INSTRUCTION_BUDGET → 1 ≤ units →
  ∃ policy, policy_try_new orders budget units = Ok policy.
Proof.
  intros Ho Hb Hu. unfold policy_try_new.
  destruct (nz_new orders) as [o|] eqn:Eo; [|apply nz_new_None in Eo; lia].
  destruct (nz_new budget) as [b|] eqn:Eb; [|apply nz_new_None in Eb; lia].
  destruct (nz_new units) as [u|] eqn:Eu; [|apply nz_new_None in Eu; lia].
  apply nz_new_Some in Eb. destruct (Z.ltb_spec MAX_INSTRUCTION_BUDGET b) as [Hlt|_]; [|by eexists].
  rewrite Eb in Hlt. lia.
Qed.

Lemma init_arg_accepted `{!BiBTreeMap TradingPair OrderBookId} :
  always (λ arg, mode_short (ia_mode arg) ∧ ∃ s, empty_state arg = Done s) arb_init_arg.
Proof.
  eapply always_map.
  { repeat apply always_tuple; [apply always_mode|apply always_range_inclusive; done..|].
    apply always_option, always_range_inclusive. done. }
  intros [[[mode orders] budget] units] [[[Hm Ho] Hb] Hu]. cbn [fst snd] in *. eexists. split; [done|].
  split; [done|]. unfold empty_state, state_new. cbn [ia_max_orders_per_chunk ia_instruction_budget
    ia_max_settlement_units_per_event ia_mode].
  change (uval (lit (w := 32) 1)) with 1 in *. change (uval (lit (w := 64) 1)) with 1 in *.
  change (uval (lit (w := 64) 40000000000)) with 40000000000 in *.
  destruct (policy_in_bounds orders budget (default DEFAULT_MAX_SETTLEMENT_UNITS_PER_EVENT units))
    as (policy & ->); [lia|unfold MAX_INSTRUCTION_BUDGET; lia| |by eexists].
  destruct units as [u|]; [destruct (Hu u eq_refl); cbn; lia|done].
Qed.
Lemma upgrade_arg_short : always (λ arg, ∀ mode, ua_mode arg = Some mode → mode_short mode) arb_upgrade_arg.
Proof.
  eapply always_map.
  { repeat apply always_tuple; [apply always_option, always_mode
      |apply always_option, always_range_inclusive; done..]. }
  intros [[[mode orders] budget] units] [[[Hm _] _] _]. by eexists.
Qed.

(** The numbers drawn for ticks and lots are not zero. *)
Lemma add_trading_pair_short :
  always (λ e, short_list (symbol (atp_base_metadata e)) ∧ short_list (symbol (atp_quote_metadata e)))
    arb_add_trading_pair_event.
Proof.
  eapply always_map.
  { repeat apply always_tuple; [apply draws_uint|apply draws_principal|apply draws_principal
      |by apply always_u64_range|by apply always_u64_range|apply metadata_short|apply metadata_short
      |apply draws_fee_rates|apply draws_quantity|apply draws_option, draws_quantity]. }
  intros [[[[[[[[[id b] q] t] l] bm] qm] fees] mn] mx] (((((((((_ & _) & _) & Ht) & Hl) & Hb) & Hq) & _) & _) & _).
  cbn [fst snd] in *. pose proof (uint_range t) as Hr. change (2 ^ Z.of_N 64) with (2 ^ 64) in Hr.
  destruct (nz_new (u_cast 128 t)) as [tick|] eqn:Et.
  2:{ apply nz_new_None in Et. unfold u_cast in Et. rewrite mk_uint_small in Et by (cbn; lia). lia. }
  destruct (nz_new l) as [lot|] eqn:El; [|apply nz_new_None in El; lia]. cbn [expect ebind].
  by eexists.
Qed.

Lemma draws_deposit : draws arb_deposit_event.
Proof.
  eapply draws_map; [repeat apply draws_tuple; [apply draws_principal|apply draws_token_id|apply draws_quantity]|].
  intros [[] ] _. by eexists.
Qed.
Lemma draws_withdraw : draws arb_withdraw_event.
Proof.
  eapply draws_map; [repeat apply draws_tuple;
    [apply draws_uint|apply draws_principal|apply draws_token_id|apply draws_quantity]|].
  intros [[[] ] ] _. by eexists.
Qed.
Lemma draws_add_limit_order : draws arb_add_limit_order_event.
Proof.
  eapply draws_map; [repeat apply draws_tuple; [apply draws_principal|apply draws_order_id|apply draws_side
    |apply draws_price|apply draws_quantity|apply draws_tif|apply draws_option, draws_principal]|].
  intros [[[[[[] ] ] ] ] ] _. by eexists.
Qed.
Lemma draws_cancel : draws arb_cancel_limit_order_event.
Proof.
  eapply draws_map; [apply draws_tuple; [apply draws_order_id|apply draws_option, draws_principal]|].
  intros [] _. by eexists.
Qed.
Lemma draws_accounts : draws arb_add_trading_account_event ∧ draws arb_remove_trading_account_event.
Proof. split; (eapply draws_map; [apply draws_tuple; apply draws_principal|]); intros [] _; by eexists. Qed.
Lemma matching_short : always (λ e, short_list (me_orders e)) arb_matching_event.
Proof.
  eapply always_map; [apply always_tuple; [apply draws_uint|apply always_vec; [lia|apply draws_order_seq]]|].
  intros [b l] [_ [Hl _]]. cbn [snd] in Hl. eexists. split; [done|]. by apply (short_small _ 4); [apply Hl|].
Qed.
Lemma settling_short :
  always (λ e, short_list (se_balance_operations e) ∧ short_list (se_fills e)) arb_settling_event.
Proof.
  eapply always_map; [repeat apply always_tuple; [apply draws_uint
    |apply always_vec; [lia|apply operation_fee_within]|apply always_vec; [lia|apply draws_fill_event]]|].
  intros [[b ops] fills] [[_ [Ho _]] [Hf _]]. cbn [fst snd] in *. eexists. split; [done|]. cbn.
  split; (eapply (short_small _ 9); [lia|done]).
Qed.
Lemma set_halt_short : always (λ e, ∀ ids, she_book_ids e = Some ids → short_list ids) arb_set_halt_event.
Proof.
  eapply always_map; [apply always_tuple; [apply always_option, always_vec;
    [unfold MAX_HALT_BOOKS; lia|apply draws_pure, draws_uint]|apply draws_bool]|].
  intros [ids halted] [Hi _]. cbn [fst] in Hi. eexists. split; [done|]. cbn. intros l E.
  destruct (Hi l E) as [Hl _]. by apply (short_small _ MAX_HALT_BOOKS); [apply Hl|].
Qed.

(** Every generated event is read back from the log as it was written. *)
Lemma event_type_short `{!BiBTreeMap TradingPair OrderBookId} : always event_short arb_event_type.
Proof.
  apply always_oneof. repeat (apply Forall_cons; split); [..|apply Forall_nil_2];
    (eapply always_map; [|intros e He; eexists; split; [done|first [exact He|exact I]]]).
  - eapply always_weaken; [apply init_arg_accepted|]. by intros a [Ha _].
  - apply upgrade_arg_short.
  - apply add_trading_pair_short.
  - apply draws_deposit.
  - apply draws_withdraw.
  - apply draws_add_limit_order.
  - apply draws_cancel.
  - apply matching_short.
  - apply settling_short.
  - apply set_halt_short.
  - apply draws_accounts.
  - apply draws_accounts.
Qed.

Lemma event_round_trips `{!BiBTreeMap TradingPair OrderBookId} `{EqDecision Event} :
  always (λ e, check_minicbor_roundtrip c_event e = Done (Ok ())) arb_event.
Proof.
  eapply always_map; [apply always_tuple; [apply draws_timestamp|apply event_type_short]|].
  intros [t e] [_ He]. cbn [snd] in He. eexists. split; [done|]. unfold check_minicbor_roundtrip.
  rewrite cbor_bytes_ok by (by apply (event_fits (MkEvent t e))). cbn [ebind].
  by rewrite bool_decide_eq_true_2.
Qed.
End events.

(** *** The state of the tests *)

Section test_state.
Context `{PrincipalSlice} `{!PrincipalText} `{!BiBTreeMap TradingPair OrderBookId}.

(** The texts of the ledgers are canonical. *)
Definition ledgers_parse : Prop := ∀ t, is_Some (from_text (token_ledger_id t)).

Lemma icp_ckbtc_ok : ledgers_parse →
  ∃ tp, icp_ckbtc_trading_pair = Done tp ∧ base tp ≠ quote tp.
Proof.
  intros Hl. destruct (Hl ICP) as [p Ep], (Hl CKBTC) as [q Eq].
  exists (MkTradingPair (MkTokenId p) (MkTokenId q)). split.
  - unfold icp_ckbtc_trading_pair, icp_token_id, ckbtc_token_id, fixture_token_id, token_id.
    by rewrite Ep, Eq.
  - cbn. intros [= <-]. apply from_text_canonical in Ep, Eq. rewrite Ep in Eq. discriminate.
Qed.

(** The pair is listed with its book, in a state that satisfies the canister's invariant. *)
Lemma init_state_ok fee_rates : ledgers_parse →
  ∃ tp s, icp_ckbtc_trading_pair = Done tp ∧ init_state_with_order_book_and_fees fee_rates = Done s ∧
    core 1 [] s ∧ get_order_book s tp = Some (book_new TEST_BOOK_ID test_tick_size test_lot_size
      test_min_notional (Some test_max_notional) fee_rates).
Proof.
  intros Hl. destruct (icp_ckbtc_ok Hl) as (tp & Etp & Hne).
  unfold init_state_with_order_book_and_fees, state_vmem, list_test_pair, empty_state. rewrite Etp.
  destruct (state_new bench_init_arg history_new history_new registry_new
    (MkTokenBalance ∅ fee_pool_default)) as [s0|] eqn:E0; [|discriminate].
  destruct (new_core _ _ E0) as [Hc _]. cbn [ebind].
  assert (Hs0 : st_trading_pairs s0 = pairs_default ∧ st_tokens s0 = ∅ ∧ st_next_book_id s0 = Seq_ZERO)
    by (cbn in E0; injection E0 as <-; done).
  destruct Hs0 as (Hp & Ht & Hk).
  destruct (pair_core 0 [] s0 tp icp_metadata ckbtc_metadata test_tick_size test_lot_size
    test_min_notional (Some test_max_notional) fee_rates (mk_uint 64 100000000) Hc)
    as (tokens & pairs & next & book & E & Hc' & Hbk & Hins & Hbase).
  - done.
  - rewrite Hp. unfold get_book_id, pairs_default. apply get_by_left_default.
  - done.
  - intros m'. by rewrite Ht, lookup_empty.
  - intros m'. by rewrite Ht, lookup_empty.
  - reflexivity.
  - reflexivity.
  - rewrite Hk in E, Hc', Hbk, Hins. exists tp, (pair_listed s0 Seq_ZERO book tp tokens pairs next).
    split_and!; [done|exact E|exact Hc'|]. apply pairs_insert_Done in Hins as (_ & _ & Hget).
    unfold get_order_book. cbn [pair_listed st_trading_pairs st_order_books set_next_book_id
      set_order_books set_trading_pairs set_tokens].
    rewrite Hget, decide_True by done. cbn. rewrite lookup_insert_eq. by subst book.
Qed.
End test_state.

(** ** The texts of principals

    The text of a principal is its checksum and its bytes in base 32, in groups of five. *)
Module PrincipalTexts.
Import PrincipalBytes.

Definition crc_bit (c : Z) : Z :=
  if Z.odd c then Z.lxor (Z.shiftr c 1) 0xEDB88320 else Z.shiftr c 1.
Definition crc_byte (c : Z) (b : u8) : Z := Nat.iter 8 crc_bit (Z.lxor c b).
Definition crc32 (bs : list u8) : Z := Z.lxor (foldl crc_byte 0xFFFFFFFF bs) 0xFFFFFFFF.

Definition digit_32 (d : Z) : u8 := mk_uint 8 (if d <? 26 then 97 + d else 24 + d).
Definition value_32 (c : u8) : option Z :=
  if (97 <=? c) && (c <=? 122) then Some (c - 97)
  else if (50 <=? c) && (c <=? 55) then Some (c - 24) else None.

(** [n] digits of [v], the most significant first. *)
Definition base32 (n : nat) (v : Z) : list u8 :=
  (λ i, digit_32 (Z.shiftr v (5 * Z.of_nat (n - 1 - i)) mod 32)) <$> seq 0 n.
Definition encode_32 (bs : list u8) : list u8 :=
  let bits := 8 * Z.of_nat (length bs) in
  let n := Z.to_nat ((bits + 4) / 5) in
  base32 n (Z.shiftl (be_val bs) (5 * Z.of_nat n - bits)).
Definition decode_32 (s : list u8) : option (list u8) :=
  let? digits := mapM value_32 s in
  let v := foldl (λ v d, 32 * v + d) 0 digits in
  let bits := 5 * Z.of_nat (length s) in
  let n := Z.to_nat (bits / 8) in
  Some (be_bytes n (Z.shiftr v (bits - 8 * Z.of_nat n))).

Definition dash : u8 := mk_uint 8 45.
(** A dash before every fifth digit but the first. *)
Fixpoint grouped (i : nat) (s : list u8) : list u8 :=
  match s with
  | [] => []
  | c :: s => if (i =? 5)%nat then dash :: c :: grouped 1 s else c :: grouped (S i) s
  end.

Definition text_of (bs : list u8) : list u8 := grouped 0 (encode_32 (be_bytes 4 (crc32 bs) ++ bs)).
Definition parse (s : list u8) : option PrincipalBytes.slice :=
  let? bytes := decode_32 (filter (λ c, c ≠ dash) s) in
  let p := cut (drop 4 bytes) in
  if bool_decide (text_of (`p) = s) then Some p else None.

#[export] Program Instance principal_text : @PrincipalText principal_bytes := {|
  from_text := parse;
  to_text p := text_of (`(p : PrincipalBytes.slice))
|}.
Next Obligation.
  intros s p. cbn. unfold parse. destruct (decode_32 _) as [bytes|]; [|done]. cbn [obind].
  by case_bool_decide as E; [intros [= <-]|].
Qed.

(** The checksums of the ledgers' texts are right. *)
Example ledgers_parse_bytes : ledgers_parse (H := principal_bytes).
Proof. intros []; apply (bool_decide_unpack _); vm_compute; exact I. Qed.
End PrincipalTexts.
