(* ===== verification/Demo.v ===== *)
(** * A session of the canister, evaluated

    A concrete instance of the parameters (principals are numbers, the pair map
    and the big integers are the implementations given with their interfaces) and
    a short trading session: two users deposit, trade, and one withdraws. The
    examples evaluate the executable definitions; the witnesses of the theorems
    are taken from this session. *)

From stdpp Require Import prelude gmap.
From Stdlib Require Import ZArith NArith Lia.
From S2P Require Import Prelude Word BTree Bytes Cbor Quantity QuantityCodec.
From S2P Require Import Ids Fees OrderTypes Tokens Balance WriteBack.
From S2P Require Import OrderQueue OrderBook History OrderHistory.
From S2P Require Import UserRegistry Settlement Permissions PairMap Events.
From S2P Require Import State EventAudit Snapshot ApiErrors Api Ledger Endpoints.
From S2P Require Import Executor.
From S2P Require Import Queries.

#[export] Existing Instance principal_N.
#[export] Existing Instance Rfc8949.minicbor.

Definition alice : N := 101%N.
Definition bob : N := 102%N.
Definition carol : N := 103%N.
Definition admin : N := 100%N.
Definition base_token : TokenId := MkTokenId 201%N.
Definition quote_token : TokenId := MkTokenId 202%N.
Definition demo_pair : TradingPair := MkTradingPair base_token quote_token.

Definition rt (caller : N) (time : Z) : Runtime :=
  MkRuntime caller 1%N (λ p, (p =? admin)%N) (λ n, mk_uint 64 (Z.of_nat n)) (mk_uint 64 time).

Definition demo_metadata (decimals : Z) : TokenMetadata :=
  MkTokenMetadata [mk_uint 8 65] (mk_uint 8 decimals).

Definition demo_init : InitArg :=
  MkInitArg GeneralAvailability (mk_uint 32 10) (mk_uint 64 1000) (Some (mk_uint 32 2)).

(** Two decimals of the base token: prices are multiples of 10, quantities of 10. *)
Definition demo_request : AddTradingPairRequest :=
  MkAddTradingPairRequest (api_token base_token (demo_metadata 2))
    (api_token quote_token (demo_metadata 6)) 10 10 (mk_uint 16 10) (mk_uint 16 20) 1 None.

(** Run an endpoint that must succeed. *)
Definition must {A E} (r : exec (result A E * World)) : exec World :=
  let! (r, w) := r in
  match r with Ok _ => Done w | Err _ => Trap end.

Definition fund (w : World) (user : N) (token : TokenId) (amount : N) : exec World :=
  let! (r, w) := deposit_begin w (MkDepositRequest (api_token_id token) amount) (rt user 1) in
  match r with
  | Err _ => Trap
  | Ok (pf, _) => must (deposit_end w pf (Replied (Ok 7%N)) (rt user 2))
  end.

Definition order (side : Side) (price quantity : N) (tif : TimeInForce) : LimitOrderRequest :=
  MkLimitOrderRequest (api_pair demo_pair) (api_side side) price quantity (Some (api_tif tif)).

(** Funded: Alice sells the base token, Bob buys it. *)
Definition funded : exec World :=
  let! w := init (ArgInit demo_init) (rt admin 0) in
  let! w := must (add_trading_pair w demo_request (rt admin 1)) in
  let! w := fund w alice base_token 1000 in
  fund w bob quote_token 100000.

(** Alice asks for two prices, Bob takes the first and part of the second. *)
Definition quoted : exec World :=
  let! w := funded in
  let! w := must (add_limit_order w (order Sell 200 300 GoodTilCanceled) (rt alice 3)) in
  let! w := must (add_limit_order w (order Sell 210 300 GoodTilCanceled) (rt alice 4)) in
  must (add_limit_order w (order Buy 220 400 GoodTilCanceled) (rt bob 5)).

Definition traded_world : exec World :=
  let! w := quoted in
  let! (_, w) := drive_pending_orders (rt admin 6) w in
  Done w.

Definition balance_of (w : exec World) (user : N) (token : TokenId) : option (Z * Z) :=
  match w with
  | Done w => let b := get_balance (w_state w) user token in Some (qval (free b), qval (reserved b))
  | Trap => None
  end.

Example session_trades :
  balance_of traded_world alice base_token = Some (400, 200) ∧
  balance_of traded_world alice quote_token = Some (808, 0) ∧
  balance_of traded_world bob base_token = Some (398, 0) ∧
  balance_of traded_world bob quote_token = Some (99190, 0).
Proof. vm_compute. done. Qed.
