(* ===== verification/NumericTheorems.v ===== *)
(** * Correctness of the numeric layer

    The 256-bit arithmetic, the fee arithmetic, the settlement price and the
    encodings of quantities and identifiers. *)

From stdpp Require Import prelude gmap.
From Stdlib Require Import ZArith NArith Lia.
From S2P Require Import Prelude Word BTree Bytes Cbor Quantity QuantityCodec Ids Fees OrderTypes.

(** C33: The limb-wise 256-bit operations compute the exact result: addition,
    subtraction and multiplication by a 64- or 128-bit integer return the true
    value when it fits 256 bits and nothing otherwise, division is Euclidean
    division and fails only for a zero divisor, the lot test is divisibility, and
    the comparison is that of the values. *)
Theorem quantity_arithmetic_exact (p q : Quantity) (r : u64) (s : u128) (lot : nonzero 64) :
  checked_add p q = q_checked (qval p + qval q) ∧
  checked_sub p q = q_checked (qval p - qval q) ∧
  checked_mul_u64 p r = q_checked (qval p * r) ∧
  checked_mul_u128 p s = q_checked (qval p * s) ∧
  checked_div_rem_u64 p r =
    (if r =? 0 then None else Some (q_of_Z (qval p / r), mk_uint 64 (qval p mod r))) ∧
  is_multiple_of p lot = Done (qval p mod lot =? 0) ∧
  cmp p q = Z.compare (qval p) (qval q) ∧
  (∀ z, q_checked z = None ↔ ¬ 0 ≤ z < 2 ^ 256) ∧ (∀ z x, q_checked z = Some x ↔ qval x = z).
Proof.
  split_and!; [apply checked_add_eq|apply checked_sub_eq|apply checked_mul_u64_eq|
    apply checked_mul_u128_eq|apply checked_div_rem_u64_eq|apply is_multiple_of_eq|apply cmp_spec|
    apply q_checked_None|apply q_checked_Some].
Qed.

Lemma fee_of_bounds b a : 0 ≤ 10000 * fee_of b a - bps b * a < 10000.
Proof.
  unfold fee_of, div_ceil. pose proof (Z.div_mod (a * bps b + 10000 - 1) 10000 ltac:(lia)).
  pose proof (Z.mod_pos_bound (a * bps b + 10000 - 1) 10000 ltac:(lia)). lia.
Qed.

(** C34: The fee computation never traps, whatever the amount, although it works
    with 256-bit intermediates only: it returns the exact product of rate and
    amount rounded up to the next unit, and never more than the amount itself. *)
Theorem mul_ceil_exact (rate : BasisPoint) (amount : Quantity) :
  ∃ fee, mul_ceil rate amount = Done fee ∧
    0 ≤ 10000 * qval fee - bps rate * qval amount < 10000 ∧ qval fee ≤ qval amount.
Proof.
  pose proof (qval_range amount). pose proof (fee_of_le rate (qval amount)) as Hle.
  exists (q_of_Z (fee_of rate (qval amount))). rewrite mul_ceil_eq, q_of_Z_val by lia.
  split_and!; [done|apply fee_of_bounds..|lia].
Qed.

(** C35: On a pair whose tick and lot sizes multiply to a whole number of scale
    units, the scaled product of a valid price and quantity never meets the
    panicking branch: it is the exact quotient, or nothing when the product
    exceeds 256 bits. *)
Theorem settlement_price_exact (tick : TickSize) (lot : LotSize) (scale : nonzero 64)
    (p : Price) (q : Quantity) :
  tick * lot mod scale = 0 → p mod tick = 0 → qval q mod lot = 0 →
  ∃ r, checked_mul_quantity_scaled p q scale = Done r ∧
    match r with
    | Some quote => qval quote * scale = p * qval q
    | None => 2 ^ 256 ≤ p * qval q
    end.
Proof.
  intros Ht Hp Hq. pose proof (scale_exact_of_lots tick lot scale p q Ht Hp Hq) as He.
  rewrite checked_mul_quantity_scaled_eq by done. eexists. split; [done|].
  destruct (Z.ltb_spec (p * qval q) (2 ^ 256)); [|done].
  pose proof (scaledZ_nonneg p q scale). pose proof (scaledZ_le_product p q scale).
  rewrite q_of_Z_val by lia. by apply scaledZ_mul.
Qed.

Definition tick_10 : TickSize := NonZero (mk_uint 128 10) eq_refl.
Definition lot_10 : LotSize := NonZero (mk_uint 64 10) eq_refl.
Definition scale_100 : nonzero 64 := NonZero (mk_uint 64 100) eq_refl.

Lemma settlement_price_exact_witness :
  ∃ r, checked_mul_quantity_scaled (mk_uint 128 200) (q_of_Z 300) scale_100 = Done r ∧
    match r with
    | Some quote => qval quote * scale_100 = mk_uint 128 200 * qval (q_of_Z 300)
    | None => 2 ^ 256 ≤ mk_uint 128 200 * qval (q_of_Z 300)
    end.
Proof. apply (settlement_price_exact tick_10 lot_10); vm_compute; reflexivity. Defined.



(** C40: Trade identifiers (and the order and book identifiers they are made of)
    survive both of their encodings: the stable-memory key has the fixed width,
    decodes to the identifier and sorts exactly as the identifier does, and the
    hexadecimal text parses back, no other text parsing to the same identifier. *)
Theorem identifier_codecs_round_trip (id id' : TradeId) (s : list u8) :
  length (to_bytes id) = WIDTH TradeId ∧
  from_bytes (to_bytes id) = Done id ∧
  bytes_compare (to_bytes id) (to_bytes id') = ord_cmp id id' ∧
  from_str (to_string id) = Ok id ∧
  (∀ id0 : TradeId, from_str s = Ok id0 → to_string id0 = s).
Proof.
  split_and!; [apply to_bytes_length| |apply to_bytes_order|apply from_write_hex|apply write_from_hex].
  unfold from_bytes. rewrite to_bytes_length, Nat.eqb_refl. cbn [assert ebind].
  by rewrite id_from_to_bytes.
Qed.

Definition trade_3 : TradeId := MkCompositeId (MkCompositeId (seq_lit 1) (seq_lit 2)) (seq_lit 3).

Lemma identifier_codecs_round_trip_witness :
  from_bytes (to_bytes trade_3) = Done trade_3 ∧ from_str (to_string trade_3) = Ok trade_3.
Proof.
  destruct (identifier_codecs_round_trip trade_3 trade_3 []) as (_ & Hb & _ & Hs & _).
  split; [exact Hb|exact Hs].
Defined.
