(* ===== verification/BookTheorems.v ===== *)
(** * Correctness of the order book *)

From stdpp Require Import prelude gmap sorting.
From Stdlib Require Import ZArith Lia.
From S2P Require Import Prelude Word BTree Quantity Ids Fees OrderTypes.
From S2P Require Import OrderQueue FillPlan OrderBook BookInv BookMatching.
From S2P Require Import BookInvMatch BookPending BookRound.
From S2P Require Import BookCancel BookSnapshot.

(** ** A sample book: two asks and a bid that does not cross *)

Definition sample_tick : TickSize := NonZero (mk_uint 128 10) eq_refl.
Definition sample_lot : LotSize := NonZero (mk_uint 64 10) eq_refl.
Definition sample_new : OrderBook :=
  book_new Seq_ZERO sample_tick sample_lot (q_of_Z 1) None (MkFeeRates BasisPoint_ZERO BasisPoint_ZERO).
Definition sample_order (side : Side) (price quantity : Z) (tif : TimeInForce) : PendingOrder :=
  MkPendingOrder side (mk_uint 128 price) (q_of_Z quantity) tif.
Definition sample_calls : list BookCall :=
  [Submit (sample_order Sell 200 300 GoodTilCanceled);
   Submit (sample_order Sell 210 300 GoodTilCanceled);
   Submit (sample_order Buy 180 100 GoodTilCanceled);
   MatchRound 3].
Definition book_or (r : exec OrderBook) (b : OrderBook) : OrderBook :=
  match r with Done b => b | Trap => b end.
Definition sample_book : OrderBook := book_or (book_run sample_new sample_calls) sample_new.

(** The orders that reach the sample book next. *)
Definition sample_taker (side : Side) (price quantity : Z) (tif : TimeInForce) : Order :=
  into_order (sample_order side price quantity tif) (seq_lit 3).
Definition sample_submissions : list BookCall :=
  [Submit (sample_order Buy 220 400 GoodTilCanceled); Submit (sample_order Sell 180 500 FillOrKill)].
Definition sample_queued : OrderBook :=
  book_or (book_run sample_book sample_submissions) sample_book.

Lemma book_or_run cs n b : book_ready n b → n + Z.of_nat (length cs) ≤ uint_max 64 →
  book_ready (n + Z.of_nat (length cs)) (book_or (book_run b cs) b).
Proof. intros R Hn. destruct (book_run_ready cs n b R Hn) as (b' & -> & R'). done. Qed.

Lemma sample_ready : book_ready 4 sample_book.
Proof. apply (book_or_run sample_calls 0); [apply book_new_ready|done]. Qed.

Lemma sample_queued_ready : book_ready 6 sample_queued.
Proof. apply (book_or_run sample_submissions 4); [apply sample_ready|done]. Qed.

(** An order is ready to be matched: it comes off the head of the queue. *)
Record at_head (b : OrderBook) (o : Order) : Prop := {
  ah_inv : book_inv b;
  ah_fresh : fresh b o;
  ah_valid : valid_order b (o_price o) (o_remaining o);
  ah_fills : seqZ (ob_next_fill b) + Z.of_nat (length (walk_fills b o)) ≤ uint_max 64
}.

(** Submitting the order and taking it off the queue again. *)
Lemma submitted_at_head n b po :
  book_ready n b → n < uint_max 64 → valid_order b (po_price po) (po_quantity po) →
  ob_pending_orders b = [] →
  ∃ nx, at_head (with_next_seq nx b) (into_order po (ob_next_seq b)).
Proof.
  intros [I D X L] Hn Hv Hp.
  destruct (add_pending_order_spec b (into_order po (ob_next_seq b))) as (nx & E & En & Hb');
    [done..|lia|].
  rewrite Hp in *. cbn [app] in *. exists nx.
  destruct (pop_pending_inv _ (into_order po (ob_next_seq b)) [] Hb' eq_refl) as (Hb1 & Hf & Hv').
  assert (Eb : with_pending [] (with_next_seq nx (with_pending [into_order po (ob_next_seq b)] b)) =
    with_next_seq nx b) by (destruct b; simpl in *; by subst).
  rewrite Eb in *. split; [done..|].
  pose proof (walk_fills_le_makers (with_next_seq nx b) (into_order po (ob_next_seq b))) as Hw.
  assert (Hc : (length (side_list (with_next_seq nx b) (opp (po_side po))) ≤ resting_count b)%nat)
    by (unfold resting_count; destruct (po_side po); simpl; unfold asks_list, bids_list; simpl; lia).
  simpl in *. lia.
Qed.

(** C21: No sequence of submissions, matching rounds and cancellations, whatever
    the orders and the sequences cancelled, makes a book trap before 2^64 calls:
    every assertion and checked operation of the book holds, and the book it
    leaves satisfies the invariant (both sides in price-time order, no crossed
    prices, an exact index of the resting orders, whole lots and ticks). *)
Theorem book_never_traps (id : OrderBookId) (tick : TickSize) (lot : LotSize)
    (min_notional : Quantity) (max_notional : option Quantity) (fee_rates : FeeRates)
    (calls : list BookCall) :
  Z.of_nat (length calls) ≤ uint_max 64 →
  ∃ b, book_run (book_new id tick lot min_notional max_notional fee_rates) calls = Done b ∧
    book_inv b.
Proof.
  intros Hn. destruct (book_run_ready calls 0 _ (book_new_ready id tick lot min_notional
    max_notional fee_rates)) as (b & E & R); [lia|]. exists b. split; [done|apply R].
Qed.

Lemma book_never_traps_witness : ∃ b, book_run sample_new sample_calls = Done b ∧ book_inv b.
Proof. apply book_never_traps. vm_compute. discriminate. Defined.

(** C4: Matching an order computes the greedy price-time walk: when the order is
    not a killed fill-or-kill order, [match_order] reports exactly the fills of the
    walk and leaves the book in which the consumed makers are gone, the last one is
    reduced, the remainder rests in its place, and the invariant holds again. *)
Theorem match_order_refines_greedy (b : OrderBook) (o : Order) :
  at_head b o → ¬ killed b o →
  ∃ b', match_order b o = Done (Ok (walk_result b o), b') ∧ executed b o b' ∧ book_inv b'.
Proof.
  intros [I F V N] Hk. destruct (match_order_executed b o I F V Hk N) as (b' & E & X).
  exists b'. split_and!; [done..|]. by eapply executed_inv.
Qed.

Lemma sample_at_head side price quantity tif :
  valid_order sample_book (mk_uint 128 price) (q_of_Z quantity) →
  ∃ nx, at_head (with_next_seq nx sample_book) (sample_taker side price quantity tif).
Proof.
  intros Hv. apply (submitted_at_head 4 sample_book (sample_order side price quantity tif));
    [apply sample_ready|done|done|vm_compute; done].
Qed.

Lemma match_order_refines_greedy_witness :
  ∃ nx b', let b := with_next_seq nx sample_book in
    let o := sample_taker Buy 220 400 GoodTilCanceled in
    match_order b o = Done (Ok (walk_result b o), b') ∧ executed b o b' ∧ book_inv b'.
Proof.
  destruct (sample_at_head Buy 220 400 GoodTilCanceled) as (nx & H); [by vm_compute|].
  exists nx. apply match_order_refines_greedy; [done|]. by intros [Ht _].
Defined.

Lemma walk_traded b o : traded (walk_fills b o) = qval (o_remaining o) - ms_remaining (walk b o).
Proof.
  unfold walk_fills. rewrite fills_of_traded by apply matched_qty_ok. apply matched_sum.
Qed.

(** C7: A fill-or-kill order trades its whole quantity or nothing: either it is
    reported filled and its fills add up to the quantity, or it is reported killed
    with everything it asked for and the book is untouched. *)
Theorem fill_or_kill_all_or_nothing (b : OrderBook) (o : Order) :
  at_head b o → o_tif o = FillOrKill →
  (∃ fills b', match_order b o = Done (Ok (MFilled fills), b') ∧
     traded fills = qval (o_remaining o)) ∨
  match_order b o = Done (Ok (MKilled (o_id o)
    (MkRemovedOrder (o_side o) (o_price o) (o_remaining o))), b).
Proof.
  intros [I F V N] Ht. destruct (decide (ms_remaining (walk b o) = 0)) as [E|E].
  - left. destruct (match_order_executed b o I F V) as (b' & Em & _); [by intros [_ ?]|done|].
    exists (walk_fills b o), b'. rewrite walk_traded, E, Em. unfold walk_result. rewrite E.
    split; [done|lia].
  - right. by apply match_order_killed.
Qed.

Lemma fill_or_kill_all_or_nothing_witness :
  ∃ nx, let b := with_next_seq nx sample_book in let o := sample_taker Buy 220 700 FillOrKill in
  (∃ fills b', match_order b o = Done (Ok (MFilled fills), b') ∧
     traded fills = qval (o_remaining o)) ∨
  match_order b o = Done (Ok (MKilled (o_id o)
    (MkRemovedOrder (o_side o) (o_price o) (o_remaining o))), b).
Proof.
  destruct (sample_at_head Buy 220 700 FillOrKill) as (nx & H); [by vm_compute|].
  exists nx. by apply fill_or_kill_all_or_nothing.
Defined.

(** ** Priority *)

(** The maker of a fill, as a key of its side. *)
Definition fill_maker (f : Fill) : Price * OrderSeq := (maker_price f, maker_order_seq f).
Definition key_before (s : Side) (x y : Price * OrderSeq) : Prop :=
  better s x.1 y.1 ∨ x.1 = y.1 ∧ seqZ x.2 < seqZ y.2.

Lemma walk_makers b o : fill_maker <$> walk_fills b o =
  x_key <$> ms_full (walk b o) ++ partial_list (walk b o).
Proof.
  unfold walk_fills, matched, partial_list. generalize (seqZ (ob_next_fill b)) as k.
  intros k. rewrite fills_of_app, !fmap_app. f_equal.
  - revert k. induction (ms_full (walk b o)) as [|[p r] l IH]; intros k; [done|].
    simpl. f_equal. apply IH.
  - by destruct (ms_partial (walk b o)) as [[[p r] q]|].
Qed.

Lemma keys_sorted_of s l :
  StronglySorted (prio_lt s) l ↔ StronglySorted (key_before s) (x_key <$> l).
Proof.
  induction l as [|x l IH]; simpl; [by split; constructor|].
  split; intros [Hs Hx]%StronglySorted_inv; constructor; try tauto;
    rewrite Forall_fmap in *; (eapply Forall_impl; [exact Hx|]); done.
Qed.

Lemma at_head_matches b o : at_head b o → ∃ r b', match_order b o = Done (Ok r, b').
Proof.
  intros [I F V N]. destruct (decide (killed b o)) as [Hk|Hk].
  - rewrite match_order_killed by done. eauto.
  - destruct (match_order_executed b o I F V Hk N) as (b' & -> & _). eauto.
Qed.

(** C6: Price-time priority: the makers an order fills are visited strictly in
    order of price and then of submission, and no maker that is still on the book
    afterwards has priority over one that was filled; every fill is at the maker's
    own price, within the limit of the incoming order. *)
Theorem fills_respect_priority (b : OrderBook) (o : Order) (b' : OrderBook) (r : MatchResult) :
  at_head b o → match_order b o = Done (Ok r, b') →
  StronglySorted (key_before (opp (o_side o))) (fill_maker <$> mr_fills r) ∧
  ∀ f, f ∈ mr_fills r →
    stop_at (o_side o) (o_price o) (maker_price f) = false ∧
    ob_resting_orders b !! maker_order_seq f = Some (opp (o_side o), maker_price f) ∧
    ∀ x, x ∈ side_list b' (opp (o_side o)) →
      fill_maker f = x_key x ∨ key_before (opp (o_side o)) (fill_maker f) (x_key x).
Proof.
  intros [I F V N] E. destruct (decide (killed b o)) as [Hk|Hk].
  { rewrite match_order_killed in E by done. injection E as <- <-. simpl.
    split; [constructor|intros f Hf; by apply not_elem_of_nil in Hf]. }
  destruct (match_order_executed b o I F V Hk N) as (b1 & E1 & X). rewrite E1 in E.
  injection E as <- <-. destruct (walk_result_parts b o) as (-> & _ & _).
  pose proof (proj1 (keys_sorted_of _ _) (inv_prio b I (opp (o_side o)))) as Hs.
  rewrite (walk_split b o), app_assoc, fmap_app, <-walk_makers in Hs.
  rewrite StronglySorted_app_iff in Hs. destruct Hs as (H1 & _ & H12). split; [done|].
  intros f Hf. destruct (walk_fill_terms b o f I F V Hf) as (_ & _ & _ & Hm & _ & Hc & _).
  split_and!; [done..|]. intros x. rewrite (ex_makers _ _ _ X). intros Hx.
  apply (list_elem_of_fmap_2 x_key) in Hx. rewrite left_makers_keys, fmap_app, elem_of_app in Hx.
  apply (list_elem_of_fmap_2 fill_maker) in Hf.
  destruct Hx as [Hx|Hx]; [|right; by apply H12].
  rewrite walk_makers, fmap_app in Hf, H1. apply elem_of_app in Hf as [Hf|Hf].
  - right. apply StronglySorted_app_iff in H1 as (_ & _ & H1). by apply H1.
  - left. unfold partial_list in Hf, Hx. destruct (ms_partial (walk b o)) as [m|]; simpl in Hf, Hx.
    + apply list_elem_of_singleton in Hf as ->. by apply list_elem_of_singleton in Hx as ->.
    + by apply not_elem_of_nil in Hx.
Qed.

Lemma fills_respect_priority_witness :
  ∃ nx b' r, let b := with_next_seq nx sample_book in
    let o := sample_taker Buy 220 400 GoodTilCanceled in
    match_order b o = Done (Ok r, b') ∧
    StronglySorted (key_before Sell) (fill_maker <$> mr_fills r).
Proof.
  destruct (sample_at_head Buy 220 400 GoodTilCanceled) as (nx & H); [by vm_compute|].
  destruct (at_head_matches _ _ H) as (r & b' & E).
  exists nx, b', r. split; [exact E|]. apply (fills_respect_priority _ _ b' r H E).
Defined.

(** C29: An order that violates the tick or lot size is refused with the error that
    names the rule, and the book is untouched; any other order is accepted by the
    validation. *)
Theorem validation_is_exact (b : OrderBook) (o : Order) :
  validate_order b (o_price o) (o_remaining o) =
    Done (if bool_decide (uval (o_price o) = 0) || bool_decide (o_price o mod ob_tick_size b ≠ 0)
          then Err (InvalidTickSize (o_price o) (ob_tick_size b))
          else if bool_decide (qval (o_remaining o) = 0) ||
                  bool_decide (qval (o_remaining o) mod ob_lot_size b ≠ 0)
          then Err (InvalidLotSize (o_remaining o) (ob_lot_size b))
          else Ok ()) ∧
  (¬ valid_order b (o_price o) (o_remaining o) → ∃ e, match_order b o = Done (Err e, b)).
Proof.
  split; [|apply match_order_invalid].
  unfold validate_order, price_is_zero, price_is_multiple_of.
  rewrite is_zero_spec, is_multiple_of_eq. cbn [ebind].
  destruct (Z.eqb_spec (o_price o) 0), (Z.eqb_spec (o_price o mod ob_tick_size b) 0),
    (Z.eqb_spec (qval (o_remaining o)) 0), (Z.eqb_spec (qval (o_remaining o) mod ob_lot_size b) 0);
    simpl; repeat case_bool_decide; done.
Qed.

(** C5: A matching round over the oldest pending orders of a book between calls
    never traps. Each of its orders ends up in exactly one of resting, filled and
    expired, the three sets agree with the book that is left, the fills are
    numbered consecutively, quote the terms of orders that were on the book and
    respect the limit prices, and for every order the open quantity before the
    round is what is still open plus what it traded plus what expired. *)
Theorem matching_round_correct (n : Z) (b : OrderBook) (count : nat) :
  book_ready n b → n ≤ uint_max 64 →
  ∃ out b', process_pending_orders b (take count (pending_order_seqs b)) = Done (out, b') ∧
    ob_pending_orders b' = drop count (ob_pending_orders b) ∧
    round_post b (list_to_set (take count (pending_order_seqs b))) out b'.
Proof.
  intros R Hn. destruct (round_ready n b count R Hn) as (out & b' & E & P & Ep & _).
  by exists out, b'.
Qed.

Lemma matching_round_correct_witness :
  ∃ out b', process_pending_orders sample_queued (take 2 (pending_order_seqs sample_queued)) =
      Done (out, b') ∧
    ob_pending_orders b' = drop 2 (ob_pending_orders sample_queued) ∧
    round_post sample_queued (list_to_set (take 2 (pending_order_seqs sample_queued))) out b'.
Proof. apply (matching_round_correct 6); [apply sample_queued_ready|by vm_compute]. Defined.

(** C27: Cancelling returns an order's whole open quantity with its own side and
    price, removes it from the book or from the queue and changes nothing else; a
    sequence that is neither resting nor pending is reported as absent and the
    book is untouched. The cancellation never traps. *)
Theorem cancel_returns_open_quantity (b : OrderBook) (seq : OrderSeq) :
  book_inv b →
  ∃ r b', remove_order b seq = Done (r, b') ∧ book_inv b' ∧
    match r with
    | Some ro => removal b seq ro b'
    | None => b' = b ∧ ob_resting_orders b !! seq = None ∧
        ∀ o, o ∈ ob_pending_orders b → o_id o ≠ seq
    end.
Proof. apply remove_order_spec. Qed.

Lemma cancel_returns_open_quantity_witness :
  ∃ r b', remove_order sample_queued (seq_lit 1) = Done (r, b') ∧ book_inv b' ∧
    match r with
    | Some ro => removal sample_queued (seq_lit 1) ro b'
    | None => b' = sample_queued ∧ ob_resting_orders sample_queued !! (seq_lit 1 : OrderSeq) = None ∧
        ∀ o, o ∈ ob_pending_orders sample_queued → o_id o ≠ seq_lit 1
    end.
Proof. apply cancel_returns_open_quantity, sample_queued_ready. Defined.

(** Taking the upgrade snapshot of a book and restoring it yields the same
    book, index of resting orders included, and no assertion of the restoration
    fails. *)
Theorem book_snapshot_round_trip (b : OrderBook) :
  book_inv b → from_snapshot (to_snapshot b) = Done b.
Proof. apply from_to_snapshot. Qed.

Lemma book_snapshot_round_trip_witness : from_snapshot (to_snapshot sample_queued) = Done sample_queued.
Proof. apply book_snapshot_round_trip, sample_queued_ready. Defined.

(** ** Market data *)

Lemma best_bid_head b :
  best_bid b = (λ x : Price * RestingOrder, to_order x.2 Buy x.1) <$> head (bids_list b).
Proof.
  unfold best_bid, bids_list. rewrite <-(queue_iter_list (ob_bids b)).
  pose proof (iter_next_list (queue_iter (ob_bids b))) as Hn.
  destruct (iter_next _) as [[[[p] r] it]|]; by rewrite Hn.
Qed.

Lemma best_ask_head b :
  best_ask b = (λ x : Price * RestingOrder, to_order x.2 Sell x.1) <$> head (asks_list b).
Proof.
  unfold best_ask, asks_list. rewrite <-(queue_iter_list (ob_asks b)).
  pose proof (iter_next_list (queue_iter (ob_asks b))) as Hn.
  destruct (iter_next _) as [[[p r] it]|]; by rewrite Hn.
Qed.

Lemma head_elem {A} (l : list A) x : head l = Some x → x ∈ l.
Proof. destruct l; simpl; [done|]. intros [= ->]. left. Qed.

(** The best order of a side is at least as good as every other. *)
Definition tops (s : Side) (b : OrderBook) (best : option Order) : Prop :=
  match best with
  | None => side_list b s = []
  | Some o => (o_price o, resting_from o) ∈ side_list b s ∧ o_side o = s ∧
      ∀ x, x ∈ side_list b s → x = (o_price o, resting_from o) ∨
        prio_lt s (o_price o, resting_from o) x
  end.

Lemma head_tops b s o :
  book_inv b →
  o = (λ x : Price * RestingOrder, to_order x.2 s x.1) <$> head (side_list b s) → tops s b o.
Proof.
  intros Hb ->. pose proof (inv_prio b Hb s) as Hs.
  destruct (side_list b s) as [|[p [i q t]] l] eqn:El; simpl; [done|]. rewrite El.
  split_and!; [left|done|]. apply StronglySorted_inv in Hs as [_ Hs]. rewrite Forall_forall in Hs.
  intros x [->|Hx]%elem_of_cons; [by left|right; by apply Hs].
Qed.

(** C28: The best bid and the best ask the ticker reports are the orders with the
    highest priority of their side, absent exactly when the side is empty, and the
    best bid is always below the best ask: matching never leaves a crossed book. *)
Theorem best_prices_never_cross (b : OrderBook) :
  book_inv b →
  tops Buy b (best_bid b) ∧ tops Sell b (best_ask b) ∧
  ∀ bid ask, best_bid b = Some bid → best_ask b = Some ask → o_price bid < o_price ask.
Proof.
  intros Hb. assert (T1 : tops Buy b (best_bid b)) by (apply head_tops; [done|apply best_bid_head]).
  assert (T2 : tops Sell b (best_ask b)) by (apply head_tops; [done|apply best_ask_head]).
  split_and!; [done..|]. intros bid ask E1 E2. rewrite E1 in T1. rewrite E2 in T2.
  apply (inv_uncrossed b Hb _ _ (proj1 T1) (proj1 T2)).
Qed.

Lemma best_prices_never_cross_witness :
  tops Buy sample_book (best_bid sample_book) ∧ tops Sell sample_book (best_ask sample_book) ∧
  ∀ bid ask, best_bid sample_book = Some bid → best_ask sample_book = Some ask →
    o_price bid < o_price ask.
Proof. apply best_prices_never_cross, sample_ready. Defined.

Lemma validation_is_exact_witness :
  validate_order sample_book (mk_uint 128 205) (q_of_Z 100) =
    Done (Err (InvalidTickSize (mk_uint 128 205) sample_tick)).
Proof.
  destruct (validation_is_exact sample_book (sample_taker Buy 205 100 GoodTilCanceled)) as [E _].
  etransitivity; [exact E|]. vm_compute. reflexivity.
Defined.
