(* ===== verification/CustodyTheorems.v ===== *)
(** * Correctness of balances, settlement and histories *)

From stdpp Require Import prelude gmap sorting.
From Stdlib Require Import ZArith NArith Lia.
From S2P Require Import Prelude Word BTree Quantity Ids Fees OrderTypes.
From S2P Require Import Tokens Balance WriteBack BalanceTotals.
From S2P Require Import History OrderHistory OrderBook.
From S2P Require Import BookInv BookInvMatch BookPending Settlement.
From S2P Require Import SettlementSpec.

(** ** Samples: two users, one token, numbers as principals *)

#[local] Existing Instance principal_N.

Definition token_1 : TokenId := MkTokenId 1%N.
Definition user_0 : UserId := seq_lit 0.
Definition user_1 : UserId := seq_lit 1.
Definition sample_row (f r : Z) : Balance := MkBalance (q_of_Z f) (q_of_Z r).
Definition sample_tb : TokenBalance :=
  MkTokenBalance {[(token_1, user_0) := sample_row 100 50]} fee_pool_default.
Definition sample_batch : list BalanceCall :=
  [CallTransfer user_0 user_1 token_1 (q_of_Z 30) (q_of_Z 1); CallUnreserve user_0 token_1 (q_of_Z 5);
   CallDeposit user_1 token_1 (q_of_Z 7)].
Definition tb_or (r : exec TokenBalance) (tb : TokenBalance) : TokenBalance :=
  match r with Done tb => tb | Trap => tb end.
Definition is_done {A} (r : exec A) : bool := match r with Done _ => true | Trap => false end.

Lemma tb_or_done r tb : is_done r = true → r = Done (tb_or r tb).
Proof. by destruct r. Qed.

(** ** Balances *)

(** C14: Buffering is transparent. The reference updates the stable map in place, one
    operation after the other, and knows no buffer: a debit rewrites the entry it
    needs, a credit rewrites or creates one, an empty balance without an entry staying
    without one. A batch of transfers, releases and credits that runs through one
    write-back buffer and is flushed once has exactly the outcome of the reference,
    the same map and fee pool or the same trap, when the rows it debits are in the
    map at the start, and traps otherwise. When it succeeds, every free and reserved
    balance and every token's fees have changed by exactly the operations' amounts. *)
Theorem write_back_refines_direct `{PrincipalType} (tb : TokenBalance) (calls : list BalanceCall) :
  batched tb calls =
    (if decide (Forall (debits_row (tb_balances tb)) calls) then direct tb calls else Trap) ∧
  ∀ tb', batched tb calls = Done tb' →
    (∀ k, qval (free (amount_of (tb_balances tb') k)) =
        qval (free (amount_of (tb_balances tb) k)) + sum_over (call_freed k) calls ∧
      qval (reserved (amount_of (tb_balances tb) k)) =
        qval (reserved (amount_of (tb_balances tb') k)) + sum_over (call_taken k) calls) ∧
    (∀ t, fees_at (tb_fee_pool tb') t =
      fees_at (tb_fee_pool tb) t + sum_over (call_fee t) calls).
Proof. split; [apply batched_direct|]. intros tb'. apply batched_amounts. Qed.

Lemma write_back_refines_direct_witness :
  direct sample_tb sample_batch = Done (tb_or (batched sample_tb sample_batch) sample_tb) ∧
  qval (free (amount_of (tb_balances (tb_or (batched sample_tb sample_batch) sample_tb))
    (token_1, user_1))) = 36.
Proof.
  destruct (write_back_refines_direct sample_tb sample_batch) as [E A]. split.
  - rewrite decide_True in E; [rewrite <-E; apply tb_or_done; vm_compute; reflexivity|].
    apply (bool_decide_eq_true_1 (Forall _ _)). vm_compute. reflexivity.
  - destruct (A (tb_or (batched sample_tb sample_batch) sample_tb)) as [K _];
      [apply tb_or_done; vm_compute; reflexivity|].
    destruct (K (token_1, user_1)) as [-> _]. vm_compute. reflexivity.
Defined.



(** Settling a batch conserves every token: whatever transfers, fee
    withholdings and releases go through the buffer, the users' holdings plus the
    fee pool are the same before and after. *)
Theorem settlement_conserves_supply `{PrincipalType} (tb tb' : TokenBalance)
    (calls : list BalanceCall) (t : TokenId) :
  batched tb calls = Done tb' →
  supply t tb' = supply t tb + sum_over (λ c, if c is CallDeposit _ t' a then
    if decide (t' = t) then qval a else 0 else 0) calls.
Proof.
  unfold batched. intros E. apply bind_Done in E as ([[] tb1] & E & E').
  injection E' as <-. apply with_write_back_Done in E as (wb' & E & ->).
  apply bind_Done in E as (wb1 & E & E'). injection E' as ->. rewrite <-(wb_supply_new t tb).
  change (supply t (MkTokenBalance (flush wb') (wb_fee_pool wb'))) with (wb_supply t wb').
  pose proof (wb_new_ok (tb_balances tb) (tb_fee_pool tb)) as O. revert O E.
  generalize (wb_new (tb_balances tb) (tb_fee_pool tb)) as wb.
  induction calls as [|c calls IH]; intros wb O E; simpl in E.
  { injection E as ->. rewrite sum_over_nil. lia. }
  apply bind_Done in E as (wb1 & E1 & E2). rewrite sum_over_cons.
  assert (Hs : wb_ok wb1 ∧ wb_supply t wb1 = wb_supply t wb +
    if c is CallDeposit _ t' a then if decide (t' = t) then qval a else 0 else 0).
  { destruct c as [d c tok g f|u tok a|u tok a]; simpl in E1.
    - split; [by apply (transfer_Done _ _ _ _ _ _ _ O E1)|].
      rewrite (transfer_supply _ _ _ _ _ _ _ _ O E1). lia.
    - split; [by apply (wb_unreserve_Done _ _ _ _ _ O E1)|].
      rewrite (wb_unreserve_supply _ _ _ _ _ _ O E1). lia.
    - split; [by apply (wb_deposit_Done _ _ _ _ _ O E1)|].
      by apply (wb_deposit_supply wb u tok a wb1 t). }
  destruct Hs as [O1 S1]. specialize (IH wb1 O1 E2). lia.
Qed.

Lemma settlement_conserves_supply_witness :
  supply token_1 (tb_or (batched sample_tb sample_batch) sample_tb) = supply token_1 sample_tb + 7.
Proof.
  apply (settlement_conserves_supply sample_tb _ sample_batch), tb_or_done. vm_compute. reflexivity.
Defined.

(** ** Settlement *)

Definition scale_100 : nonzero 64 := NonZero (mk_uint 64 100) eq_refl.
Definition sample_rates : FeeRates :=
  MkFeeRates (MkBasisPoint (mk_uint 16 10) eq_refl) (MkBasisPoint (mk_uint 16 20) eq_refl).
Definition sample_fill : Fill :=
  MkFill (seq_lit 0) (seq_lit 3) Buy (mk_uint 128 220) (seq_lit 1) (mk_uint 128 200) (q_of_Z 300).
Definition sample_output : MatchingOutput :=
  MkMatchingOutput [sample_fill] ∅ {[seq_lit 1; seq_lit 3]} ∅.
Definition cap_2 : nonzero 32 := NonZero (mk_uint 32 2) eq_refl.

Lemma sample_fill_ok : fill_ok scale_100 sample_fill.
Proof. split; [by vm_compute..|]. intros [=]. Qed.

(** C13: A fill settles exactly, and so do its balance operations, order by order and
    token by token. Its settlement never traps and each fee is the rate's share
    (rounded up) of what that side receives. The operations take out of the
    reservations precisely what the two limit prices reserved for the filled quantity:
    the buyer's limit times the quantity in the quote token, the quantity in the base
    token. They pay each order, in the token its side receives, what it receives at the
    maker's price less its own fee, charge it exactly that fee, and return to the taker
    the part of its reservation above the maker's price; no other order and no other
    token is paid, charged or refunded. *)
Theorem fill_releases_its_reservations (s : nonzero 64) (rates : FeeRates) (f : Fill)
    (seq : OrderSeq) (t : PairToken) :
  fill_ok s f →
  let gets side := received side (maker_price f) (fill_quantity f) s in
  let taker_fee := fee_of (taker rates) (gets (taker_side f)) in
  let maker_fee := fee_of (maker rates) (gets (opp (taker_side f))) in
  ∃ fs, fill_settlement_new f rates s = Done fs ∧
    qval (fs_notional fs) = scaledZ (maker_price f) (fill_quantity f) s ∧
    qval (fs_taker_fee fs) = taker_fee ∧
    qval (fs_maker_fee fs) = maker_fee ∧
    released seq t (fill_operations fs) =
      (if decide (taker_order_seq f = seq ∧ pair_side (taker_side f) = t)
       then reservation (taker_side f) (taker_price f) (fill_quantity f) s else 0) +
      (if decide (maker_order_seq f = seq ∧ pair_side (opp (taker_side f)) = t)
       then reservation (opp (taker_side f)) (maker_price f) (fill_quantity f) s else 0) ∧
    sum_over (op_credited seq t) (fill_operations fs) =
      to_receivers f seq t (gets (taker_side f) - taker_fee)
        (gets (opp (taker_side f)) - maker_fee) ∧
    sum_over (op_charged seq t) (fill_operations fs) = to_receivers f seq t taker_fee maker_fee ∧
    sum_over (op_returned seq t) (fill_operations fs) =
      (if decide (taker_order_seq f = seq ∧ pair_side (taker_side f) = t)
       then reservation (taker_side f) (taker_price f) (fill_quantity f) s -
            reservation (taker_side f) (maker_price f) (fill_quantity f) s else 0).
Proof.
  intros Hf gets taker_fee maker_fee. exists (settlement_of f rates s).
  pose proof (fo_maker _ _ Hf) as Hm. destruct (fill_pays f rates s seq t Hf) as (Hc & Hx & Hr).
  split; [by apply fill_settlement_new_eq|]. split_and!; [..|by apply fill_released|done|done|done];
    cbn [settlement_of fs_notional fs_taker_fee fs_maker_fee]; apply q_of_Z_val;
    by (apply scaledZ_range || apply fee_range).
Qed.

(** At a limit of 220 the taker's 300 units reserve 660; at the maker's 200 it pays 600,
    gets 60 back and receives 299 units, one being its fee. *)
Lemma fill_releases_its_reservations_witness :
  ∃ fs, fill_settlement_new sample_fill sample_rates scale_100 = Done fs ∧
    released (seq_lit 3) Quote (fill_operations fs) = 660 ∧
    sum_over (op_returned (seq_lit 3) Quote) (fill_operations fs) = 60 ∧
    sum_over (op_credited (seq_lit 3) Base) (fill_operations fs) = 299 ∧
    sum_over (op_charged (seq_lit 3) Base) (fill_operations fs) = 1.
Proof.
  destruct (fill_releases_its_reservations scale_100 sample_rates sample_fill (seq_lit 3) Quote
    sample_fill_ok) as (fs & E & _ & _ & _ & R & _ & _ & B).
  destruct (fill_releases_its_reservations scale_100 sample_rates sample_fill (seq_lit 3) Base
    sample_fill_ok) as (fs' & E' & _ & _ & _ & _ & C & X & _).
  rewrite E in E'. injection E' as <-. exists fs.
  rewrite R, B, C, X. split_and!; [exact E|vm_compute; reflexivity..].
Defined.

(** C12: The settlement of a matching round is total and complete: every order of
    the round gets the status the round gave it, the exact totals of its fills
    (quantity, quote amount and fees) and nothing else, and the operations and fill
    records of all fills and expirations are handed out, in order and without loss,
    in batches of at most the configured number of units. *)
Theorem matching_settlement_correct `{PrincipalType} (rates : FeeRates) (s : nonzero 64)
    (cap : nonzero 32) (out : MatchingOutput) :
  settleable rates s out →
  ∃ ms, from_matching out rates s cap = Done ms ∧ settled rates s cap out ms ∧
    batch_fills (settling_batches ms) =
      ((λ f, fill_event (settlement_of f rates s)) <$> mo_fills out) ∧
    (∀ seq t, released seq t (batch_ops (settling_batches ms)) =
      sum_over (release_of s seq t) (mo_fills out) +
      sum_over (expired_release s seq t) (btree_iter (mo_expired_orders out))) ∧
    Forall (λ b, Z.of_nat (length (sb_fills b)) ≤ nzval cap ∧ sb_operations b ≠ [])
      (settling_batches ms).
Proof.
  intros Hs. destruct (from_matching_spec rates s cap out Hs) as (ms & E & S).
  exists ms. split_and!; [done..|by eapply settled_fills| |by eapply settled_bounded].
  intros seq t. by eapply settled_released.
Qed.

Lemma sample_settleable : settleable sample_rates scale_100 sample_output.
Proof.
  split.
  - constructor; [apply sample_fill_ok|constructor].
  - intros seq. split; unfold fills_qty, quote_of, fee_on, by_role, taker_qty, maker_qty, qty_if;
      simpl mo_fills; rewrite sum_over_cons, sum_over_nil; repeat case_decide; by vm_compute.
  - intros seq ro Hro. cbn [mo_expired_orders sample_output] in Hro. by rewrite lookup_empty in Hro.
Qed.

Lemma matching_settlement_correct_witness :
  ∃ ms, from_matching sample_output sample_rates scale_100 cap_2 = Done ms ∧
    batch_fills (settling_batches ms) =
      ((λ f, fill_event (settlement_of f sample_rates scale_100)) <$> mo_fills sample_output).
Proof.
  destruct (matching_settlement_correct sample_rates scale_100 cap_2 sample_output sample_settleable)
    as (ms & E & _ & F & _). exists ms. split; [exact E|exact F].
Defined.

(** ** Histories *)

(** A history with three records of two users. *)
Definition sample_record (q : Z) : OrderRecord :=
  MkOrderRecord 7%N Sell (mk_uint 128 200) (q_of_Z q) Open (mk_uint 64 1) (q_of_Z 0) None
    GoodTilCanceled (q_of_Z 0) (q_of_Z 0) None None.
Definition sample_oid (z : Z) : OrderId := MkCompositeId Seq_ZERO (seq_lit z).
Definition sample_log : list (UserId * OrderId * OrderRecord) :=
  [(user_0, sample_oid 0, sample_record 100); (user_1, sample_oid 1, sample_record 200);
   (user_0, sample_oid 2, sample_record 300)].

Lemma insert_log (h : History OrderId OrderRecord) log e :
  lockstep h log → Z.of_nat (length log) < 2 ^ 64 → (∀ i u v, log !! i ≠ Some (u, e.1.2, v)) →
  ∃ h', history_insert_once h e.1.1 e.1.2 e.2 = Done h' ∧ lockstep h' (log ++ [e]).
Proof.
  destruct e as [[u k] v]. intros L Hn Hk.
  destruct (insert_once_spec h log u k v L Hn) as (h' & E & L' & _); [|by exists h'].
  destruct (primary h !! k) as [[s r]|] eqn:Ek; [|done].
  apply (ls_primary _ _ L) in Ek as (u' & Eu). by apply Hk in Eu.
Qed.

Lemma sample_history : ∃ h : History OrderId OrderRecord, lockstep h sample_log.
Proof.
  destruct (insert_log history_new [] (user_0, sample_oid 0, sample_record 100)) as (h1 & _ & L1);
    [apply history_new_lockstep|done|by intros [|]|].
  destruct (insert_log h1 _ (user_1, sample_oid 1, sample_record 200) L1) as (h2 & _ & L2);
    [done|by intros [|[|]]|].
  destruct (insert_log h2 _ (user_0, sample_oid 2, sample_record 300) L2) as (h3 & _ & L3);
    [done|by intros [|[|[|]]]|].
  by exists h3.
Qed.

(** C31: The record store numbers its records by insertion and indexes them by user
    in lockstep: inserting a new key succeeds and appends to the log, a key already
    present is refused by a trap, and modifying a record changes that record only
    and keeps the order of the log and of every user's index. *)
Theorem history_keeps_lockstep {K V : Type} `{Countable K, !Ord K, !OrdLaws K}
    (h : History K V) (log : list (UserId * K * V)) (u : UserId) (k : K) (v : V)
    (f : V → exec (bool * V)) :
  lockstep h log → Z.of_nat (length log) < 2 ^ 64 →
  match history_get h k with
  | None => ∃ h', history_insert_once h u k v = Done h' ∧ lockstep h' (log ++ [(u, k, v)]) ∧
      ∀ k', history_get h' k' = if decide (k' = k) then Some v else history_get h k'
  | Some old => history_insert_once h u k v = Trap ∧
      ∀ changed new, f old = Done (changed, new) →
      ∃ h' log', history_modify h k f = Done h' ∧ lockstep h' log' ∧
        ((λ e : UserId * K * V, (e.1.1, e.1.2)) <$> log' =
         (λ e : UserId * K * V, (e.1.1, e.1.2)) <$> log) ∧
        ∀ k', history_get h' k' = if decide (k' = k) then Some (if changed : bool then new else old)
                                  else history_get h k'
  end.
Proof.
  intros L Hn. destruct (history_get h k) as [old|] eqn:E.
  - split; [apply insert_once_duplicate; intros En; unfold history_get in E; by rewrite En in E|].
    intros changed new Ef. by apply (modify_spec h log k f old).
  - apply insert_once_spec; [done..|]. unfold history_get in E. by apply fmap_None in E.
Qed.

Lemma history_keeps_lockstep_witness :
  ∃ h : History OrderId OrderRecord, lockstep h sample_log ∧
  match history_get h (sample_oid 9) with
  | None => ∃ h', history_insert_once h user_1 (sample_oid 9) (sample_record 400) = Done h'
  | Some _ => True
  end.
Proof.
  destruct sample_history as (h & L). exists h. split; [exact L|].
  pose proof (history_keeps_lockstep h sample_log user_1 (sample_oid 9) (sample_record 400)
    (λ r, Done (false, r)) L ltac:(by vm_compute)) as Hk.
  destruct (history_get h (sample_oid 9)); [done|]. destruct Hk as (h' & E & _). by exists h'.
Defined.

(** C30: Paging through a user's records is exact: the first page holds the newest
    ones, a page after a cursor continues where the page that ended with it
    stopped, and a cursor that is not one of the user's records is refused. *)
Theorem history_pages_are_exact {K V : Type} `{Countable K, !Ord K, !OrdLaws K}
    (h : History K V) (log : list (UserId * K * V)) (u : UserId) (c : K) (n : nat) :
  lockstep h log →
  page_by_user h u None n = Ok (take n (reverse (user_keys u log))) ∧
  (∀ newer older, reverse (user_keys u log) = newer ++ c :: older →
     page_by_user h u (Some c) n = Ok (take n older)) ∧
  (c ∉ user_keys u log → page_by_user h u (Some c) n = Err MkCursorNotFound).
Proof.
  intros L. split_and!; [by apply page_newest|intros; by eapply page_continues|].
  intros Hc. apply (page_bad_cursor h log); [done|]. intros i v E. apply Hc, user_keys_elem. eauto.
Qed.

Lemma history_pages_are_exact_witness :
  ∃ h : History OrderId OrderRecord, lockstep h sample_log ∧
    page_by_user h user_0 (Some (sample_oid 2)) 5 = Ok [sample_oid 0].
Proof.
  destruct sample_history as (h & L). exists h. split; [exact L|].
  destruct (history_pages_are_exact h sample_log user_0 (sample_oid 2) 5 L) as (_ & Hp & _).
  apply (Hp [] [sample_oid 0]). vm_compute. reflexivity.
Defined.

(** An order update that goes through changes exactly what it says: the status
    when it names one, and the filled quantity, quote amount and fee by their
    deltas; the filled quantity never exceeds the order's quantity, and owner,
    side, price, quantity, time in force and creation time never change. An update
    within these bounds always goes through. *)
Theorem order_update_exact `{PrincipalType} (u : OrderUpdate) (r : OrderRecord) :
  (∀ c r', update_apply u r = Done (c, r') →
    same_order r r' ∧ or_status r' = default (or_status r) (ou_status u) ∧
    qval (or_filled_quantity r') = qval (or_filled_quantity r) + qval (ou_filled_delta u) ∧
    qval (or_filled_quote r') = qval (or_filled_quote r) + qval (ou_quote_delta u) ∧
    qval (or_filled_fee r') = qval (or_filled_fee r) + qval (ou_fee_delta u) ∧
    (qval (ou_filled_delta u) ≠ 0 → qval (or_filled_quantity r') ≤ qval (or_quantity r)) ∧
    (c = false → r' = r)) ∧
  (qval (or_filled_quantity r) + qval (ou_filled_delta u) ≤ qval (or_quantity r) →
   qval (or_filled_quote r) + qval (ou_quote_delta u) < 2 ^ 256 →
   qval (or_filled_fee r) + qval (ou_fee_delta u) < 2 ^ 256 →
   ∃ c r', update_apply u r = Done (c, r')).
Proof.
  split; [|apply update_apply_total]. intros c r' E.
  destruct (update_apply_Done u r c r' E) as (? & ? & _ & ? & ? & ? & ? & ?). done.
Qed.

Definition sample_update : OrderUpdate :=
  MkOrderUpdate (Some Filled) (q_of_Z 100) (q_of_Z 200) (q_of_Z 1) None.

Lemma order_update_exact_witness : ∃ c r', update_apply sample_update (sample_record 100) = Done (c, r').
Proof. apply order_update_exact; vm_compute; (reflexivity || discriminate). Defined.
