(* ===== verification/CanisterTheorems.v ===== *)
(** * Correctness of the canister *)

From Stdlib Require Import String.
From stdpp Require Import prelude gmap sorting.
From Stdlib Require Import ZArith NArith Lia.
From S2P Require Import Prelude Word BTree Text Bytes Quantity QuantityCodec.
From S2P Require Import Ids Fees OrderTypes Tokens Balance WriteBack.
From S2P Require Import BalanceTotals OrderQueue OrderBook BookInv.
From S2P Require Import BookPending BookSnapshot History OrderHistory.
From S2P Require Import UserRegistry UserRegistryInv Settlement.
From S2P Require Import Permissions PairMap Events State.
From S2P Require Import EventAudit Replay StateInv Snapshot Cbor Codecs Storage.
From S2P Require Import Executor ExecutorSpec ApiErrors Api Ledger Endpoints.
From S2P Require Import EndpointSpec EventSize Bench Fixtures Demo.

(** ** Worlds of the sample session *)

Definition world_new : World :=
  MkWorld (MkState GeneralAvailability
    (MkExecutionPolicy (NonZero (mk_uint 32 10) eq_refl) (NonZero (mk_uint 64 1000) eq_refl)
       (NonZero (mk_uint 32 2) eq_refl))
    Seq_ZERO ∅ pairs_default ∅ registry_new (MkTokenBalance ∅ fee_pool_default) history_new
    history_new ∅ [] ∅ ∅ permissions_default) [MkEvent (mk_uint 64 0) (EInit demo_init)].
Definition world_or (r : exec World) : World := match r with Done w => w | Trap => world_new end.
Definition is_done {A} (r : exec A) : bool := match r with Done _ => true | Trap => false end.

Lemma world_or_done r : is_done r = true → r = Done (world_or r).
Proof. by destruct r. Qed.

(** The events of the session up to Bob's order. *)
Definition pair_event : EventType :=
  EAddTradingPair (MkAddTradingPairEvent Seq_ZERO base_token quote_token
    (NonZero (mk_uint 128 10) eq_refl) (NonZero (mk_uint 64 10) eq_refl) (demo_metadata 2)
    (demo_metadata 6) (MkFeeRates (MkBasisPoint (mk_uint 16 10) eq_refl)
      (MkBasisPoint (mk_uint 16 20) eq_refl)) (q_of_Z 1) None).
Definition demo_events : list EventType :=
  [pair_event;
   EDeposit (MkDepositEvent alice base_token (q_of_Z 1000));
   EDeposit (MkDepositEvent bob quote_token (q_of_Z 100000));
   EAddLimitOrder (MkAddLimitOrderEvent alice (MkCompositeId Seq_ZERO (seq_lit 0)) Sell
     (mk_uint 128 200) (q_of_Z 300) GoodTilCanceled None);
   EAddLimitOrder (MkAddLimitOrderEvent bob (MkCompositeId Seq_ZERO (seq_lit 1)) Buy
     (mk_uint 128 220) (q_of_Z 400) GoodTilCanceled None)].
Definition process_all (w : World) (ps : list EventType) : exec World :=
  exec_fold (λ w p, process_event w p (PermitSync MkSyncPermit) (rt admin 1)) w ps.
Definition ordered_world : World := world_or (process_all world_new demo_events).

(** ** Event sourcing and upgrades *)

(** C15: An upgrade loses nothing: writing the snapshot to its cell as CBOR, dropping
    the heap and starting from the bytes of the cell, of the stable maps and of the
    event log gives back the same state and log, fee pool and settling queue
    included; only the guards of calls in flight, which do not survive an upgrade,
    are released. The start empties the cell, so a canister that starts again without
    a new snapshot traps instead of restoring an old one. *)
Theorem upgrade_restores_state `{PrincipalType} `{!BiBTreeMap TradingPair OrderBookId}
    `{!IcrcCbor} `{Minicbor} (w : World) (bytes : list u8) (rt : Runtime) :
  snapshot_ok (w_state w) → disk_fits w →
  ∃ d, start_up (shut_down w bytes) None rt =
      Done (MkWorld (after_upgrade (w_state w)) (w_log w), d) ∧
    ∀ arg rt', start_up d arg rt' = Trap.
Proof.
  intros Hw Hd. rewrite restart_eq, upgrade_plain by (done || by left). cbn [ebind].
  eexists. split; [done|]. intros arg rt'. apply stale_start_traps.
Qed.

Definition listed_world : World := world_or (process_all world_new [pair_event]).

Lemma listed_ok : snapshot_ok (w_state listed_world).
Proof.
  split; [|by vm_compute]. intros id b Hb.
  assert (id = Seq_ZERO ∧ b = book_new Seq_ZERO (NonZero (mk_uint 128 10) eq_refl)
    (NonZero (mk_uint 64 10) eq_refl) (q_of_Z 1) None
    (MkFeeRates (MkBasisPoint (mk_uint 16 10) eq_refl) (MkBasisPoint (mk_uint 16 20) eq_refl)))
    as [-> ->].
  { change (st_order_books (w_state listed_world)) with
      (<[Seq_ZERO := book_new Seq_ZERO (NonZero (mk_uint 128 10) eq_refl)
        (NonZero (mk_uint 64 10) eq_refl) (q_of_Z 1) None
        (MkFeeRates (MkBasisPoint (mk_uint 16 10) eq_refl)
          (MkBasisPoint (mk_uint 16 20) eq_refl))]> (∅ : gmap OrderBookId OrderBook)) in Hb.
    apply lookup_insert_Some in Hb as [[<- <-]|[_ Hb]]; [done|by rewrite lookup_empty in Hb]. }
  split; [apply book_new_inv|done].
Qed.

Lemma upgrade_restores_state_witness :
  ∃ d, start_up (shut_down listed_world []) None (rt admin 9) =
      Done (MkWorld (after_upgrade (w_state listed_world)) (w_log listed_world), d) ∧
    ∀ arg rt', start_up d arg rt' = Trap.
Proof.
  apply (upgrade_restores_state listed_world [] (rt admin 9) listed_ok). split.
  - vm_compute. exact I.
  - intros k l E. vm_compute in E. discriminate.
  - vm_compute. exact I.
Defined.

(** C22: Custody is conserved by the whole event machinery: over any run of events,
    the users' balances plus the fee pool grow by exactly the deposits minus the
    withdrawals of that token; no order, match, settlement, cancellation or
    administrative event creates or destroys a unit. *)
Theorem events_conserve_custody `{PrincipalType} `{!BiBTreeMap TradingPair OrderBookId}
    (events : list Event) (s s' : State) (t : TokenId) :
  exec_fold (λ s e, apply_state_transition s (ev_payload e) (ev_timestamp e) Write) s events =
    Done s' →
  state_supply t s' = state_supply t s + sum_over (λ e, event_flow t (ev_payload e)) events.
Proof. apply transitions_supply. Qed.

Definition state_or (r : exec State) : State :=
  match r with Done s => s | Trap => w_state world_new end.
Definition demo_timed : list Event := MkEvent (mk_uint 64 1) <$> demo_events.

Lemma events_conserve_custody_witness :
  state_supply quote_token (state_or (exec_fold (λ s e,
    apply_state_transition s (ev_payload e) (ev_timestamp e) Write) (w_state world_new) demo_timed)) =
  100000.
Proof.
  rewrite (events_conserve_custody demo_timed (w_state world_new)); [vm_compute; reflexivity|].
  assert (Hd : ∀ r : exec State, is_done r = true → r = Done (state_or r)) by (by intros []).
  apply Hd. vm_compute. reflexivity.
Defined.

(** ** Accounts *)

(** C26: Over any sequence of deposits, grants and revocations, whatever accounts
    and times they name, the registry never traps; user ids stay dense and
    distinct, no account is both a user and a trading account, each whitelist has
    distinct entries within its cap and agrees with the grants, and any two grants
    of one funding account are at least the cooldown apart. *)
Theorem registry_history_safe `{PrincipalType} (calls : list RegistryCall) :
  Z.of_nat (length calls) ≤ 2 ^ 64 →
  ∃ registry grants, exec_fold registry_call (registry_new, []) calls = Done (registry, grants) ∧
    registry_inv registry ∧ spaced grants.
Proof.
  intros Hn. destruct (history_run 0 (registry_new, []) calls registry_history_new) as ([r g] & E & Hi); [lia|].
  exists r, g. split_and!; [done|apply Hi|apply Hi].
Qed.

Definition demo_calls : list RegistryCall :=
  [Deposits alice; Grants alice carol (mk_uint 64 5); Revokes alice carol].

Lemma registry_history_safe_witness :
  ∃ registry grants, exec_fold registry_call (registry_new, []) demo_calls = Done (registry, grants) ∧
    registry_inv registry ∧ spaced grants.
Proof. apply registry_history_safe. vm_compute. discriminate. Defined.

(** ** The executor *)

(** C25: A run of the executor is bounded and respects the halts: it matches at
    most the configured number of orders, it appends only matching and settling
    events to the log, it never matches a book that is halted, globally or by
    pair, and it reports more work exactly when a matchable order or a settling
    event is left. *)
Theorem executor_run_bounded `{PrincipalType} `{!BiBTreeMap TradingPair OrderBookId}
    (rt : Runtime) (w w' : World) (status : ExecutionStatus) :
  run_once rt w = Done (status, w') →
  (∃ evs, w_log w' = w_log w ++ evs ∧
    Forall (run_event (st_permissions (w_state w))) (ev_payload <$> evs) ∧
    Z.of_nat (list_sum (matched_orders <$> (ev_payload <$> evs))) ≤
      ep_max_orders_per_chunk (st_execution_policy (w_state w))) ∧
  st_permissions (w_state w') = st_permissions (w_state w) ∧
  (status = MoreWork ↔ has_matchable_pending_orders (w_state w') = true ∨
                       st_pending_settling_events (w_state w') ≠ []) ∧
  (status = MoreWork ∨ status = Complete).
Proof.
  intros E. apply run_once_ran in E as [[P (evs & L & F & S)] ->].
  assert (Hs : has_pending_settling_events (w_state w') = true ↔
    st_pending_settling_events (w_state w') ≠ []).
  { unfold has_pending_settling_events. rewrite negb_true_iff, bool_decide_eq_false.
    by destruct (st_pending_settling_events (w_state w')). }
  split_and!; [|done| |].
  - exists evs. split_and!; [done..|]. pose proof (nonzero_pos
      (ep_max_orders_per_chunk (st_execution_policy (w_state w)))). lia.
  - unfold status_from_state. rewrite <-Hs, <-orb_true_iff. by destruct (_ || _).
  - unfold status_from_state. destruct (_ || _); auto.
Qed.

Definition run_or (r : exec (ExecutionStatus * World)) : ExecutionStatus * World :=
  match r with Done x => x | Trap => (AlreadyRunning, world_new) end.
Definition matched_run : ExecutionStatus * World := run_or (run_once (rt admin 6) ordered_world).

Lemma run_or_done r : is_done r = true → r = Done ((run_or r).1, (run_or r).2).
Proof. by destruct r as [[]|]. Qed.

Lemma executor_run_bounded_witness :
  st_permissions (w_state matched_run.2) = st_permissions (w_state ordered_world).
Proof.
  apply (executor_run_bounded (rt admin 6) ordered_world matched_run.2 matched_run.1).
  apply run_or_done. vm_compute. reflexivity.
Defined.

(** Settlement keeps up: as long as the instruction counter stays below the
    budget, a run of the executor leaves no settling event queued, so balances are
    never behind the matches when it returns. *)
Theorem executor_settles_everything `{PrincipalType} `{!BiBTreeMap TradingPair OrderBookId}
    (rt : Runtime) (w w' : World) (status : ExecutionStatus) :
  (∀ k, rt_instruction_counter rt k < ep_instruction_budget (st_execution_policy (w_state w))) →
  run_once rt w = Done (status, w') → st_pending_settling_events (w_state w') = [].
Proof. apply run_once_drained. Qed.

Definition idle_rt : Runtime :=
  MkRuntime admin 1%N (λ p, (p =? admin)%N) (λ _, mk_uint 64 0) (mk_uint 64 6).
Definition settled_run : ExecutionStatus * World := run_or (run_once idle_rt ordered_world).

Lemma executor_settles_everything_witness :
  st_pending_settling_events (w_state settled_run.2) = [].
Proof.
  apply (executor_settles_everything idle_rt ordered_world settled_run.2 settled_run.1).
  - intros k. vm_compute. reflexivity.
  - apply run_or_done. vm_compute. reflexivity.
Defined.

(** ** Funding *)


Definition demo_funding : PendingFunding :=
  MkPendingFunding alice base_token (q_of_Z 50) MkPreAsyncPermit.
Definition funding_or {A E} (r : exec (result A E * World)) (e : E) : result A E * World :=
  match r with Done x => x | Trap => (Err e, world_new) end.

Lemma funding_or_done {A E} (r : exec (result A E * World)) (e : E) :
  is_done r = true → r = Done ((funding_or r e).1, (funding_or r e).2).
Proof. by destruct r as [[]|]. Qed.


(** C23: A withdrawal pays out exactly what it debits. The first half takes the
    amount off the caller's free balance and nothing else, and refuses to start a
    second operation on the same token; the one or two ledger calls it makes ask
    for a positive transfer whose amount plus fee is the debited amount; and the
    second half, whatever ran in between, either keeps the balances because the
    ledger accepted the last of these transfers, or gives the whole amount back. *)
Theorem withdrawal_is_exact `{PrincipalType} `{!BiBTreeMap TradingPair OrderBookId} `{BigUint}
    (w w1 w2 w3 : World) (request : WithdrawRequest) (rt rt' : Runtime) (pf : PendingFunding)
    (cached_fee : N) (ledger : nat → TransferCall → CallReply (result N TransferError))
    (outcome : WithdrawOutcome) (calls : list TransferCall)
    (r : result WithdrawResponse WithdrawError) :
  let token := token_from (wr_token_id request) in
  withdraw_begin w request rt = Done (Ok (pf, cached_fee), w1) →
  ledger_withdraw (pf_token pf) (pf_caller pf) (pf_amount pf) cached_fee ledger =
    Done (outcome, calls) →
  withdraw_end w2 pf outcome rt' = Done (r, w3) →
  debited (w_state w) (w_state w1) (rt_msg_caller rt) token (pf_amount pf) ∧
  qval (pf_amount pf) = Z.of_N (wr_amount request) ∧
  Forall (λ c, tc_ledger c = ledger_id token ∧ tc_to c = rt_msg_caller rt ∧
    (tc_amount c + tc_fee c)%N = wr_amount request ∧ (0 < tc_amount c)%N) calls ∧
  (length calls ≤ 2)%nat ∧
  match r with
  | Ok response => st_balances (w_state w3) = st_balances (w_state w2) ∧
      ∃ c, last calls = Some c ∧
        ledger (length calls - 1)%nat c = Replied (Ok (wr_block_index response))
  | Err _ => credited (w_state w2) (w_state w3) (rt_msg_caller rt) token (pf_amount pf)
  end.
Proof.
  intros token E1 E2 E3. apply withdraw_begin_spec in E1 as (_ & Hc & Ht & Ha & Hp & _ & _ & _ & _ & Hd).
  fold token in Ht, Hd.
  destruct (ledger_withdraw_spec (pf_token pf) (pf_caller pf) (pf_amount pf) cached_fee ledger Hp)
    as (o & cs & E & Hl & Hf & Hok & _).
  rewrite E in E2. injection E2 as -> ->. apply withdraw_end_spec in E3 as (Er & _ & E3).
  rewrite Hc in *. rewrite Ht in *. split_and!; [done|done| |lia|].
  - eapply Forall_impl; [exact Hf|]. intros c (-> & -> & Hs & Hpos). split_and!; [done|done|lia|done].
  - destruct r as [response|e]; [|apply E3]. split; [done|]. by apply Hok.
Qed.

(** A ledger that wants a fee of 3 and accepts the retry. *)
Definition demo_ledger (k : nat) (c : TransferCall) : CallReply (result N TransferError) :=
  match k with O => Replied (Err (TEBadFee 3%N)) | S _ => Replied (Ok 11%N) end.
Definition bob_withdraws : WithdrawRequest :=
  MkWithdrawRequest (api_token_id quote_token) 500%N.
Definition begun : exec (result (PendingFunding * N) WithdrawError * World) :=
  withdraw_begin ordered_world bob_withdraws (rt bob 9).
Definition begun_world : World := match begun with Done (_, w) => w | Trap => world_new end.
Definition begun_funding : PendingFunding :=
  match begun with Done (Ok (pf, _), _) => pf | _ => demo_funding end.
Definition begun_fee : N := match begun with Done (Ok (_, fee), _) => fee | _ => 0%N end.
Definition paid : exec (WithdrawOutcome * list TransferCall) :=
  ledger_withdraw (pf_token begun_funding) (pf_caller begun_funding) (pf_amount begun_funding)
    begun_fee demo_ledger.
Definition paid_outcome : WithdrawOutcome :=
  match paid with Done (o, _) => o | Trap => MkWithdrawOutcome (Ok (MkWithdrawResponse 0%N)) None end.
Definition paid_calls : list TransferCall := match paid with Done (_, c) => c | Trap => [] end.
Definition finished : exec (result WithdrawResponse WithdrawError * World) :=
  withdraw_end begun_world begun_funding paid_outcome (rt bob 10).

Lemma begun_done :
  match begun with Done (Ok _, _) => true | _ => false end = true →
  begun = Done (Ok (begun_funding, begun_fee), begun_world).
Proof. unfold begun_funding, begun_fee, begun_world. by destruct begun as [[[[]|] ]|]. Qed.

Lemma paid_done : is_done paid = true → paid = Done (paid_outcome, paid_calls).
Proof. unfold paid_outcome, paid_calls. by destruct paid as [[]|]. Qed.

Lemma withdrawal_is_exact_witness :
  debited (w_state ordered_world) (w_state begun_world) bob quote_token (pf_amount begun_funding).
Proof.
  destruct (withdrawal_is_exact ordered_world begun_world begun_world
    (funding_or finished (temporary_error WithdrawOperationInProgress)).2 bob_withdraws (rt bob 9)
    (rt bob 10) begun_funding begun_fee demo_ledger paid_outcome paid_calls
    (funding_or finished (temporary_error WithdrawOperationInProgress)).1) as [Hd _]; [..|exact Hd].
  - apply begun_done. vm_compute. reflexivity.
  - apply paid_done. vm_compute. reflexivity.
  - apply funding_or_done. vm_compute. reflexivity.
Defined.

(** A principal with a deposit or withdrawal in flight cannot be made a
    trading account: granting it that role is refused until the operation has
    finished, so the account that is credited after the ledger call is still a
    funding account. *)
Theorem no_grant_while_funding `{PrincipalType} `{!BiBTreeMap TradingPair OrderBookId}
    (w w' : World) (trading : Principal) (token : TokenId) (rt : Runtime)
    (r : result unit AddTradingAccountApiError) :
  (trading, token) ∈ st_in_flight_user_ops (w_state w) →
  add_trading_account w trading rt = Done (r, w') → r ≠ Ok () ∧ w' = w.
Proof.
  intros Hin E. assert (r ≠ Ok ()) as Hr.
  { intros ->. by apply (add_trading_account_guard _ _ _ _ E token). }
  split; [done|]. unfold add_trading_account in E. apply bind_Done in E as (_ & _ & E).
  destruct (state_validate_add_trading_account _ _ _ _); [|by injection E as _ <-].
  apply bind_Done in E as (w1 & _ & E). by injection E as <-.
Qed.

Definition granted : exec (result unit AddTradingAccountApiError * World) :=
  add_trading_account begun_world bob (rt alice 10).
Definition granted_result : result unit AddTradingAccountApiError :=
  match granted with Done (r, _) => r | Trap => Ok () end.
Definition granted_world : World := match granted with Done (_, w) => w | Trap => world_new end.

Lemma no_grant_while_funding_witness : granted_result ≠ Ok () ∧ granted_world = begun_world.
Proof.
  apply (no_grant_while_funding begun_world granted_world bob quote_token (rt alice 10)).
  - apply (bool_decide_eq_true_1 ((bob, quote_token) ∈ st_in_flight_user_ops (w_state begun_world))).
    vm_compute. reflexivity.
  - assert (Hd : is_done granted = true → granted = Done (granted_result, granted_world))
      by (unfold granted_result, granted_world; by destruct granted as [[]|]).
    apply Hd. vm_compute. reflexivity.
Defined.

(** A halted pair is closed to new orders: while the pair's book is halted,
    or trading is halted globally, no submission succeeds and the world is left
    exactly as it was. *)
Theorem halted_pair_takes_no_orders `{PrincipalType} `{!BiBTreeMap TradingPair OrderBookId}
    `{BigUint} (w w' : World) (request : LimitOrderRequest) (rt : Runtime)
    (r : result (list u8) AddLimitOrderApiError) (id : OrderBookId) :
  add_limit_order w request rt = Done (r, w') →
  get_book_id (st_trading_pairs (w_state w))
    (pair_from (lr_pair request)) = Some id →
  is_halted (st_permissions (w_state w)) id = true →
  (∀ x, r ≠ Ok x) ∧ w' = w.
Proof. apply add_limit_order_halted. Qed.

Definition halted_world : World :=
  world_or (process_all ordered_world [ESetHalt (MkSetHaltEvent (Some [Seq_ZERO]) true)]).
Definition refused : exec (result (list u8) AddLimitOrderApiError * World) :=
  add_limit_order halted_world (order Sell 200 100 GoodTilCanceled) (rt alice 9).
Definition refused_result : result (list u8) AddLimitOrderApiError :=
  match refused with Done (r, _) => r | Trap => Ok [] end.
Definition refused_world : World := match refused with Done (_, w) => w | Trap => world_new end.

Lemma halted_pair_takes_no_orders_witness :
  (∀ x, refused_result ≠ Ok x) ∧ refused_world = halted_world.
Proof.
  apply (halted_pair_takes_no_orders halted_world refused_world
    (order Sell 200 100 GoodTilCanceled) (rt alice 9) refused_result Seq_ZERO).
  - assert (Hd : is_done refused = true → refused = Done (refused_result, refused_world))
      by (unfold refused_result, refused_world; by destruct refused as [[]|]).
    apply Hd. vm_compute. reflexivity.
  - apply (bool_decide_eq_true_1
      (get_book_id (st_trading_pairs (w_state halted_world)) demo_pair = Some Seq_ZERO)).
    vm_compute. reflexivity.
  - vm_compute. reflexivity.
Defined.

(** ** The size of the log *)

(** C38: No event outgrows its worst case: the bytes of an event in stable memory are at
    most those of the worst case of its kind, as long as it stays within what the
    worst cases assume (amounts of 128 bits, ten principals, ten-byte symbols, a
    thousand orders and fills, a hundred books); each worst case is within these
    limits itself, and takes exactly the expected number of bytes. *)
Theorem worst_case_event_is_largest `{PrincipalSlice} (e : Event) (v : WorstCaseEvent) :
  (event_within (ev_payload e) →
    lenZ (s_to_bytes s_event e) ≤ lenZ (s_to_bytes s_event
      (worst_case_memory_event (worst_case_from (ev_payload e))))) ∧
  event_within (ev_payload (worst_case_memory_event v)) ∧
  worst_case_from (ev_payload (worst_case_memory_event v)) = v ∧
  lenZ (s_to_bytes s_event (worst_case_memory_event v)) = expected_memory_size v.
Proof.
  split_and!.
  - intros He. rewrite worst_case_is. by apply event_le.
  - apply worst_case_within.
  - by destruct v.
  - apply worst_case_is.
Qed.

Import PrincipalBytes.

(** A deposit of [u128::MAX]: 96 bytes. *)
Definition bytes_deposit (amount : Quantity) : @Event principal_bytes :=
  max_timestamp (worst_deposit (H1 := principal_slice_bytes) amount).
Lemma worst_case_event_is_largest_witness :
  lenZ (s_to_bytes s_event (bytes_deposit max_quantity)) ≤ 96.
Proof.
  destruct (worst_case_event_is_largest (bytes_deposit max_quantity) WDeposit) as (Hle & _ & _ & E).
  change 96 with (expected_memory_size WDeposit). rewrite <- E. apply Hle. reflexivity.
Defined.

(** ** The benchmarks *)

(** C36: The checks of the benchmarks hold. For every snapshot of a market (orders the book
    takes, one per price, that do not cross) and whenever the round has instructions to
    spare: the book is filled from the snapshot, a sell of all that is bid, of either
    time in force, runs to its end with every bid filled and the asks untouched, a
    fill-or-kill sell of one lot more is killed with the book as it was; and [half] buys
    and [half] sells that do not cross all rest in one round. *)
Theorem benchmark_checks_hold `{PrincipalSlice} `{!BiBTreeMap TradingPair OrderBookId}
    (depth : DepthSnapshot) (bids asks : list PendingOrder) (half : nat) (rt : Runtime)
    (log : list Event) :
  depth_ok depth bids asks →
  (0 < half)%nat → Z.of_nat half < 2 ^ 31 →
  (∀ i, rt_instruction_counter rt i < MAX_INSTRUCTION_BUDGET) →
  (∀ tif, ∃ w, full_bid_sweep depth (λ total, Done (sweep_order tif total)) Filled rt log = Done w) ∧
  (∃ w, full_bid_sweep depth one_lot_more Expired rt log = Done w) ∧
  ∃ w, no_fills_round half rt log = Done w.
Proof.
  intros Hd Hpos Hhalf Hrt. split_and!.
  - intros tif. by apply (sweep_fills depth bids asks).
  - by apply (sweep_killed depth bids asks).
  - by apply no_fills_ok.
Qed.

(** Three bids and two asks around a price of [2.30]. *)
Definition small_depth : DepthSnapshot :=
  MkDepthSnapshot
    [(text "2.30400000", text "56.45"); (text "2.303", text "3.01"); (text "2.3", text "100")]
    [(text "2.305", text "1.5"); (text "3", text "7.25")].
Definition level_orders (side : Side) (levels : list (list u8 * list u8)) : list PendingOrder :=
  omap (λ level, match level_order side level with Done po => Some po | Trap => None end) levels.
Definition small_bids : list PendingOrder := level_orders Buy (ds_bids small_depth).
Definition small_asks : list PendingOrder := level_orders Sell (ds_asks small_depth).
Definition idle_runtime : @Runtime principal_bytes :=
  MkRuntime management_canister management_canister (λ _, true) (λ _, mk_uint 64 0) (mk_uint 64 0).

Lemma small_depth_ok : depth_ok small_depth small_bids small_asks.
Proof.
  assert (Hgood : Forall good_order (small_bids ++ small_asks)).
  { repeat constructor; vm_compute; congruence. }
  split.
  - repeat constructor; vm_compute; reflexivity.
  - repeat constructor; vm_compute; reflexivity.
  - apply Forall_forall, Hgood.
  - apply (bool_decide_unpack _). vm_compute. exact I.
  - apply (bool_decide_unpack _). vm_compute. exact I.
  - assert (Hc : Forall (λ bid, Forall (λ ask, po_price bid < po_price ask) small_asks) small_bids)
      by (apply (bool_decide_unpack _); vm_compute; exact I).
    intros bid ask Hb Ha. rewrite Forall_forall in Hc. specialize (Hc bid Hb).
    rewrite Forall_forall in Hc. by apply Hc.
  - done.
  - vm_compute. reflexivity.
  - vm_compute. reflexivity.
Qed.

Lemma benchmark_checks_hold_witness :
  (∃ w, full_bid_sweep small_depth (λ total, Done (sweep_order FillOrKill total)) Filled
    idle_runtime [] = Done w) ∧
  ∃ w, no_fills_round 500 idle_runtime [] = Done w.
Proof.
  destruct (benchmark_checks_hold small_depth small_bids small_asks 500 idle_runtime [])
    as (Hf & _ & Hn); [apply small_depth_ok|lia|lia|done|].
  split; [apply Hf|exact Hn].
Defined.

(** ** The test data *)

(** C37: The generators of test data never panic, whatever the random numbers, and draw what
    they promise: pending orders the test book accepts; lists of orders that all rest in
    one round without a fill; fills at a price the taker accepts, with numbers of their
    own; outputs of a round in which no order has two outcomes; balance operations whose
    fee is positive and part of the amount; halts of one pair or of all; installation
    arguments the state accepts; and events that the log reads back as they were written. *)
Theorem generators_are_valid `{Proptest} `{PrincipalSlice}
    `{!BiBTreeMap TradingPair OrderBookId} `{Minicbor} :
  always (λ po, validate_order test_order_book (po_price po) (po_quantity po) = Done (Ok ()))
    arb_pending_order ∧
  always (λ pos, ∃ out b, rest_all pos = Done (out, b) ∧ mo_fills out = [] ∧
      ob_pending_orders b = [] ∧
      ∀ side, length (side_list b side) = length (filter (λ po, po_side po = side) pos))
    arb_non_matching_orders ∧
  (∀ index : u64, index < 2 ^ 63 → always (fair_fill index) (arb_fill index)) ∧
  always round_output arb_matching_output ∧
  always fee_within arb_balance_operation ∧
  always (λ '(permissions, other, global), is_halted permissions Seq_ZERO = true ∧
    other ≠ Seq_ZERO ∧ is_halted permissions other = global) arb_book_halted_permissions ∧
  always (λ arg, ∃ s, empty_state arg = Done s) arb_init_arg ∧
  always (λ e, check_minicbor_roundtrip c_event e = Done (Ok ())) arb_event.
Proof.
  split_and!.
  - eapply always_weaken; [apply pending_order_aligned|]. intros po Hpo.
    by apply validate_order_ok, aligned_valid.
  - eapply always_weaken; [apply non_matching_spread|]. intros pos [Hlen Hs]. by apply spread_rests.
  - apply fill_fair.
  - apply matching_output_dealt.
  - apply operation_fee_within.
  - apply halted_permissions.
  - eapply always_weaken; [apply init_arg_accepted|]. by intros arg [_ Hs].
  - apply event_round_trips.
Qed.

(** Drawn from the stream 7, 8, 9, ... *)
#[local] Existing Instance Streams.streams.
Definition numbers : Streams.stream := λ n, 7 + Z.of_nat n.
Lemma generators_are_valid_witness :
  (∃ po, sample arb_pending_order numbers = Done po ∧
    validate_order test_order_book (po_price po) (po_quantity po) = Done (Ok ())) ∧
  ∃ f, sample (arb_fill (mk_uint 64 3)) numbers = Done f ∧ fair_fill 3 f.
Proof.
  destruct (generators_are_valid (H0 := principal_bytes)) as (Hp & _ & Hf & _).
  split; [apply Hp|by apply (Hf (mk_uint 64 3))].
Defined.

(** The order it draws: a buy of thirteen lots at nineteen ticks. *)
Example drawn_order :
  sample arb_pending_order numbers =
  Done (MkPendingOrder Buy (mk_uint 128 1900) (from_u64 (mk_uint 64 13000000)) FillOrKill).
Proof. vm_compute. reflexivity. Qed.
