(* ===== verification/SystemTheorems.v ===== *)
(** * Correctness of the running canister

    The theorems about every run of the canister: the messages that are processed
    to their end, custody of the users' tokens, the records of the orders, the log,
    and the timers. The witnesses take a session of messages, ending with two
    orders to match and a withdrawal on its way. *)

From stdpp Require Import prelude gmap.
From Stdlib Require Import ZArith NArith Lia.
From S2P Require Import Prelude Word BTree Bytes Quantity QuantityCodec Ids.
From S2P Require Import Fees OrderTypes Tokens Balance WriteBack BalanceTotals.
From S2P Require Import OrderQueue OrderBook BookInv BookPending BookRound History OrderHistory.
From S2P Require Import UserRegistry Settlement Permissions PairMap Events.
From S2P Require Import State EventAudit Snapshot Replay Accounting StateInv.
From S2P Require Import InvSettle Executor InvExecutor ApiErrors Api Ledger.
From S2P Require Import Endpoints EntryPoints System SystemInv.
From S2P Require Import SystemRun SystemLive Queries Demo.
Open Scope Z_scope.

(** ** A session of messages *)

Section checked_runs.
Context `{PrincipalType} `{!BiBTreeMap TradingPair OrderBookId} `{BigUint}.

(** A sufficient test for [message_ok]. *)
Definition admissible (sys : System) (rt : Runtime) (m : Message) : bool :=
  let s := w_state (sys_world sys) in
  match m with
  | AddLimitOrder _ | CancelLimitOrder _ | AddTradingAccount _ | RemoveTradingAccount _
  | Deposit _ | Withdraw _ =>
      match assert_caller_is_allowed s rt with Done _ => true | Trap => false end
  | DepositReply i _ =>
      match sys_calls sys !! i with
      | Some (AwaitDeposit _ pf _ _) =>
          custody (pf_token pf) sys + qval (pf_amount pf) <=? MAX_SUPPLY
      | _ => true
      end
  | HaltTrading None | ResumeTrading None => true
  | AddTradingPair _ | TimerFires | IntervalFires => true
  | Upgrade None => true
  | _ => false
  end.

Lemma admissible_ok sys rt m : admissible sys rt m = true → message_ok sys rt m.
Proof.
  destruct m as [| | | | |i reply| | | |[]|[]| | |[]]; simpl; try done;
    try (destruct (assert_caller_is_allowed _ _) as [[]|]; done).
  intros Hc request pf call self block E _. rewrite E in Hc. by apply Z.leb_le in Hc.
Qed.

Fixpoint checked_run (ms : list (Runtime * Message)) (sys : System) : option System :=
  match ms with
  | [] => Some sys
  | (rt, m) :: ms =>
      if admissible sys rt m then
        match deliver rt sys m with Done sys => checked_run ms sys | Trap => None end
      else None
  end.

Lemma checked_reached ms : ∀ (k : nat) sys sys',
  reached k sys → checked_run ms sys = Some sys' → reached (length ms + k) sys'.
Proof.
  induction ms as [|[rt m] ms IH]; intros k sys sys' Hr; cbn [checked_run length].
  - by intros [= <-].
  - destruct (admissible _ _ _) eqn:Ea; [|done]. destruct (deliver _ _ _) as [sys1|] eqn:Ed; [|done].
    intros E. replace (S (length ms) + k)%nat with (length ms + S k)%nat by lia.
    eapply IH; [|done]. eapply reached_message; [done|by apply admissible_ok|done].
Qed.
End checked_runs.

Definition blank_system : System :=
  MkSystem (MkWorld (MkState GeneralAvailability
    (MkExecutionPolicy (NonZero (mk_uint 32 10) eq_refl) (NonZero (mk_uint 64 1000) eq_refl)
       (NonZero (mk_uint 32 2) eq_refl))
    Seq_ZERO ∅ pairs_default ∅ registry_new (MkTokenBalance ∅ fee_pool_default) history_new
    history_new ∅ [] ∅ ∅ permissions_default) []) [] 0 [].
Definition installed : System :=
  match install demo_init (rt admin 0) with Done sys => sys | Trap => blank_system end.

Definition session : list (Runtime * Message) :=
  [(rt admin 1, AddTradingPair demo_request);
   (rt alice 2, Deposit (MkDepositRequest (api_token_id base_token) 1000));
   (rt bob 2, Deposit (MkDepositRequest (api_token_id quote_token) 100000));
   (rt bob 3, DepositReply 1 (Replied (Ok 8%N)));
   (rt alice 3, DepositReply 0 (Replied (Ok 7%N)));
   (rt alice 4, AddLimitOrder (order Sell 200 300 GoodTilCanceled));
   (rt alice 5, AddLimitOrder (order Sell 210 300 GoodTilCanceled));
   (rt bob 6, AddLimitOrder (order Buy 220 400 GoodTilCanceled));
   (rt bob 7, Withdraw (MkWithdrawRequest (api_token_id quote_token) 500))].
Definition session_end : System := default blank_system (checked_run session installed).

Lemma session_reached : reached 9 session_end.
Proof.
  assert (Hi : bool_decide (is_Some (checked_run session installed)) = true → reached 9 session_end).
  { intros [sys E]%bool_decide_eq_true_1. unfold session_end. rewrite E.
    apply (checked_reached session 0 installed); [|done].
    apply (reached_install demo_init (rt admin 0)). reflexivity. }
  apply Hi. vm_compute. reflexivity.
Qed.

(** ** Messages *)

(** C1: The canister never gets stuck: after any run of messages, the next one that
    the environment may send (from a caller the mode admits, a ledger reply within
    the supply, an administrator naming listed pairs) is processed to its end. No
    handler, settlement, timer or upgrade panics, and the run goes on from there. *)
Theorem canister_never_traps `{PrincipalType} `{!BiBTreeMap TradingPair OrderBookId} `{BigUint}
    (k : nat) (sys : System) (rt : Runtime) (m : Message) :
  reached k sys → Z.of_nat k + 1 < MAX_STEPS → message_ok sys rt m →
  ∃ sys', deliver rt sys m = Done sys' ∧ reached (S k) sys'.
Proof.
  intros Hr Hk Hm. destruct (deliver_steps (Z.of_nat k) sys rt m) as (sys' & E & _);
    [apply reached_inv; [done|lia]|lia|done|].
  exists sys'. split; [done|]. by eapply reached_message.
Qed.

Definition accepting : LedgerReplies := λ _ _, Replied (Ok 12%N).

Lemma canister_never_traps_witness :
  ∃ sys', deliver (rt bob 8) session_end (WithdrawReply 0 accepting) = Done sys' ∧ reached 10 sys'.
Proof.
  apply (canister_never_traps 9 session_end (rt bob 8) (WithdrawReply 0 accepting)).
  - exact session_reached.
  - reflexivity.
  - intros i call block [= <-]. by eexists.
Defined.

(** ** Custody *)



(** ** Orders *)

(** C8: Records and books agree after any run: the record of an order has a
    registered owner and names a listed book; a pending order waits there, an open
    one rests there, a finished one is gone; what is filled and what is still open
    add up to the quantity of the order, unless it was canceled or expired. And
    every order on a book has a record with its side and price. *)
Theorem orders_agree_with_books `{PrincipalType} `{!BiBTreeMap TradingPair OrderBookId} `{BigUint}
    (k : nat) (sys : System) :
  reached k sys → Z.of_nat k < MAX_STEPS →
  let s := w_state (sys_world sys) in
  (∀ id r, history_get (st_order_history s) id = Some r →
     is_Some (users (st_user_registry s) !! or_owner r) ∧
     ∃ b, st_order_books s !! book_id id = Some b ∧
       status_ok b (order_seq id) (or_status r) ∧
       qval (or_filled_quantity r) + open_qty b (order_seq id) ≤ qval (or_quantity r) ∧
       (or_status r ≠ Canceled → or_status r ≠ Expired →
        qval (or_filled_quantity r) + open_qty b (order_seq id) = qval (or_quantity r))) ∧
  ∀ bid b seq side p, st_order_books s !! bid = Some b → has_terms b seq side p →
    ∃ r, history_get (st_order_history s) (MkCompositeId bid seq) = Some r ∧
      or_side r = side ∧ or_price r = p.
Proof.
  intros Hr Hk s. destruct (reached_inv k sys Hr Hk) as [Hw _ _ _ _ _ _ _ _ _].
  unfold world_inv in Hw. fold s in Hw. split; [|apply Hw].
  intros id r Hid. destruct (co_order _ _ _ Hw id r Hid) as (b & tp & sc & Hl & Ho).
  split; [apply Ho|]. exists b. split_and!; [apply Hl|apply Ho..].
Qed.

Definition bob_order : OrderId := MkCompositeId Seq_ZERO (seq_lit 2).

Lemma orders_agree_with_books_witness :
  ∃ r b, history_get (st_order_history (w_state (sys_world session_end))) bob_order = Some r ∧
    st_order_books (w_state (sys_world session_end)) !! Seq_ZERO = Some b ∧
    status_ok b (seq_lit 2) (or_status r).
Proof.
  assert (Hs : is_Some (history_get (st_order_history (w_state (sys_world session_end))) bob_order))
    by (apply (bool_decide_eq_true_1 (is_Some (history_get _ bob_order))); vm_compute; reflexivity).
  destruct Hs as [r Er]. destruct (orders_agree_with_books 9 session_end session_reached)
    as [Ho _]; [reflexivity|].
  destruct (Ho bob_order r Er) as (_ & b & Eb & Hst & _). exists r, b. split_and!; assumption.
Defined.

(** ** The log *)



(** ** Timers *)

(** C9: The armed timers run out: with instructions to spare in each of their
    messages, no more of them fire than there are timers and matchable orders, and
    when the last one has fired no order on a book that is not halted waits to be
    matched and no settlement is outstanding. *)
Theorem timers_terminate `{PrincipalType} `{!BiBTreeMap TradingPair OrderBookId} `{BigUint}
    (k : nat) (sys : System) (rts : nat → Runtime) :
  reached k sys → Z.of_nat k < MAX_STEPS → (0 < sys_timers sys)%nat →
  (∀ i, ample (rts i) (w_state (sys_world sys))) →
  ∃ (fired : nat) sys', fire fired rts sys = Done sys' ∧
    Z.of_nat fired ≤ Z.of_nat (sys_timers sys) + matchable (w_state (sys_world sys)) ∧
    sys_timers sys' = 0%nat ∧ idle (w_state (sys_world sys')).
Proof.
  intros Hr Hk Ht Ha. pose proof (matchable_nonneg (w_state (sys_world sys))).
  destruct (timers_run_out
    (Z.to_nat (Z.of_nat (sys_timers sys) + matchable (w_state (sys_world sys)))) (Z.of_nat k) sys rts)
    as (f & sys' & Hf & E & _ & Ht' & Hi); [by apply reached_inv|done|done|done|lia|].
  exists f, sys'. split_and!; [done|lia|done|done].
Qed.

Definition patient (i : nat) : Runtime :=
  MkRuntime admin 1%N (λ p, (p =? admin)%N) (λ _, mk_uint 64 0) (mk_uint 64 (9 + Z.of_nat i)).

Lemma timers_terminate_witness :
  ∃ (fired : nat) sys', fire fired patient session_end = Done sys' ∧
    Z.of_nat fired ≤ Z.of_nat (sys_timers session_end) +
      matchable (w_state (sys_world session_end)) ∧
    sys_timers sys' = 0%nat ∧ idle (w_state (sys_world sys')).
Proof.
  apply (timers_terminate 9 session_end patient session_reached).
  - reflexivity.
  - apply Nat.ltb_lt. vm_compute. reflexivity.
  - intros i j. apply Z.ltb_lt. vm_compute. reflexivity.
Defined.

(** C10: No wake-up is lost: a system with no timer armed has nothing to do, and
    every message but an upgrade, which drops the timers, keeps it so; the periodic
    timer establishes it, also after an upgrade. So an order that can be matched
    never waits for longer than the next armed or periodic timer. *)
Theorem no_lost_wake_up `{PrincipalType} `{!BiBTreeMap TradingPair OrderBookId} `{BigUint}
    (k : nat) (sys sys' : System) (rt : Runtime) (m : Message) :
  reached k sys → Z.of_nat k < MAX_STEPS → (∀ arg, m ≠ Upgrade arg) →
  deliver rt sys m = Done sys' → m = IntervalFires ∨ wakeful sys → wakeful sys'.
Proof.
  intros Hr Hk Hm E [->|Hw].
  - cbn [deliver] in E. apply bind_Done in E as ([more w'] & E & [= <-]).
    by eapply wakeful_driven; [apply (reached_inv k sys Hr)|..].
  - by eapply deliver_wakeful; [apply (reached_inv k sys Hr)|..].
Qed.

Definition driven : System :=
  match deliver (rt admin 8) session_end IntervalFires with Done sys => sys | Trap => blank_system end.

Lemma no_lost_wake_up_witness : wakeful driven.
Proof.
  apply (no_lost_wake_up 9 session_end driven (rt admin 8) IntervalFires session_reached).
  - reflexivity.
  - discriminate.
  - assert (Hd : match deliver (rt admin 8) session_end IntervalFires with
                 | Done _ => true | Trap => false end = true →
                 deliver (rt admin 8) session_end IntervalFires = Done driven)
      by (unfold driven; by destruct (deliver _ _ _)).
    apply Hd. vm_compute. reflexivity.
  - left. reflexivity.
Defined.
