(* ===== verification/ViewTheorems.v ===== *)
(** * Correctness of the views

    The published event log, and the queries and pages: on every state the canister
    reaches they answer, but for an event index beyond the address space. The witnesses use simple instances of the crates the views
    call. *)

From Stdlib Require Import String.
From stdpp Require Import prelude gmap.
From Stdlib Require Import ZArith NArith Lia SpecFloat.
From S2P Require Import Prelude Word BTree Text Bytes Quantity QuantityCodec Ids.
From S2P Require Import Fees OrderTypes Tokens Balance WriteBack OrderBook History.
From S2P Require Import OrderHistory UserRegistry Settlement Permissions PairMap.
From S2P Require Import Events State EventAudit StateInv InvSettle InvExecutor Executor.
From S2P Require Import ApiErrors Api Ledger Endpoints EntryPoints System SystemInv.
From S2P Require Import SystemRun SystemLive Queries Client EventView Dashboard Metrics.
From S2P Require Import Http Views Flows Exit Demo SystemTheorems.
Open Scope Z_scope.

(** ** The event log *)




(** ** The queries *)

(** C17: After any run, the queries with a panicking step answer, with one exception. The
    pairs, the fee balances, the HTTP routes with the dashboard and the metrics find the
    book and the metadata of every listed pair and of every token in the fee pool, each
    page of a user's orders and trades finds its records, and no bar of the dashboard
    divides by zero. [get_events] answers, with the requested slice of the log, at most
    2000 events of it, and the length of the log, exactly when the start fits the 32-bit
    address space, and panics otherwise, whatever the log. The other queries (trading
    accounts, ticker, depth, a user's balances, supported tokens) have no step that can
    panic: they are functions into plain results. *)
Theorem queries_answer `{PrincipalType} `{!BiBTreeMap TradingPair OrderBookId} `{BigUint}
    `{!Display} `{Canlog} `{!MetricsEncoder}
    (render : DashboardTemplate → result (list u8) (list u8)) (encoder_new : Z → encoder)
    (into_inner : encoder → list u8) (error_to_string : io_error → list u8)
    (powi : f64 → Z → f64) (k : nat) (sys : System) :
  reached k sys → Z.of_nat k < MAX_STEPS →
  let s := w_state (sys_world sys) in
  (∃ pairs, get_trading_pairs s = Done pairs) ∧
  (∀ filter, ∃ r, get_fee_balances s filter = Done r) ∧
  (∀ args caller, ∃ r, main_get_my_orders s args caller = Done r) ∧
  (∀ args caller, ∃ r, main_get_my_trades s args caller = Done r) ∧
  (∀ args, get_events (w_log (sys_world sys)) args =
    if ga_start args <? 2 ^ 32 then
      Done (MkGetEventsResult
        (map_event <$> take (Z.to_nat (Z.min (ga_length args) 2000))
          (drop (Z.to_nat (ga_start args)) (w_log (sys_world sys))))
        (log_event_count (w_log (sys_world sys))))
    else Trap) ∧
  ∀ request buffers rt platform, ∃ response,
    http_request render encoder_new into_inner error_to_string powi (sys_world sys) request buffers
      rt platform = Done response.
Proof.
  intros Hr Hk s. pose proof (reached_ready k sys Hr Hk) as Hv.
  pose proof (si_world _ _ (reached_inv k sys Hr Hk)) as Hc. unfold world_inv in Hc. fold s in Hv, Hc.
  split_and!.
  - destruct (get_trading_pairs_total s Hv) as (out & E & _). by exists out.
  - intros filter. by apply get_fee_balances_total.
  - intros args caller. by eapply get_my_orders_total.
  - intros args caller. by eapply get_my_trades_total.
  - intros args. destruct (Z.ltb_spec (ga_start args) (2 ^ 32));
      [by apply get_events_spec|by apply get_events_huge_start].
  - intros request buffers rt platform. unfold http_request, dashboard_response, metrics_response.
    fold s. repeat case_bool_decide; try by eexists.
    + match goal with |- context [dashboard_from_state ?a ?b ?c] =>
        destruct (dashboard_total a b c Hv) as [d ->] end. by eexists.
    + match goal with |- context [encode_metrics ?a ?b ?c ?d ?e] =>
        destruct (encode_metrics_total a d b c e Hv) as [r ->] end. by eexists.
Qed.

(** Decimal digits, most significant first. *)
Fixpoint decimal_digits (fuel : nat) (z : Z) : list u8 :=
  match fuel with
  | O => []
  | S fuel =>
      (if z <? 10 then [] else decimal_digits fuel (z / 10)) ++ [mk_uint 8 (48 + z mod 10)]
  end.

Lemma decimal_digits_spec fuel : ∀ z, 0 ≤ z < 10 ^ Z.of_nat fuel →
  forallb is_digit (decimal_digits fuel z) = true ∧ decimal_val (decimal_digits fuel z) = z.
Proof.
  induction fuel as [|fuel IH]; intros z Hz; cbn [decimal_digits].
  { split; [done|]. change (10 ^ Z.of_nat 0) with 1 in Hz. change (decimal_val []) with 0. lia. }
  assert (Hr : 0 ≤ z mod 10 < 10) by (apply Z.mod_pos_bound; lia).
  assert (Hv : uval (mk_uint 8 (48 + z mod 10)) = 48 + z mod 10) by (apply mk_uint_small; simpl; lia).
  rewrite Nat2Z.inj_succ, Z.pow_succ_r in Hz by lia.
  assert (H10 : forallb is_digit (if z <? 10 then [] else decimal_digits fuel (z / 10)) = true ∧
    decimal_val (if z <? 10 then [] else decimal_digits fuel (z / 10)) = z / 10).
  { destruct (Z.ltb_spec z 10).
    - split; [done|]. change (decimal_val []) with 0. rewrite Z.div_small; lia.
    - apply IH. split; [apply Z.div_pos; lia|apply Z.div_lt_upper_bound; lia]. }
  destruct H10 as [Hd Hn]. rewrite forallb_app, Hd, decimal_val_app, Hn. cbn [forallb length]. unfold is_digit, decimal_val.
  cbn [decimal_from]. rewrite Hv. split.
  - rewrite andb_true_r. cbn [andb]. apply andb_true_intro. split; apply Z.leb_le; lia.
  - pose proof (Z.div_mod z 10). change (10 ^ Z.of_nat 1) with 10. lia.
Qed.

Definition digits_of (n : N) : list u8 := decimal_digits (S (Z.to_nat (Z.log2 (Z.of_N n)))) (Z.of_N n).

Lemma digits_of_fuel n : 0 ≤ Z.of_N n < 10 ^ Z.of_nat (S (Z.to_nat (Z.log2 (Z.of_N n)))).
Proof.
  split; [lia|]. pose proof (Z.log2_nonneg (Z.of_N n)).
  rewrite Nat2Z.inj_succ, Z2Nat.id by done.
  destruct (decide (n = 0%N)) as [->|Hn]; [done|].
  pose proof (Z.log2_spec (Z.of_N n) ltac:(lia)) as [_ Hl]. eapply Z.lt_le_trans; [exact Hl|].
  apply Z.pow_le_mono_l. split; [lia|lia].
Qed.

#[export] Instance display_N : Display.
Proof.
  refine {| biguint_to_string := digits_of; nat_to_string := digits_of;
            principal_to_string := digits_of |}.
  - intros n. by apply decimal_digits_spec, digits_of_fuel.
  - intros n. by apply decimal_digits_spec, digits_of_fuel.
Defined.

(** A log of timestamps, and an encoder that counts. *)
#[export] Instance canlog_times : Canlog :=
  {| log_entry := u64; le_timestamp e := e; sort_from_str _ := None; sort_logs _ l := l;
     serialize_logs l _ := [] |}.
#[export] Instance counting_encoder : MetricsEncoder :=
  {| encoder := nat; io_error := Empty_set; encode_gauge w _ _ _ := Ok (S w);
     encode_counter w _ _ _ := Ok (S w); gauge_vec w _ _ := Ok (S w); gauge_value w _ _ := Ok (S w) |}.

Definition count_from (_ : Z) : encoder (MetricsEncoder := counting_encoder) := 0%nat.
Definition no_bytes (_ : encoder (MetricsEncoder := counting_encoder)) : list u8 := [].
Definition no_error (_ : io_error (MetricsEncoder := counting_encoder)) : list u8 := [].

Definition page (path : string) : HttpRequest := MkHttpRequest (text path) (λ _, None).

Lemma queries_answer_witness :
  get_events (w_log (sys_world session_end)) (MkGetEventsArgs (mk_uint 64 (2 ^ 32)) (mk_uint 64 1)) =
    Trap ∧
  ∃ response, http_request (λ _, Ok []) count_from no_bytes no_error (λ x _, x) (sys_world session_end) (page "/dashboard"%string) (λ _, []) (rt admin 9)
    (MkPlatform (mk_uint 128 1) (mk_uint 64 1) (mk_uint 32 1)) = Done response.
Proof.
  destruct (queries_answer (λ _, Ok []) count_from no_bytes no_error (λ x _, x)
    9 session_end session_reached) as (_ & _ & _ & _ & E & Hh); [reflexivity|].
  split; [rewrite E; reflexivity|apply Hh].
Defined.

(** The metrics of the session: five families of the canister, one sample each of its
    pair's pending and resting orders, four families of the books and one of the fees. *)
Example session_metrics :
  encode_metrics (λ x _, x) (count_from 0) (MkPlatform (mk_uint 128 1) (mk_uint 64 1) (mk_uint 32 1))
    (w_state (sys_world session_end)) (mk_uint 64 6) = Done (Ok 12%nat).
Proof. vm_compute. reflexivity. Qed.

(** The sum that defines the constant rounds to the power itself. *)
Example two_pow_128 : TWO_POW_128 = S754_finite false (2 ^ 52) 76.
Proof. vm_compute. reflexivity. Qed.

(** A price of 1234500 at six decimals reads [1.2345]. *)
Example session_amount :
  decimal_value (amount_new 1234500 (mk_uint 8 6)) = text "1.2345".
Proof. vm_compute. reflexivity. Qed.

(** ** The client library *)

(** C18: The client library is the canister: over either runtime, a call of the client is
    the exported entry point it names, with its argument decoded as it was sent, and
    its result decoded as it was returned; the canister processes exactly the
    messages of that call. The runtimes report a call the canister rejects with its code
    and message unchanged, and one that was not sent with the platform's code, unknown
    if it gives none; the client panics on a call that is not delivered or whose reply
    is lost. *)
Theorem client_matches_canister `{PrincipalType} `{!BiBTreeMap TradingPair OrderBookId} `{BigUint}
    `{!Candid} `{!Client.Platform} {t : ty} (c : ClientCall t) (env : Env) (who : Principal) (sys : System) :
  client_run c (new_for_ic env Delivered (self_id env)) sys = finish (canister_run c env sys) ∧
  client_run c (client_new (pocket_ic_runtime env who) (self_id env)) sys =
    finish (canister_run c (set_caller who env) sys) ∧
  (awaiting c env sys → (canister_run c env sys).2 = deliver_all (messages c env sys) sys) ∧
  (∀ tin tout id method args cycles e sys',
    (serve env id method (encode_args tin args) sys = (Err e, sys') →
     rt_call (ic_runtime env Delivered) tin tout id method args cycles sys = (Err e, sys')) ∧
    (serve (set_caller who env) id method (encode_args tin args) sys = (Err e, sys') →
     rt_call (pocket_ic_runtime env who) tin tout id method args cycles sys = (Err e, sys'))) ∧
  (∀ tin tout id method args cycles code message,
    rt_call (ic_runtime env (NotSent (FailedRejected (MkCallRejected code message))))
      tin tout id method args cycles sys = (Err (default SysUnknown code, message), sys)) ∧
  ∀ fate, fate ≠ Delivered → client_run c (new_for_ic env fate (self_id env)) sys = Trap.
Proof.
  split_and!.
  - apply client_run_eq, _.
  - apply (client_run_eq c (pocket_ic_runtime env who) (set_caller who env)), _.
  - apply canister_run_messages.
  - intros tin tout id method args cycles e sys'. split; [apply ic_reject|apply pocket_ic_reject].
  - done.
  - intros fate. apply client_run_lost.
Qed.

#[local] Existing Instances TypedCandid.candid TypedCandid.platform.

Definition bob_env : Env :=
  MkEnv (rt bob 8) [] (CallFails []) (λ _ _, CallFails []) (rt bob 9).
Definition bob_cancels : ClientCall (TResult TOrderRecord TCancelLimitOrderError) :=
  CCancelLimitOrder (to_string bob_order).

Lemma client_matches_canister_witness :
  client_run bob_cancels (new_for_ic bob_env Delivered (self_id bob_env)) session_end =
    finish (canister_run bob_cancels bob_env session_end) ∧
  (canister_run bob_cancels bob_env session_end).2 =
    deliver_all [(rt bob 8, CancelLimitOrder (to_string bob_order))] session_end.
Proof.
  destruct (client_matches_canister bob_cancels bob_env bob session_end) as (E & _ & Hm & _).
  split; [exact E|]. apply Hm. exact I.
Defined.



(** ** Funding an account from end to end *)

(** C20: Funding an account works from end to end: against any state the canister
    reaches, with any ledger that keeps to the standards, minting, approving and
    depositing [amount] for a user who may deposit succeeds (the sums fit in [u64]) and
    passes the checks of the flow; the ledger has moved the amount to the canister's
    account, the user's free balance rose by it, the reserved one did not change, and
    no other token changed hands. *)
Theorem funding_flow_succeeds `{PrincipalType} `{!BiBTreeMap TradingPair OrderBookId} `{BigUint}
    `{!Candid} `{!Client.Platform} `{!IcrcLedger} (k : nat) (te : TestEnv) (setup : Setup)
    (who ledger : Principal) (fee amount : u64) (l : Ledger) :
  let canister := rt_canister_self (te_rt te) in
  let t := MkTokenId ledger in
  te_ledgers te !! ledger = Some l → l_fee l = Z.to_N fee → l_minter l = su_controller setup →
  su_oisy_trade_id setup = canister → NoDup [who; canister; su_controller setup] →
  amount + 2 * fee < 2 ^ 64 →
  reached k (te_sys te) → Z.of_nat k + 2 < MAX_STEPS →
  may_deposit (st (te_sys te)) (env_rt (set_caller who (te_env te (CallFails [])))) t →
  custody t (te_sys te) + amount ≤ MAX_SUPPLY →
  ∃ sys' l', fund_token setup ledger fee who amount te =
      Done (MkTestEnv sys' (<[ledger := l']> (te_ledgers te)) (te_rt te)) ∧
    reached (k + 2) sys' ∧
    l_balance l' canister = (l_balance l canister + Z.to_N amount)%N ∧
    reserved (get_balance (st sys') who t) = reserved (get_balance (st (te_sys te)) who t) ∧
    qval (free (get_balance (st sys') who t)) =
      qval (free (get_balance (st (te_sys te)) who t)) + amount ∧
    ∀ t', custody t' sys' = custody t' (te_sys te) + (if decide (t = t') then uval amount else 0).
Proof.
  intros canister t Hl Hfee Hmint Hid Hnd Hfit Hr Hk Hmay Hsup.
  destruct (fund_ok k te setup who ledger fee amount l Hl Hfee Hmint Hid Hnd Hfit Hr Hk Hmay Hsup)
    as (sys' & l' & E & Hr' & Hb & [_ Hres Hfree Hcus]).
  assert (Z.of_N (Z.to_N amount) = amount) as Ha by (apply Z2N.id, uint_range). rewrite Ha in Hfree.
  exists sys', l'. split_and!; [exact E|exact Hr'|exact Hb|exact Hres|exact Hfree|]. intros t'.
  by rewrite Hcus, Ha.
Qed.

#[local] Existing Instance MapLedger.ledger.

Definition demo_pocket : Pocket :=
  MkPocket 99%N admin 1%N 201%N 202%N (λ n, mk_uint 64 (Z.of_nat n)) (mk_uint 64 7).

Lemma funding_flow_succeeds_witness :
  ∃ te sys' l', fund_base (default_setup demo_pocket) alice (mk_uint 64 1000) te =
      Done (MkTestEnv sys' l' (te_rt te)) ∧ reached 3 sys' ∧
    qval (free (get_balance (st sys') alice base_token)) = 1000.
Proof.
  destruct (setup_ready demo_pocket) as (te0 & te & _ & _ & Hready); [done|].
  pose proof (rd_rt _ _ Hready) as Hrt. pose proof (rd_empty _ _ Hready alice base_token) as Hz.
  destruct (funding_flow_succeeds 1 te (default_setup demo_pocket) alice 201%N BASE_LEDGER_FEE
    (mk_uint 64 1000) (test_ledger demo_pocket cksol)) as (sys' & l' & E & Hr & _ & _ & Hfree & _).
  - exact (rd_base _ _ Hready).
  - reflexivity.
  - reflexivity.
  - by rewrite Hrt.
  - rewrite Hrt. apply (bool_decide_eq_true_1 (NoDup [alice; 1%N; admin])). reflexivity.
  - reflexivity.
  - exact (rd_reached _ _ Hready).
  - reflexivity.
  - apply (rd_deposit _ _ Hready). left.
  - rewrite (rd_custody _ _ Hready). by vm_compute.
  - exists te, sys'. eexists. split_and!; [exact E|exact Hr|].
    etrans; [exact Hfree|]. etrans; [exact (f_equal (λ b, qval (free b) + 1000) Hz)|]. reflexivity.
Defined.

(** The whole flow of the fee tests, from an empty canister to the fill: the fees the
    canister reports are those the test expects. *)
Example session_fee_fill :
  match fill_one_cross_with_fees demo_pocket alice bob [TimerFires] with
  | Done (outcome, (_, te)) =>
      get_fee_balances (st (te_sys te)) None =
        Done (Ok [MkUserTokenBalance (ff_base outcome) (MkApiBalance (Z.to_N (ff_base_fee_raw outcome)) 0);
                  MkUserTokenBalance (ff_quote outcome) (MkApiBalance (Z.to_N (ff_quote_fee_raw outcome)) 0)])
  | Trap => False
  end.
Proof. vm_compute. reflexivity. Qed.

(** ** Leaving the exchange *)

(** C3: Nobody is locked in: from any state the canister reaches, with instructions to
    spare, the periodic timer settles all that is outstanding; canceling then each open
    order of an admitted user leaves none open and none of the user's money reserved,
    in any token: what was reserved is free. Any part of the free balance can then be
    withdrawn: when the ledger accepts the transfer the call answers with its block, the
    free balance and the canister's account at that ledger fall by exactly the amount,
    and no other account of the canister changes. *)
Theorem user_can_exit `{PrincipalType} `{!BiBTreeMap TradingPair OrderBookId} `{BigUint}
    (k : nat) (sys : System) (timer : Runtime) (env : Env) (tok : ApiTokenId) (block : N) :
  let rt := env_rt env in
  let who := rt_msg_caller rt in
  let t := token_from tok in
  reached k sys → 2 * Z.of_nat k + 6 < MAX_STEPS → ample timer (st sys) →
  may_deposit (st sys) rt t →
  env_between env = [] → (∀ call, env_ledger env 0%nat call = Replied (Ok block)) →
  replies_fit (env_ledger env) →
  ∃ settled, deliver timer sys IntervalFires = Done settled ∧
    let ids := open_orders (st settled) who in
    let out := deliver_all (cancels rt ids) settled in
    reached (k + 1 + length ids) out ∧ open_orders (st out) who = [] ∧
    (∀ t', qval (reserved (get_balance (st out) who t')) = 0 ∧
      qval (free (get_balance (st out) who t')) =
        qval (free (get_balance (st settled) who t')) + qval (reserved (get_balance (st settled) who t'))) ∧
    ∀ amount, (0 < amount)%N → Z.of_N amount ≤ qval (free (get_balance (st out) who t)) →
    ∃ paid, finish (withdraw_call_answer env out (MkWithdrawRequest tok amount)) =
        Done (Ok (MkWithdrawResponse block), paid) ∧
      reached (k + 3 + length ids) paid ∧
      reserved (get_balance (st paid) who t) = reserved (get_balance (st out) who t) ∧
      qval (free (get_balance (st paid) who t)) =
        qval (free (get_balance (st out) who t)) - Z.of_N amount ∧
      ∀ t', custody t' paid = custody t' out - (if decide (t = t') then Z.of_N amount else 0).
Proof.
  intros rt who t Hr Hk Ha Hmay Hb Hl Hfit.
  destruct (interval_drains k sys timer Hr ltac:(lia) Ha)
    as (settled & E & Hr1 & Hq & Ereg & Emode & Eops & Etok).
  exists settled. split; [done|]. intros ids out.
  destruct (cancel_all_frees (S k) settled rt t Hr1 ltac:(lia) Hq) as (Hr2 & Hmay2 & Hopen & Hfree);
    [by eapply may_deposit_kept|]. fold who ids out in Hr2, Hmay2, Hopen, Hfree.
  pose proof (open_orders_bound (S k) settled who Hr1 ltac:(lia)) as Hlen. fold ids in Hlen.
  replace (k + 1 + length ids)%nat with (S k + length ids)%nat by lia.
  replace (k + 3 + length ids)%nat with (S k + length ids + 2)%nat by lia.
  split; [done|]. split; [done|]. split; [done|]. intros amount Hpos Hle.
  apply withdraw_call_ok; try done. lia.
Qed.

Definition alice_env : Env :=
  MkEnv (rt alice 9) [] (CallFails []) accepting (rt alice 10).

Lemma user_can_exit_witness :
  ∃ settled, deliver (patient 0) session_end IntervalFires = Done settled ∧
    ∀ t', qval (reserved (get_balance
      (st (deliver_all (cancels (rt alice 9) (open_orders (st settled) alice)) settled)) alice t')) = 0.
Proof.
  destruct (user_can_exit 9 session_end (patient 0) alice_env (api_token_id base_token) 12%N)
    as (settled & E & _ & _ & Hz & _).
  - exact session_reached.
  - reflexivity.
  - intros j. apply Z.ltb_lt. vm_compute. reflexivity.
  - split.
    + vm_compute. reflexivity.
    + apply (bool_decide_eq_true_1 (is_Some _)). vm_compute. reflexivity.
    + vm_compute. reflexivity.
    + apply (bool_decide_eq_true_1 ((alice, base_token) ∉ st_in_flight_user_ops (st session_end))).
      vm_compute. reflexivity.
  - reflexivity.
  - intros call. reflexivity.
  - intros i call block [= <-]. by eexists.
  - exists settled. split; [exact E|]. intros t'. apply Hz.
Defined.

(** Alice ends with her whole balance outside: nothing is left on the exchange. *)
Definition alice_out : System :=
  let settled := deliver_or session_end (patient 0, IntervalFires) in
  deliver_all (cancels (rt alice 9) (open_orders (st settled) alice)) settled.

Example session_exit :
  length (open_orders (st session_end) alice) = 2%nat ∧
  let free_of sys t := qval (free (get_balance (st sys) alice t)) in
  free_of session_end base_token = 400 ∧ free_of alice_out base_token = 600 ∧
  match finish (withdraw_call_answer alice_env alice_out
    (MkWithdrawRequest (api_token_id base_token) 600)) with
  | Done (Ok r, paid) => r = MkWithdrawResponse 12 ∧ free_of paid base_token = 0
  | _ => False
  end.
Proof. vm_compute. done. Qed.
